(** * CurvePlot: a shallow embedding of [src/celengine/curveplot.cpp]

    The development follows the source file from top to bottom: the linear
    algebra the code borrows from Eigen, [HighPrec_Frustum],
    [cubicHermiteCoefficients], [HighPrec_VertexBuffer],
    [HighPrec_RenderContext] and finally [CurvePlot] with its sample store
    and its three render entry points.

    Numbers.  The C++ [double] and [float] values are idealised as real
    numbers ([R]): every arithmetic operation is exact, there is neither
    rounding nor NaN nor infinity, and the casts between [double] and [float]
    are the identity.  The last part of the file, [Binary64], embeds the
    functions whose behaviour this reading changes with IEEE 754 binary64
    arithmetic and shows the difference on concrete inputs: the bounding
    radius that [addSample] stores is rounded, the dot product of
    [cullSphere] is rounded, the product
    [m_subdivisionThreshold * minDistance] of [renderCubic] underflows, and
    [renderFaded] divides by zero when its two fade times are equal.  A
    statement that rests on exact arithmetic is marked "over the reals".

    The [unsigned int] cursors of the vertex buffer are natural numbers;
    their values never leave [0 .. 2 * (capacity + 1)], so the 32-bit
    wrap-around of the source is never reached (the one subtraction of the
    source, in [end], is discussed where it is modelled).

    Effects.  The vertex buffer is a record that is threaded through every
    operation; the OpenGL calls that upload or draw are appended to a log
    carried by that record. *)

From Corelib Require Import PrimFloat.
From Stdlib Require Import ZArith Reals Lra Lia List Bool Arith PeanoNat.
From Corelib Require FloatOps SpecFloat.
From Stdlib Require Uint63.
Import ListNotations.

Local Open Scope R_scope.

(* ================================================================== *)
(** ** Comparisons on [double] as boolean tests *)

Definition dgt (a b : R) : bool := if Rgt_dec a b then true else false.
Definition dlt (a b : R) : bool := if Rlt_dec a b then true else false.
Definition dge (a b : R) : bool := if Rge_dec a b then true else false.
Definition dle (a b : R) : bool := if Rle_dec a b then true else false.

(** [std::clamp(v, lo, hi)]: [(v < lo) ? lo : (hi < v) ? hi : v]. *)
Definition clamp (v lo hi : R) : R :=
  if dlt v lo then lo else if dlt hi v then hi else v.

(** [std::max(a, b)]: [(a < b) ? b : a]. *)
Definition dmax (a b : R) : R := if dlt a b then b else a.

(* ================================================================== *)
(** ** The Eigen vectors and matrices the code uses *)

Record Vector3d : Type := V3 { x3 : R; y3 : R; z3 : R }.
Record Vector4d : Type := V4 { x4 : R; y4 : R; z4 : R; w4 : R }.

(** A [Matrix4d], stored by columns as the code fills it ([coeff.col(k)]). *)
Record Matrix4d : Type :=
  M4 { col0 : Vector4d; col1 : Vector4d; col2 : Vector4d; col3 : Vector4d }.

Definition dot3 (a b : Vector3d) : R :=
  x3 a * x3 b + y3 a * y3 b + z3 a * z3 b.
Definition dot4 (a b : Vector4d) : R :=
  x4 a * x4 b + y4 a * y4 b + z4 a * z4 b + w4 a * w4 b.

Definition add4 (a b : Vector4d) : Vector4d :=
  V4 (x4 a + x4 b) (y4 a + y4 b) (z4 a + z4 b) (w4 a + w4 b).
Definition sub4 (a b : Vector4d) : Vector4d :=
  V4 (x4 a - x4 b) (y4 a - y4 b) (z4 a - z4 b) (w4 a - w4 b).
Definition scale4 (k : R) (a : Vector4d) : Vector4d :=
  V4 (k * x4 a) (k * y4 a) (k * z4 a) (k * w4 a).
Definition abs4 (a : Vector4d) : Vector4d :=
  V4 (Rabs (x4 a)) (Rabs (y4 a)) (Rabs (z4 a)) (Rabs (w4 a)).

Definition sub3 (a b : Vector3d) : Vector3d :=
  V3 (x3 a - x3 b) (y3 a - y3 b) (z3 a - z3 b).
Definition scale3 (a : Vector3d) (k : R) : Vector3d :=
  V3 (x3 a * k) (y3 a * k) (z3 a * k).

(** [v.norm()] *)
Definition norm3 (a : Vector3d) : R := sqrt (dot3 a a).
Definition norm4 (a : Vector4d) : R := sqrt (dot4 a a).

(** [v.head(3)] *)
Definition head3 (a : Vector4d) : Vector3d := V3 (x4 a) (y4 a) (z4 a).

(** [M * v]: the linear combination of the columns of [M]. *)
Definition mulMV (m : Matrix4d) (v : Vector4d) : Vector4d :=
  add4 (add4 (add4 (scale4 (x4 v) (col0 m)) (scale4 (y4 v) (col1 m)))
             (scale4 (z4 v) (col2 m)))
       (scale4 (w4 v) (col3 m)).

(** [M.cwiseAbs()] *)
Definition cwiseAbs (m : Matrix4d) : Matrix4d :=
  M4 (abs4 (col0 m)) (abs4 (col1 m)) (abs4 (col2 m)) (abs4 (col3 m)).

(** Convert a 3-vector to a 4-vector by adding a zero. *)
Definition zeroExtend (v : Vector3d) : Vector4d := V4 (x3 v) (y3 v) (z3 v) 0.

(* ================================================================== *)
(** ** [HighPrec_Frustum] *)

Module HighPrec_Frustum.

Record t : Type := Make {
  m_nearZ : R;
  m_farZ : R;
  m_planeNormals0 : Vector4d;
  m_planeNormals1 : Vector4d;
  m_planeNormals2 : Vector4d;
  m_planeNormals3 : Vector4d
}.

(** The constructor: the four entries of the caller's array are
    zero-extended, nothing is normalised. *)
Definition make (nearZ farZ : R) (n0 n1 n2 n3 : Vector3d) : t :=
  Make nearZ farZ (zeroExtend n0) (zeroExtend n1) (zeroExtend n2) (zeroExtend n3).

(** [cullSphere(const Vector3d& center, double radius)].  Here the dot
    products are exact; those of the code are rounded
    ([cullSphere_binary64_culls_intersecting_sphere]). *)
Definition cullSphere3 (f : t) (center : Vector3d) (radius : R) : bool :=
  dgt (z3 center - radius) (m_nearZ f) ||
  dlt (z3 center + radius) (m_farZ f) ||
  dlt (dot3 center (head3 (m_planeNormals0 f))) (- radius) ||
  dlt (dot3 center (head3 (m_planeNormals1 f))) (- radius) ||
  dlt (dot3 center (head3 (m_planeNormals2 f))) (- radius) ||
  dlt (dot3 center (head3 (m_planeNormals3 f))) (- radius).

(** [cullSphere(const Vector4d& center, double radius)] *)
Definition cullSphere (f : t) (center : Vector4d) (radius : R) : bool :=
  dgt (z4 center - radius) (m_nearZ f) ||
  dlt (z4 center + radius) (m_farZ f) ||
  dlt (dot4 center (m_planeNormals0 f)) (- radius) ||
  dlt (dot4 center (m_planeNormals1 f)) (- radius) ||
  dlt (dot4 center (m_planeNormals2 f)) (- radius) ||
  dlt (dot4 center (m_planeNormals3 f)) (- radius).

Definition nearZ (f : t) : R := m_nearZ f.
Definition farZ (f : t) : R := m_farZ f.

(** The view volume of a frustum built from [nearZ], [farZ] and four side
    plane normals: between the far and the near plane, on the inner side of
    the four planes through the origin. *)
Definition inside (nearZ farZ : R) (n0 n1 n2 n3 p : Vector3d) : Prop :=
  farZ <= z3 p <= nearZ /\
  dot3 p n0 >= 0 /\ dot3 p n1 >= 0 /\ dot3 p n2 >= 0 /\ dot3 p n3 >= 0.

(** The sphere of centre [c] and radius [r] meets the view volume. *)
Definition intersects (nearZ farZ : R) (n0 n1 n2 n3 c : Vector3d) (r : R) : Prop :=
  exists p, norm3 (sub3 p c) <= r /\ inside nearZ farZ n0 n1 n2 n3 p.

End HighPrec_Frustum.

(* ================================================================== *)
(** ** [cubicHermiteCoefficients] *)

Definition cubicHermiteCoefficients (p0 p1 v0 v1 : Vector4d) : Matrix4d :=
  M4 p0
     v0
     (sub4 (scale4 3 (sub4 p1 p0)) (add4 (scale4 2 v0) v1))
     (add4 (scale4 2 (sub4 p0 p1)) (add4 v1 v0)).

(** The point of the cubic at parameter [t]:
    [coeff * Vector4d(1.0, t, t * t, t * t * t)]. *)
Definition cubicAt (coeff : Matrix4d) (t : R) : Vector4d :=
  mulMV coeff (V4 1 t (t * t) (t * t * t)).

(* ================================================================== *)
(** ** [HighPrec_VertexBuffer] *)

(** [Vector4f]: a [float] vector; [float] is idealised like [double], so
    the two vector types coincide. *)
Abbreviation Vector4f := Vector4d (only parsing).

(** The OpenGL calls of [flush] that the model records.  The calls that
    only configure attribute arrays or bind the buffer object ([setup],
    [finish], [createVertexBuffer]) draw nothing and are not recorded. *)
Inductive GLenum : Type := GL_LINE_STRIP | GL_TRIANGLE_STRIP.

Module HighPrec_VertexBuffer.

Record Vertex : Type := MkVertex {
  position : Vector4f;
  color : Vector4f;
  scale : R
}.

Inductive GLCall : Type :=
| glBufferSubData (uploaded : list Vertex)
| glDrawArrays (mode : GLenum) (first count : nat).

(** The members of the class.  [data] is the array of
    [(capacity + 1) * 2] vertices, as a function of the index; [gl] is
    the log of OpenGL calls, oldest first. *)
Record t : Type := Make {
  currentPosition : nat;
  capacity : nat;
  data : nat -> Vertex;
  vbobj : nat;
  currentStripLength : nat;
  stripLengths : list nat;
  m_color : Vector4f;
  lineAsTriangles : bool;
  gl : list GLCall
}.

(** [data[i] = v] *)
Definition store (d : nat -> Vertex) (i : nat) (v : Vertex) : nat -> Vertex :=
  fun j => if Nat.eqb j i then v else d j.

Definition setPosition (v : Vertex) (p : Vector4f) : Vertex :=
  MkVertex p (color v) (scale v).
Definition setScale (v : Vertex) (s : R) : Vertex :=
  MkVertex (position v) (color v) s.

(** The constructor.  The array and the colour are not initialised by the
    source: whatever they hold is a parameter here. *)
Definition make (garbage : nat -> Vertex) (garbageColor : Vector4f) : t :=
  Make 0 4096 garbage 0 0 [] garbageColor false [].

Definition setup (asTriangles : bool) (b : t) : t :=
  Make 0 (capacity b) (data b) (vbobj b) 0 [] (m_color b) asTriangles (gl b).

Definition finish (b : t) : t := b.

(** [end(false)]: the body of [end] before its final test. *)
Definition end_strip (b : t) : t :=
  if Nat.ltb 1 (currentStripLength b) then
    let index := (currentPosition b * 2)%nat in
    let d0 := data b in
    let d1 := store d0 index (setPosition (d0 index) (position (d0 (index - 4)%nat))) in
    let d2 := store d1 (index + 1)%nat
                    (setPosition (d1 (index + 1)%nat) (position (d1 (index - 3)%nat))) in
    let d3 := store d2 (index - 2)%nat
                    (setScale (d2 (index - 2)%nat) (- scale (d2 (index - 2)%nat))) in
    let d4 := store d3 (index - 1)%nat
                    (setScale (d3 (index - 1)%nat) (- scale (d3 (index - 1)%nat))) in
    Make (currentPosition b + 1) (capacity b) d4 (vbobj b) 0
         (stripLengths b ++ [currentStripLength b]) (m_color b)
         (lineAsTriangles b) (gl b)
  else
    (* [currentPosition -= currentStripLength]; the strip is part of the
       buffer, so the difference is never negative *)
    Make (currentPosition b - currentStripLength b) (capacity b) (data b)
         (vbobj b) 0 (stripLengths b) (m_color b) (lineAsTriangles b) (gl b).

(** The [glDrawArrays] loop of [flush]. *)
Fixpoint drawStrips (asTriangles : bool) (startIndex : nat) (lengths : list nat)
  : list GLCall :=
  match lengths with
  | [] => []
  | lineCount :: rest =>
      (if asTriangles
       then glDrawArrays GL_TRIANGLE_STRIP (startIndex * 2) (lineCount * 2)
       else glDrawArrays GL_LINE_STRIP startIndex lineCount)
      :: drawStrips asTriangles (startIndex + (lineCount + 1)) rest
  end.

Definition flush (endIfNeeded : bool) (b : t) : t :=
  let b2 :=
    if Nat.ltb 0 (currentPosition b) then
      let b1 := if endIfNeeded && Nat.ltb 1 (currentStripLength b)
                then end_strip b else b in
      Make 0 (capacity b1) (data b1) (vbobj b1) (currentStripLength b1) []
           (m_color b1) (lineAsTriangles b1)
           (gl b1 ++
            glBufferSubData (map (data b1) (seq 0 (currentPosition b1 * 2)))
            :: drawStrips (lineAsTriangles b1) 0 (stripLengths b1))
    else b in
  Make (currentPosition b2) (capacity b2) (data b2) (vbobj b2) 0
       (stripLengths b2) (m_color b2) (lineAsTriangles b2) (gl b2).

(** [end(bool flushIfNeeded = true)] *)
Definition end_ (flushIfNeeded : bool) (b : t) : t :=
  let b1 := end_strip b in
  if flushIfNeeded && Nat.eqb (currentPosition b1) (capacity b1)
  then flush false b1 else b1.

(** [begin()] does nothing when the vertex buffer is in use. *)
Definition begin (b : t) : t := b.

(** [vertex(const Vector4d& v, const Vector4f& color)].  The overload that
    takes a [Vector3d] is not called by the render functions of this file
    and is left out. *)
Definition vertexColor (v : Vector4d) (c : Vector4f) (b : t) : t :=
  let pos : Vector4f := v in
  let index := (currentPosition b * 2)%nat in
  let d1 := store (data b) index (MkVertex pos c (- (1 / 2))) in
  let d2 := store d1 (index + 1)%nat (MkVertex pos c (1 / 2)) in
  let b1 := Make (currentPosition b + 1) (capacity b) d2 (vbobj b)
                 (currentStripLength b + 1) (stripLengths b) (m_color b)
                 (lineAsTriangles b) (gl b) in
  if Nat.eqb (currentPosition b1) (capacity b1) then
    let b2 := flush true b1 in
    let e1 := store (data b2) 0 (MkVertex pos c (- (1 / 2))) in
    let e2 := store e1 1 (MkVertex pos c (1 / 2)) in
    Make 1 (capacity b2) e2 (vbobj b2) 1 (stripLengths b2) (m_color b2)
         (lineAsTriangles b2) (gl b2)
  else b1.

(** [vertex(const Vector4d& v)] *)
Definition vertex (v : Vector4d) (b : t) : t := vertexColor v (m_color b) b.

(** [createVertexBuffer()]: [1] stands for the non-zero name that
    [glGenBuffers] hands out. *)
Definition createVertexBuffer (b : t) : t :=
  if Nat.eqb (vbobj b) 0
  then Make (currentPosition b) (capacity b) (data b) 1 (currentStripLength b)
            (stripLengths b) (m_color b) (lineAsTriangles b) (gl b)
  else b.

Definition setColor (aColor : Vector4f) (b : t) : t :=
  Make (currentPosition b) (capacity b) (data b) (vbobj b)
       (currentStripLength b) (stripLengths b) aColor (lineAsTriangles b) (gl b).

End HighPrec_VertexBuffer.

(* ================================================================== *)
(** ** Results of code that may recurse without bound or leave the
       language's defined behaviour *)

Inductive outcome (A : Type) : Type :=
| Done (a : A)      (* the call returns *)
| OutOfFuel         (* the recursion budget of the model ran out *)
| Undefined.        (* undefined behaviour: an access outside a container *)
Arguments Done {A} a.
Arguments OutOfFuel {A}.
Arguments Undefined {A}.

Definition bind {A B : Type} (m : outcome A) (k : A -> outcome B) : outcome B :=
  match m with
  | Done a => k a
  | OutOfFuel => OutOfFuel
  | Undefined => Undefined
  end.

Notation "x <- m ;; k" := (bind m (fun x => k))
  (at level 61, m at next level, right associativity).
Notation "' pat <- m ;; k" := (bind m (fun x => match x with pat => k end))
  (at level 61, pat pattern, m at next level, right associativity).

(** A [for] statement whose control variable runs over [range]. *)
Fixpoint forEach {S : Type} (body : nat -> S -> outcome S) (range : list nat)
  (s : S) : outcome S :=
  match range with
  | [] => Done s
  | i :: rest => s' <- body i s ;; forEach body rest s'
  end.

(* ================================================================== *)
(** ** [HighPrec_RenderContext] *)

Definition SubdivisionFactor : nat := 8.
Definition InvSubdivisionFactor : R := 1 / INR SubdivisionFactor.

Module HighPrec_RenderContext.

Module VB := HighPrec_VertexBuffer.
Module Fr := HighPrec_Frustum.

(** The context refers to the vertex buffer and owns a reference to the
    frustum; the buffer is threaded through the calls instead. *)
Record t : Type := Make {
  m_viewFrustum : Fr.t;
  m_subdivisionThreshold : R
}.

(** The state of the loop of [renderCubic]: the restart flag, [lastP] and
    the vertex buffer. *)
Definition CubicState : Type := (bool * Vector4d * VB.t)%type.

(** One turn of the loop of [renderCubic].  [recurse] is the recursive call
    [renderCubic(restartCurve, coeff, t - dt, t, segmentBoundingRadius,
    depth + 1)].  Here [m_subdivisionThreshold * minDistance] is the exact
    product, positive when both factors are; the product of the code can
    underflow to 0, as the part on binary64 shows. *)
Definition cubicBody (rc : t)
  (recurse : bool -> R -> R -> R -> nat -> VB.t -> outcome (bool * VB.t))
  (coeff : Matrix4d) (t0 dt segmentBoundingRadius : R) (depth : nat)
  (i : nat) (s : CubicState) : outcome CubicState :=
  let '(restartCurve, lastP, vbuf) := s in
  let t := t0 + dt * INR i in
  let p := cubicAt coeff t in
  let minDistance :=
    dmax (- Fr.nearZ (m_viewFrustum rc)) (Rabs (z4 p) - segmentBoundingRadius) in
  if dge segmentBoundingRadius (m_subdivisionThreshold rc * minDistance) then
    if Fr.cullSphere (m_viewFrustum rc) p segmentBoundingRadius then
      if negb restartCurve
      then Done (true, p, VB.end_ true vbuf)
      else Done (restartCurve, p, vbuf)
    else
      '(restartCurve', vbuf') <-
        recurse restartCurve (t - dt) t segmentBoundingRadius (depth + 1)%nat vbuf ;;
      Done (restartCurve', p, vbuf')
  else
    if restartCurve
    then Done (false, p, VB.vertex p (VB.vertex lastP (VB.begin vbuf)))
    else Done (restartCurve, p, VB.vertex p vbuf).

Fixpoint renderCubic (fuel : nat) (rc : t) (restartCurve : bool)
  (coeff : Matrix4d) (t0 t1 curveBoundingRadius : R) (depth : nat)
  (vbuf : VB.t) : outcome (bool * VB.t) :=
  match fuel with
  | O => OutOfFuel
  | S fuel' =>
      let dt := (t1 - t0) * InvSubdivisionFactor in
      let segmentBoundingRadius := curveBoundingRadius * InvSubdivisionFactor in
      let lastP := cubicAt coeff t0 in
      '(restartCurve', _, vbuf') <-
        forEach (cubicBody rc
                   (fun r a b radius d v => renderCubic fuel' rc r coeff a b radius d v)
                   coeff t0 dt segmentBoundingRadius depth)
                (seq 1 SubdivisionFactor) (restartCurve, lastP, vbuf) ;;
      Done (restartCurve', vbuf')
  end.

(** [Eigen::Vector4f(color.x(), color.y(), color.z(), color.w() * float(opacity))] *)
Definition fadedColor (color : Vector4f) (opacity : R) : Vector4f :=
  V4 (x4 color) (y4 color) (z4 color) (w4 color * opacity).

(** The state of the loop of [renderCubicFaded]: the restart flag, [lastP],
    [lastOpacity] and the vertex buffer. *)
Definition FadedState : Type := (bool * Vector4d * R * VB.t)%type.

Definition cubicFadedBody (rc : t)
  (recurse : bool -> R -> R -> R -> nat -> VB.t -> outcome (bool * VB.t))
  (coeff : Matrix4d) (t0 dt : R) (color : Vector4f) (fadeStart fadeRate : R)
  (segmentBoundingRadius : R) (depth : nat)
  (i : nat) (s : FadedState) : outcome FadedState :=
  let '(restartCurve, lastP, lastOpacity, vbuf) := s in
  let t := t0 + dt * INR i in
  let p := cubicAt coeff t in
  let opacity := clamp ((t - fadeStart) * fadeRate) 0 1 in
  let minDistance :=
    dmax (- Fr.nearZ (m_viewFrustum rc)) (Rabs (z4 p) - segmentBoundingRadius) in
  if dge segmentBoundingRadius (m_subdivisionThreshold rc * minDistance) then
    if Fr.cullSphere (m_viewFrustum rc) p segmentBoundingRadius then
      if negb restartCurve
      then Done (true, p, opacity, VB.end_ true vbuf)
      else Done (restartCurve, p, opacity, vbuf)
    else
      '(restartCurve', vbuf') <-
        recurse restartCurve (t - dt) t segmentBoundingRadius (depth + 1)%nat vbuf ;;
      Done (restartCurve', p, opacity, vbuf')
  else
    if restartCurve
    then Done (false, p, opacity,
               VB.vertexColor p (fadedColor color opacity)
                 (VB.vertexColor lastP (fadedColor color lastOpacity) (VB.begin vbuf)))
    else Done (restartCurve, p, opacity,
               VB.vertexColor p (fadedColor color opacity) vbuf).

Fixpoint renderCubicFaded (fuel : nat) (rc : t) (restartCurve : bool)
  (coeff : Matrix4d) (t0 t1 : R) (color : Vector4f) (fadeStart fadeRate : R)
  (curveBoundingRadius : R) (depth : nat)
  (vbuf : VB.t) : outcome (bool * VB.t) :=
  match fuel with
  | O => OutOfFuel
  | S fuel' =>
      let dt := (t1 - t0) * InvSubdivisionFactor in
      let segmentBoundingRadius := curveBoundingRadius * InvSubdivisionFactor in
      let lastP := cubicAt coeff t0 in
      let lastOpacity := clamp ((t0 - fadeStart) * fadeRate) 0 1 in
      '(restartCurve', _, _, vbuf') <-
        forEach (cubicFadedBody rc
                   (fun r a b radius d v =>
                      renderCubicFaded fuel' rc r coeff a b color fadeStart fadeRate
                                       radius d v)
                   coeff t0 dt color fadeStart fadeRate segmentBoundingRadius depth)
                (seq 1 SubdivisionFactor) (restartCurve, lastP, lastOpacity, vbuf) ;;
      Done (restartCurve', vbuf')
  end.

End HighPrec_RenderContext.

(* ================================================================== *)
(** ** [CurvePlotSample] and the sample store of [CurvePlot] *)

Module CurvePlotSample.

Record sample : Type := Make {
  t : R;
  position : Vector3d;
  velocity : Vector3d;
  boundingRadius : R
}.

Definition setBoundingRadius (s : sample) (r : R) : sample :=
  Make (t s) (position s) (velocity s) r.

End CurvePlotSample.

Module CurvePlot.

Module Sm := CurvePlotSample.
Module VB := HighPrec_VertexBuffer.
Module Fr := HighPrec_Frustum.
Module RC := HighPrec_RenderContext.

(** [std::deque<CurvePlotSample> m_samples] *)
Definition Samples : Type := list Sm.sample.

(** [m_samples[i].boundingRadius = r], for an index inside the deque. *)
Fixpoint setRadiusAt (m_samples : Samples) (i : nat) (r : R) : Samples :=
  match m_samples, i with
  | [], _ => []
  | s :: rest, O => Sm.setBoundingRadius s r :: rest
  | s :: rest, S j => s :: setRadiusAt rest j r
  end.

(** The bounding radius that [addSample] computes for the segment from
    [first] to [second].  Here the norm is exact; the code stores it
    rounded to a [double], as the part on binary64 shows. *)
Definition segmentBoundingRadius (first second : Sm.sample) : R :=
  let dt := Sm.t second - Sm.t first in
  let coeff := cubicHermiteCoefficients
                 (zeroExtend (Sm.position first))
                 (zeroExtend (Sm.position second))
                 (zeroExtend (scale3 (Sm.velocity first) dt))
                 (zeroExtend (scale3 (Sm.velocity second) dt)) in
  let extents := mulMV (cwiseAbs coeff) (V4 0 1 1 1) in
  norm4 extents.

(** [addSample].  [front()], [back()] and the indexed accesses are only
    evaluated on a non-empty deque and inside it; the default of [hd],
    [last] and [nth] is never returned. *)
Definition addSample (sample : Sm.sample) (m_samples : Samples) : Samples :=
  let decision : option bool :=
    if match m_samples with [] => true | _ => false end
       || dgt (Sm.t sample) (Sm.t (last m_samples sample))
    then Some true
    else if dlt (Sm.t sample) (Sm.t (hd sample m_samples))
    then Some false
    else None (* the sample falls within the range of current samples *) in
  match decision with
  | None => m_samples
  | Some addToBack =>
      let m1 := if addToBack then m_samples ++ [sample] else sample :: m_samples in
      if Nat.ltb 1 (length m1) then
        if addToBack then
          let lastSample := nth (length m1 - 2) m1 sample in
          setRadiusAt m1 (length m1 - 1) (segmentBoundingRadius lastSample sample)
        else
          let nextSample := nth 1 m1 sample in
          setRadiusAt m1 1 (segmentBoundingRadius sample nextSample)
      else m1
  end.

(** [removeSamplesBefore]: [pop_front] while the front sample is too old. *)
Fixpoint removeSamplesBefore (time : R) (m_samples : Samples) : Samples :=
  match m_samples with
  | [] => []
  | s :: rest =>
      if dlt (Sm.t s) time then removeSamplesBefore time rest else m_samples
  end.

(** [removeSamplesAfter]: [pop_back] while the back sample is too recent;
    the deque is walked from its back. *)
Definition removeSamplesAfter (time : R) (m_samples : Samples) : Samples :=
  rev ((fix popBack (l : Samples) : Samples :=
          match l with
          | [] => []
          | s :: rest => if dgt (Sm.t s) time then popBack rest else l
          end) (rev m_samples)).

(** [m_samples[i]]: an index outside the deque is undefined behaviour. *)
Definition sampleAt (m_samples : Samples) (i : nat) : outcome Sm.sample :=
  match nth_error m_samples i with
  | Some s => Done s
  | None => Undefined
  end.

(** [modelview * Vector4d(v.x(), v.y(), v.z(), w)] *)
Definition toCamera (modelview : Matrix4d) (v : Vector3d) (w : R) : Vector4d :=
  mulMV modelview (V4 (x3 v) (y3 v) (z3 v) w).

(** A [for] statement whose condition also tests the loop state. *)
Fixpoint forWhile {S : Type} (cond : S -> bool) (body : nat -> S -> outcome S)
  (range : list nat) (s : S) : outcome S :=
  match range with
  | [] => Done s
  | i :: rest =>
      if cond s then s' <- body i s ;; forWhile cond body rest s' else Done s
  end.

(** *** The render over the full range *)

(** Loop state: [restartCurve], [p0], [v0] and the vertex buffer. *)
Definition FullState : Type := (bool * Vector4d * Vector4d * VB.t)%type.

Definition renderBody (fuel : nat) (m_samples : Samples) (modelview : Matrix4d)
  (viewFrustum : Fr.t) (rc : RC.t) (farZ subdivisionThreshold : R)
  (i : nat) (s : FullState) : outcome FullState :=
  let '(restartCurve, p0, v0, vbuf) := s in
  si <- sampleAt m_samples i ;;
  let p1 := toCamera modelview (Sm.position si) 1 in
  let v1 := toCamera modelview (Sm.velocity si) 0 in
  let curveBoundingRadius := Sm.boundingRadius si in
  let minDistance := Rabs (z4 p0) - curveBoundingRadius in
  '(restartCurve', vbuf') <-
    (if dge curveBoundingRadius (subdivisionThreshold * minDistance) then
       if Fr.cullSphere viewFrustum p0 curveBoundingRadius then
         if negb restartCurve then Done (true, VB.end_ true vbuf)
         else Done (restartCurve, vbuf)
       else
         sprev <- sampleAt m_samples (i - 1) ;;
         let dt := Sm.t si - Sm.t sprev in
         let coeff :=
           cubicHermiteCoefficients p0 p1 (scale4 dt v0) (scale4 dt v1) in
         RC.renderCubic fuel rc restartCurve coeff 0 1 curveBoundingRadius 1 vbuf
     else
       if dlt (z4 p0 + curveBoundingRadius) farZ then
         if negb restartCurve then Done (true, VB.end_ true vbuf)
         else Done (restartCurve, vbuf)
       else
         if restartCurve
         then Done (false, VB.vertex p1 (VB.vertex p0 (VB.begin vbuf)))
         else Done (restartCurve, VB.vertex p1 vbuf)) ;;
  Done (restartCurve', p1, v1, vbuf').

Definition render (fuel : nat) (m_samples : Samples) (modelview : Matrix4d)
  (nearZ farZ : R) (n0 n1 n2 n3 : Vector3d) (subdivisionThreshold : R)
  (color : Vector4f) (lineAsTriangles : bool) (vbuf : VB.t) : outcome VB.t :=
  s0 <- sampleAt m_samples 0 ;;
  let p0 := toCamera modelview (Sm.position s0) 1 in
  let v0 := toCamera modelview (Sm.velocity s0) 0 in
  let viewFrustum := Fr.make nearZ farZ n0 n1 n2 n3 in
  let rc := RC.Make viewFrustum subdivisionThreshold in
  let vbuf1 :=
    VB.setColor color (VB.setup lineAsTriangles (VB.createVertexBuffer vbuf)) in
  '(restartCurve, _, _, vbuf2) <-
    forEach (renderBody fuel m_samples modelview viewFrustum rc farZ
               subdivisionThreshold)
            (seq 1 (length m_samples - 1)) (true, p0, v0, vbuf1) ;;
  let vbuf3 := if negb restartCurve then VB.end_ true vbuf2 else vbuf2 in
  Done (VB.finish (VB.flush true vbuf3)).

(** *** The render over a time range *)

(** The arguments of one call of [renderCubic] or [renderCubicFaded] made by
    a render entry point.  The list of these calls is kept beside the loop
    state; it is not a variable of the source. *)
Record CubicCall : Type := MkCall {
  call_t0 : R;
  call_t1 : R;
  call_radius : R
}.

(** The linear search for the first sample; [fuel] bounds the number of
    turns of the [while] loop, which is below the size of the deque. *)
Fixpoint searchStartSample (fuel : nat) (m_samples : Samples) (startTime : R)
  (startSample : nat) : outcome nat :=
  match fuel with
  | O => OutOfFuel
  | S fuel' =>
      if Nat.ltb startSample (length m_samples - 1) then
        s <- sampleAt m_samples startSample ;;
        if dgt startTime (Sm.t s)
        then searchStartSample fuel' m_samples startTime (startSample + 1)
        else Done startSample
      else Done startSample
  end.

(** Loop state of the render over a time range. *)
Record RangeState : Type := MkRange {
  rs_restartCurve : bool;
  rs_p0 : Vector4d;
  rs_v0 : Vector4d;
  rs_firstSegment : bool;
  rs_lastSegment : bool;
  rs_vbuf : VB.t;
  rs_calls : list CubicCall
}.

Definition renderRangeBody (fuel : nat) (m_samples : Samples)
  (modelview : Matrix4d) (viewFrustum : Fr.t) (rc : RC.t)
  (farZ subdivisionThreshold startTime endTime : R)
  (i : nat) (s : RangeState) : outcome RangeState :=
  let restartCurve := rs_restartCurve s in
  let p0 := rs_p0 s in
  let v0 := rs_v0 s in
  let firstSegment := rs_firstSegment s in
  let vbuf := rs_vbuf s in
  si <- sampleAt m_samples i ;;
  let p1 := toCamera modelview (Sm.position si) 1 in
  let v1 := toCamera modelview (Sm.velocity si) 0 in
  let lastSegment := if dle endTime (Sm.t si) then true else rs_lastSegment s in
  let curveBoundingRadius := Sm.boundingRadius si in
  let minDistance := Rabs (z4 p0) - curveBoundingRadius in
  if dge curveBoundingRadius (subdivisionThreshold * minDistance)
     || lastSegment || firstSegment then
    if Fr.cullSphere viewFrustum p0 curveBoundingRadius then
      if negb restartCurve
      then Done (MkRange true p1 v1 firstSegment lastSegment
                         (VB.end_ true vbuf) (rs_calls s))
      else Done (MkRange restartCurve p1 v1 firstSegment lastSegment
                         vbuf (rs_calls s))
    else
      sprev <- sampleAt m_samples (i - 1) ;;
      let dt := Sm.t si - Sm.t sprev in
      let t0 := if firstSegment
                then clamp ((startTime - Sm.t sprev) / dt) 0 1 else 0 in
      let t1 := if lastSegment then (endTime - Sm.t sprev) / dt else 1 in
      let coeff := cubicHermiteCoefficients p0 p1 (scale4 dt v0) (scale4 dt v1) in
      '(restartCurve', vbuf') <-
        RC.renderCubic fuel rc restartCurve coeff t0 t1 curveBoundingRadius 1 vbuf ;;
      Done (MkRange restartCurve' p1 v1 false lastSegment vbuf'
                    (rs_calls s ++ [MkCall t0 t1 curveBoundingRadius]))
  else
    if dlt (z4 p0 + curveBoundingRadius) farZ then
      if negb restartCurve
      then Done (MkRange true p1 v1 firstSegment lastSegment
                         (VB.end_ true vbuf) (rs_calls s))
      else Done (MkRange restartCurve p1 v1 firstSegment lastSegment
                         vbuf (rs_calls s))
    else
      if restartCurve
      then Done (MkRange false p1 v1 firstSegment lastSegment
                         (VB.vertex p1 (VB.vertex p0 (VB.begin vbuf))) (rs_calls s))
      else Done (MkRange restartCurve p1 v1 firstSegment lastSegment
                         (VB.vertex p1 vbuf) (rs_calls s)).

(** The render over [startTime .. endTime]; the second component of the
    result lists the calls of [renderCubic] in the order they were made. *)
Definition renderRangeTraced (fuel : nat) (m_samples : Samples)
  (modelview : Matrix4d) (nearZ farZ : R) (n0 n1 n2 n3 : Vector3d)
  (subdivisionThreshold startTime endTime : R)
  (color : Vector4f) (lineAsTriangles : bool) (vbuf : VB.t)
  : outcome (VB.t * list CubicCall) :=
  if match m_samples with [] => true | _ => false end
     || dle endTime (Sm.t (hd (Sm.Make 0 (V3 0 0 0) (V3 0 0 0) 0) m_samples))
     || dge startTime (Sm.t (last m_samples (Sm.Make 0 (V3 0 0 0) (V3 0 0 0) 0)))
  then Done (vbuf, [])
  else
    found <- searchStartSample (length m_samples) m_samples startTime 0 ;;
    let startSample := if Nat.ltb 0 found then (found - 1)%nat else found in
    s0 <- sampleAt m_samples startSample ;;
    let p0 := toCamera modelview (Sm.position s0) 1 in
    let v0 := toCamera modelview (Sm.velocity s0) 0 in
    let viewFrustum := Fr.make nearZ farZ n0 n1 n2 n3 in
    let rc := RC.Make viewFrustum subdivisionThreshold in
    let vbuf1 :=
      VB.setColor color (VB.setup lineAsTriangles (VB.createVertexBuffer vbuf)) in
    s <- forWhile (fun s => negb (rs_lastSegment s))
           (renderRangeBody fuel m_samples modelview viewFrustum rc farZ
              subdivisionThreshold startTime endTime)
           (seq (startSample + 1) (length m_samples - (startSample + 1)))
           (MkRange true p0 v0 true false vbuf1 []) ;;
    let vbuf3 := if negb (rs_restartCurve s)
                 then VB.end_ true (rs_vbuf s) else rs_vbuf s in
    Done (VB.finish (VB.flush true vbuf3), rs_calls s).

Definition renderRange (fuel : nat) (m_samples : Samples)
  (modelview : Matrix4d) (nearZ farZ : R) (n0 n1 n2 n3 : Vector3d)
  (subdivisionThreshold startTime endTime : R)
  (color : Vector4f) (lineAsTriangles : bool) (vbuf : VB.t) : outcome VB.t :=
  '(vbuf', _) <- renderRangeTraced fuel m_samples modelview nearZ farZ n0 n1 n2 n3
                   subdivisionThreshold startTime endTime color lineAsTriangles
                   vbuf ;;
  Done vbuf'.

(** *** The faded render *)

Record FadedState : Type := MkFaded {
  fs_restartCurve : bool;
  fs_p0 : Vector4d;
  fs_v0 : Vector4d;
  fs_opacity0 : R;
  fs_firstSegment : bool;
  fs_lastSegment : bool;
  fs_vbuf : VB.t;
  fs_calls : list CubicCall
}.

Definition renderFadedBody (fuel : nat) (m_samples : Samples)
  (modelview : Matrix4d) (viewFrustum : Fr.t) (rc : RC.t)
  (farZ subdivisionThreshold startTime endTime : R) (color : Vector4f)
  (fadeStartTime fadeRate : R)
  (i : nat) (s : FadedState) : outcome FadedState :=
  let restartCurve := fs_restartCurve s in
  let p0 := fs_p0 s in
  let v0 := fs_v0 s in
  let opacity0 := fs_opacity0 s in
  let firstSegment := fs_firstSegment s in
  let vbuf := fs_vbuf s in
  si <- sampleAt m_samples i ;;
  let p1 := toCamera modelview (Sm.position si) 1 in
  let v1 := toCamera modelview (Sm.velocity si) 0 in
  let opacity1 := clamp ((Sm.t si - fadeStartTime) * fadeRate) 0 1 in
  let lastSegment := if dle endTime (Sm.t si) then true else fs_lastSegment s in
  let curveBoundingRadius := Sm.boundingRadius si in
  let minDistance := Rabs (z4 p0) - curveBoundingRadius in
  if dge curveBoundingRadius (subdivisionThreshold * minDistance)
     || lastSegment || firstSegment then
    if Fr.cullSphere viewFrustum p0 curveBoundingRadius then
      if negb restartCurve
      then Done (MkFaded true p1 v1 opacity1 firstSegment lastSegment
                         (VB.end_ true vbuf) (fs_calls s))
      else Done (MkFaded restartCurve p1 v1 opacity1 firstSegment lastSegment
                         vbuf (fs_calls s))
    else
      sprev <- sampleAt m_samples (i - 1) ;;
      let dt := Sm.t si - Sm.t sprev in
      let t0 := if firstSegment
                then clamp ((startTime - Sm.t sprev) / dt) 0 1 else 0 in
      let t1 := if lastSegment then (endTime - Sm.t sprev) / dt else 1 in
      let coeff := cubicHermiteCoefficients p0 p1 (scale4 dt v0) (scale4 dt v1) in
      '(restartCurve', vbuf') <-
        RC.renderCubicFaded fuel rc restartCurve coeff t0 t1 color
          ((fadeStartTime - Sm.t sprev) / dt) (fadeRate * dt)
          curveBoundingRadius 1 vbuf ;;
      Done (MkFaded restartCurve' p1 v1 opacity1 false lastSegment vbuf'
                    (fs_calls s ++ [MkCall t0 t1 curveBoundingRadius]))
  else
    if dlt (z4 p0 + curveBoundingRadius) farZ then
      if negb restartCurve
      then Done (MkFaded true p1 v1 opacity1 firstSegment lastSegment
                         (VB.end_ true vbuf) (fs_calls s))
      else Done (MkFaded restartCurve p1 v1 opacity1 firstSegment lastSegment
                         vbuf (fs_calls s))
    else
      if restartCurve
      then Done (MkFaded false p1 v1 opacity1 firstSegment lastSegment
                         (VB.vertexColor p1 (RC.fadedColor color opacity1)
                            (VB.vertexColor p0 (RC.fadedColor color opacity0)
                               (VB.begin vbuf)))
                         (fs_calls s))
      else Done (MkFaded restartCurve p1 v1 opacity1 firstSegment lastSegment
                         (VB.vertexColor p1 (RC.fadedColor color opacity1) vbuf)
                         (fs_calls s)).

(** [renderFaded]; the second component of the result lists the calls of
    [renderCubicFaded] in the order they were made.  Unlike the other two
    entry points it does not call [setColor].  For
    [fadeEndTime = fadeStartTime] the quotient [1 / fadeDuration] is 0 over
    the reals; in the code it is infinite and the opacity of a sample at
    that time is NaN ([renderFaded_binary64_equal_fade_times_give_nan]).
    The statements about colours are for distinct fade times. *)
Definition renderFadedTraced (fuel : nat) (m_samples : Samples)
  (modelview : Matrix4d) (nearZ farZ : R) (n0 n1 n2 n3 : Vector3d)
  (subdivisionThreshold startTime endTime : R)
  (color : Vector4f) (fadeStartTime fadeEndTime : R)
  (lineAsTriangles : bool) (vbuf : VB.t)
  : outcome (VB.t * list CubicCall) :=
  if match m_samples with [] => true | _ => false end
     || dle endTime (Sm.t (hd (Sm.Make 0 (V3 0 0 0) (V3 0 0 0) 0) m_samples))
     || dge startTime (Sm.t (last m_samples (Sm.Make 0 (V3 0 0 0) (V3 0 0 0) 0)))
  then Done (vbuf, [])
  else
    found <- searchStartSample (length m_samples) m_samples startTime 0 ;;
    let startSample := if Nat.ltb 0 found then (found - 1)%nat else found in
    let fadeDuration := fadeEndTime - fadeStartTime in
    let fadeRate := 1 / fadeDuration in
    s0 <- sampleAt m_samples startSample ;;
    let p0 := toCamera modelview (Sm.position s0) 1 in
    let v0 := toCamera modelview (Sm.velocity s0) 0 in
    let opacity0 := clamp ((Sm.t s0 - fadeStartTime) * fadeRate) 0 1 in
    let viewFrustum := Fr.make nearZ farZ n0 n1 n2 n3 in
    let rc := RC.Make viewFrustum subdivisionThreshold in
    let vbuf1 := VB.setup lineAsTriangles (VB.createVertexBuffer vbuf) in
    s <- forWhile (fun s => negb (fs_lastSegment s))
           (renderFadedBody fuel m_samples modelview viewFrustum rc farZ
              subdivisionThreshold startTime endTime color fadeStartTime fadeRate)
           (seq (startSample + 1) (length m_samples - (startSample + 1)))
           (MkFaded true p0 v0 opacity0 true false vbuf1 []) ;;
    let vbuf3 := if negb (fs_restartCurve s)
                 then VB.end_ true (fs_vbuf s) else fs_vbuf s in
    Done (VB.finish (VB.flush true vbuf3), fs_calls s).

Definition renderFaded (fuel : nat) (m_samples : Samples)
  (modelview : Matrix4d) (nearZ farZ : R) (n0 n1 n2 n3 : Vector3d)
  (subdivisionThreshold startTime endTime : R)
  (color : Vector4f) (fadeStartTime fadeEndTime : R)
  (lineAsTriangles : bool) (vbuf : VB.t) : outcome VB.t :=
  '(vbuf', _) <- renderFadedTraced fuel m_samples modelview nearZ farZ n0 n1 n2 n3
                   subdivisionThreshold startTime endTime color fadeStartTime
                   fadeEndTime lineAsTriangles vbuf ;;
  Done vbuf'.

End CurvePlot.

(* ================================================================== *)
(** * Properties *)

Module Fr := HighPrec_Frustum.
Module VB := HighPrec_VertexBuffer.
Module RC := HighPrec_RenderContext.
Module Sm := CurvePlotSample.
Module CP := CurvePlot.

(** ** The comparisons *)

Lemma dgt_true a b : a > b -> dgt a b = true.
Proof. intros H; unfold dgt; destruct (Rgt_dec a b); [reflexivity | contradiction]. Qed.
Lemma dgt_false a b : a <= b -> dgt a b = false.
Proof. intros H; unfold dgt; destruct (Rgt_dec a b); [lra | reflexivity]. Qed.
Lemma dlt_true a b : a < b -> dlt a b = true.
Proof. intros H; unfold dlt; destruct (Rlt_dec a b); [reflexivity | contradiction]. Qed.
Lemma dlt_false a b : b <= a -> dlt a b = false.
Proof. intros H; unfold dlt; destruct (Rlt_dec a b); [lra | reflexivity]. Qed.
Lemma dge_true a b : a >= b -> dge a b = true.
Proof. intros H; unfold dge; destruct (Rge_dec a b); [reflexivity | contradiction]. Qed.
Lemma dge_false a b : a < b -> dge a b = false.
Proof. intros H; unfold dge; destruct (Rge_dec a b); [lra | reflexivity]. Qed.
Lemma dle_true a b : a <= b -> dle a b = true.
Proof. intros H; unfold dle; destruct (Rle_dec a b); [reflexivity | contradiction]. Qed.
Lemma dle_false a b : b < a -> dle a b = false.
Proof. intros H; unfold dle; destruct (Rle_dec a b); [lra | reflexivity]. Qed.

Lemma dgt_spec a b : dgt a b = true <-> a > b.
Proof. unfold dgt; destruct (Rgt_dec a b); split; intros; try easy. Qed.
Lemma dlt_spec a b : dlt a b = true <-> a < b.
Proof. unfold dlt; destruct (Rlt_dec a b); split; intros; try easy. Qed.
Lemma dge_spec a b : dge a b = true <-> a >= b.
Proof. unfold dge; destruct (Rge_dec a b); split; intros; try easy. Qed.

Lemma dmax_Rmax a b : dmax a b = Rmax a b.
Proof.
  unfold dmax, dlt, Rmax.
  destruct (Rlt_dec a b), (Rle_dec a b); try reflexivity; lra.
Qed.

Lemma clamp_range v lo hi : lo <= hi -> lo <= clamp v lo hi <= hi.
Proof.
  intros H; unfold clamp, dlt.
  destruct (Rlt_dec v lo); [lra|].
  destruct (Rlt_dec hi v); lra.
Qed.


Lemma clamp_unit v : 0 <= clamp v 0 1 <= 1.
Proof. apply clamp_range; lra. Qed.

(** Rewrites every comparison of the goal whose outcome [lra] can settle. *)
Ltac settle_cmp :=
  repeat first
    [ rewrite dgt_true by lra | rewrite dgt_false by lra
    | rewrite dlt_true by lra | rewrite dlt_false by lra
    | rewrite dge_true by lra | rewrite dge_false by lra
    | rewrite dle_true by lra | rewrite dle_false by lra ].

(** ** Norms *)

Lemma dot3_self_nonneg v : 0 <= dot3 v v.
Proof. unfold dot3; nra. Qed.

Lemma sqrt_le_bound x r : 0 <= x -> 0 <= r -> x <= r * r -> sqrt x <= r.
Proof.
  intros Hx Hr H.
  rewrite <- (sqrt_square r) by assumption.
  apply sqrt_le_1_alt; assumption.
Qed.

Lemma sqrt_bound_le x r : 0 <= x -> sqrt x <= r -> x <= r * r.
Proof.
  intros Hx H.
  pose proof (sqrt_pos x) as Hs.
  pose proof (sqrt_sqrt x Hx) as Hq.
  nra.
Qed.

Lemma norm3_le v r : 0 <= r -> dot3 v v <= r * r -> norm3 v <= r.
Proof. intros; apply sqrt_le_bound; auto using dot3_self_nonneg. Qed.

Lemma norm3_bound v r : norm3 v <= r -> dot3 v v <= r * r.
Proof. intros; apply sqrt_bound_le; auto using dot3_self_nonneg. Qed.

(** Cauchy-Schwarz in three dimensions, from Lagrange's identity. *)
Lemma cauchy_schwarz3 a b : dot3 a b * dot3 a b <= dot3 a a * dot3 b b.
Proof.
  destruct a as [a1 a2 a3], b as [b1 b2 b3]; unfold dot3; simpl.
  pose proof (Rle_0_sqr (a1 * b2 - a2 * b1)).
  pose proof (Rle_0_sqr (a1 * b3 - a3 * b1)).
  pose proof (Rle_0_sqr (a2 * b3 - a3 * b2)).
  unfold Rsqr in *; nra.
Qed.

(** ** [HighPrec_Frustum::cullSphere] *)

(** A point of the sphere is at most [r] further out along a normal that
    is no longer than a unit vector. *)
Lemma plane_test_sound c p n r :
  0 <= r -> dot3 n n <= 1 -> norm3 (sub3 p c) <= r -> dot3 p n >= 0 ->
  - r <= dot3 c n.
Proof.
  intros Hr Hn Hd Hp.
  apply norm3_bound in Hd.
  pose proof (cauchy_schwarz3 (sub3 p c) n) as CS.
  pose proof (dot3_self_nonneg (sub3 p c)) as Hpc.
  pose proof (dot3_self_nonneg n) as Hnn.
  assert (E : dot3 (sub3 p c) n = dot3 p n - dot3 c n)
    by (unfold dot3, sub3; simpl; ring).
  rewrite E in CS.
  destruct (Rle_dec (- r) (dot3 c n)) as [|Hlt]; [assumption|].
  exfalso.
  assert (Hgap : r < dot3 p n - dot3 c n) by lra.
  assert (r * r < (dot3 p n - dot3 c n) * (dot3 p n - dot3 c n)) by nra.
  assert (dot3 (sub3 p c) (sub3 p c) * dot3 n n <= r * r) by nra.
  lra.
Qed.

Lemma z_test_sound c p r :
  norm3 (sub3 p c) <= r -> z3 c - r <= z3 p <= z3 c + r.
Proof.
  intros Hd.
  assert (Hr : 0 <= r) by (pose proof (sqrt_pos (dot3 (sub3 p c) (sub3 p c))); unfold norm3 in Hd; lra).
  apply norm3_bound in Hd.
  unfold dot3, sub3 in Hd; simpl in Hd.
  pose proof (Rle_0_sqr (x3 p - x3 c)) as Hx.
  pose proof (Rle_0_sqr (y3 p - y3 c)) as Hy.
  assert (Hsq : Rsqr (z3 p - z3 c) <= Rsqr r) by (unfold Rsqr in *; lra).
  apply Rsqr_le_abs_0 in Hsq.
  rewrite (Rabs_right r) in Hsq by lra.
  unfold Rabs in Hsq. destruct (Rcase_abs (z3 p - z3 c)); lra.
Qed.

Lemma head3_zeroExtend n : head3 (zeroExtend n) = n.
Proof. destruct n; reflexivity. Qed.

Lemma dot4_zeroExtend c n : dot4 c (zeroExtend n) = dot3 (head3 c) n.
Proof. destruct c, n; unfold dot4, dot3, zeroExtend; simpl; ring. Qed.

(** The two overloads agree. *)
Lemma cullSphere_overloads nearZ farZ n0 n1 n2 n3 c r :
  Fr.cullSphere (Fr.make nearZ farZ n0 n1 n2 n3) c r =
  Fr.cullSphere3 (Fr.make nearZ farZ n0 n1 n2 n3) (head3 c) r.
Proof.
  unfold Fr.cullSphere, Fr.cullSphere3, Fr.make; simpl.
  rewrite !dot4_zeroExtend, !head3_zeroExtend. reflexivity.
Qed.

Lemma cullSphere3_sound nearZ farZ n0 n1 n2 n3 c r :
  0 <= r ->
  dot3 n0 n0 <= 1 -> dot3 n1 n1 <= 1 -> dot3 n2 n2 <= 1 -> dot3 n3 n3 <= 1 ->
  Fr.intersects nearZ farZ n0 n1 n2 n3 c r ->
  Fr.cullSphere3 (Fr.make nearZ farZ n0 n1 n2 n3) c r = false.
Proof.
  intros Hr H0 H1 H2 H3 (p & Hd & (Hz & P0 & P1 & P2 & P3)).
  pose proof (z_test_sound c p r Hd) as Hzz.
  pose proof (plane_test_sound c p n0 r Hr H0 Hd P0).
  pose proof (plane_test_sound c p n1 r Hr H1 Hd P1).
  pose proof (plane_test_sound c p n2 r Hr H2 Hd P2).
  pose proof (plane_test_sound c p n3 r Hr H3 Hd P3).
  unfold Fr.cullSphere3, Fr.make; simpl.
  rewrite !head3_zeroExtend.
  settle_cmp. reflexivity.
Qed.

(** C3, as amended: over the reals, with the tests evaluated exactly,
    [cullSphere] is conservative for side-plane normals that are at most
    one unit long.  For every centre and every radius
    [r >= 0], a sphere that reaches a point of the view volume is not
    culled by either overload; so a sphere that is culled lies entirely
    outside the volume.  The test is a function of the frustum, the centre
    and the radius alone.  On the compiled code the rounding of the dot
    product can cull a sphere that reaches the volume by less than the
    rounding error ([cullSphere_binary64_culls_intersecting_sphere]). *)
Theorem cullSphere_conservative_unit_normals
  nearZ farZ n0 n1 n2 n3 (c : Vector3d) (w r : R) :
  0 <= r ->
  dot3 n0 n0 <= 1 -> dot3 n1 n1 <= 1 -> dot3 n2 n2 <= 1 -> dot3 n3 n3 <= 1 ->
  let f := Fr.make nearZ farZ n0 n1 n2 n3 in
  (Fr.intersects nearZ farZ n0 n1 n2 n3 c r ->
     Fr.cullSphere3 f c r = false /\
     Fr.cullSphere f (V4 (x3 c) (y3 c) (z3 c) w) r = false) /\
  (Fr.cullSphere3 f c r = true ->
     forall p, norm3 (sub3 p c) <= r -> ~ Fr.inside nearZ farZ n0 n1 n2 n3 p).
Proof.
  intros Hr H0 H1 H2 H3 f.
  assert (S : Fr.intersects nearZ farZ n0 n1 n2 n3 c r ->
              Fr.cullSphere3 f c r = false)
    by (apply cullSphere3_sound; assumption).
  split.
  - intros Hi. split; [auto|].
    unfold f. rewrite cullSphere_overloads.
    replace (head3 (V4 (x3 c) (y3 c) (z3 c) w)) with c by (destruct c; reflexivity).
    auto.
  - intros Ht p Hd Hin.
    rewrite S in Ht; [discriminate|].
    exists p; split; assumption.
Qed.

(** A frustum whose first two side normals are two units long, and a
    sphere of radius 2 around (-3/2, 0, -5) that reaches (0, 0, -5). *)
Definition longNormalsNear : R := -1.
Definition longNormalsFar : R := -10.
Definition longNormal0 : Vector3d := V3 2 0 0.
Definition longNormal1 : Vector3d := V3 (-2) 0 0.
Definition longNormal2 : Vector3d := V3 0 1 0.
Definition longNormal3 : Vector3d := V3 0 (-1) 0.
Definition longNormalsCentre : Vector3d := V3 (- (3 / 2)) 0 (-5).

Lemma cullSphere_conservative_unit_normals_witness :
  Fr.cullSphere3 (Fr.make (-1) (-10) (V3 (3/5) 0 (-(4/5))) (V3 (-(3/5)) 0 (-(4/5)))
                    (V3 0 (3/5) (-(4/5))) (V3 0 (-(3/5)) (-(4/5))))
                 (V3 0 0 (-11)) 2 = false.
Proof.
  refine (proj1 (proj1 (cullSphere_conservative_unit_normals
            (-1) (-10) (V3 (3/5) 0 (-(4/5))) (V3 (-(3/5)) 0 (-(4/5)))
            (V3 0 (3/5) (-(4/5))) (V3 0 (-(3/5)) (-(4/5)))
            (V3 0 0 (-11)) 1 2 _ _ _ _ _) _)).
  - lra.
  - unfold dot3; simpl; lra.
  - unfold dot3; simpl; lra.
  - unfold dot3; simpl; lra.
  - unfold dot3; simpl; lra.
  - exists (V3 0 0 (-10)). split.
    + apply norm3_le; [lra | unfold dot3, sub3; simpl; lra].
    + unfold Fr.inside, dot3; simpl. lra.
Defined.

(** C3 as stated fails: with normals longer than a unit vector a sphere
    that reaches the view volume is culled. *)
Lemma cullSphere_long_normals_culls_intersecting_sphere :
  0 <= 2 /\
  Fr.intersects longNormalsNear longNormalsFar
    longNormal0 longNormal1 longNormal2 longNormal3 longNormalsCentre 2 /\
  Fr.cullSphere3
    (Fr.make longNormalsNear longNormalsFar
       longNormal0 longNormal1 longNormal2 longNormal3)
    longNormalsCentre 2 = true.
Proof.
  split; [lra|]. split.
  - exists (V3 0 0 (-5)). split.
    + apply norm3_le; [lra | unfold dot3, sub3, longNormalsCentre; simpl; lra].
    + unfold Fr.inside, dot3, longNormalsNear, longNormalsFar,
        longNormal0, longNormal1, longNormal2, longNormal3; simpl. lra.
  - unfold Fr.cullSphere3, Fr.make, longNormalsNear, longNormalsFar,
      longNormal0, longNormal1, longNormal2, longNormal3, longNormalsCentre,
      dot3, head3, zeroExtend; simpl.
    settle_cmp. reflexivity.
Qed.

(** ** The sample store *)

Definition times (m : CP.Samples) : list R := map Sm.t m.

(** Strictly increasing sample times. *)
Inductive increasing : list R -> Prop :=
| inc_nil : increasing []
| inc_one a : increasing [a]
| inc_cons a b l : a < b -> increasing (b :: l) -> increasing (a :: b :: l).

#[local] Hint Constructors increasing : core.

(** A sequence of [addSample] calls, first call first. *)
Definition addSamples (xs : list Sm.sample) (m : CP.Samples) : CP.Samples :=
  fold_left (fun store x => CP.addSample x store) xs m.

(** The stores a [CurvePlot] can hold: [m_samples] is private, starts
    empty and is only changed by these three member functions. *)
Inductive reachable : CP.Samples -> Prop :=
| reach_empty : reachable []
| reach_addSample x m : reachable m -> reachable (CP.addSample x m)
| reach_removeBefore time m : reachable m -> reachable (CP.removeSamplesBefore time m)
| reach_removeAfter time m : reachable m -> reachable (CP.removeSamplesAfter time m).

(** [a] is immediately followed by [b] in the store. *)
Definition adjacent (a b : Sm.sample) (m : CP.Samples) : Prop :=
  exists before after, m = before ++ a :: b :: after.

(** The Hermite cubic of the segment from [a] to [b], as [addSample] builds
    it: from [(p0, p1, v0 * dt, v1 * dt)]. *)
Definition segmentCubic (a b : Sm.sample) : Matrix4d :=
  let dt := Sm.t b - Sm.t a in
  cubicHermiteCoefficients
    (zeroExtend (Sm.position a)) (zeroExtend (Sm.position b))
    (zeroExtend (scale3 (Sm.velocity a) dt))
    (zeroExtend (scale3 (Sm.velocity b) dt)).

(** Every sample but the first carries the radius of the segment that ends
    at it. *)
Fixpoint radiiComputed (m : CP.Samples) : Prop :=
  match m with
  | a :: (b :: _) as rest =>
      Sm.boundingRadius b = CP.segmentBoundingRadius a b /\ radiiComputed rest
  | _ => True
  end.

(** *** Lists *)

Lemma last_default {A} (l : list A) (d d' : A) : l <> [] -> last l d = last l d'.
Proof.
  induction l as [|a l IH]; [congruence|]. intros _.
  destruct l as [|b l]; [reflexivity|].
  change (last (b :: l) d = last (b :: l) d'). apply IH. discriminate.
Qed.

Lemma nth_length_app {A} (l : list A) (x d : A) (k : nat) :
  k = (length l - 1)%nat -> l <> [] -> nth k (l ++ [x]) d = last l d.
Proof.
  intros -> Hne. induction l as [|a l IH]; [congruence|].
  destruct l as [|b l]; [reflexivity|].
  simpl length. replace (S (S (length l)) - 1)%nat with (S (length (b :: l) - 1)) by (simpl; lia).
  change (nth (length (b :: l) - 1) ((b :: l) ++ [x]) d = last (b :: l) d).
  apply IH. discriminate.
Qed.

Lemma setRadiusAt_last (l : CP.Samples) (x : Sm.sample) (r : R) :
  CP.setRadiusAt (l ++ [x]) (length l) r = l ++ [Sm.setBoundingRadius x r].
Proof. induction l as [|a l IH]; simpl; [reflexivity | now rewrite IH]. Qed.

(** *** [addSample], case by case *)

Lemma addSample_empty x : CP.addSample x [] = [x].
Proof. reflexivity. Qed.

Lemma addSample_back x m :
  m <> [] -> Sm.t x > Sm.t (last m x) ->
  CP.addSample x m =
  m ++ [Sm.setBoundingRadius x (CP.segmentBoundingRadius (last m x) x)].
Proof.
  intros Hne Hgt. unfold CP.addSample.
  rewrite (dgt_true _ _ Hgt), orb_true_r.
  assert (Hlen : Nat.ltb 1 (length (m ++ [x])) = true).
  { apply Nat.ltb_lt. rewrite length_app. destruct m; [congruence | simpl; lia]. }
  rewrite Hlen.
  rewrite (nth_length_app m x x) by (auto; rewrite length_app; simpl; lia).
  replace (length (m ++ [x]) - 1)%nat with (length m) by (rewrite length_app; simpl; lia).
  apply setRadiusAt_last.
Qed.

Lemma addSample_front x f rest :
  Sm.t x <= Sm.t (last (f :: rest) x) -> Sm.t x < Sm.t f ->
  CP.addSample x (f :: rest) =
  x :: Sm.setBoundingRadius f (CP.segmentBoundingRadius x f) :: rest.
Proof.
  intros Hle Hlt. unfold CP.addSample.
  rewrite (dgt_false _ _ Hle). cbn [orb hd].
  rewrite (dlt_true _ _ Hlt). reflexivity.
Qed.

Lemma addSample_reject x f rest :
  Sm.t x <= Sm.t (last (f :: rest) x) -> Sm.t f <= Sm.t x ->
  CP.addSample x (f :: rest) = f :: rest.
Proof.
  intros Hle Hge. unfold CP.addSample.
  rewrite (dgt_false _ _ Hle). cbn [orb hd].
  rewrite (dlt_false _ _ Hge). reflexivity.
Qed.

(** The three cases of [addSample] on a non-empty store. *)
Lemma addSample_cases x f rest :
  let m := f :: rest in
  (Sm.t x > Sm.t (last m x) /\
   CP.addSample x m =
     m ++ [Sm.setBoundingRadius x (CP.segmentBoundingRadius (last m x) x)]) \/
  (Sm.t x <= Sm.t (last m x) /\ Sm.t x < Sm.t f /\
   CP.addSample x m =
     x :: Sm.setBoundingRadius f (CP.segmentBoundingRadius x f) :: rest) \/
  (Sm.t x <= Sm.t (last m x) /\ Sm.t f <= Sm.t x /\ CP.addSample x m = m).
Proof.
  intros m.
  destruct (Rgt_dec (Sm.t x) (Sm.t (last m x))) as [Hgt|Hngt].
  - left. split; [assumption|]. apply addSample_back; [discriminate | assumption].
  - assert (Hle : Sm.t x <= Sm.t (last m x)) by lra.
    destruct (Rlt_dec (Sm.t x) (Sm.t f)) as [Hlt|Hnlt].
    + right; left. repeat split; auto. apply addSample_front; assumption.
    + right; right. repeat split; auto; [lra|]. apply addSample_reject; [assumption | lra].
Qed.

(** *** Order of the sample times *)

Lemma increasing_tail a l : increasing (a :: l) -> increasing l.
Proof. inversion 1; auto. Qed.

Lemma increasing_snoc l x :
  increasing l -> (forall y, In y l -> y < x) -> increasing (l ++ [x]).
Proof.
  induction l as [|a l IH]; intros H Hall; simpl; [auto|].
  destruct l as [|b l].
  - simpl. constructor; [apply Hall; now left | auto].
  - inversion H; subst. simpl. constructor; [assumption|].
    apply IH; [assumption|]. intros y Hy. apply Hall. now right.
Qed.

Lemma increasing_le_last l d y :
  increasing l -> In y l -> y <= last l d.
Proof.
  revert y. induction l as [|a l IH]; intros y H Hin; [destruct Hin|].
  destruct l as [|b l].
  - destruct Hin as [<-|[]]. simpl. lra.
  - change (last (a :: b :: l) d) with (last (b :: l) d).
    destruct Hin as [<-|Hin].
    + inversion H; subst.
      assert (b <= last (b :: l) d) by (apply IH; [assumption | now left]). lra.
    + apply IH; [eapply increasing_tail; eassumption | assumption].
Qed.

Lemma increasing_app_l l1 l2 : increasing (l1 ++ l2) -> increasing l1.
Proof.
  induction l1 as [|a l1 IH]; intros H; [auto|].
  destruct l1 as [|b l1]; [auto|].
  simpl in H. inversion H; subst. constructor; [assumption|].
  apply IH. assumption.
Qed.

Lemma increasing_app_r l1 l2 : increasing (l1 ++ l2) -> increasing l2.
Proof.
  induction l1 as [|a l1 IH]; intros H; [assumption|].
  apply IH. simpl in H. eapply increasing_tail; eassumption.
Qed.

Lemma times_last (m : CP.Samples) d : m <> [] -> last (times m) (Sm.t d) = Sm.t (last m d).
Proof.
  induction m as [|a m IH]; [congruence|]. intros _.
  destruct m as [|b m]; [reflexivity|].
  change (last (times (b :: m)) (Sm.t d) = Sm.t (last (b :: m) d)).
  apply IH. discriminate.
Qed.

Lemma addSample_increasing x m :
  increasing (times m) -> increasing (times (CP.addSample x m)).
Proof.
  intros H. destruct m as [|f rest]; [simpl; auto|].
  destruct (addSample_cases x f rest) as [[Hgt ->]|[(Hle & Hlt & ->)|(_ & _ & ->)]].
  - unfold times. rewrite map_app. simpl map.
    apply increasing_snoc; [exact H|].
    intros y Hy.
    pose proof (increasing_le_last _ (Sm.t x) y H Hy) as Hl.
    fold (times (f :: rest)) in Hl.
    rewrite times_last in Hl by discriminate. lra.
  - simpl. constructor; [assumption | exact H].
  - exact H.
Qed.

Lemma addSamples_increasing xs m :
  increasing (times m) -> increasing (times (addSamples xs m)).
Proof.
  revert m. induction xs as [|x xs IH]; intros m H; [exact H|].
  simpl. apply IH. apply addSample_increasing. exact H.
Qed.

Lemma addSample_inside_unchanged x m :
  m <> [] -> Sm.t (hd x m) < Sm.t x < Sm.t (last m x) -> CP.addSample x m = m.
Proof.
  intros Hne [Hf Hl]. destruct m as [|f rest]; [congruence|].
  simpl in Hf. apply addSample_reject; lra.
Qed.

(** C4: from a store whose sample times increase strictly, every sequence
    of [addSample] calls leads to a store whose sample times increase
    strictly; and an [addSample] whose time lies strictly between the first
    and the last sample time of that store returns the store as it was. *)
Theorem addSample_keeps_times_increasing (m : CP.Samples) (xs : list Sm.sample) :
  increasing (times m) ->
  let store := addSamples xs m in
  increasing (times store) /\
  forall x, store <> [] ->
    Sm.t (hd x store) < Sm.t x < Sm.t (last store x) ->
    CP.addSample x store = store /\
    length (CP.addSample x store) = length store.
Proof.
  intros H store. split.
  - apply addSamples_increasing. exact H.
  - intros x Hne Hin.
    rewrite (addSample_inside_unchanged x store Hne Hin). auto.
Qed.

(** A sample on a straight path along the x axis, five units in front of
    the camera plane. *)
Definition sampleOnLine (time : R) : Sm.sample :=
  Sm.Make time (V3 time 0 (-5)) (V3 1 0 0) 0.

Lemma addSample_keeps_times_increasing_witness :
  let store := addSamples [sampleOnLine 5; sampleOnLine 20]
                          [sampleOnLine 0; sampleOnLine 10] in
  increasing (times store) /\
  forall x, store <> [] ->
    Sm.t (hd x store) < Sm.t x < Sm.t (last store x) ->
    CP.addSample x store = store /\
    length (CP.addSample x store) = length store.
Proof.
  apply (addSample_keeps_times_increasing
           [sampleOnLine 0; sampleOnLine 10] [sampleOnLine 5; sampleOnLine 20]).
  simpl. constructor; [lra | constructor].
Defined.

(** *** Pruning keeps a contiguous part of the store *)

Lemma removeSamplesBefore_suffix time m :
  exists dropped, m = dropped ++ CP.removeSamplesBefore time m.
Proof.
  induction m as [|s m [d IH]]; [exists []; reflexivity|].
  simpl. destruct (dlt (Sm.t s) time).
  - exists (s :: d). simpl. now rewrite <- IH.
  - exists []. reflexivity.
Qed.

Lemma removeSamplesAfter_prefix time m :
  exists dropped, m = CP.removeSamplesAfter time m ++ dropped.
Proof.
  unfold CP.removeSamplesAfter.
  set (popBack := fix popBack (l : CP.Samples) : CP.Samples :=
          match l with
          | [] => []
          | s :: rest => if dgt (Sm.t s) time then popBack rest else l
          end).
  assert (P : forall l, exists d, l = d ++ popBack l).
  { induction l as [|s l [d IH]]; [exists []; reflexivity|].
    simpl. destruct (dgt (Sm.t s) time).
    - exists (s :: d). simpl. now rewrite <- IH.
    - exists []. reflexivity. }
  destruct (P (rev m)) as [d Hd].
  exists (rev d).
  rewrite <- rev_app_distr, <- Hd, rev_involutive. reflexivity.
Qed.

Lemma reachable_increasing m : reachable m -> increasing (times m).
Proof.
  induction 1 as [|x m _ IH|time m _ IH|time m _ IH].
  - constructor.
  - apply addSample_increasing; assumption.
  - destruct (removeSamplesBefore_suffix time m) as [d E].
    rewrite E in IH. unfold times in IH. rewrite map_app in IH.
    eapply increasing_app_r; eassumption.
  - destruct (removeSamplesAfter_prefix time m) as [d E].
    rewrite E in IH. unfold times in IH. rewrite map_app in IH.
    eapply increasing_app_l; eassumption.
Qed.

Lemma front_le_back f rest d :
  increasing (times (f :: rest)) -> Sm.t f <= Sm.t (last (f :: rest) d).
Proof.
  intros H.
  rewrite <- times_last by discriminate.
  apply increasing_le_last; [assumption | now left].
Qed.

(** C10: on every non-empty store a [CurvePlot] can hold, [addSample] with
    a sample whose time equals the time of the first sample or the time of
    the last sample returns the store as it was; in particular a store of
    one sample drops a second sample of the same time. *)
Theorem addSample_boundary_time_dropped (m : CP.Samples) (x : Sm.sample) :
  reachable m -> m <> [] ->
  Sm.t x = Sm.t (hd x m) \/ Sm.t x = Sm.t (last m x) ->
  CP.addSample x m = m /\
  (forall s, Sm.t x = Sm.t s -> CP.addSample x [s] = [s]).
Proof.
  intros Hr Hne Hb. split.
  - destruct m as [|f rest]; [congruence|].
    pose proof (front_le_back f rest x (reachable_increasing _ Hr)) as Hfb.
    cbn [hd] in Hb. apply addSample_reject; destruct Hb; lra.
  - intros s E. apply addSample_reject; simpl; lra.
Qed.

Lemma addSample_boundary_time_dropped_witness :
  CP.addSample (sampleOnLine 10) (CP.addSample (sampleOnLine 10) (CP.addSample (sampleOnLine 0) []))
  = CP.addSample (sampleOnLine 10) (CP.addSample (sampleOnLine 0) []).
Proof.
  refine (proj1 (addSample_boundary_time_dropped
            (CP.addSample (sampleOnLine 10) (CP.addSample (sampleOnLine 0) []))
            (sampleOnLine 10) _ _ _)).
  - do 2 constructor. constructor.
  - rewrite addSample_empty, addSample_back by (simpl; try discriminate; lra).
    discriminate.
  - right.
    rewrite addSample_empty, addSample_back by (simpl; try discriminate; lra).
    reflexivity.
Defined.

(** *** The bounding radius of a segment *)

Lemma segmentBoundingRadius_setRadius_l a b r :
  CP.segmentBoundingRadius (Sm.setBoundingRadius a r) b = CP.segmentBoundingRadius a b.
Proof. reflexivity. Qed.

Lemma segmentBoundingRadius_setRadius_r a b r :
  CP.segmentBoundingRadius a (Sm.setBoundingRadius b r) = CP.segmentBoundingRadius a b.
Proof. reflexivity. Qed.

Lemma radiiComputed_snoc m x :
  m <> [] -> radiiComputed m ->
  Sm.boundingRadius x = CP.segmentBoundingRadius (last m x) x ->
  radiiComputed (m ++ [x]).
Proof.
  induction m as [|a m IH]; [congruence|]. intros _ Hm Hx.
  destruct m as [|b m].
  - simpl in *. auto.
  - destruct Hm as [Hab Hm].
    change ((a :: b :: m) ++ [x]) with (a :: b :: (m ++ [x])).
    split; [assumption|].
    apply IH; [discriminate | assumption | assumption].
Qed.

Lemma radiiComputed_app_l l1 l2 : radiiComputed (l1 ++ l2) -> radiiComputed l1.
Proof.
  induction l1 as [|a l1 IH]; intros H; [exact I|].
  destruct l1 as [|b l1]; [exact I|].
  destruct H as [Hab H]. split; [assumption | apply IH; assumption].
Qed.

Lemma radiiComputed_app_r l1 l2 : radiiComputed (l1 ++ l2) -> radiiComputed l2.
Proof.
  induction l1 as [|a l1 IH]; intros H; [assumption|].
  apply IH. destruct l1 as [|b l1].
  - simpl in *. destruct l2; [exact I | apply H].
  - apply H.
Qed.

Lemma addSample_radiiComputed x m :
  radiiComputed m -> radiiComputed (CP.addSample x m).
Proof.
  intros H. destruct m as [|f rest]; [exact I|].
  destruct (addSample_cases x f rest) as [[Hgt ->]|[(Hle & Hlt & ->)|(_ & _ & ->)]].
  - apply radiiComputed_snoc; [discriminate | assumption|].
    rewrite segmentBoundingRadius_setRadius_r.
    cbn [Sm.boundingRadius Sm.setBoundingRadius].
    f_equal. apply last_default. discriminate.
  - split; [reflexivity|].
    destruct rest as [|g rest]; [exact I|].
    destruct H as [Hfg H]. split; assumption.
  - assumption.
Qed.

Lemma reachable_radiiComputed m : reachable m -> radiiComputed m.
Proof.
  induction 1 as [|x m _ IH|time m _ IH|time m _ IH].
  - exact I.
  - apply addSample_radiiComputed; assumption.
  - destruct (removeSamplesBefore_suffix time m) as [d E].
    rewrite E in IH. eapply radiiComputed_app_r; eassumption.
  - destruct (removeSamplesAfter_prefix time m) as [d E].
    rewrite E in IH. eapply radiiComputed_app_l; eassumption.
Qed.

Lemma radiiComputed_adjacent a b m :
  radiiComputed m -> adjacent a b m ->
  Sm.boundingRadius b = CP.segmentBoundingRadius a b.
Proof.
  intros H (l1 & l2 & ->).
  apply radiiComputed_app_r in H. apply H.
Qed.

(** On [0 .. 1] a cubic without constant term stays within the sum of the
    absolute values of its coefficients. *)
Lemma cubic_excursion a b c u :
  0 <= u <= 1 ->
  Rabs (u * a + u * u * b + u * u * u * c) <= Rabs a + Rabs b + Rabs c.
Proof.
  intros Hu.
  assert (H2 : 0 <= u * u <= 1) by nra.
  assert (H3 : 0 <= u * u * u <= 1) by nra.
  eapply Rle_trans; [apply Rabs_triang|].
  eapply Rle_trans; [apply Rplus_le_compat_r, Rabs_triang|].
  rewrite !Rabs_mult.
  rewrite (Rabs_right u) by lra.
  pose proof (Rabs_pos a) as Ha. pose proof (Rabs_pos b) as Hb.
  pose proof (Rabs_pos c) as Hc.
  assert (u * Rabs a <= Rabs a) by nra.
  assert (u * u * Rabs b <= Rabs b) by nra.
  assert (u * u * u * Rabs c <= Rabs c) by nra.
  lra.
Qed.

Lemma sqr_le_of_abs_le d e : Rabs d <= e -> d * d <= e * e.
Proof.
  intros H. pose proof (Rabs_pos d).
  assert (Rsqr d <= Rsqr e).
  { apply Rsqr_le_abs_1. rewrite (Rabs_right e) by lra. assumption. }
  unfold Rsqr in *. assumption.
Qed.

(** The extents vector of [addSample] bounds the excursion of the cubic
    from its start point, for any coefficient matrix. *)
Lemma extents_bound_excursion (coeff : Matrix4d) (u : R) :
  0 <= u <= 1 ->
  norm4 (sub4 (cubicAt coeff u) (cubicAt coeff 0))
  <= norm4 (mulMV (cwiseAbs coeff) (V4 0 1 1 1)).
Proof.
  intros Hu. unfold norm4.
  apply sqrt_le_1_alt.
  destruct coeff as [[c0x c0y c0z c0w] [c1x c1y c1z c1w]
                     [c2x c2y c2z c2w] [c3x c3y c3z c3w]].
  unfold dot4, sub4, cubicAt, mulMV, cwiseAbs, add4, scale4, abs4; simpl.
  pose proof (sqr_le_of_abs_le _ _ (cubic_excursion c1x c2x c3x u Hu)) as Hx.
  pose proof (sqr_le_of_abs_le _ _ (cubic_excursion c1y c2y c3y u Hu)) as Hy.
  pose proof (sqr_le_of_abs_le _ _ (cubic_excursion c1z c2z c3z u Hu)) as Hz.
  pose proof (sqr_le_of_abs_le _ _ (cubic_excursion c1w c2w c3w u Hu)) as Hw.
  match goal with |- ?l <= ?r =>
    replace l with
      ((u * c1x + u * u * c2x + u * u * u * c3x) * (u * c1x + u * u * c2x + u * u * u * c3x) +
       (u * c1y + u * u * c2y + u * u * u * c3y) * (u * c1y + u * u * c2y + u * u * u * c3y) +
       (u * c1z + u * u * c2z + u * u * u * c3z) * (u * c1z + u * u * c2z + u * u * u * c3z) +
       (u * c1w + u * u * c2w + u * u * u * c3w) * (u * c1w + u * u * c2w + u * u * u * c3w))
      by ring;
    replace r with
      ((Rabs c1x + Rabs c2x + Rabs c3x) * (Rabs c1x + Rabs c2x + Rabs c3x) +
       (Rabs c1y + Rabs c2y + Rabs c3y) * (Rabs c1y + Rabs c2y + Rabs c3y) +
       (Rabs c1z + Rabs c2z + Rabs c3z) * (Rabs c1z + Rabs c2z + Rabs c3z) +
       (Rabs c1w + Rabs c2w + Rabs c3w) * (Rabs c1w + Rabs c2w + Rabs c3w))
      by ring
  end.
  lra.
Qed.

(** *** The cubic of a segment is its Hermite interpolant *)

(** The derivative of the cubic with respect to its parameter:
    [coeff * Vector4d(0, 1, 2 t, 3 t^2)]. *)
Definition cubicTangentAt (coeff : Matrix4d) (t : R) : Vector4d :=
  mulMV coeff (V4 0 1 (2 * t) (3 * (t * t))).

Lemma cubic_component_derivative a b c d t :
  derivable_pt_lim (fun u => 1 * a + u * b + u * u * c + u * u * u * d) t
                   (0 * a + 1 * b + 2 * t * c + 3 * (t * t) * d).
Proof.
  assert (Hid : derivable_pt_lim (fun u : R => u) t 1) by apply derivable_pt_lim_id.
  assert (H2 : derivable_pt_lim (fun u : R => u * u) t (2 * t)).
  { replace (2 * t) with (1 * t + t * 1) by ring.
    apply (derivable_pt_lim_mult (fun u => u) (fun u => u)); assumption. }
  assert (H3 : derivable_pt_lim (fun u : R => u * u * u) t (3 * (t * t))).
  { replace (3 * (t * t)) with (2 * t * t + t * t * 1) by ring.
    apply (derivable_pt_lim_mult (fun u => u * u) (fun u => u)); assumption. }
  assert (K : forall f l k, derivable_pt_lim f t l ->
                            derivable_pt_lim (fun u => f u * k) t (l * k)).
  { intros f l k Hf.
    replace (l * k) with (l * k + f t * 0) by ring.
    apply (derivable_pt_lim_mult f (fun _ => k)); [assumption|].
    apply derivable_pt_lim_const. }
  apply (derivable_pt_lim_plus
           (fun u => 1 * a + u * b + u * u * c) (fun u => u * u * u * d)); [|apply K, H3].
  apply (derivable_pt_lim_plus
           (fun u => 1 * a + u * b) (fun u => u * u * c)); [|apply K, H2].
  apply (derivable_pt_lim_plus (fun u => 1 * a) (fun u => u * b)); [|apply K, Hid].
  replace (0 * a) with 0 by ring.
  apply (derivable_pt_lim_const (1 * a)).
Qed.

Lemma cubicTangent_is_derivative coeff t :
  derivable_pt_lim (fun u => x4 (cubicAt coeff u)) t (x4 (cubicTangentAt coeff t)) /\
  derivable_pt_lim (fun u => y4 (cubicAt coeff u)) t (y4 (cubicTangentAt coeff t)) /\
  derivable_pt_lim (fun u => z4 (cubicAt coeff u)) t (z4 (cubicTangentAt coeff t)) /\
  derivable_pt_lim (fun u => w4 (cubicAt coeff u)) t (w4 (cubicTangentAt coeff t)).
Proof.
  destruct coeff as [[a0 a1 a2 a3] [b0 b1 b2 b3] [c0 c1 c2 c3] [d0 d1 d2 d3]].
  unfold cubicAt, cubicTangentAt.
  cbv beta zeta delta [mulMV add4 scale4 x4 y4 z4 w4 col0 col1 col2 col3] iota.
  repeat split; apply cubic_component_derivative.
Qed.

(** At parameter [t] the cubic moves with velocity [v]: each component of
    [v] is the derivative of that component of the curve. *)
Definition cubicVelocity (coeff : Matrix4d) (t : R) (v : Vector4d) : Prop :=
  derivable_pt_lim (fun u => x4 (cubicAt coeff u)) t (x4 v) /\
  derivable_pt_lim (fun u => y4 (cubicAt coeff u)) t (y4 v) /\
  derivable_pt_lim (fun u => z4 (cubicAt coeff u)) t (z4 v) /\
  derivable_pt_lim (fun u => w4 (cubicAt coeff u)) t (w4 v).

Lemma cubicTangent_endpoints (p0 p1 v0 v1 : Vector4d) :
  cubicTangentAt (cubicHermiteCoefficients p0 p1 v0 v1) 0 = v0 /\
  cubicTangentAt (cubicHermiteCoefficients p0 p1 v0 v1) 1 = v1.
Proof.
  destruct p0 as [a0 a1 a2 a3], p1 as [b0 b1 b2 b3],
           v0 as [c0 c1 c2 c3], v1 as [d0 d1 d2 d3].
  cbv beta zeta delta [cubicTangentAt cubicHermiteCoefficients mulMV
    add4 sub4 scale4 x4 y4 z4 w4 col0 col1 col2 col3] iota.
  split; f_equal; ring.
Qed.

Lemma cubicAt_endpoints (p0 p1 v0 v1 : Vector4d) :
  cubicAt (cubicHermiteCoefficients p0 p1 v0 v1) 0 = p0 /\
  cubicAt (cubicHermiteCoefficients p0 p1 v0 v1) 1 = p1.
Proof.
  destruct p0 as [a0 a1 a2 a3], p1 as [b0 b1 b2 b3],
           v0 as [c0 c1 c2 c3], v1 as [d0 d1 d2 d3].
  cbv beta zeta delta [cubicAt cubicHermiteCoefficients mulMV
    add4 sub4 scale4 x4 y4 z4 w4 col0 col1 col2 col3] iota.
  split; f_equal; ring.
Qed.

(** The cubic of a segment is the Hermite interpolant of its two samples:
    it starts at the first position and ends at the second, with the
    velocities of the samples scaled by the duration of the segment. *)
Lemma segmentCubic_interpolates (a b : Sm.sample) :
  let dt := Sm.t b - Sm.t a in
  cubicAt (segmentCubic a b) 0 = zeroExtend (Sm.position a) /\
  cubicAt (segmentCubic a b) 1 = zeroExtend (Sm.position b) /\
  cubicVelocity (segmentCubic a b) 0 (zeroExtend (scale3 (Sm.velocity a) dt)) /\
  cubicVelocity (segmentCubic a b) 1 (zeroExtend (scale3 (Sm.velocity b) dt)).
Proof.
  intros dt. unfold segmentCubic. fold dt.
  set (p0 := zeroExtend (Sm.position a)). set (p1 := zeroExtend (Sm.position b)).
  set (v0 := zeroExtend (scale3 (Sm.velocity a) dt)).
  set (v1 := zeroExtend (scale3 (Sm.velocity b) dt)).
  destruct (cubicAt_endpoints p0 p1 v0 v1) as [E0 E1].
  destruct (cubicTangent_endpoints p0 p1 v0 v1) as [T0 T1].
  split; [exact E0|]. split; [exact E1|].
  pose proof (cubicTangent_is_derivative (cubicHermiteCoefficients p0 p1 v0 v1) 0) as D0.
  pose proof (cubicTangent_is_derivative (cubicHermiteCoefficients p0 p1 v0 v1) 1) as D1.
  rewrite T0 in D0. rewrite T1 in D1.
  split; [exact D0 | exact D1].
Qed.

(** C2, as amended: over the reals.  In every store a [CurvePlot] can hold,
    the bounding radius that [addSample] stored for a pair of adjacent
    samples is the norm of the absolute coefficient matrix applied to
    (0, 1, 1, 1), where the coefficients are those of the Hermite cubic of
    the pair: the cubic [p] with [p(0) = p0], [p(1) = p1], [p'(0) = v0 * dt]
    and [p'(1) = v1 * dt].  That radius is at least the distance from the
    start point [p(0)] to [p(u)] for every [u] in [0 .. 1]. *)
Theorem boundingRadius_bounds_segment (m : CP.Samples) (a b : Sm.sample) (u : R) :
  reachable m -> adjacent a b m -> 0 <= u <= 1 ->
  let dt := Sm.t b - Sm.t a in
  let p := cubicAt (segmentCubic a b) in
  (p 0 = zeroExtend (Sm.position a) /\
   p 1 = zeroExtend (Sm.position b) /\
   cubicVelocity (segmentCubic a b) 0 (zeroExtend (scale3 (Sm.velocity a) dt)) /\
   cubicVelocity (segmentCubic a b) 1 (zeroExtend (scale3 (Sm.velocity b) dt))) /\
  Sm.boundingRadius b =
    norm4 (mulMV (cwiseAbs (segmentCubic a b)) (V4 0 1 1 1)) /\
  norm4 (sub4 (p u) (p 0)) <= Sm.boundingRadius b.
Proof.
  intros Hr Hadj Hu dt p.
  pose proof (radiiComputed_adjacent a b m (reachable_radiiComputed m Hr) Hadj) as E.
  split; [exact (segmentCubic_interpolates a b)|].
  split; [exact E|].
  rewrite E. apply extents_bound_excursion. exact Hu.
Qed.

(** The store after [addSample] at time 0 and then at time 10. *)
Definition twoSamples : CP.Samples :=
  CP.addSample (sampleOnLine 10) (CP.addSample (sampleOnLine 0) []).

Lemma twoSamples_eq :
  twoSamples =
  [sampleOnLine 0;
   Sm.setBoundingRadius (sampleOnLine 10)
     (CP.segmentBoundingRadius (sampleOnLine 0) (sampleOnLine 10))].
Proof.
  unfold twoSamples.
  rewrite addSample_empty, addSample_back by (simpl; try discriminate; lra).
  reflexivity.
Qed.

Lemma twoSamples_reachable : reachable twoSamples.
Proof. do 2 constructor. constructor. Qed.

Lemma boundingRadius_bounds_segment_witness :
  let a := sampleOnLine 0 in
  let b := Sm.setBoundingRadius (sampleOnLine 10)
             (CP.segmentBoundingRadius (sampleOnLine 0) (sampleOnLine 10)) in
  let dt := Sm.t b - Sm.t a in
  let p := cubicAt (segmentCubic a b) in
  (p 0 = zeroExtend (Sm.position a) /\
   p 1 = zeroExtend (Sm.position b) /\
   cubicVelocity (segmentCubic a b) 0 (zeroExtend (scale3 (Sm.velocity a) dt)) /\
   cubicVelocity (segmentCubic a b) 1 (zeroExtend (scale3 (Sm.velocity b) dt))) /\
  Sm.boundingRadius b =
    norm4 (mulMV (cwiseAbs (segmentCubic a b)) (V4 0 1 1 1)) /\
  norm4 (sub4 (p (1 / 2)) (p 0)) <= Sm.boundingRadius b.
Proof.
  apply (boundingRadius_bounds_segment twoSamples).
  - exact twoSamples_reachable.
  - exists [], []. exact twoSamples_eq.
  - lra.
Defined.

(** ** [HighPrec_VertexBuffer] *)

Lemma store_same d i v : VB.store d i v i = v.
Proof. unfold VB.store. now rewrite Nat.eqb_refl. Qed.

Lemma store_other d i v j : j <> i -> VB.store d i v j = d j.
Proof. intros H. unfold VB.store. apply Nat.eqb_neq in H. now rewrite H. Qed.

Ltac store_simp :=
  repeat first [ rewrite store_same | rewrite store_other by lia ].

(** The buffer as [end_strip] leaves it when the open strip has at least two
    vertices. *)
Lemma end_strip_long b :
  (2 <= VB.currentStripLength b)%nat ->
  let index := (VB.currentPosition b * 2)%nat in
  let b' := VB.end_strip b in
  VB.currentPosition b' = S (VB.currentPosition b) /\
  VB.currentStripLength b' = 0%nat /\
  VB.stripLengths b' = VB.stripLengths b ++ [VB.currentStripLength b] /\
  VB.capacity b' = VB.capacity b /\
  VB.lineAsTriangles b' = VB.lineAsTriangles b /\
  VB.gl b' = VB.gl b /\
  ((2 <= VB.currentPosition b)%nat ->
   VB.position (VB.data b' index) = VB.position (VB.data b (index - 4)) /\
   VB.position (VB.data b' (index + 1)) = VB.position (VB.data b (index - 3)) /\
   VB.data b' (index - 2) =
     VB.setScale (VB.data b (index - 2)) (- VB.scale (VB.data b (index - 2))) /\
   VB.data b' (index - 1) =
     VB.setScale (VB.data b (index - 1)) (- VB.scale (VB.data b (index - 1))) /\
   (forall j, (j < index - 2)%nat -> VB.data b' j = VB.data b j)).
Proof.
  intros Hlen index b'. subst b'. unfold VB.end_strip.
  assert (E : Nat.ltb 1 (VB.currentStripLength b) = true) by (apply Nat.ltb_lt; lia).
  rewrite E. cbn [VB.currentPosition VB.currentStripLength VB.stripLengths
                  VB.capacity VB.lineAsTriangles VB.gl VB.data].
  fold index.
  repeat split; try (rewrite Nat.add_1_r; reflexivity).
  - store_simp. reflexivity.
  - store_simp. reflexivity.
  - store_simp. reflexivity.
  - store_simp. reflexivity.
  - intros j Hj. store_simp. reflexivity.
Qed.

Lemma end_strip_short b :
  (VB.currentStripLength b < 2)%nat ->
  VB.end_strip b =
  VB.Make (VB.currentPosition b - VB.currentStripLength b) (VB.capacity b)
          (VB.data b) (VB.vbobj b) 0 (VB.stripLengths b) (VB.m_color b)
          (VB.lineAsTriangles b) (VB.gl b).
Proof.
  intros H. unfold VB.end_strip.
  assert (E : Nat.ltb 1 (VB.currentStripLength b) = false) by (apply Nat.ltb_ge; lia).
  now rewrite E.
Qed.

(** [flush(false)] on a buffer that holds something. *)
Lemma flush_false_nonempty b :
  (0 < VB.currentPosition b)%nat ->
  VB.flush false b =
  VB.Make 0 (VB.capacity b) (VB.data b) (VB.vbobj b) 0 [] (VB.m_color b)
          (VB.lineAsTriangles b)
          (VB.gl b ++
           VB.glBufferSubData (map (VB.data b) (seq 0 (VB.currentPosition b * 2)))
           :: VB.drawStrips (VB.lineAsTriangles b) 0 (VB.stripLengths b)).
Proof.
  intros H. unfold VB.flush.
  assert (E : Nat.ltb 0 (VB.currentPosition b) = true) by (apply Nat.ltb_lt; lia).
  rewrite E. reflexivity.
Qed.

Lemma flush_empty e b :
  VB.currentPosition b = 0%nat ->
  VB.flush e b =
  VB.Make 0 (VB.capacity b) (VB.data b) (VB.vbobj b) 0 (VB.stripLengths b)
          (VB.m_color b) (VB.lineAsTriangles b) (VB.gl b).
Proof.
  intros H. unfold VB.flush. rewrite H. change (Nat.ltb 0 0) with false.
  cbv iota. rewrite H. reflexivity.
Qed.

(** [vertex] away from the end of the buffer. *)
Lemma vertexColor_room v c b :
  S (VB.currentPosition b) <> VB.capacity b ->
  VB.vertexColor v c b =
  VB.Make (S (VB.currentPosition b)) (VB.capacity b)
          (VB.store (VB.store (VB.data b) (VB.currentPosition b * 2)
                       (VB.MkVertex v c (- (1 / 2))))
                    (VB.currentPosition b * 2 + 1) (VB.MkVertex v c (1 / 2)))
          (VB.vbobj b) (S (VB.currentStripLength b)) (VB.stripLengths b)
          (VB.m_color b) (VB.lineAsTriangles b) (VB.gl b).
Proof.
  intros H. unfold VB.vertexColor.
  cbn [VB.currentPosition VB.capacity].
  rewrite !Nat.add_1_r.
  apply Nat.eqb_neq in H. rewrite H. reflexivity.
Qed.

(** C7, as amended.  Postcondition of [end()] on a buffer whose open strip
    lies inside the buffer and whose cursor is below the capacity.  The
    strip length is reset.  A strip of fewer than 2 vertices is discarded by
    moving the cursor back over it: nothing is recorded, drawn or written,
    and after one [vertex] followed by [end] the cursor, the strip list, the
    log and the buffer below the cursor are what they were before the
    vertex.  For a strip of 2 or more vertices the position of the
    second-to-last vertex (not of the last one) is copied to the slot pair
    after the final vertex, the scale factors of the final vertex are
    negated, the cursor advances by one and the strip length is recorded;
    when the cursor thereby reaches the capacity the buffer is flushed at
    once, which uploads and draws the recorded strips and empties the list. *)
Theorem end_postcondition (b : VB.t) :
  (VB.currentStripLength b <= VB.currentPosition b)%nat ->
  (VB.currentPosition b < VB.capacity b)%nat ->
  let b' := VB.end_ true b in
  let index := (VB.currentPosition b * 2)%nat in
  VB.currentStripLength b' = 0%nat /\
  ((VB.currentStripLength b < 2)%nat ->
     VB.currentPosition b' = (VB.currentPosition b - VB.currentStripLength b)%nat /\
     VB.stripLengths b' = VB.stripLengths b /\
     VB.data b' = VB.data b /\
     VB.gl b' = VB.gl b) /\
  ((2 <= VB.currentStripLength b)%nat ->
     VB.position (VB.data b' index) = VB.position (VB.data b (index - 4)) /\
     VB.position (VB.data b' (index + 1)) = VB.position (VB.data b (index - 3)) /\
     VB.data b' (index - 2) =
       VB.setScale (VB.data b (index - 2)) (- VB.scale (VB.data b (index - 2))) /\
     VB.data b' (index - 1) =
       VB.setScale (VB.data b (index - 1)) (- VB.scale (VB.data b (index - 1))) /\
     (forall j, (j < index - 2)%nat -> VB.data b' j = VB.data b j) /\
     if Nat.eqb (S (VB.currentPosition b)) (VB.capacity b)
     then VB.currentPosition b' = 0%nat /\
          VB.stripLengths b' = [] /\
          VB.gl b' =
            VB.gl b ++
            VB.glBufferSubData
              (map (VB.data b') (seq 0 (S (VB.currentPosition b) * 2)))
            :: VB.drawStrips (VB.lineAsTriangles b) 0
                 (VB.stripLengths b ++ [VB.currentStripLength b])
     else VB.currentPosition b' = S (VB.currentPosition b) /\
          VB.stripLengths b' = VB.stripLengths b ++ [VB.currentStripLength b] /\
          VB.gl b' = VB.gl b) /\
  (forall v c,
     VB.currentStripLength b = 0%nat ->
     S (VB.currentPosition b) <> VB.capacity b ->
     let b1 := VB.end_ true (VB.vertexColor v c b) in
     VB.currentPosition b1 = VB.currentPosition b /\
     VB.currentStripLength b1 = 0%nat /\
     VB.stripLengths b1 = VB.stripLengths b /\
     VB.gl b1 = VB.gl b /\
     forall j, (j < VB.currentPosition b * 2)%nat -> VB.data b1 j = VB.data b j).
Proof.
  intros Hin Hcap b' index. subst b'.
  split; [|split; [|split]].
  - unfold VB.end_.
    destruct (true && Nat.eqb (VB.currentPosition (VB.end_strip b))
                        (VB.capacity (VB.end_strip b))).
    + unfold VB.flush. reflexivity.
    + unfold VB.end_strip. destruct (Nat.ltb 1 (VB.currentStripLength b)); reflexivity.
  - intros Hshort. unfold VB.end_. rewrite (end_strip_short b Hshort).
    cbn [VB.currentPosition VB.capacity andb].
    assert (E : Nat.eqb (VB.currentPosition b - VB.currentStripLength b)
                        (VB.capacity b) = false) by (apply Nat.eqb_neq; lia).
    rewrite E. cbn. auto.
  - intros Hlong.
    destruct (end_strip_long b Hlong)
      as (Hcp & Hcsl & Hsl & Hcapa & Htri & Hgl & Hdata).
    destruct (Hdata ltac:(lia)) as (P0 & P1 & S2 & S1 & Hrest).
    unfold VB.end_. cbn [andb]. rewrite Hcp, Hcapa.
    destruct (Nat.eqb (S (VB.currentPosition b)) (VB.capacity b)) eqn:E.
    + rewrite flush_false_nonempty by lia.
      cbn [VB.data VB.currentPosition VB.stripLengths VB.gl].
      rewrite Hcp, Hsl, Htri, Hgl. fold index. auto 10.
    + fold index. auto 10.
  - intros v c Hz Hroom b1. subst b1.
    rewrite (vertexColor_room v c b Hroom).
    unfold VB.end_. rewrite end_strip_short by (cbn; lia).
    cbn [VB.currentPosition VB.currentStripLength VB.capacity VB.data
         VB.stripLengths VB.gl andb].
    rewrite Hz.
    assert (E : Nat.eqb (S (VB.currentPosition b) - 1) (VB.capacity b) = false)
      by (apply Nat.eqb_neq; lia).
    rewrite E. cbn [VB.currentPosition VB.currentStripLength VB.capacity VB.data
         VB.stripLengths VB.gl].
    repeat split; try lia.
    intros j Hj. store_simp. reflexivity.
Qed.

(** A buffer as the constructor leaves it, with blank memory. *)
Definition blankVertex : VB.Vertex := VB.MkVertex (V4 0 0 0 0) (V4 0 0 0 0) 0.
Definition white : Vector4f := V4 1 1 1 1.
Definition newBuffer : VB.t := VB.make (fun _ => blankVertex) white.

Definition pointA : Vector4d := V4 0 0 (-5) 1.
Definition pointB : Vector4d := V4 1 0 (-5) 1.

(** [begin(); vertex(pointA); vertex(pointB)] on a new buffer. *)
Definition twoVertexStrip : VB.t :=
  VB.vertex pointB (VB.vertex pointA (VB.begin newBuffer)).

Lemma twoVertexStrip_cursor :
  VB.currentPosition twoVertexStrip = 2%nat /\
  VB.currentStripLength twoVertexStrip = 2%nat /\
  VB.capacity twoVertexStrip = 4096%nat.
Proof. repeat split; reflexivity. Qed.

Lemma twoVertexStrip_positions :
  VB.position (VB.data twoVertexStrip 0) = pointA /\
  VB.position (VB.data twoVertexStrip 2) = pointB.
Proof. split; reflexivity. Qed.

Lemma pointA_neq_pointB : pointA <> pointB.
Proof. unfold pointA, pointB. intros H. injection H. lra. Qed.

Lemma end_postcondition_witness :
  VB.position (VB.data (VB.end_ true twoVertexStrip) 4) =
  VB.position (VB.data twoVertexStrip 0).
Proof.
  destruct twoVertexStrip_cursor as (Hcp & Hcsl & Hcap).
  refine (proj1 (proj1 (proj2 (proj2 (end_postcondition twoVertexStrip _ _))) _)).
  - rewrite Hcp, Hcsl. lia.
  - rewrite Hcp, Hcap. lia.
  - rewrite Hcsl. lia.
Defined.

(** C7 as stated fails: after [end()] on a strip of two vertices the slot
    after the final vertex holds the position of the first (second-to-last)
    vertex, which differs from that of the last vertex. *)
Lemma end_appends_second_to_last_point :
  (2 <= VB.currentStripLength twoVertexStrip)%nat /\
  VB.position (VB.data (VB.end_ true twoVertexStrip)
                 (VB.currentPosition twoVertexStrip * 2)) = pointA /\
  VB.position (VB.data twoVertexStrip
                 (VB.currentPosition twoVertexStrip * 2 - 2)) = pointB /\
  VB.position (VB.data (VB.end_ true twoVertexStrip)
                 (VB.currentPosition twoVertexStrip * 2)) <>
  VB.position (VB.data twoVertexStrip
                 (VB.currentPosition twoVertexStrip * 2 - 2)).
Proof.
  assert (E1 : VB.position (VB.data (VB.end_ true twoVertexStrip)
                 (VB.currentPosition twoVertexStrip * 2)) = pointA) by reflexivity.
  assert (E2 : VB.position (VB.data twoVertexStrip
                 (VB.currentPosition twoVertexStrip * 2 - 2)) = pointB) by reflexivity.
  split; [|split; [exact E1 | split; [exact E2|]]].
  - destruct twoVertexStrip_cursor as (_ & -> & _). lia.
  - rewrite E1, E2. exact pointA_neq_pointB.
Qed.

(** *** What the logged OpenGL calls draw *)

(** [glBufferSubData(GL_ARRAY_BUFFER, 0, size, data)] overwrites the start
    of the buffer object. *)
Definition gpuUpload (buffer uploaded : list VB.Vertex) : list VB.Vertex :=
  uploaded ++ skipn (length uploaded) buffer.

(** The polyline that one [glDrawArrays] call of [flush] draws, with the
    attribute layout of [setup]: as a line strip the stride is two
    vertices, so element [e] is slot [2 * e]; as a triangle strip the stride
    is one vertex and every point of the polyline takes two elements. *)
Definition polyline (buffer : list VB.Vertex) (mode : GLenum) (first count : nat)
  : list Vector4f :=
  match mode with
  | GL_LINE_STRIP =>
      map (fun k => VB.position (nth ((first + k) * 2) buffer blankVertex))
          (seq 0 count)
  | GL_TRIANGLE_STRIP =>
      map (fun k => VB.position (nth (first + k * 2) buffer blankVertex))
          (seq 0 (count / 2))
  end.

(** The polylines drawn by a sequence of logged calls, in order, starting
    from the buffer object contents [buffer]. *)
Fixpoint drawnPolylines (buffer : list VB.Vertex) (calls : list VB.GLCall)
  : list (list Vector4f) :=
  match calls with
  | [] => []
  | VB.glBufferSubData uploaded :: rest =>
      drawnPolylines (gpuUpload buffer uploaded) rest
  | VB.glDrawArrays mode first count :: rest =>
      polyline buffer mode first count :: drawnPolylines buffer rest
  end.


(** A run of [vertex(v, color)] calls, first call first. *)
Definition emit (vs : list (Vector4d * Vector4f)) (b : VB.t) : VB.t :=
  fold_left (fun b vc => VB.vertexColor (fst vc) (snd vc) b) vs b.

(** The polylines a buffer of capacity [cap] hands to OpenGL while the
    points [vs] are added to an open strip that holds [cur], and the strip
    it holds afterwards. *)
Fixpoint feed (cap : nat) (cur vs : list Vector4f)
  : list (list Vector4f) * list Vector4f :=
  match vs with
  | [] => ([], cur)
  | v :: rest =>
      if Nat.eqb (S (length cur)) cap
      then let '(out, final) := feed cap [v] rest in ((cur ++ [v]) :: out, final)
      else feed cap (cur ++ [v]) rest
  end.

(** The polyline that closing the strip [cur] adds. *)
Definition closing (cur : list Vector4f) : list (list Vector4f) :=
  if Nat.leb 2 (length cur) then [cur] else [].

(** The buffer holds exactly the open strip [cur], nothing is recorded, and
    [g] has been logged. *)
Definition holdsStrip (cap : nat) (tri : bool) (b : VB.t) (cur : list Vector4f)
  (g : list VB.GLCall) : Prop :=
  VB.capacity b = cap /\ VB.lineAsTriangles b = tri /\
  VB.stripLengths b = [] /\
  VB.currentPosition b = length cur /\ VB.currentStripLength b = length cur /\
  (length cur < cap)%nat /\
  (forall k, (k < length cur)%nat ->
     VB.position (VB.data b (k * 2)) = nth k cur (V4 0 0 0 0)) /\
  VB.gl b = g.

Lemma map_nth_seq {A} (l : list A) (d : A) :
  map (fun k => nth k l d) (seq 0 (length l)) = l.
Proof.
  induction l as [|a l IH]; [reflexivity|].
  simpl. f_equal. rewrite <- seq_shift, map_map. exact IH.
Qed.

Lemma nth_map_seq {A} (f : nat -> A) (n k : nat) (d : A) :
  (k < n)%nat -> nth k (map f (seq 0 n)) d = f k.
Proof.
  intros H. rewrite (nth_indep _ d (f 0%nat)) by (rewrite length_map, length_seq; lia).
  rewrite (map_nth f (seq 0 n) 0%nat k). now rewrite seq_nth.
Qed.

Lemma drawnPolylines_app buffer c1 c2 :
  exists buffer', drawnPolylines buffer (c1 ++ c2)
                  = drawnPolylines buffer c1 ++ drawnPolylines buffer' c2.
Proof.
  revert buffer. induction c1 as [|c c1 IH]; intros buffer.
  - exists buffer. reflexivity.
  - destruct c as [u|mode first count]; simpl.
    + apply IH.
    + destruct (IH buffer) as [b' E]. exists b'. now rewrite E.
Qed.

(** Both layouts of [drawStrips] draw the points held by the even slots. *)
Lemma polyline_drawStrips tri buffer startIndex lineCount :
  drawnPolylines buffer (VB.drawStrips tri startIndex [lineCount]) =
  [map (fun k => VB.position (nth ((startIndex + k) * 2) buffer blankVertex))
       (seq 0 lineCount)].
Proof.
  destruct tri; cbn [VB.drawStrips drawnPolylines polyline]; f_equal;
    try reflexivity.
  rewrite Nat.div_mul by discriminate.
  apply map_ext. intros k. do 2 f_equal. lia.
Qed.

Lemma drawnPolylines_compose c1 c2 o1 o2 :
  (forall buffer, drawnPolylines buffer c1 = o1) ->
  (forall buffer, drawnPolylines buffer c2 = o2) ->
  forall buffer, drawnPolylines buffer (c1 ++ c2) = o1 ++ o2.
Proof.
  intros H1 H2 buffer.
  destruct (drawnPolylines_app buffer c1 c2) as [b' E].
  rewrite E, H1, H2. reflexivity.
Qed.

(** An upload of the first [n] slots followed by the draw of one strip that
    starts at slot 0 and lies inside the upload. *)
Lemma upload_then_draw tri buffer (d : nat -> VB.Vertex) n len (cur : list Vector4f) :
  (len * 2 <= n)%nat -> length cur = len ->
  (forall k, (k < len)%nat -> VB.position (d (k * 2)%nat) = nth k cur (V4 0 0 0 0)) ->
  drawnPolylines buffer
    (VB.glBufferSubData (map d (seq 0 n)) :: VB.drawStrips tri 0 [len]) = [cur].
Proof.
  intros Hn Hlen Hpos.
  cbn [drawnPolylines]. rewrite polyline_drawStrips. f_equal.
  rewrite <- (map_nth_seq cur (V4 0 0 0 0)), Hlen.
  apply map_ext_in. intros k Hk. apply in_seq in Hk.
  unfold gpuUpload. rewrite app_nth1 by (rewrite length_map, length_seq; lia).
  rewrite nth_map_seq by lia.
  apply Hpos. lia.
Qed.

Lemma end_strip_positions b :
  (2 <= VB.currentStripLength b)%nat -> (2 <= VB.currentPosition b)%nat ->
  forall j, (j < VB.currentPosition b * 2)%nat ->
    VB.position (VB.data (VB.end_strip b) j) = VB.position (VB.data b j).
Proof.
  intros Hlen Hcp j Hj.
  destruct (end_strip_long b Hlen) as (_ & _ & _ & _ & _ & _ & Hdata).
  destruct (Hdata Hcp) as (_ & _ & S2 & S1 & Hrest).
  destruct (Nat.eq_dec j (VB.currentPosition b * 2 - 2)) as [->|N2];
    [rewrite S2; reflexivity|].
  destruct (Nat.eq_dec j (VB.currentPosition b * 2 - 1)) as [->|N1];
    [rewrite S1; reflexivity|].
  rewrite Hrest by lia. reflexivity.
Qed.


Lemma holdsStrip_vertex_room cap tri b cur g v c :
  holdsStrip cap tri b cur g -> S (length cur) <> cap ->
  holdsStrip cap tri (VB.vertexColor v c b) (cur ++ [v]) g.
Proof.
  intros (Hcap & Htri & Hsl & Hcp & Hcsl & Hlt & Hpos & Hgl) Hroom.
  rewrite vertexColor_room by (rewrite Hcp, Hcap; assumption).
  unfold holdsStrip; cbn [VB.capacity VB.lineAsTriangles VB.stripLengths
    VB.currentPosition VB.currentStripLength VB.data VB.gl].
  rewrite length_app; simpl length.
  repeat split; try assumption; try lia.
  intros k Hk. rewrite Hcp.
  destruct (Nat.eq_dec k (length cur)) as [->|Hne].
  - store_simp. rewrite nth_middle. reflexivity.
  - store_simp. rewrite app_nth1 by lia. apply Hpos. lia.
Qed.

Lemma holdsStrip_vertex_full cap tri b cur g v c :
  holdsStrip cap tri b cur g -> S (length cur) = cap -> (2 <= cap)%nat ->
  exists calls,
    holdsStrip cap tri (VB.vertexColor v c b) [v] (g ++ calls) /\
    forall buffer, drawnPolylines buffer calls = [cur ++ [v]].
Proof.
  intros (Hcap & Htri & Hsl & Hcp & Hcsl & Hlt & Hpos & Hgl) Hfull Hcap2.
  unfold VB.vertexColor.
  set (b1 := VB.Make (VB.currentPosition b + 1) (VB.capacity b) _ (VB.vbobj b)
               (VB.currentStripLength b + 1) (VB.stripLengths b) (VB.m_color b)
               (VB.lineAsTriangles b) (VB.gl b)).
  assert (Hcp1 : VB.currentPosition b1 = cap) by (subst b1; cbn; lia).
  assert (Hcsl1 : VB.currentStripLength b1 = cap) by (subst b1; cbn; lia).
  assert (Hcap1 : VB.capacity b1 = cap) by (subst b1; cbn; lia).
  assert (Hpos1 : forall k, (k < cap)%nat ->
            VB.position (VB.data b1 (k * 2)) = nth k (cur ++ [v]) (V4 0 0 0 0)).
  { intros k Hk. subst b1. cbn [VB.data]. rewrite Hcp.
    destruct (Nat.eq_dec k (length cur)) as [->|Hne].
    - store_simp. rewrite nth_middle. reflexivity.
    - store_simp. rewrite app_nth1 by lia. apply Hpos. lia. }
  rewrite Hcp1, Hcap1, Nat.eqb_refl.
  unfold VB.flush.
  assert (E0 : Nat.ltb 0 (VB.currentPosition b1) = true) by (apply Nat.ltb_lt; lia).
  assert (E1 : Nat.ltb 1 (VB.currentStripLength b1) = true) by (apply Nat.ltb_lt; lia).
  rewrite E0, E1. cbn [andb].
  destruct (end_strip_long b1 ltac:(lia)) as (Ecp & Ecsl & Esl & Ecapa & Etri & Egl & _).
  pose proof (end_strip_positions b1 ltac:(lia) ltac:(lia)) as Epos.
  cbn [VB.capacity VB.lineAsTriangles VB.stripLengths VB.currentPosition
       VB.currentStripLength VB.data VB.gl VB.vbobj VB.m_color].
  rewrite Ecp, Esl, Etri, Egl, Ecapa, Hcp1, Hcap1.
  assert (Esl1 : VB.stripLengths b1 = []) by (subst b1; cbn; assumption).
  assert (Etri1 : VB.lineAsTriangles b1 = tri) by (subst b1; cbn; assumption).
  assert (Egl1 : VB.gl b1 = g) by (subst b1; cbn; assumption).
  rewrite Esl1, Etri1, Egl1, Hcsl1. cbn [app].
  eexists. split.
  - unfold holdsStrip; cbn [VB.capacity VB.lineAsTriangles VB.stripLengths
      VB.currentPosition VB.currentStripLength VB.data VB.gl length].
    repeat split; try lia.
    intros k Hk. assert (k = 0%nat) as -> by lia. cbn [Nat.mul nth].
    store_simp. reflexivity.
  - intros buffer.
    apply upload_then_draw.
    + lia.
    + rewrite length_app; simpl; lia.
    + intros k Hk. rewrite Epos by lia. apply Hpos1. assumption.
Qed.

(** The run of [vertex] calls against the reference [feed]. *)
Lemma holdsStrip_emit cap tri vs : forall b cur g,
  (2 <= cap)%nat -> holdsStrip cap tri b cur g ->
  exists calls,
    holdsStrip cap tri (emit vs b) (snd (feed cap cur (map fst vs))) (g ++ calls) /\
    forall buffer, drawnPolylines buffer calls = fst (feed cap cur (map fst vs)).
Proof.
  induction vs as [|[v c] vs IH]; intros b cur g Hcap H.
  - exists []. rewrite app_nil_r. split; [exact H | reflexivity].
  - cbn [emit fold_left map fst snd feed].
    destruct (Nat.eqb (S (length cur)) cap) eqn:E.
    + apply Nat.eqb_eq in E.
      destruct (holdsStrip_vertex_full cap tri b cur g v c H E Hcap)
        as (calls1 & H1 & D1).
      destruct (IH _ _ _ Hcap H1) as (calls2 & H2 & D2).
      exists (calls1 ++ calls2).
      fold (emit vs (VB.vertexColor v c b)).
      destruct (feed cap [v] (map fst vs)) as [out final].
      cbn [fst snd] in *.
      rewrite app_assoc. split; [exact H2|].
      change ((cur ++ [v]) :: out) with ([cur ++ [v]] ++ out).
      apply drawnPolylines_compose; assumption.
    + apply Nat.eqb_neq in E.
      pose proof (holdsStrip_vertex_room cap tri b cur g v c H E) as H1.
      destruct (IH _ _ _ Hcap H1) as (calls2 & H2 & D2).
      exists calls2. split; assumption.
Qed.

(** [end()] followed by [flush()] on a buffer that holds one open strip. *)
Lemma holdsStrip_end_flush cap tri b cur g :
  holdsStrip cap tri b cur g ->
  exists calls,
    VB.gl (VB.flush true (VB.end_ true b)) = g ++ calls /\
    VB.currentPosition (VB.flush true (VB.end_ true b)) = 0%nat /\
    forall buffer, drawnPolylines buffer calls = closing cur.
Proof.
  intros (Hcap & Htri & Hsl & Hcp & Hcsl & Hlt & Hpos & Hgl).
  unfold closing. destruct (Nat.leb 2 (length cur)) eqn:E.
  - apply Nat.leb_le in E.
    destruct (end_strip_long b ltac:(lia)) as (Ecp & Ecsl & Esl & Ecapa & Etri & Egl & _).
    pose proof (end_strip_positions b ltac:(lia) ltac:(lia)) as Epos.
    exists (VB.glBufferSubData
              (map (VB.data (VB.end_strip b)) (seq 0 (S (length cur) * 2)))
            :: VB.drawStrips tri 0 [length cur]).
    assert (D : forall buffer,
      drawnPolylines buffer
        (VB.glBufferSubData
           (map (VB.data (VB.end_strip b)) (seq 0 (S (length cur) * 2)))
         :: VB.drawStrips tri 0 [length cur]) = [cur]).
    { intros buffer. apply upload_then_draw; [lia | reflexivity|].
      intros k Hk. rewrite Epos by lia. apply Hpos. assumption. }
    unfold VB.end_. cbn [andb]. rewrite Ecp, Ecapa, Hcp, Hcap.
    destruct (Nat.eqb (S (length cur)) cap) eqn:F.
    + rewrite (flush_false_nonempty (VB.end_strip b)) by lia.
      rewrite flush_empty by reflexivity.
      cbn [VB.gl VB.currentPosition].
      rewrite Ecp, Esl, Etri, Egl, Hcp, Hsl, Hgl, Hcsl, Htri. cbn [app]. auto.
    + unfold VB.flush.
      assert (E0 : Nat.ltb 0 (VB.currentPosition (VB.end_strip b)) = true)
        by (apply Nat.ltb_lt; lia).
      assert (E1 : Nat.ltb 1 (VB.currentStripLength (VB.end_strip b)) = false)
        by (apply Nat.ltb_ge; lia).
      rewrite E0, E1. cbn [andb VB.gl VB.currentPosition].
      rewrite Ecp, Esl, Etri, Egl, Hcp, Hsl, Hgl, Hcsl, Htri. cbn [app]. auto.
  - apply Nat.leb_gt in E.
    exists []. rewrite app_nil_r.
    unfold VB.end_. rewrite end_strip_short by lia.
    cbn [VB.currentPosition VB.capacity andb].
    assert (F : Nat.eqb (VB.currentPosition b - VB.currentStripLength b)
                        (VB.capacity b) = false) by (apply Nat.eqb_neq; lia).
    rewrite F. rewrite flush_empty by (cbn; lia).
    cbn [VB.gl VB.currentPosition]. auto.
Qed.

(** *** Segments of the reference polylines *)





Lemma end_strip_gl b : VB.gl (VB.end_strip b) = VB.gl b.
Proof.
  unfold VB.end_strip. destruct (Nat.ltb 1 (VB.currentStripLength b)); reflexivity.
Qed.

Lemma flush_nonempty_fields e b :
  (0 < VB.currentPosition b)%nat ->
  VB.currentPosition (VB.flush e b) = 0%nat /\
  VB.currentStripLength (VB.flush e b) = 0%nat /\
  VB.stripLengths (VB.flush e b) = [] /\
  (length (VB.gl b) < length (VB.gl (VB.flush e b)))%nat.
Proof.
  intros H. unfold VB.flush.
  assert (E : Nat.ltb 0 (VB.currentPosition b) = true) by (apply Nat.ltb_lt; lia).
  rewrite E.
  cbn [VB.currentPosition VB.currentStripLength VB.stripLengths VB.gl].
  repeat split.
  rewrite length_app.
  destruct (e && Nat.ltb 1 (VB.currentStripLength b));
    rewrite ?end_strip_gl; simpl; lia.
Qed.




(** *** A strip one vertex longer than the buffer *)

Lemma feed_room cap vs : forall cur,
  (length cur + length vs < cap)%nat -> feed cap cur vs = ([], cur ++ vs).
Proof.
  induction vs as [|v vs IH]; intros cur H.
  - now rewrite app_nil_r.
  - cbn [feed]. simpl length in H.
    assert (E : Nat.eqb (S (length cur)) cap = false) by (apply Nat.eqb_neq; lia).
    rewrite E, IH by (rewrite length_app; simpl; lia).
    now rewrite <- app_assoc.
Qed.








(** ** [HighPrec_RenderContext]: the recursion of [renderCubic] *)

Lemma InvSubdivisionFactor_eq : InvSubdivisionFactor = / 8.
Proof.
  unfold InvSubdivisionFactor, SubdivisionFactor.
  replace (INR 8) with 8 by (simpl; lra). lra.
Qed.

Lemma dmax_ge_l a b : a <= dmax a b.
Proof. rewrite dmax_Rmax. apply Rmax_l. Qed.

Lemma forEach_total {S} (body : nat -> S -> outcome S) range :
  (forall i s, In i range -> exists s', body i s = Done s') ->
  forall s, exists s', forEach body range s = Done s'.
Proof.
  induction range as [|i range IH]; intros Hb s.
  - exists s. reflexivity.
  - destruct (Hb i s (or_introl eq_refl)) as [s1 E1].
    cbn [forEach]. rewrite E1. cbn [bind].
    apply IH. intros j s' Hj. apply Hb. now right.
Qed.

Lemma forEach_mono {S} (body1 body2 : nat -> S -> outcome S) range :
  (forall i s s', body1 i s = Done s' -> body2 i s = Done s') ->
  forall s s', forEach body1 range s = Done s' -> forEach body2 range s = Done s'.
Proof.
  intros Hb. induction range as [|i range IH]; intros s s' H.
  - exact H.
  - cbn [forEach] in *.
    destruct (body1 i s) as [s1| |] eqn:E1; cbn [bind] in H; try discriminate.
    rewrite (Hb _ _ _ E1). cbn [bind]. apply IH. exact H.
Qed.

Lemma renderCubic_unfold fuel rc restartCurve coeff t0 t1 radius depth vbuf :
  RC.renderCubic (S fuel) rc restartCurve coeff t0 t1 radius depth vbuf =
  ('(restartCurve', _, vbuf') <-
     forEach (RC.cubicBody rc
                (fun r a b rad d v => RC.renderCubic fuel rc r coeff a b rad d v)
                coeff t0 ((t1 - t0) * InvSubdivisionFactor)
                (radius * InvSubdivisionFactor) depth)
             (seq 1 SubdivisionFactor) (restartCurve, cubicAt coeff t0, vbuf) ;;
   Done (restartCurve', vbuf')).
Proof. reflexivity. Qed.

Lemma renderCubicFaded_unfold fuel rc restartCurve coeff t0 t1 color fadeStart
  fadeRate radius depth vbuf :
  RC.renderCubicFaded (S fuel) rc restartCurve coeff t0 t1 color fadeStart fadeRate
    radius depth vbuf =
  ('(restartCurve', _, _, vbuf') <-
     forEach (RC.cubicFadedBody rc
                (fun r a b rad d v =>
                   RC.renderCubicFaded fuel rc r coeff a b color fadeStart fadeRate
                     rad d v)
                coeff t0 ((t1 - t0) * InvSubdivisionFactor) color fadeStart fadeRate
                (radius * InvSubdivisionFactor) depth)
             (seq 1 SubdivisionFactor)
             (restartCurve, cubicAt coeff t0,
              clamp ((t0 - fadeStart) * fadeRate) 0 1, vbuf) ;;
   Done (restartCurve', vbuf')).
Proof. reflexivity. Qed.

(** More fuel does not change a result. *)
Lemma renderCubic_fuel_mono fuel : forall rc restartCurve coeff t0 t1 radius depth vbuf res,
  RC.renderCubic fuel rc restartCurve coeff t0 t1 radius depth vbuf = Done res ->
  RC.renderCubic (S fuel) rc restartCurve coeff t0 t1 radius depth vbuf = Done res.
Proof.
  induction fuel as [|fuel IH]; intros rc restartCurve coeff t0 t1 radius depth vbuf res H;
    [discriminate|].
  rewrite renderCubic_unfold in H. rewrite renderCubic_unfold.
  match type of H with
  | bind (forEach ?body ?range ?s) ?k = _ =>
      destruct (forEach body range s) as [s'| |] eqn:E; cbn [bind] in H;
        try discriminate
  end.
  erewrite forEach_mono; [cbn [bind]; exact H | | exact E].
  intros i [[r lastP] vb] s2. unfold RC.cubicBody.
  destruct (dge _ _); [|auto].
  destruct (Fr.cullSphere _ _ _); [auto|].
  match goal with
  | |- bind ?m _ = _ -> _ => destruct m as [[r' vb']| |] eqn:Er; cbn [bind];
                             try discriminate
  end.
  intros Hs. rewrite (IH _ _ _ _ _ _ _ _ _ Er). cbn [bind]. exact Hs.
Qed.

Lemma renderCubic_fuel_le fuel fuel' rc restartCurve coeff t0 t1 radius depth vbuf res :
  (fuel <= fuel')%nat ->
  RC.renderCubic fuel rc restartCurve coeff t0 t1 radius depth vbuf = Done res ->
  RC.renderCubic fuel' rc restartCurve coeff t0 t1 radius depth vbuf = Done res.
Proof.
  induction 1; [auto|]. intros E. apply renderCubic_fuel_mono. auto.
Qed.

Lemma renderCubicFaded_fuel_mono fuel :
  forall rc restartCurve coeff t0 t1 color fadeStart fadeRate radius depth vbuf res,
  RC.renderCubicFaded fuel rc restartCurve coeff t0 t1 color fadeStart fadeRate
    radius depth vbuf = Done res ->
  RC.renderCubicFaded (S fuel) rc restartCurve coeff t0 t1 color fadeStart fadeRate
    radius depth vbuf = Done res.
Proof.
  induction fuel as [|fuel IH];
    intros rc restartCurve coeff t0 t1 color fadeStart fadeRate radius depth vbuf res H;
    [discriminate|].
  rewrite renderCubicFaded_unfold in H. rewrite renderCubicFaded_unfold.
  match type of H with
  | bind (forEach ?body ?range ?s) ?k = _ =>
      destruct (forEach body range s) as [s'| |] eqn:E; cbn [bind] in H;
        try discriminate
  end.
  erewrite forEach_mono; [cbn [bind]; exact H | | exact E].
  intros i [[[r lastP] lastOpacity] vb] s2. unfold RC.cubicFadedBody.
  destruct (dge _ _); [|auto].
  destruct (Fr.cullSphere _ _ _); [auto|].
  match goal with
  | |- bind ?m _ = _ -> _ => destruct m as [[r' vb']| |] eqn:Er; cbn [bind];
                             try discriminate
  end.
  intros Hs. rewrite (IH _ _ _ _ _ _ _ _ _ _ _ _ Er). cbn [bind]. exact Hs.
Qed.

Lemma renderCubicFaded_fuel_le fuel fuel' rc restartCurve coeff t0 t1 color
  fadeStart fadeRate radius depth vbuf res :
  (fuel <= fuel')%nat ->
  RC.renderCubicFaded fuel rc restartCurve coeff t0 t1 color fadeStart fadeRate
    radius depth vbuf = Done res ->
  RC.renderCubicFaded fuel' rc restartCurve coeff t0 t1 color fadeStart fadeRate
    radius depth vbuf = Done res.
Proof.
  induction 1; [auto|]. intros E. apply renderCubicFaded_fuel_mono. auto.
Qed.

(** A sub-segment is only subdivided while its radius is at least
    [subdivisionThreshold * -nearZ]. *)
Lemma subdivision_needs_radius rc p radius :
  RC.m_subdivisionThreshold rc > 0 ->
  dge radius (RC.m_subdivisionThreshold rc *
              dmax (- Fr.nearZ (RC.m_viewFrustum rc)) (Rabs (z4 p) - radius)) = true ->
  RC.m_subdivisionThreshold rc * - Fr.nearZ (RC.m_viewFrustum rc) <= radius.
Proof.
  intros Hthr H. apply dge_spec in H.
  pose proof (dmax_ge_l (- Fr.nearZ (RC.m_viewFrustum rc)) (Rabs (z4 p) - radius)).
  nra.
Qed.

(** With a radius below [subdivisionThreshold * -nearZ * 8 ^ n] the
    recursion is at most [n] calls deep. *)
Lemma renderCubic_depth_bound rc :
  RC.m_subdivisionThreshold rc > 0 -> Fr.nearZ (RC.m_viewFrustum rc) < 0 ->
  forall n radius,
    radius * InvSubdivisionFactor
      < RC.m_subdivisionThreshold rc * - Fr.nearZ (RC.m_viewFrustum rc) * 8 ^ n ->
    forall restartCurve coeff t0 t1 depth vbuf,
    exists res,
      RC.renderCubic (S n) rc restartCurve coeff t0 t1 radius depth vbuf = Done res.
Proof.
  intros Hthr Hnear.
  induction n as [|n IH]; intros radius Hr restartCurve coeff t0 t1 depth vbuf.
  - rewrite renderCubic_unfold.
    match goal with
    | |- exists _, bind (forEach ?body ?range ?st) _ = _ =>
        assert (Hb : forall i s0, In i range -> exists s', body i s0 = Done s');
          [|destruct (forEach_total body range Hb st) as [[[r lastP] vb] E]]
    end.
    + intros i [[r lastP] vb] _. unfold RC.cubicBody.
      destruct (dge _ _) eqn:D.
      * apply subdivision_needs_radius in D; [|assumption]. simpl pow in Hr. lra.
      * destruct r; eauto.
    + rewrite E. cbn [bind]. eauto.
  - rewrite renderCubic_unfold.
    match goal with
    | |- exists _, bind (forEach ?body ?range ?st) _ = _ =>
        assert (Hb : forall i s0, In i range -> exists s', body i s0 = Done s');
          [|destruct (forEach_total body range Hb st) as [[[r lastP] vb] E]]
    end.
    + intros i [[r lastP] vb] _. unfold RC.cubicBody.
      destruct (dge _ _) eqn:D; [|destruct r; eauto].
      destruct (Fr.cullSphere _ _ _); [destruct r; cbn [negb]; eauto|].
      destruct (IH (radius * InvSubdivisionFactor)) with
        (restartCurve := r) (coeff := coeff)
        (t0 := t0 + (t1 - t0) * InvSubdivisionFactor * INR i
               - (t1 - t0) * InvSubdivisionFactor)
        (t1 := t0 + (t1 - t0) * InvSubdivisionFactor * INR i)
        (depth := (depth + 1)%nat) (vbuf := vb) as [[r' vb'] Er].
      { rewrite InvSubdivisionFactor_eq in *. simpl pow in Hr. lra. }
      rewrite Er. cbn [bind]. eauto.
    + rewrite E. cbn [bind]. eauto.
Qed.

Lemma renderCubicFaded_depth_bound rc :
  RC.m_subdivisionThreshold rc > 0 -> Fr.nearZ (RC.m_viewFrustum rc) < 0 ->
  forall n radius,
    radius * InvSubdivisionFactor
      < RC.m_subdivisionThreshold rc * - Fr.nearZ (RC.m_viewFrustum rc) * 8 ^ n ->
    forall restartCurve coeff t0 t1 color fadeStart fadeRate depth vbuf,
    exists res,
      RC.renderCubicFaded (S n) rc restartCurve coeff t0 t1 color fadeStart fadeRate
        radius depth vbuf = Done res.
Proof.
  intros Hthr Hnear.
  induction n as [|n IH];
    intros radius Hr restartCurve coeff t0 t1 color fadeStart fadeRate depth vbuf.
  - rewrite renderCubicFaded_unfold.
    match goal with
    | |- exists _, bind (forEach ?body ?range ?st) _ = _ =>
        assert (Hb : forall i s0, In i range -> exists s', body i s0 = Done s');
          [|destruct (forEach_total body range Hb st) as [[[[r lastP] o] vb] E]]
    end.
    + intros i [[[r lastP] o] vb] _. unfold RC.cubicFadedBody.
      destruct (dge _ _) eqn:D.
      * apply subdivision_needs_radius in D; [|assumption]. simpl pow in Hr. lra.
      * destruct r; eauto.
    + rewrite E. cbn [bind]. eauto.
  - rewrite renderCubicFaded_unfold.
    match goal with
    | |- exists _, bind (forEach ?body ?range ?st) _ = _ =>
        assert (Hb : forall i s0, In i range -> exists s', body i s0 = Done s');
          [|destruct (forEach_total body range Hb st) as [[[[r lastP] o] vb] E]]
    end.
    + intros i [[[r lastP] o] vb] _. unfold RC.cubicFadedBody.
      destruct (dge _ _) eqn:D; [|destruct r; eauto].
      destruct (Fr.cullSphere _ _ _); [destruct r; cbn [negb]; eauto|].
      destruct (IH (radius * InvSubdivisionFactor)) with
        (restartCurve := r) (coeff := coeff)
        (t0 := t0 + (t1 - t0) * InvSubdivisionFactor * INR i
               - (t1 - t0) * InvSubdivisionFactor)
        (t1 := t0 + (t1 - t0) * InvSubdivisionFactor * INR i)
        (color := color) (fadeStart := fadeStart) (fadeRate := fadeRate)
        (depth := (depth + 1)%nat) (vbuf := vb) as [[r' vb'] Er].
      { rewrite InvSubdivisionFactor_eq in *. simpl pow in Hr. lra. }
      rewrite Er. cbn [bind]. eauto.
    + rewrite E. cbn [bind]. eauto.
Qed.

(** Every radius is below [eps * 8 ^ n] for some [n]. *)
Lemma below_some_power eps x : 0 < eps -> exists n : nat, x < eps * 8 ^ n.
Proof.
  intros Heps.
  destruct (Pow_x_infinity 8 ltac:(rewrite Rabs_right; lra) (x / eps + 1)) as [N HN].
  exists N. specialize (HN N (Nat.le_refl N)).
  rewrite Rabs_right in HN by (apply Rle_ge, pow_le; lra).
  assert (x / eps < 8 ^ N) by lra.
  apply (Rmult_lt_compat_l eps) in H; [|assumption].
  replace (eps * (x / eps)) with x in H by (field; lra).
  exact H.
Qed.

(** C9, as amended: over the reals, where
    [subdivisionThreshold * -nearZ > 0] cannot underflow.  For every
    [subdivisionThreshold > 0] and [nearZ < 0] and all coefficients,
    parameters and bounding radius, [renderCubic] and [renderCubicFaded]
    return: a sub-segment is only subdivided while its
    radius, an eighth of its parent's, is at least
    [subdivisionThreshold * minDistance >= subdivisionThreshold * -nearZ > 0],
    so there is a number of nested calls beyond which every amount of fuel
    gives the same result.  On the compiled code the product can underflow
    to 0 and the recursion then does not end, as the part on binary64
    shows. *)
Theorem renderCubic_terminates
  rc restartCurve coeff t0 t1 color fadeStart fadeRate radius depth vbuf :
  RC.m_subdivisionThreshold rc > 0 -> Fr.nearZ (RC.m_viewFrustum rc) < 0 ->
  exists (maxDepth : nat),
    radius * InvSubdivisionFactor
      < RC.m_subdivisionThreshold rc * - Fr.nearZ (RC.m_viewFrustum rc) * 8 ^ maxDepth /\
    (exists res, forall fuel, (maxDepth < fuel)%nat ->
       RC.renderCubic fuel rc restartCurve coeff t0 t1 radius depth vbuf = Done res) /\
    (exists res, forall fuel, (maxDepth < fuel)%nat ->
       RC.renderCubicFaded fuel rc restartCurve coeff t0 t1 color fadeStart fadeRate
         radius depth vbuf = Done res).
Proof.
  intros Hthr Hnear.
  destruct (below_some_power
              (RC.m_subdivisionThreshold rc * - Fr.nearZ (RC.m_viewFrustum rc))
              (radius * InvSubdivisionFactor)) as [n Hn]; [nra|].
  exists n. split; [exact Hn|]. split.
  - destruct (renderCubic_depth_bound rc Hthr Hnear n radius Hn
                restartCurve coeff t0 t1 depth vbuf) as [res E].
    exists res. intros fuel Hf.
    eapply renderCubic_fuel_le; [|exact E]. lia.
  - destruct (renderCubicFaded_depth_bound rc Hthr Hnear n radius Hn
                restartCurve coeff t0 t1 color fadeStart fadeRate depth vbuf) as [res E].
    exists res. intros fuel Hf.
    eapply renderCubicFaded_fuel_le; [|exact E]. lia.
Qed.

(** A frustum with unit side normals, a threshold of 1, and a straight
    segment of length 8 a hundred units in front of the camera. *)
Definition unitFrustum : Fr.t :=
  Fr.make (-1) (-1000)
    (V3 (3 / 5) 0 (- (4 / 5))) (V3 (- (3 / 5)) 0 (- (4 / 5)))
    (V3 0 (3 / 5) (- (4 / 5))) (V3 0 (- (3 / 5)) (- (4 / 5))).
Definition farContext : RC.t := RC.Make unitFrustum 1.
Definition farLine : Matrix4d :=
  M4 (V4 0 0 (-100) 1) (V4 8 0 0 0) (V4 0 0 0 0) (V4 0 0 0 0).

Lemma renderCubic_terminates_witness :
  exists (maxDepth : nat),
    8 * InvSubdivisionFactor
      < RC.m_subdivisionThreshold farContext
        * - Fr.nearZ (RC.m_viewFrustum farContext) * 8 ^ maxDepth /\
    (exists res, forall fuel, (maxDepth < fuel)%nat ->
       RC.renderCubic fuel farContext true farLine 0 1 8 1 newBuffer = Done res) /\
    (exists res, forall fuel, (maxDepth < fuel)%nat ->
       RC.renderCubicFaded fuel farContext true farLine 0 1 white 0 1 8 1 newBuffer
         = Done res).
Proof.
  apply (renderCubic_terminates farContext true farLine 0 1 white 0 1 8 1 newBuffer).
  - cbn. lra.
  - cbn. lra.
Defined.

(** *** The subdivision rule, in the words of the specification *)

Section SubdivisionRule.

Variable rc : RC.t.
Variable coeff : Matrix4d.
Variables t0 t1 curveBoundingRadius : R.

(** The [i]-th of the 8 equal sub-intervals of [t0 .. t1], counted from 1. *)
Definition subIntervalStart (i : nat) : R := t0 + INR (i - 1) * ((t1 - t0) / 8).
Definition subIntervalEnd (i : nat) : R := t0 + INR i * ((t1 - t0) / 8).

(** The parent's bounding radius divided by the fan-out. *)
Definition subRadius : R := curveBoundingRadius / 8.

(** [max(-nearZ, |z of the subdivision point| - segmentBoundingRadius)] *)
Definition subMinDistance (i : nat) : R :=
  Rmax (- Fr.nearZ (RC.m_viewFrustum rc))
       (Rabs (z4 (cubicAt coeff (subIntervalEnd i))) - subRadius).

(** [segmentBoundingRadius >= subdivisionThreshold * minDistance] *)
Definition subdivideOrCull (i : nat) : bool :=
  if Rge_dec subRadius (RC.m_subdivisionThreshold rc * subMinDistance i)
  then true else false.

(** What the rule does with sub-interval [i]: cull it or subdivide it when
    the inequality holds, draw it otherwise.  Drawing emits the end point,
    after [begin()] and the start point when no strip is open. *)
Definition ruleStep
  (subdivide : bool -> R -> R -> R -> VB.t -> outcome (bool * VB.t))
  (i : nat) (s : bool * VB.t) : outcome (bool * VB.t) :=
  let '(restartCurve, vbuf) := s in
  let p := cubicAt coeff (subIntervalEnd i) in
  if subdivideOrCull i then
    if Fr.cullSphere (RC.m_viewFrustum rc) p subRadius
    then Done (true, if restartCurve then vbuf else VB.end_ true vbuf)
    else subdivide restartCurve (subIntervalStart i) (subIntervalEnd i) subRadius vbuf
  else
    Done (false,
          VB.vertex p
            (if restartCurve
             then VB.vertex (cubicAt coeff (subIntervalStart i)) (VB.begin vbuf)
             else vbuf)).

Variable color : Vector4f.
Variables fadeStart fadeRate : R.

(** The opacity at parameter [u]. *)
Definition opacityAt (u : R) : R := clamp ((u - fadeStart) * fadeRate) 0 1.

Definition ruleStepFaded
  (subdivide : bool -> R -> R -> R -> VB.t -> outcome (bool * VB.t))
  (i : nat) (s : bool * VB.t) : outcome (bool * VB.t) :=
  let '(restartCurve, vbuf) := s in
  let p := cubicAt coeff (subIntervalEnd i) in
  if subdivideOrCull i then
    if Fr.cullSphere (RC.m_viewFrustum rc) p subRadius
    then Done (true, if restartCurve then vbuf else VB.end_ true vbuf)
    else subdivide restartCurve (subIntervalStart i) (subIntervalEnd i) subRadius vbuf
  else
    Done (false,
          VB.vertexColor p (RC.fadedColor color (opacityAt (subIntervalEnd i)))
            (if restartCurve
             then VB.vertexColor (cubicAt coeff (subIntervalStart i))
                    (RC.fadedColor color (opacityAt (subIntervalStart i)))
                    (VB.begin vbuf)
             else vbuf)).

Lemma code_parameter i :
  t0 + (t1 - t0) * InvSubdivisionFactor * INR i = subIntervalEnd i.
Proof. unfold subIntervalEnd. rewrite InvSubdivisionFactor_eq. lra. Qed.

Lemma code_previous_parameter i :
  (1 <= i)%nat ->
  subIntervalEnd i - (t1 - t0) * InvSubdivisionFactor = subIntervalStart i.
Proof.
  intros H. unfold subIntervalEnd, subIntervalStart.
  rewrite InvSubdivisionFactor_eq, minus_INR by assumption.
  simpl INR. lra.
Qed.

Lemma code_radius : curveBoundingRadius * InvSubdivisionFactor = subRadius.
Proof. unfold subRadius. rewrite InvSubdivisionFactor_eq. lra. Qed.

Lemma subIntervalStart_succ i : subIntervalStart (S i) = subIntervalEnd i.
Proof. unfold subIntervalStart, subIntervalEnd. now rewrite Nat.sub_succ, Nat.sub_0_r. Qed.

Lemma subIntervalStart_first : subIntervalStart 1 = t0.
Proof. unfold subIntervalStart. simpl. lra. Qed.

Lemma code_decision i :
  dge subRadius
      (RC.m_subdivisionThreshold rc *
       dmax (- Fr.nearZ (RC.m_viewFrustum rc))
            (Rabs (z4 (cubicAt coeff (subIntervalEnd i))) - subRadius))
  = subdivideOrCull i.
Proof. rewrite dmax_Rmax. reflexivity. Qed.

(** One turn of the loop of [renderCubic] against the rule. *)
Lemma cubicBody_rule recurse depth i restartCurve vbuf :
  (1 <= i)%nat ->
  RC.cubicBody rc recurse coeff t0 ((t1 - t0) * InvSubdivisionFactor)
    (curveBoundingRadius * InvSubdivisionFactor) depth i
    (restartCurve, cubicAt coeff (subIntervalStart i), vbuf)
  = ('(r, vb) <- ruleStep (fun r a b rad v => recurse r a b rad (depth + 1)%nat v)
                   i (restartCurve, vbuf) ;;
     Done (r, cubicAt coeff (subIntervalStart (S i)), vb)).
Proof.
  intros Hi. unfold RC.cubicBody, ruleStep.
  rewrite code_parameter, code_radius, code_decision, subIntervalStart_succ.
  rewrite (code_previous_parameter i Hi).
  destruct (subdivideOrCull i).
  - destruct (Fr.cullSphere _ _ _).
    + destruct restartCurve; reflexivity.
    + cbn [bind].
      destruct (recurse _ _ _ _ _ _) as [[r vb]| |]; reflexivity.
  - destruct restartCurve; reflexivity.
Qed.

Lemma cubicFadedBody_rule recurse depth i restartCurve vbuf :
  (1 <= i)%nat ->
  RC.cubicFadedBody rc recurse coeff t0 ((t1 - t0) * InvSubdivisionFactor)
    color fadeStart fadeRate
    (curveBoundingRadius * InvSubdivisionFactor) depth i
    (restartCurve, cubicAt coeff (subIntervalStart i),
     opacityAt (subIntervalStart i), vbuf)
  = ('(r, vb) <- ruleStepFaded (fun r a b rad v => recurse r a b rad (depth + 1)%nat v)
                   i (restartCurve, vbuf) ;;
     Done (r, cubicAt coeff (subIntervalStart (S i)),
           opacityAt (subIntervalStart (S i)), vb)).
Proof.
  intros Hi. unfold RC.cubicFadedBody, ruleStepFaded.
  rewrite code_parameter, code_radius, code_decision, subIntervalStart_succ.
  rewrite (code_previous_parameter i Hi).
  fold (opacityAt (subIntervalEnd i)).
  destruct (subdivideOrCull i).
  - destruct (Fr.cullSphere _ _ _).
    + destruct restartCurve; reflexivity.
    + cbn [bind].
      destruct (recurse _ _ _ _ _ _) as [[r vb]| |]; reflexivity.
  - destruct restartCurve; reflexivity.
Qed.

(** The loop of [renderCubic] against the rule, from any turn on. *)
Lemma cubicLoop_rule recurse depth n : forall k restartCurve vbuf,
  (1 <= k)%nat ->
  ('(r, _, vb) <-
     forEach (RC.cubicBody rc recurse coeff t0 ((t1 - t0) * InvSubdivisionFactor)
                (curveBoundingRadius * InvSubdivisionFactor) depth)
             (seq k n) (restartCurve, cubicAt coeff (subIntervalStart k), vbuf) ;;
   Done (r, vb))
  = forEach (ruleStep (fun r a b rad v => recurse r a b rad (depth + 1)%nat v))
            (seq k n) (restartCurve, vbuf).
Proof.
  induction n as [|n IH]; intros k restartCurve vbuf Hk; [reflexivity|].
  cbn [seq forEach]. rewrite cubicBody_rule by assumption.
  destruct (ruleStep _ k (restartCurve, vbuf)) as [[r vb]| |]; cbn [bind];
    try reflexivity.
  apply IH. lia.
Qed.

Lemma cubicFadedLoop_rule recurse depth n : forall k restartCurve vbuf,
  (1 <= k)%nat ->
  ('(r, _, _, vb) <-
     forEach (RC.cubicFadedBody rc recurse coeff t0 ((t1 - t0) * InvSubdivisionFactor)
                color fadeStart fadeRate
                (curveBoundingRadius * InvSubdivisionFactor) depth)
             (seq k n)
             (restartCurve, cubicAt coeff (subIntervalStart k),
              opacityAt (subIntervalStart k), vbuf) ;;
   Done (r, vb))
  = forEach (ruleStepFaded (fun r a b rad v => recurse r a b rad (depth + 1)%nat v))
            (seq k n) (restartCurve, vbuf).
Proof.
  induction n as [|n IH]; intros k restartCurve vbuf Hk; [reflexivity|].
  cbn [seq forEach]. rewrite cubicFadedBody_rule by assumption.
  destruct (ruleStepFaded _ k (restartCurve, vbuf)) as [[r vb]| |]; cbn [bind];
    try reflexivity.
  apply IH. lia.
Qed.

(** One level of [renderCubic] is the rule applied to the 8 sub-intervals
    in turn. *)
Lemma renderCubic_rule fuel restartCurve depth vbuf :
  RC.renderCubic (S fuel) rc restartCurve coeff t0 t1 curveBoundingRadius depth vbuf
  = forEach (ruleStep (fun r a b rad v =>
                         RC.renderCubic fuel rc r coeff a b rad (depth + 1)%nat v))
            (seq 1 8) (restartCurve, vbuf).
Proof.
  rewrite renderCubic_unfold.
  replace (cubicAt coeff t0) with (cubicAt coeff (subIntervalStart 1))
    by (now rewrite subIntervalStart_first).
  apply (cubicLoop_rule
           (fun r a b rad d v => RC.renderCubic fuel rc r coeff a b rad d v)).
  lia.
Qed.

Lemma renderCubicFaded_rule fuel restartCurve depth vbuf :
  RC.renderCubicFaded (S fuel) rc restartCurve coeff t0 t1 color fadeStart fadeRate
    curveBoundingRadius depth vbuf
  = forEach (ruleStepFaded (fun r a b rad v =>
                              RC.renderCubicFaded fuel rc r coeff a b color
                                fadeStart fadeRate rad (depth + 1)%nat v))
            (seq 1 8) (restartCurve, vbuf).
Proof.
  rewrite renderCubicFaded_unfold.
  replace (clamp ((t0 - fadeStart) * fadeRate) 0 1)
    with (opacityAt (subIntervalStart 1))
    by (now rewrite subIntervalStart_first).
  replace (cubicAt coeff t0) with (cubicAt coeff (subIntervalStart 1))
    by (now rewrite subIntervalStart_first).
  apply (cubicFadedLoop_rule
           (fun r a b rad d v =>
              RC.renderCubicFaded fuel rc r coeff a b color fadeStart fadeRate rad d v)).
  lia.
Qed.

End SubdivisionRule.

(** C1, as amended.  At every level of [renderCubic] and of
    [renderCubicFaded] the interval is cut into 8 equal sub-intervals and,
    for each in turn, with [segmentBoundingRadius] the parent's bounding
    radius divided by 8 and [minDistance = max(-nearZ, |z of the
    subdivision point| - segmentBoundingRadius)]: the sub-segment is culled
    or subdivided further (the same function on the sub-interval with the
    radius [segmentBoundingRadius]) iff
    [segmentBoundingRadius >= subdivisionThreshold * minDistance], and is
    drawn directly, without recursion, iff that inequality fails.  Drawing
    emits the end point of the sub-segment, preceded by [begin()] and the
    start point only when no strip is open: two vertices when the strip is
    started, one vertex when it continues. *)
Theorem renderCubic_follows_subdivision_rule
  rc coeff t0 t1 curveBoundingRadius color fadeStart fadeRate
  fuel restartCurve depth vbuf :
  (forall i,
     subdivideOrCull rc coeff t0 t1 curveBoundingRadius i = true <->
     subRadius curveBoundingRadius >=
       RC.m_subdivisionThreshold rc *
       Rmax (- Fr.nearZ (RC.m_viewFrustum rc))
            (Rabs (z4 (cubicAt coeff (subIntervalEnd t0 t1 i)))
             - subRadius curveBoundingRadius)) /\
  RC.renderCubic (S fuel) rc restartCurve coeff t0 t1 curveBoundingRadius depth vbuf
  = forEach (ruleStep rc coeff t0 t1 curveBoundingRadius
               (fun r a b rad v =>
                  RC.renderCubic fuel rc r coeff a b rad (depth + 1)%nat v))
            (seq 1 8) (restartCurve, vbuf) /\
  RC.renderCubicFaded (S fuel) rc restartCurve coeff t0 t1 color fadeStart fadeRate
    curveBoundingRadius depth vbuf
  = forEach (ruleStepFaded rc coeff t0 t1 curveBoundingRadius color fadeStart fadeRate
               (fun r a b rad v =>
                  RC.renderCubicFaded fuel rc r coeff a b color fadeStart fadeRate
                    rad (depth + 1)%nat v))
            (seq 1 8) (restartCurve, vbuf).
Proof.
  split; [|split].
  - intros i. unfold subdivideOrCull, subMinDistance.
    destruct (Rge_dec _ _); split; intros; try easy.
  - apply renderCubic_rule.
  - apply renderCubicFaded_rule.
Qed.

(** On the far line every sub-segment fails the inequality. *)
Lemma farLine_never_subdivides i :
  subdivideOrCull farContext farLine 0 1 8 i = false.
Proof.
  unfold subdivideOrCull, subMinDistance, subRadius.
  assert (Z : z4 (cubicAt farLine (subIntervalEnd 0 1 i)) = -100).
  { unfold cubicAt, mulMV, farLine, add4, scale4; simpl. lra. }
  rewrite Z.
  replace (Rabs (-100)) with 100
    by (unfold Rabs; destruct (Rcase_abs (-100)); lra).
  assert (N : Fr.nearZ (RC.m_viewFrustum farContext) = -1) by reflexivity.
  assert (T : RC.m_subdivisionThreshold farContext = 1) by reflexivity.
  rewrite N, T.
  rewrite Rmax_right by lra.
  destruct (Rge_dec (8 / 8) (1 * (100 - 8 / 8))); [lra | reflexivity].
Qed.

(** Eight sub-segments drawn from a closed strip: nine [vertex] calls. *)
Definition nineVertices (vbuf : VB.t) : VB.t :=
  fold_left
    (fun vb i => VB.vertex (cubicAt farLine (subIntervalEnd 0 1 i)) vb)
    (seq 1 8)
    (VB.vertex (cubicAt farLine (subIntervalStart 0 1 1)) (VB.begin vbuf)).

Lemma vertex_room_cursor v b :
  S (VB.currentPosition b) <> VB.capacity b ->
  VB.currentPosition (VB.vertex v b) = S (VB.currentPosition b) /\
  VB.currentStripLength (VB.vertex v b) = S (VB.currentStripLength b) /\
  VB.capacity (VB.vertex v b) = VB.capacity b.
Proof.
  intros H. unfold VB.vertex. rewrite vertexColor_room by assumption.
  repeat split.
Qed.

Lemma vertices_room_cursor (point : nat -> Vector4d) (l : list nat) : forall b,
  (VB.currentPosition b + length l < VB.capacity b)%nat ->
  let b' := fold_left (fun vb i => VB.vertex (point i) vb) l b in
  VB.currentPosition b' = (VB.currentPosition b + length l)%nat /\
  VB.currentStripLength b' = (VB.currentStripLength b + length l)%nat /\
  VB.capacity b' = VB.capacity b.
Proof.
  induction l as [|i l IH]; intros b H; cbn [fold_left length] in *.
  - repeat split; lia.
  - destruct (vertex_room_cursor (point i) b ltac:(lia)) as (Hcp & Hcsl & Hcap).
    destruct (IH (VB.vertex (point i) b) ltac:(rewrite Hcp, Hcap; lia))
      as (Icp & Icsl & Icap).
    cbn zeta in *. rewrite Icp, Icsl, Icap, Hcp, Hcsl, Hcap.
    repeat split; lia.
Qed.

Lemma nineVertices_cursor :
  VB.currentPosition (nineVertices (VB.setup false newBuffer)) = 9%nat /\
  VB.currentStripLength (nineVertices (VB.setup false newBuffer)) = 9%nat.
Proof.
  unfold nineVertices.
  set (b0 := VB.begin (VB.setup false newBuffer)).
  assert (C0 : VB.currentPosition b0 = 0%nat /\ VB.currentStripLength b0 = 0%nat /\
               VB.capacity b0 = 4096%nat) by (repeat split).
  destruct C0 as (Hcp0 & Hcsl0 & Hcap0).
  destruct (vertex_room_cursor (cubicAt farLine (subIntervalStart 0 1 1)) b0
              ltac:(rewrite Hcp0, Hcap0; discriminate)) as (Hcp & Hcsl & Hcap).
  destruct (vertices_room_cursor
              (fun i => cubicAt farLine (subIntervalEnd 0 1 i)) (seq 1 8)
              (VB.vertex (cubicAt farLine (subIntervalStart 0 1 1)) b0)
              ltac:(rewrite Hcp, Hcap, Hcp0, Hcap0, length_seq; lia))
    as (Icp & Icsl & _).
  cbn zeta in *. rewrite Icp, Icsl, Hcp, Hcsl, Hcp0, Hcsl0, length_seq.
  split; reflexivity.
Qed.

Lemma farLine_level :
  RC.renderCubic 1 farContext true farLine 0 1 8 1 (VB.setup false newBuffer)
  = Done (false, nineVertices (VB.setup false newBuffer)).
Proof.
  rewrite (renderCubic_rule farContext farLine 0 1 8 0 true 1).
  unfold nineVertices.
  cbn [seq forEach fold_left].
  unfold ruleStep.
  rewrite !farLine_never_subdivides. cbn [bind].
  reflexivity.
Qed.

(** C1 as stated fails: the eight sub-segments of the far line all fail the
    inequality and are drawn directly, and [renderCubic], entered with no
    open strip, emits 9 vertices for them, not two for each. *)
Lemma renderCubic_draws_eight_segments_with_nine_vertices :
  subdivideOrCull farContext farLine 0 1 8 1 = false /\
  subdivideOrCull farContext farLine 0 1 8 2 = false /\
  subdivideOrCull farContext farLine 0 1 8 3 = false /\
  subdivideOrCull farContext farLine 0 1 8 4 = false /\
  subdivideOrCull farContext farLine 0 1 8 5 = false /\
  subdivideOrCull farContext farLine 0 1 8 6 = false /\
  subdivideOrCull farContext farLine 0 1 8 7 = false /\
  subdivideOrCull farContext farLine 0 1 8 8 = false /\
  exists vbuf,
    RC.renderCubic 1 farContext true farLine 0 1 8 1 (VB.setup false newBuffer)
      = Done (false, vbuf) /\
    VB.currentPosition (VB.setup false newBuffer) = 0%nat /\
    VB.currentPosition vbuf = 9%nat /\
    VB.currentStripLength vbuf = 9%nat /\
    VB.currentPosition vbuf <> (2 * 8)%nat.
Proof.
  repeat (split; [apply farLine_never_subdivides|]).
  exists (nineVertices (VB.setup false newBuffer)).
  destruct nineVertices_cursor as (P & Q).
  split; [exact farLine_level|].
  split; [reflexivity|].
  split; [exact P|]. split; [exact Q|].
  rewrite P. discriminate.
Qed.

(** ** The render entry points of [CurvePlot] *)

(** The draw submissions among logged calls. *)
Definition isDraw (c : VB.GLCall) : bool :=
  match c with
  | VB.glDrawArrays _ _ _ => true
  | VB.glBufferSubData _ => false
  end.

Definition drawSubmissions (calls : list VB.GLCall) : nat :=
  length (filter isDraw calls).

Lemma drawnPolylines_length buffer calls :
  length (drawnPolylines buffer calls) = drawSubmissions calls.
Proof.
  revert buffer. unfold drawSubmissions.
  induction calls as [|[u|mode first count] calls IH]; intros buffer; simpl; auto.
Qed.

Lemma drawSubmissions_app c1 c2 :
  drawSubmissions (c1 ++ c2) = (drawSubmissions c1 + drawSubmissions c2)%nat.
Proof. unfold drawSubmissions. now rewrite filter_app, length_app. Qed.

(** *** A store on a straight line *)

Definition identity : Matrix4d :=
  M4 (V4 1 0 0 0) (V4 0 1 0 0) (V4 0 0 1 0) (V4 0 0 0 1).

Definition unitNormal0 : Vector3d := V3 (3 / 5) 0 (- (4 / 5)).
Definition unitNormal1 : Vector3d := V3 (- (3 / 5)) 0 (- (4 / 5)).
Definition unitNormal2 : Vector3d := V3 0 (3 / 5) (- (4 / 5)).
Definition unitNormal3 : Vector3d := V3 0 (- (3 / 5)) (- (4 / 5)).

(** The sample [sampleOnLine time] with the radius of a segment of 10 time
    units. *)
Definition lineSample (time : R) : Sm.sample :=
  Sm.setBoundingRadius (sampleOnLine time) 10.

(** Samples at the times 0, 10 and 20. *)
Definition flatStore : CP.Samples :=
  [sampleOnLine 0; lineSample 10; lineSample 20].

Lemma norm4_axis d : 0 <= d -> norm4 (V4 d 0 0 0) = d.
Proof.
  intros H. unfold norm4, dot4; simpl.
  replace (d * d + 0 * 0 + 0 * 0 + 0 * 0) with (d * d) by ring.
  apply sqrt_square. assumption.
Qed.

Lemma Rabs_zero_expr x : x = 0 -> Rabs x = 0.
Proof. intros ->. apply Rabs_R0. Qed.

Lemma segmentBoundingRadius_line a b :
  a < b -> CP.segmentBoundingRadius (sampleOnLine a) (sampleOnLine b) = b - a.
Proof.
  intros H. unfold CP.segmentBoundingRadius.
  rewrite <- (norm4_axis (b - a)) by lra.
  f_equal.
  cbv beta zeta delta [mulMV cwiseAbs cubicHermiteCoefficients abs4 add4 sub4 scale4
    zeroExtend scale3 sampleOnLine x4 y4 z4 w4 x3 y3 z3 col0 col1 col2 col3
    Sm.t Sm.position Sm.velocity] iota.
  f_equal;
    repeat match goal with
    | |- context [Rabs ?x] =>
        first [ rewrite (Rabs_zero_expr x) by lra | rewrite (Rabs_right x) by lra ]
    end; lra.
Qed.

Lemma flatStore_built :
  flatStore = addSamples [sampleOnLine 0; sampleOnLine 10; sampleOnLine 20] [].
Proof.
  unfold addSamples; cbn [fold_left].
  rewrite addSample_empty.
  rewrite (addSample_back (sampleOnLine 10) [sampleOnLine 0])
    by (simpl; try discriminate; lra).
  cbn [last app]. rewrite segmentBoundingRadius_line by lra.
  rewrite addSample_back by (simpl; try discriminate; lra).
  cbn [last app]. rewrite segmentBoundingRadius_setRadius_l.
  rewrite segmentBoundingRadius_line by lra.
  unfold flatStore, lineSample.
  replace (10 - 0) with 10 by lra. replace (20 - 10) with 10 by lra.
  reflexivity.
Qed.

Lemma flatStore_reachable : reachable flatStore.
Proof.
  rewrite flatStore_built. unfold addSamples; cbn [fold_left].
  do 3 constructor. constructor.
Qed.

(** *** One strip from the start of a render *)

Lemma end_strip_m_color b : VB.m_color (VB.end_strip b) = VB.m_color b.
Proof.
  unfold VB.end_strip. destruct (Nat.ltb 1 (VB.currentStripLength b)); reflexivity.
Qed.

Lemma vertexColor_m_color v c b : VB.m_color (VB.vertexColor v c b) = VB.m_color b.
Proof.
  unfold VB.vertexColor.
  match goal with |- context [if ?c then _ else _] => destruct c end;
    [|reflexivity].
  cbn [VB.m_color]. unfold VB.flush.
  match goal with |- context [if Nat.ltb 0 ?c then _ else _] => destruct (Nat.ltb 0 c) end;
    [|reflexivity].
  cbn [VB.m_color].
  match goal with |- context [if ?c then _ else _] => destruct c end;
    [rewrite end_strip_m_color|]; reflexivity.
Qed.

Lemma fold_vertex_emit ps : forall b,
  fold_left (fun vb p => VB.vertex p vb) ps b
  = emit (map (fun p => (p, VB.m_color b)) ps) b.
Proof.
  induction ps as [|p ps IH]; intros b; [reflexivity|].
  cbn [fold_left map emit fst snd]. rewrite IH.
  unfold VB.vertex. rewrite vertexColor_m_color. reflexivity.
Qed.

Lemma holdsStrip_render_start tri color vb0 :
  (1 <= VB.capacity vb0)%nat ->
  holdsStrip (VB.capacity vb0) tri
    (VB.setColor color (VB.setup tri (VB.createVertexBuffer vb0))) [] (VB.gl vb0).
Proof.
  intros H. unfold holdsStrip, VB.setColor, VB.setup, VB.createVertexBuffer.
  destruct (Nat.eqb (VB.vbobj vb0) 0); cbn; repeat split; try lia.
Qed.

(** A strip of at least two points that fits the buffer is drawn by one
    submission when it is ended and flushed. *)
Lemma strip_draws_once cap tri b g ps :
  holdsStrip cap tri b [] g -> (2 <= cap)%nat ->
  (2 <= length ps < cap)%nat ->
  drawSubmissions
    (VB.gl (VB.flush true (VB.end_ true (fold_left (fun vb p => VB.vertex p vb) ps b))))
  = (drawSubmissions g + 1)%nat.
Proof.
  intros H0 Hcap Hlen.
  rewrite fold_vertex_emit.
  destruct (holdsStrip_emit cap tri (map (fun p => (p, VB.m_color b)) ps) b [] g Hcap H0)
    as (calls1 & H1 & D1).
  rewrite map_map in H1, D1. cbn [fst] in H1, D1. rewrite map_id in H1, D1.
  assert (F : feed cap [] ps = ([], ps))
    by (rewrite feed_room; [reflexivity | cbn [length]; lia]).
  rewrite F in H1, D1.
  cbn [fst snd app] in H1, D1.
  destruct (holdsStrip_end_flush _ _ _ _ _ H1) as (calls2 & G2 & _ & D2).
  rewrite G2, !drawSubmissions_app.
  rewrite <- (drawnPolylines_length [] calls1), <- (drawnPolylines_length [] calls2).
  rewrite D1, D2. unfold closing.
  assert (E : Nat.leb 2 (length ps) = true) by (apply Nat.leb_le; lia).
  rewrite E. simpl. lia.
Qed.

(** A level of [renderCubic] on which no sub-segment passes the test draws
    the eight end points, after the start point when no strip is open. *)
Lemma renderCubic_all_drawn rc coeff t0 t1 radius restartCurve depth vbuf :
  (forall i, subdivideOrCull rc coeff t0 t1 radius i = false) ->
  RC.renderCubic 1 rc restartCurve coeff t0 t1 radius depth vbuf
  = Done (false,
          fold_left (fun vb p => VB.vertex p vb)
            (map (fun i => cubicAt coeff (subIntervalEnd t0 t1 i)) (seq 1 8))
            (if restartCurve
             then VB.vertex (cubicAt coeff (subIntervalStart t0 t1 1)) (VB.begin vbuf)
             else vbuf)).
Proof.
  intros Hno. rewrite renderCubic_rule.
  cbn [seq forEach map fold_left]. unfold ruleStep.
  rewrite !Hno. cbn [bind]. reflexivity.
Qed.

(** A cubic that stays at depth 5 is never subdivided by [farContext] when
    its radius is 10. *)
Lemma flat_never_subdivides coeff t0 t1 i :
  (forall u, z4 (cubicAt coeff u) = -5) ->
  subdivideOrCull farContext coeff t0 t1 10 i = false.
Proof.
  intros Z. unfold subdivideOrCull, subMinDistance, subRadius.
  rewrite Z.
  replace (Rabs (-5)) with 5 by (unfold Rabs; destruct (Rcase_abs (-5)); lra).
  assert (N : Fr.nearZ (RC.m_viewFrustum farContext) = -1) by reflexivity.
  assert (T : RC.m_subdivisionThreshold farContext = 1) by reflexivity.
  rewrite N, T.
  rewrite Rmax_right by lra.
  destruct (Rge_dec (10 / 8) (1 * (5 - 10 / 8))); [lra | reflexivity].
Qed.

Lemma toCamera_identity v w :
  CP.toCamera identity v w = V4 (x3 v) (y3 v) (z3 v) w.
Proof.
  destruct v as [x y z].
  cbv beta zeta delta [CP.toCamera mulMV add4 scale4 identity x4 y4 z4 w4 x3 y3 z3
                       col0 col1 col2 col3] iota.
  f_equal; lra.
Qed.

Ltac vec_cbv :=
  cbv beta zeta delta [cubicAt cubicHermiteCoefficients mulMV add4 sub4 scale4
    x4 y4 z4 w4 x3 y3 z3 col0 col1 col2 col3] iota.

(** The segment of the line between two samples, in camera space. *)
Lemma line_segment_flat a b dt u :
  z4 (cubicAt (cubicHermiteCoefficients (V4 a 0 (-5) 1) (V4 b 0 (-5) 1)
                 (scale4 dt (V4 1 0 0 0)) (scale4 dt (V4 1 0 0 0))) u) = -5.
Proof. vec_cbv. lra. Qed.

Lemma flatStore_search startTime :
  10 < startTime ->
  CP.searchStartSample (length flatStore) flatStore startTime 0 = Done 2%nat.
Proof.
  intros H. unfold flatStore.
  cbn [length CP.searchStartSample Nat.ltb Nat.leb Nat.sub Nat.add CP.sampleAt
       nth_error bind Sm.t sampleOnLine lineSample Sm.setBoundingRadius].
  settle_cmp.
  cbn [length CP.searchStartSample Nat.ltb Nat.leb Nat.sub Nat.add CP.sampleAt
       nth_error bind Sm.t sampleOnLine lineSample Sm.setBoundingRadius].
  settle_cmp.
  reflexivity.
Qed.

Definition flatFrustum : Fr.t :=
  Fr.make (-1) (-1000) unitNormal0 unitNormal1 unitNormal2 unitNormal3.

Lemma flatStore_not_culled x :
  0 <= x <= 20 ->
  Fr.cullSphere flatFrustum (V4 x 0 (-5) 1) 10 = false.
Proof.
  intros H.
  cbv beta zeta delta [Fr.cullSphere flatFrustum Fr.make Fr.m_nearZ Fr.m_farZ
    Fr.m_planeNormals0 Fr.m_planeNormals1 Fr.m_planeNormals2 Fr.m_planeNormals3
    dot4 zeroExtend unitNormal0 unitNormal1 unitNormal2 unitNormal3
    x4 y4 z4 w4 x3 y3 z3] iota.
  settle_cmp. reflexivity.
Qed.

Lemma fold_left_cons {A B} (f : A -> B -> A) (b : B) (l : list B) (a : A) :
  fold_left f (b :: l) a = fold_left f l (f a b).
Proof. reflexivity. Qed.

Lemma flatStore_body startTime endTime vbuf :
  0 < endTime <= 20 ->
  exists vbuf',
    CP.renderRangeBody 1 flatStore identity flatFrustum farContext (-1000) 1
      startTime endTime 2
      (CP.MkRange true (CP.toCamera identity (Sm.position (lineSample 10)) 1)
         (CP.toCamera identity (Sm.velocity (lineSample 10)) 0) true false vbuf [])
    = Done (CP.MkRange false (CP.toCamera identity (Sm.position (lineSample 20)) 1)
              (CP.toCamera identity (Sm.velocity (lineSample 20)) 0) false true
              vbuf'
              [CP.MkCall (clamp ((startTime - 10) / (20 - 10)) 0 1)
                         ((endTime - 10) / (20 - 10)) 10]) /\
    exists ps, length ps = 9%nat /\
      vbuf' = fold_left (fun vb p => VB.vertex p vb) ps vbuf.
Proof.
  intros He.
  unfold CP.renderRangeBody, flatStore.
  cbn [CP.sampleAt nth_error bind Nat.sub CP.rs_restartCurve CP.rs_p0 CP.rs_v0
       CP.rs_firstSegment CP.rs_lastSegment CP.rs_vbuf CP.rs_calls
       Sm.t Sm.boundingRadius Sm.position Sm.velocity
       sampleOnLine lineSample Sm.setBoundingRadius].
  settle_cmp. rewrite !orb_true_r.
  rewrite !toCamera_identity. cbn [x3 y3 z3].
  rewrite flatStore_not_culled by lra.
  rewrite renderCubic_all_drawn
    by (intros i; apply flat_never_subdivides; intros u; apply line_segment_flat).
  cbn [bind app VB.begin].
  eexists. split; [reflexivity|].
  match goal with
  | |- context [fold_left _ (map ?g ?l) (VB.vertex ?p _)] => exists (p :: map g l)
  end.
  split; [|rewrite fold_left_cons; reflexivity].
  cbn [length]. rewrite length_map, length_seq. reflexivity.
Qed.

Lemma flatStore_range_run startTime endTime :
  10 < startTime < 20 -> 0 < endTime <= 20 ->
  exists vbuf',
    CP.renderRangeTraced 1 flatStore identity (-1) (-1000)
      unitNormal0 unitNormal1 unitNormal2 unitNormal3 1 startTime endTime
      white false newBuffer
    = Done (vbuf',
            [CP.MkCall (clamp ((startTime - 10) / (20 - 10)) 0 1)
                       ((endTime - 10) / (20 - 10)) 10]) /\
    drawSubmissions (VB.gl vbuf') = 1%nat.
Proof.
  intros Hs He.
  unfold CP.renderRangeTraced.
  unfold flatStore at 1 2 3.
  cbn [hd last Sm.t sampleOnLine lineSample Sm.setBoundingRadius orb].
  settle_cmp. cbn [orb].
  rewrite flatStore_search by lra.
  cbn [bind Nat.ltb Nat.leb Nat.sub Nat.add].
  unfold flatStore at 1. cbn [CP.sampleAt nth_error bind].
  replace (length flatStore) with 3%nat by reflexivity.
  cbn [Nat.sub seq CP.forWhile CP.rs_lastSegment negb].
  fold flatFrustum. change (RC.Make flatFrustum 1) with farContext.
  destruct (flatStore_body startTime endTime
              (VB.setColor white (VB.setup false (VB.createVertexBuffer newBuffer))) He)
    as (vb1 & E1 & ps & Lps & Evb).
  rewrite E1. cbn [bind CP.rs_restartCurve CP.rs_vbuf CP.rs_calls negb VB.finish].
  eexists. split; [reflexivity|].
  rewrite Evb.
  unfold VB.finish.
  rewrite (strip_draws_once 4096 false _ [] ps).
  - reflexivity.
  - apply (holdsStrip_render_start false white newBuffer). cbn. lia.
  - lia.
  - rewrite Lps. lia.
Qed.

(** *** Requests outside the stored range *)

(** The store is empty, or the requested range ends at or before the first
    sample, or starts at or after the last one. *)
Definition outsideStoredRange (m : CP.Samples) (startTime endTime : R) : Prop :=
  match m with
  | [] => True
  | front :: _ => endTime <= Sm.t front \/ startTime >= Sm.t (last m front)
  end.

Lemma range_guard m startTime endTime d :
  outsideStoredRange m startTime endTime ->
  match m with [] => true | _ => false end
  || dle endTime (Sm.t (hd d m)) || dge startTime (Sm.t (last m d)) = true.
Proof.
  destruct m as [|f rest]; [reflexivity|].
  intros [H|H]; cbn [hd orb].
  - rewrite (dle_true _ _ H). reflexivity.
  - rewrite (last_default (f :: rest) d f) by discriminate.
    rewrite (dge_true _ _ H). apply orb_true_r.
Qed.

(** C5, as amended.  The clamped-time-range render and [renderFaded],
    called on an empty sample store or with a requested time range entirely
    outside the stored range ([endTime <=] the first sample time or
    [startTime >=] the last sample time), return at once: the vertex buffer
    and its log of OpenGL calls are what they were, so nothing is drawn, and
    [renderCubic] is never called. *)
Theorem render_outside_range_is_noop
  fuel m modelview nearZ farZ n0 n1 n2 n3 subdivisionThreshold startTime endTime
  color fadeStartTime fadeEndTime lineAsTriangles vbuf :
  outsideStoredRange m startTime endTime ->
  CP.renderRangeTraced fuel m modelview nearZ farZ n0 n1 n2 n3
    subdivisionThreshold startTime endTime color lineAsTriangles vbuf
    = Done (vbuf, []) /\
  CP.renderRange fuel m modelview nearZ farZ n0 n1 n2 n3
    subdivisionThreshold startTime endTime color lineAsTriangles vbuf
    = Done vbuf /\
  CP.renderFadedTraced fuel m modelview nearZ farZ n0 n1 n2 n3
    subdivisionThreshold startTime endTime color fadeStartTime fadeEndTime
    lineAsTriangles vbuf
    = Done (vbuf, []) /\
  CP.renderFaded fuel m modelview nearZ farZ n0 n1 n2 n3
    subdivisionThreshold startTime endTime color fadeStartTime fadeEndTime
    lineAsTriangles vbuf
    = Done vbuf.
Proof.
  intros H.
  assert (R1 : CP.renderRangeTraced fuel m modelview nearZ farZ n0 n1 n2 n3
                 subdivisionThreshold startTime endTime color lineAsTriangles vbuf
               = Done (vbuf, [])).
  { unfold CP.renderRangeTraced. rewrite range_guard by assumption. reflexivity. }
  assert (R2 : CP.renderFadedTraced fuel m modelview nearZ farZ n0 n1 n2 n3
                 subdivisionThreshold startTime endTime color fadeStartTime
                 fadeEndTime lineAsTriangles vbuf
               = Done (vbuf, [])).
  { unfold CP.renderFadedTraced. rewrite range_guard by assumption. reflexivity. }
  unfold CP.renderRange, CP.renderFaded. rewrite R1, R2. cbn [bind]. auto.
Qed.

Lemma render_outside_range_is_noop_witness :
  CP.renderRangeTraced 1 flatStore identity (-1) (-1000)
    unitNormal0 unitNormal1 unitNormal2 unitNormal3 1 25 30 white false newBuffer
    = Done (newBuffer, []) /\
  CP.renderRange 1 flatStore identity (-1) (-1000)
    unitNormal0 unitNormal1 unitNormal2 unitNormal3 1 25 30 white false newBuffer
    = Done newBuffer /\
  CP.renderFadedTraced 1 flatStore identity (-1) (-1000)
    unitNormal0 unitNormal1 unitNormal2 unitNormal3 1 25 30 white 25 30 false newBuffer
    = Done (newBuffer, []) /\
  CP.renderFaded 1 flatStore identity (-1) (-1000)
    unitNormal0 unitNormal1 unitNormal2 unitNormal3 1 25 30 white 25 30 false newBuffer
    = Done newBuffer.
Proof.
  apply render_outside_range_is_noop.
  right. cbn [flatStore last lineSample Sm.t Sm.setBoundingRadius sampleOnLine]. lra.
Defined.

(** The render over the full range has no test for an empty store: it
    reads [m_samples[0]] first. *)
Lemma render_empty_store_undefined
  fuel modelview nearZ farZ n0 n1 n2 n3 subdivisionThreshold color lineAsTriangles vbuf :
  CP.render fuel [] modelview nearZ farZ n0 n1 n2 n3 subdivisionThreshold color
    lineAsTriangles vbuf = Undefined.
Proof. reflexivity. Qed.

(** C5 as stated fails: with [startTime = endTime = 15], inside the stored
    range 0 .. 20, the render does not return at once; it calls
    [renderCubic] on an interval of length 0 and submits one draw. *)
Lemma render_equal_start_and_end_draws :
  ~ outsideStoredRange flatStore 15 15 /\
  exists vbuf',
    CP.renderRange 1 flatStore identity (-1) (-1000)
      unitNormal0 unitNormal1 unitNormal2 unitNormal3 1 15 15 white false newBuffer
    = Done vbuf' /\
    drawSubmissions (VB.gl newBuffer) = 0%nat /\
    drawSubmissions (VB.gl vbuf') = 1%nat.
Proof.
  split.
  - cbn [outsideStoredRange flatStore last lineSample Sm.t Sm.setBoundingRadius
         sampleOnLine]. lra.
  - destruct (flatStore_range_run 15 15 ltac:(lra) ltac:(lra)) as (vb & E & D).
    exists vb. unfold CP.renderRange. rewrite E. cbn [bind]. auto.
Qed.

(** *** The parameter range handed to [renderCubic] *)

Lemma sampleAt_Done m i s : CP.sampleAt m i = Done s <-> nth_error m i = Some s.
Proof.
  unfold CP.sampleAt. destruct (nth_error m i); split; intros H;
    try discriminate; inversion H; reflexivity.
Qed.


(** The search stops at an index all of whose predecessors are earlier
    than [startTime]. *)
Lemma searchStartSample_spec fuel m startTime : forall k found,
  CP.searchStartSample fuel m startTime k = Done found ->
  (k <= found)%nat /\
  forall j, (k <= j < found)%nat ->
    exists sj, nth_error m j = Some sj /\ startTime > Sm.t sj.
Proof.
  induction fuel as [|fuel IH]; intros k found H; [discriminate|].
  cbn [CP.searchStartSample] in H.
  destruct (Nat.ltb k (length m - 1)).
  - destruct (CP.sampleAt m k) as [s| |] eqn:Es; cbn [bind] in H; try discriminate.
    apply sampleAt_Done in Es.
    destruct (dgt startTime (Sm.t s)) eqn:D.
    + apply dgt_spec in D. destruct (IH _ _ H) as [Hle Hall].
      split; [lia|]. intros j Hj.
      destruct (Nat.eq_dec j k) as [->|Hne]; [eauto|].
      apply Hall. lia.
    + inversion H; subst. split; [lia|]. intros j Hj. lia.
  - inversion H; subst. split; [lia|]. intros j Hj. lia.
Qed.


Section BoundaryParameters.

Variable m : CP.Samples.
Variables startTime endTime : R.



(** The two loops share this much: turn [i] reads sample [i], updates
    [lastSegment] from [endTime], and either makes no call or one call whose
    bounds come from the samples [i - 1] and [i]. *)
Variable State : Type.
Variable lastSegment : State -> bool.
Variable firstSegment : State -> bool.
Variable calls : State -> list CP.CubicCall.
Variable body : nat -> State -> outcome State.

Hypothesis body_turn : forall i s s',
  body i s = Done s' ->
  exists si, nth_error m i = Some si /\
    lastSegment s' = (if dle endTime (Sm.t si) then true else lastSegment s) /\
    (calls s' = calls s \/
     exists sprev, nth_error m (i - 1) = Some sprev /\
       calls s' = calls s ++
         [CP.MkCall
            (if firstSegment s
             then clamp ((startTime - Sm.t sprev) / (Sm.t si - Sm.t sprev)) 0 1
             else 0)
            (if (if dle endTime (Sm.t si) then true else lastSegment s)
             then (endTime - Sm.t sprev) / (Sm.t si - Sm.t sprev) else 1)
            (Sm.boundingRadius si)]).


End BoundaryParameters.








(* ================================================================== *)
(** * Further properties

    What the code shows beyond the statements above: the interpolation
    property of the Hermite cubic, the frustum test, the sample store under
    pruning and repeated insertion, the vertex buffer under arbitrary
    sequences of calls, and the three render entry points as a whole. *)

(** *** The Hermite cubic *)

(** X1: the cubic built by [cubicHermiteCoefficients] from [p0], [p1],
    [v0] and [v1] is the Hermite interpolant: evaluated as the render
    functions evaluate it, [coeff * (1, t, t^2, t^3)], it is at [p0] for
    [t = 0] and at [p1] for [t = 1], and its derivative with respect to [t]
    is [v0] at [t = 0] and [v1] at [t = 1]. *)
Theorem cubicHermiteCoefficients_interpolates (p0 p1 v0 v1 : Vector4d) :
  let coeff := cubicHermiteCoefficients p0 p1 v0 v1 in
  cubicAt coeff 0 = p0 /\ cubicAt coeff 1 = p1 /\
  cubicVelocity coeff 0 v0 /\ cubicVelocity coeff 1 v1.
Proof.
  intros coeff.
  destruct (cubicTangent_endpoints p0 p1 v0 v1) as [T0 T1].
  fold coeff in T0, T1.
  repeat split.
  - subst coeff. destruct p0 as [a0 a1 a2 a3], p1 as [b0 b1 b2 b3],
             v0 as [c0 c1 c2 c3], v1 as [d0 d1 d2 d3].
    cbv beta zeta delta [cubicAt cubicHermiteCoefficients mulMV
      add4 sub4 scale4 x4 y4 z4 w4 col0 col1 col2 col3] iota.
    f_equal; ring.
  - subst coeff. destruct p0 as [a0 a1 a2 a3], p1 as [b0 b1 b2 b3],
             v0 as [c0 c1 c2 c3], v1 as [d0 d1 d2 d3].
    cbv beta zeta delta [cubicAt cubicHermiteCoefficients mulMV
      add4 sub4 scale4 x4 y4 z4 w4 col0 col1 col2 col3] iota.
    f_equal; ring.
  - rewrite <- T0. apply cubicTangent_is_derivative.
  - rewrite <- T0. apply cubicTangent_is_derivative.
  - rewrite <- T0. apply cubicTangent_is_derivative.
  - rewrite <- T0. apply cubicTangent_is_derivative.
  - rewrite <- T1. apply cubicTangent_is_derivative.
  - rewrite <- T1. apply cubicTangent_is_derivative.
  - rewrite <- T1. apply cubicTangent_is_derivative.
  - rewrite <- T1. apply cubicTangent_is_derivative.
Qed.

(** *** The frustum test *)

Lemma dgt_shrink a a' b : a' <= a -> dgt a' b = true -> dgt a b = true.
Proof. intros H E. apply dgt_spec in E. apply dgt_true. lra. Qed.

Lemma dlt_shrink a a' b b' : a <= a' -> b' <= b -> dlt a' b' = true -> dlt a b = true.
Proof. intros H H' E. apply dlt_spec in E. apply dlt_true. lra. Qed.

(** X2: both overloads of [cullSphere] are monotone in the radius: a
    centre that is culled with some radius is culled with every smaller
    radius, so enlarging a bounding sphere never makes more of a curve
    disappear. *)
Theorem cullSphere_smaller_sphere_stays_culled
  (f : Fr.t) (center : Vector4d) (r r' : R) :
  r <= r' ->
  (Fr.cullSphere f center r' = true -> Fr.cullSphere f center r = true) /\
  (Fr.cullSphere3 f (head3 center) r' = true ->
   Fr.cullSphere3 f (head3 center) r = true).
Proof.
  intros Hr. unfold Fr.cullSphere, Fr.cullSphere3. split; intros H;
    repeat (apply orb_true_iff in H; destruct H as [H|H]);
    repeat rewrite orb_true_iff.
  - do 5 left. eapply dgt_shrink; [|exact H]. lra.
  - do 4 left; right. eapply dlt_shrink; [| |exact H]; lra.
  - do 3 left; right. eapply dlt_shrink; [| |exact H]; lra.
  - do 2 left; right. eapply dlt_shrink; [| |exact H]; lra.
  - left; right. eapply dlt_shrink; [| |exact H]; lra.
  - right. eapply dlt_shrink; [| |exact H]; lra.
  - do 5 left. eapply dgt_shrink; [|exact H]. lra.
  - do 4 left; right. eapply dlt_shrink; [| |exact H]; lra.
  - do 3 left; right. eapply dlt_shrink; [| |exact H]; lra.
  - do 2 left; right. eapply dlt_shrink; [| |exact H]; lra.
  - left; right. eapply dlt_shrink; [| |exact H]; lra.
  - right. eapply dlt_shrink; [| |exact H]; lra.
Qed.

Lemma cullSphere_smaller_sphere_stays_culled_witness :
  (Fr.cullSphere unitFrustum (V4 0 0 (-2000) 1) 2 = true ->
   Fr.cullSphere unitFrustum (V4 0 0 (-2000) 1) 1 = true) /\
  (Fr.cullSphere3 unitFrustum (head3 (V4 0 0 (-2000) 1)) 2 = true ->
   Fr.cullSphere3 unitFrustum (head3 (V4 0 0 (-2000) 1)) 1 = true).
Proof.
  apply (cullSphere_smaller_sphere_stays_culled unitFrustum (V4 0 0 (-2000) 1) 1 2).
  lra.
Defined.

(** X3: on a frustum built by the constructor the [Vector4d] overload of
    [cullSphere] returns what the [Vector3d] overload returns on the first
    three components: the plane normals are zero-extended, so the fourth
    component of the centre has no effect. *)
Theorem cullSphere_overloads_agree
  (nearZ farZ : R) (n0 n1 n2 n3 : Vector3d) (x y z w r : R) :
  Fr.cullSphere (Fr.make nearZ farZ n0 n1 n2 n3) (V4 x y z w) r =
  Fr.cullSphere3 (Fr.make nearZ farZ n0 n1 n2 n3) (V3 x y z) r.
Proof.
  rewrite cullSphere_overloads. reflexivity.
Qed.

(** *** Pruning by time *)

Lemma increasing_head_below a l : increasing (a :: l) -> Forall (fun y => a < y) l.
Proof.
  revert a. induction l as [|b l IH]; intros a H; constructor.
  - inversion H; assumption.
  - inversion H as [| |? ? ? Hab Hbl]; subst.
    apply IH. destruct l as [|c l]; [constructor|].
    inversion Hbl; subst. constructor; [lra | assumption].
Qed.

Lemma increasing_snoc_above l x :
  increasing (l ++ [x]) -> Forall (fun y => y < x) l.
Proof.
  induction l as [|a l IH]; intros H; constructor.
  - pose proof (increasing_head_below a (l ++ [x]) H) as F.
    rewrite Forall_forall in F. apply F. apply in_or_app. right. left. reflexivity.
  - apply IH. eapply increasing_tail. exact H.
Qed.

Lemma filter_all {A} (f : A -> bool) (l : list A) :
  Forall (fun x => f x = true) l -> filter f l = l.
Proof.
  induction 1 as [|x l Hx _ IH]; [reflexivity|].
  simpl. rewrite Hx, IH. reflexivity.
Qed.

Lemma removeSamplesAfter_snoc time m x :
  CP.removeSamplesAfter time (m ++ [x]) =
  if dgt (Sm.t x) time then CP.removeSamplesAfter time m else m ++ [x].
Proof.
  unfold CP.removeSamplesAfter. rewrite rev_app_distr. cbn [rev app].
  destruct (dgt (Sm.t x) time); [reflexivity|].
  cbn [rev]. rewrite rev_involutive. reflexivity.
Qed.

(** The tests of the two loops, negated: the sample is kept. *)
Definition notBefore (time : R) (s : Sm.sample) : bool := negb (dlt (Sm.t s) time).
Definition notAfter (time : R) (s : Sm.sample) : bool := negb (dgt (Sm.t s) time).

Lemma notBefore_spec time s : notBefore time s = true <-> time <= Sm.t s.
Proof.
  unfold notBefore. rewrite negb_true_iff. split; intros H.
  - destruct (Rlt_dec (Sm.t s) time) as [L|L]; [|lra].
    rewrite dlt_true in H by assumption. discriminate.
  - apply dlt_false. assumption.
Qed.

Lemma notAfter_spec time s : notAfter time s = true <-> Sm.t s <= time.
Proof.
  unfold notAfter. rewrite negb_true_iff. split; intros H.
  - destruct (Rgt_dec (Sm.t s) time) as [L|L]; [|lra].
    rewrite dgt_true in H by assumption. discriminate.
  - apply dgt_false. assumption.
Qed.

Lemma removeSamplesBefore_filter time m :
  increasing (times m) ->
  CP.removeSamplesBefore time m = filter (notBefore time) m.
Proof.
  induction m as [|s m IH]; intros H; [reflexivity|].
  cbn [CP.removeSamplesBefore filter]. unfold notBefore at 1.
  destruct (dlt (Sm.t s) time) eqn:E; cbn [negb].
  - apply IH. eapply increasing_tail. exact H.
  - f_equal. symmetry. apply filter_all.
    pose proof (increasing_head_below (Sm.t s) (map Sm.t m) H) as F.
    rewrite Forall_map in F.
    eapply Forall_impl; [|exact F].
    intros y Hy. cbv beta in Hy. unfold notBefore.
    assert (~ Sm.t s < time) by (intro; rewrite dlt_true in E by assumption; discriminate).
    rewrite dlt_false by lra. reflexivity.
Qed.

Lemma removeSamplesAfter_filter time m :
  increasing (times m) ->
  CP.removeSamplesAfter time m = filter (notAfter time) m.
Proof.
  induction m as [|x m IH] using rev_ind; intros H; [reflexivity|].
  rewrite removeSamplesAfter_snoc, filter_app. cbn [filter]. unfold notAfter at 2.
  unfold times in H. rewrite map_app in H. cbn [map] in H.
  destruct (dgt (Sm.t x) time) eqn:E; cbn [negb].
  - rewrite app_nil_r. apply IH. eapply increasing_app_l. exact H.
  - f_equal. symmetry. apply filter_all.
    pose proof (increasing_snoc_above (map Sm.t m) (Sm.t x) H) as F.
    rewrite Forall_map in F.
    eapply Forall_impl; [|exact F].
    intros y Hy. cbv beta in Hy. unfold notAfter.
    assert (~ Sm.t x > time) by (intro; rewrite dgt_true in E by assumption; discriminate).
    rewrite dgt_false by lra. reflexivity.
Qed.

Lemma removeSamplesBefore_increasing time m :
  increasing (times m) -> increasing (times (CP.removeSamplesBefore time m)).
Proof.
  intros H. destruct (removeSamplesBefore_suffix time m) as [d E].
  rewrite E in H. unfold times in H. rewrite map_app in H.
  eapply increasing_app_r; eassumption.
Qed.

Lemma removeSamplesAfter_increasing time m :
  increasing (times m) -> increasing (times (CP.removeSamplesAfter time m)).
Proof.
  intros H. destruct (removeSamplesAfter_prefix time m) as [d E].
  rewrite E in H. unfold times in H. rewrite map_app in H.
  eapply increasing_app_l; eassumption.
Qed.

Lemma filter_comm {A} (f g : A -> bool) (l : list A) :
  filter f (filter g l) = filter g (filter f l).
Proof.
  induction l as [|x l IH]; [reflexivity|].
  simpl. destruct (f x) eqn:Ef, (g x) eqn:Eg; simpl; rewrite ?Ef, ?Eg, IH; reflexivity.
Qed.

(** X4: on a store whose sample times increase, [removeSamplesBefore]
    keeps exactly the samples whose time is not before the given time, in
    their order: a sample is in the result if and only if it was stored and
    its time is at least [time]. *)
Theorem removeSamplesBefore_keeps_samples_from_time (time : R) (m : CP.Samples) :
  increasing (times m) ->
  CP.removeSamplesBefore time m = filter (notBefore time) m /\
  forall s, In s (CP.removeSamplesBefore time m) <-> In s m /\ time <= Sm.t s.
Proof.
  intros H. rewrite removeSamplesBefore_filter by assumption.
  split; [reflexivity|].
  intros s. rewrite filter_In, notBefore_spec. reflexivity.
Qed.

Lemma removeSamplesBefore_keeps_samples_from_time_witness :
  CP.removeSamplesBefore 5 [sampleOnLine 0; sampleOnLine 10]
    = filter (notBefore 5) [sampleOnLine 0; sampleOnLine 10] /\
  forall s, In s (CP.removeSamplesBefore 5 [sampleOnLine 0; sampleOnLine 10]) <->
            In s [sampleOnLine 0; sampleOnLine 10] /\ 5 <= Sm.t s.
Proof.
  apply (removeSamplesBefore_keeps_samples_from_time 5
           [sampleOnLine 0; sampleOnLine 10]).
  simpl. constructor; [lra | constructor].
Defined.

(** X5: on a store whose sample times increase, [removeSamplesAfter] keeps
    exactly the samples whose time is not after the given time, in their
    order: a sample is in the result if and only if it was stored and its
    time is at most [time]. *)
Theorem removeSamplesAfter_keeps_samples_up_to_time (time : R) (m : CP.Samples) :
  increasing (times m) ->
  CP.removeSamplesAfter time m = filter (notAfter time) m /\
  forall s, In s (CP.removeSamplesAfter time m) <-> In s m /\ Sm.t s <= time.
Proof.
  intros H. rewrite removeSamplesAfter_filter by assumption.
  split; [reflexivity|].
  intros s. rewrite filter_In, notAfter_spec. reflexivity.
Qed.

Lemma removeSamplesAfter_keeps_samples_up_to_time_witness :
  CP.removeSamplesAfter 5 [sampleOnLine 0; sampleOnLine 10]
    = filter (notAfter 5) [sampleOnLine 0; sampleOnLine 10] /\
  forall s, In s (CP.removeSamplesAfter 5 [sampleOnLine 0; sampleOnLine 10]) <->
            In s [sampleOnLine 0; sampleOnLine 10] /\ Sm.t s <= 5.
Proof.
  apply (removeSamplesAfter_keeps_samples_up_to_time 5
           [sampleOnLine 0; sampleOnLine 10]).
  simpl. constructor; [lra | constructor].
Defined.

(** X6: on a store whose sample times increase, pruning at both ends gives
    the same store in either order of the two calls, and what is left are
    exactly the stored samples whose time lies in [a .. b]. *)
Theorem pruning_both_ends_commutes (a b : R) (m : CP.Samples) :
  increasing (times m) ->
  CP.removeSamplesBefore a (CP.removeSamplesAfter b m)
    = CP.removeSamplesAfter b (CP.removeSamplesBefore a m) /\
  forall s, In s (CP.removeSamplesBefore a (CP.removeSamplesAfter b m)) <->
            In s m /\ a <= Sm.t s <= b.
Proof.
  intros H.
  rewrite (removeSamplesBefore_filter a (CP.removeSamplesAfter b m))
    by (apply removeSamplesAfter_increasing; assumption).
  rewrite (removeSamplesAfter_filter b (CP.removeSamplesBefore a m))
    by (apply removeSamplesBefore_increasing; assumption).
  rewrite removeSamplesBefore_filter, removeSamplesAfter_filter by assumption.
  split; [apply filter_comm|].
  intros s. rewrite !filter_In, notBefore_spec, notAfter_spec. tauto.
Qed.

Lemma pruning_both_ends_commutes_witness :
  CP.removeSamplesBefore 5 (CP.removeSamplesAfter 15 [sampleOnLine 0; sampleOnLine 10])
    = CP.removeSamplesAfter 15 (CP.removeSamplesBefore 5 [sampleOnLine 0; sampleOnLine 10]) /\
  forall s,
    In s (CP.removeSamplesBefore 5
            (CP.removeSamplesAfter 15 [sampleOnLine 0; sampleOnLine 10])) <->
    In s [sampleOnLine 0; sampleOnLine 10] /\ 5 <= Sm.t s <= 15.
Proof.
  apply (pruning_both_ends_commutes 5 15 [sampleOnLine 0; sampleOnLine 10]).
  simpl. constructor; [lra | constructor].
Defined.

(** *** [addSample] only writes bounding radii *)

(** What the caller supplies with a sample: its time, position and
    velocity. *)
Definition motion (s : Sm.sample) : R * Vector3d * Vector3d :=
  (Sm.t s, Sm.position s, Sm.velocity s).

(** X7: [addSample] writes bounding radii only.  The times, positions and
    velocities in the store after the call are those before it, with those
    of the new sample added at the back, added at the front, or not at all:
    no stored sample is dropped, moved or overwritten, and the store grows
    by at most one sample. *)
Theorem addSample_keeps_stored_motion (x : Sm.sample) (m : CP.Samples) :
  map motion (CP.addSample x m) = map motion m \/
  map motion (CP.addSample x m) = map motion m ++ [motion x] \/
  map motion (CP.addSample x m) = motion x :: map motion m.
Proof.
  destruct m as [|f rest]; [right; left; reflexivity|].
  destruct (addSample_cases x f rest) as [[_ ->]|[(_ & _ & ->)|(_ & _ & ->)]].
  - right; left. rewrite map_app. reflexivity.
  - right; right. reflexivity.
  - left. reflexivity.
Qed.

(** *** The same sample offered twice *)

Lemma addSample_nonempty x m : CP.addSample x m <> [].
Proof.
  destruct m as [|f rest]; [discriminate|].
  destruct (addSample_cases x f rest) as [[_ ->]|[(_ & _ & ->)|(_ & _ & ->)]];
    discriminate || (destruct (f :: rest); discriminate).
Qed.

(** After [addSample] the time of the sample lies within the stored
    range. *)
Lemma addSample_covers x m d :
  increasing (times m) ->
  Sm.t (hd d (CP.addSample x m)) <= Sm.t x <= Sm.t (last (CP.addSample x m) d).
Proof.
  intros H. destruct m as [|f rest]; [cbn; lra|].
  pose proof (front_le_back f rest x H) as Hfb.
  destruct (addSample_cases x f rest) as [[Hgt E]|[(Hle & Hlt & E)|(Hle & Hge & E)]].
  - rewrite E. rewrite last_last. cbn [app hd Sm.t Sm.setBoundingRadius]. lra.
  - pose proof (addSample_increasing x (f :: rest) H) as Hinc. rewrite E in Hinc.
    rewrite E. cbn [hd].
    pose proof (front_le_back x _ d Hinc). lra.
  - rewrite E. cbn [hd].
    rewrite (last_default (f :: rest) d x) by discriminate. lra.
Qed.

(** X8: on a store whose sample times increase, offering the same sample a
    second time changes nothing: after the first [addSample] its time lies
    within the stored range, so the second call drops it. *)
Theorem addSample_twice (x : Sm.sample) (m : CP.Samples) :
  increasing (times m) ->
  CP.addSample x (CP.addSample x m) = CP.addSample x m.
Proof.
  intros H.
  pose proof (addSample_covers x m x H) as [Hfront Hback].
  pose proof (addSample_nonempty x m) as Hne.
  destruct (CP.addSample x m) as [|f rest]; [congruence|].
  cbn [hd] in Hfront. apply addSample_reject; assumption.
Qed.

Lemma addSample_twice_witness :
  CP.addSample (sampleOnLine 10) (CP.addSample (sampleOnLine 10) [sampleOnLine 0])
  = CP.addSample (sampleOnLine 10) [sampleOnLine 0].
Proof.
  apply (addSample_twice (sampleOnLine 10) [sampleOnLine 0]).
  simpl. constructor.
Defined.

(** *** The bounding radius under a change of origin *)

(** The sample [s] seen from an origin shifted by [- d] in space and
    [- delay] in time. *)
Definition shifted (d : Vector3d) (delay : R) (s : Sm.sample) : Sm.sample :=
  Sm.Make (Sm.t s + delay)
          (V3 (x3 (Sm.position s) + x3 d) (y3 (Sm.position s) + y3 d)
              (z3 (Sm.position s) + z3 d))
          (Sm.velocity s) (Sm.boundingRadius s).

Ltac same_extent :=
  repeat first [ apply (f_equal2 Rplus)
               | apply (f_equal2 Rmult); [reflexivity|] ];
  try reflexivity; apply (f_equal Rabs); ring.

(** X9: the bounding radius that [addSample] computes for a segment does
    not change when both samples are moved by the same displacement and
    the same delay: the constant coefficient of the cubic has weight 0 in
    [extents], the other coefficients are built from differences. *)
Theorem segmentBoundingRadius_shift_invariant
  (d : Vector3d) (delay : R) (a b : Sm.sample) :
  CP.segmentBoundingRadius (shifted d delay a) (shifted d delay b)
  = CP.segmentBoundingRadius a b.
Proof.
  destruct a as [ta [pax pay paz] [vax vay vaz] ra],
           b as [tb [pbx pby pbz] [vbx vby vbz] rb], d as [dx dy dz].
  unfold CP.segmentBoundingRadius.
  cbv beta zeta delta [mulMV cwiseAbs cubicHermiteCoefficients abs4 add4 sub4 scale4
    zeroExtend scale3 shifted x4 y4 z4 w4 x3 y3 z3 col0 col1 col2 col3
    Sm.t Sm.position Sm.velocity Sm.boundingRadius] iota.
  rewrite !Rmult_0_l.
  f_equal. f_equal; same_extent.
Qed.

(** *** The vertex buffer under arbitrary sequences of calls *)

(** The calls that the render functions make on a buffer between [setup]
    and [finish]; [end] and [flush] with their default argument. *)
Inductive BufferCall : Type :=
| callBegin
| callVertex (v : Vector4d)
| callVertexColor (v : Vector4d) (c : Vector4f)
| callEnd
| callFlush
| callSetColor (c : Vector4f).

Definition perform (call : BufferCall) (b : VB.t) : VB.t :=
  match call with
  | callBegin => VB.begin b
  | callVertex v => VB.vertex v b
  | callVertexColor v c => VB.vertexColor v c b
  | callEnd => VB.end_ true b
  | callFlush => VB.flush true b
  | callSetColor c => VB.setColor c b
  end.

Definition performAll (calls : list BufferCall) (b : VB.t) : VB.t :=
  fold_left (fun b call => perform call b) calls b.

(** The slot pairs that the recorded strips take: each strip is followed by
    the extra point that [end] appends. *)
Fixpoint slotsOf (lengths : list nat) : nat :=
  match lengths with
  | [] => 0
  | len :: rest => len + 1 + slotsOf rest
  end.

(** The cursor is at most [bound], the buffer consists of the recorded
    strips followed by the open strip, and every recorded strip has two
    points or more. *)
Definition coherentUpTo (bound : nat) (b : VB.t) : Prop :=
  (VB.currentPosition b <= bound)%nat /\
  VB.currentPosition b = (slotsOf (VB.stripLengths b) + VB.currentStripLength b)%nat /\
  Forall (fun len => 2 <= len)%nat (VB.stripLengths b).

Definition coherent (b : VB.t) : Prop :=
  (2 <= VB.capacity b)%nat /\ coherentUpTo (VB.capacity b - 1) b.

(** The highest slot of the buffer object that a [glDrawArrays] call reads
    with the attribute layout of [setup].  As a line strip the stride is
    two vertices: element [e] reads slot [2 * e].  As a triangle strip the
    stride is one vertex and the next-vertex attribute starts at slot 2:
    element [e] reads the slots [e] and [e + 2]. *)
Definition highestSlot (mode : GLenum) (first count : nat) : nat :=
  match mode with
  | GL_LINE_STRIP => 2 * (first + count - 1)
  | GL_TRIANGLE_STRIP => first + count - 1 + 2
  end.

(** The points of the polyline that a [glDrawArrays] call draws. *)
Definition pointCount (mode : GLenum) (count : nat) : nat :=
  match mode with
  | GL_LINE_STRIP => count
  | GL_TRIANGLE_STRIP => count / 2
  end.

(** Every upload fits the array of [(capacity + 1) * 2] vertices, and every
    draw reads only slots of the last upload before it and draws two points
    or more.  [uploaded] is the size of the last upload. *)
Fixpoint logWithinBounds (cap uploaded : nat) (calls : list VB.GLCall) : Prop :=
  match calls with
  | [] => True
  | VB.glBufferSubData u :: rest =>
      (length u <= (cap + 1) * 2)%nat /\ logWithinBounds cap (length u) rest
  | VB.glDrawArrays mode first count :: rest =>
      (2 <= pointCount mode count)%nat /\
      (highestSlot mode first count < uploaded)%nat /\
      logWithinBounds cap uploaded rest
  end.

Lemma slotsOf_app l1 l2 : slotsOf (l1 ++ l2) = (slotsOf l1 + slotsOf l2)%nat.
Proof. induction l1 as [|a l1 IH]; simpl; [reflexivity | rewrite IH; lia]. Qed.

Lemma logWithinBounds_app cap c1 : forall n c2,
  logWithinBounds cap n c1 -> (forall k, logWithinBounds cap k c2) ->
  logWithinBounds cap n (c1 ++ c2).
Proof.
  induction c1 as [|c c1 IH]; intros n c2 H1 H2; [apply H2|].
  destruct c as [u|mode first count]; cbn [app logWithinBounds] in *.
  - destruct H1 as [Hu H1]. split; [exact Hu|]. apply IH; assumption.
  - destruct H1 as (Hp & Hs & H1). repeat split; try assumption. apply IH; assumption.
Qed.

Lemma drawStrips_within cap tri n lengths : forall start,
  (start + slotsOf lengths <= n)%nat ->
  Forall (fun len => 2 <= len)%nat lengths ->
  logWithinBounds cap (n * 2) (VB.drawStrips tri start lengths).
Proof.
  induction lengths as [|len rest IH]; intros start Hfit Hlen; [exact I|].
  inversion Hlen as [|? ? H2 Hrest]; subst.
  cbn [slotsOf] in Hfit.
  cbn [VB.drawStrips].
  assert (Hr : logWithinBounds cap (n * 2)
                 (VB.drawStrips tri (start + (len + 1)) rest))
    by (apply IH; [lia | assumption]).
  destruct tri; cbn [logWithinBounds pointCount highestSlot].
  - repeat split; [| lia | exact Hr].
    rewrite Nat.div_mul by lia. exact H2.
  - repeat split; [exact H2 | lia | exact Hr].
Qed.

Lemma flush_nonempty e b :
  (0 < VB.currentPosition b)%nat ->
  let b1 := if e && Nat.ltb 1 (VB.currentStripLength b) then VB.end_strip b else b in
  VB.flush e b =
  VB.Make 0 (VB.capacity b1) (VB.data b1) (VB.vbobj b1) 0 [] (VB.m_color b1)
          (VB.lineAsTriangles b1)
          (VB.gl b1 ++
           VB.glBufferSubData (map (VB.data b1) (seq 0 (VB.currentPosition b1 * 2)))
           :: VB.drawStrips (VB.lineAsTriangles b1) 0 (VB.stripLengths b1)).
Proof.
  intros H b1. unfold VB.flush.
  assert (E : Nat.ltb 0 (VB.currentPosition b) = true) by (apply Nat.ltb_lt; lia).
  rewrite E. reflexivity.
Qed.

Lemma end_strip_capacity b : VB.capacity (VB.end_strip b) = VB.capacity b.
Proof.
  unfold VB.end_strip. destruct (Nat.ltb 1 (VB.currentStripLength b)); reflexivity.
Qed.

Lemma end_strip_lineAsTriangles b :
  VB.lineAsTriangles (VB.end_strip b) = VB.lineAsTriangles b.
Proof.
  unfold VB.end_strip. destruct (Nat.ltb 1 (VB.currentStripLength b)); reflexivity.
Qed.

(** [end(false)] closes or abandons the open strip. *)
Lemma end_strip_coherent bound b :
  coherentUpTo bound b ->
  coherentUpTo (S bound) (VB.end_strip b) /\
  VB.currentStripLength (VB.end_strip b) = 0%nat /\
  (VB.currentPosition (VB.end_strip b) <= S (VB.currentPosition b))%nat.
Proof.
  intros (Hcp & Hsum & Hall). unfold coherentUpTo, VB.end_strip.
  destruct (Nat.ltb 1 (VB.currentStripLength b)) eqn:E;
    cbn [VB.currentPosition VB.currentStripLength VB.stripLengths].
  - apply Nat.ltb_lt in E. rewrite slotsOf_app. cbn [slotsOf].
    repeat split; try lia.
    apply Forall_app. split; [assumption|]. constructor; [lia | constructor].
  - repeat split; try lia. assumption.
Qed.

(** What [flush] logs, and the buffer it leaves. *)
Lemma flush_coherent e b :
  coherentUpTo (VB.capacity b) b ->
  VB.capacity (VB.flush e b) = VB.capacity b /\
  VB.lineAsTriangles (VB.flush e b) = VB.lineAsTriangles b /\
  coherentUpTo 0 (VB.flush e b) /\
  VB.currentStripLength (VB.flush e b) = 0%nat /\
  exists calls,
    VB.gl (VB.flush e b) = VB.gl b ++ calls /\
    forall k, logWithinBounds (VB.capacity b) k calls.
Proof.
  intros H.
  destruct (Nat.eq_dec (VB.currentPosition b) 0) as [Z|NZ].
  - rewrite flush_empty by assumption.
    destruct H as (Hcp & Hsum & Hall).
    unfold coherentUpTo.
    cbn [VB.capacity VB.lineAsTriangles VB.currentPosition VB.currentStripLength
         VB.stripLengths VB.gl].
    repeat split; try lia; try assumption.
    exists []. rewrite app_nil_r. split; [reflexivity | intros k; exact I].
  - rewrite flush_nonempty by lia.
    set (b1 := if e && Nat.ltb 1 (VB.currentStripLength b) then VB.end_strip b else b).
    assert (H1 : coherentUpTo (S (VB.capacity b)) b1 /\
                 VB.capacity b1 = VB.capacity b /\
                 VB.lineAsTriangles b1 = VB.lineAsTriangles b /\
                 VB.gl b1 = VB.gl b).
    { subst b1. destruct (e && Nat.ltb 1 (VB.currentStripLength b)).
      - rewrite end_strip_capacity, end_strip_lineAsTriangles, end_strip_gl.
        split; [apply end_strip_coherent; exact H | repeat split].
      - split; [|repeat split].
        destruct H as (Hcp & Hsum & Hall). repeat split; try assumption. lia. }
    destruct H1 as ((Hcp1 & Hsum1 & Hall1) & Hcap1 & Htri1 & Hgl1).
    unfold coherentUpTo.
    cbn [VB.capacity VB.lineAsTriangles VB.currentPosition VB.currentStripLength
         VB.stripLengths VB.gl slotsOf].
    repeat split; try assumption; try lia; try constructor.
    rewrite Hgl1. eexists. split; [reflexivity|].
    intros k. cbn [logWithinBounds]. rewrite length_map, length_seq.
    split; [lia|].
    apply drawStrips_within; [lia | assumption].
Qed.

Lemma vertexColor_coherent v c b :
  coherent b ->
  coherent (VB.vertexColor v c b) /\
  (1 <= VB.currentStripLength (VB.vertexColor v c b))%nat /\
  VB.capacity (VB.vertexColor v c b) = VB.capacity b /\
  VB.lineAsTriangles (VB.vertexColor v c b) = VB.lineAsTriangles b /\
  exists calls,
    VB.gl (VB.vertexColor v c b) = VB.gl b ++ calls /\
    forall k, logWithinBounds (VB.capacity b) k calls.
Proof.
  intros (Hcap & Hcp & Hsum & Hall).
  destruct (Nat.eq_dec (S (VB.currentPosition b)) (VB.capacity b)) as [Full|Room].
  - unfold VB.vertexColor.
    set (b1 := VB.Make (VB.currentPosition b + 1) (VB.capacity b) _ (VB.vbobj b)
                 (VB.currentStripLength b + 1) (VB.stripLengths b) (VB.m_color b)
                 (VB.lineAsTriangles b) (VB.gl b)).
    assert (E : Nat.eqb (VB.currentPosition b1) (VB.capacity b1) = true)
      by (apply Nat.eqb_eq; subst b1; cbn [VB.currentPosition VB.capacity]; lia).
    rewrite E.
    assert (H1 : coherentUpTo (VB.capacity b1) b1).
    { subst b1. unfold coherentUpTo.
      cbn [VB.currentPosition VB.capacity VB.stripLengths VB.currentStripLength].
      repeat split; try lia. assumption. }
    destruct (flush_coherent true b1 H1)
      as (Fcap & Ftri & (Fcp & Fsum & Fall) & Fcsl & calls & Fgl & Flog).
    unfold coherent, coherentUpTo.
    cbn [VB.currentPosition VB.capacity VB.stripLengths VB.currentStripLength
         VB.lineAsTriangles VB.gl].
    rewrite Fcap, Ftri. subst b1. cbn [VB.capacity VB.lineAsTriangles VB.gl] in *.
    repeat split; try lia; try assumption.
    exists calls. split; assumption.
  - rewrite vertexColor_room by assumption.
    unfold coherent, coherentUpTo.
    cbn [VB.currentPosition VB.capacity VB.stripLengths VB.currentStripLength
         VB.lineAsTriangles VB.gl].
    repeat split; try lia; try assumption.
    exists []. rewrite app_nil_r. split; [reflexivity | intros k; exact I].
Qed.

Lemma end_coherent b :
  coherent b ->
  coherent (VB.end_ true b) /\
  VB.currentStripLength (VB.end_ true b) = 0%nat /\
  VB.capacity (VB.end_ true b) = VB.capacity b /\
  VB.lineAsTriangles (VB.end_ true b) = VB.lineAsTriangles b /\
  exists calls,
    VB.gl (VB.end_ true b) = VB.gl b ++ calls /\
    forall k, logWithinBounds (VB.capacity b) k calls.
Proof.
  intros (Hcap & H).
  destruct (end_strip_coherent _ _ H) as (H1 & Hcsl1 & Hstep).
  replace (S (VB.capacity b - 1)) with (VB.capacity b) in H1 by lia.
  unfold VB.end_. cbn [andb].
  destruct (Nat.eqb (VB.currentPosition (VB.end_strip b))
                    (VB.capacity (VB.end_strip b))) eqn:E.
  - rewrite <- (end_strip_capacity b) in H1.
    destruct (flush_coherent false _ H1)
      as (Fcap & Ftri & (Fcp & Fsum & Fall) & Fcsl & calls & Fgl & Flog).
    rewrite end_strip_capacity in Fcap, Flog.
    rewrite end_strip_lineAsTriangles in Ftri. rewrite end_strip_gl in Fgl.
    unfold coherent, coherentUpTo. rewrite Fcap.
    repeat split; try lia; try assumption.
    exists calls. split; assumption.
  - apply Nat.eqb_neq in E. rewrite end_strip_capacity in E.
    unfold coherent. rewrite end_strip_capacity, end_strip_lineAsTriangles, end_strip_gl.
    destruct H1 as (Hcp1 & Hsum1 & Hall1).
    unfold coherentUpTo.
    repeat split; try lia; try assumption.
    exists []. rewrite app_nil_r. split; [reflexivity | intros k; exact I].
Qed.

Lemma perform_coherent call b :
  coherent b ->
  coherent (perform call b) /\
  VB.capacity (perform call b) = VB.capacity b /\
  VB.lineAsTriangles (perform call b) = VB.lineAsTriangles b /\
  exists calls,
    VB.gl (perform call b) = VB.gl b ++ calls /\
    forall k, logWithinBounds (VB.capacity b) k calls.
Proof.
  intros H.
  assert (Hnone : exists calls : list VB.GLCall,
             VB.gl b = VB.gl b ++ calls /\
             forall k, logWithinBounds (VB.capacity b) k calls)
    by (exists []; rewrite app_nil_r; split; [reflexivity | intros k; exact I]).
  destruct call as [|v|v c| | |c]; cbn [perform].
  - unfold VB.begin. repeat split; try apply H. exact Hnone.
  - unfold VB.vertex.
    destruct (vertexColor_coherent v (VB.m_color b) b H) as (A & _ & B & C & D).
    repeat split; try apply A; assumption.
  - destruct (vertexColor_coherent v c b H) as (A & _ & B & C & D).
    repeat split; try apply A; assumption.
  - destruct (end_coherent b H) as (A & _ & B & C & D).
    repeat split; try apply A; assumption.
  - destruct H as (Hcap & H).
    assert (H' : coherentUpTo (VB.capacity b) b).
    { destruct H as (Hcp & Hsum & Hall). repeat split; try assumption. lia. }
    destruct (flush_coherent true b H')
      as (Fcap & Ftri & (Fcp & Fsum & Fall) & Fcsl & calls & Fgl & Flog).
    unfold coherent, coherentUpTo. rewrite Fcap.
    repeat split; try lia; try assumption.
    exists calls. split; assumption.
  - unfold VB.setColor, coherent, coherentUpTo.
    cbn [VB.currentPosition VB.capacity VB.stripLengths VB.currentStripLength
         VB.lineAsTriangles VB.gl].
    repeat split; try apply H. exact Hnone.
Qed.

Lemma performAll_coherent calls : forall b,
  coherent b ->
  coherent (performAll calls b) /\
  VB.capacity (performAll calls b) = VB.capacity b /\
  VB.lineAsTriangles (performAll calls b) = VB.lineAsTriangles b /\
  exists logged,
    VB.gl (performAll calls b) = VB.gl b ++ logged /\
    forall k, logWithinBounds (VB.capacity b) k logged.
Proof.
  induction calls as [|call calls IH]; intros b H.
  - cbn [performAll fold_left]. repeat split; try apply H.
    exists []. rewrite app_nil_r. split; [reflexivity | intros k; exact I].
  - cbn [performAll fold_left]. fold (performAll calls (perform call b)).
    destruct (perform_coherent call b H) as (H1 & Hcap & Htri & l1 & G1 & L1).
    destruct (IH _ H1) as (H2 & Hcap2 & Htri2 & l2 & G2 & L2).
    rewrite Hcap2, Htri2, Hcap, Htri. rewrite Hcap in L2.
    repeat split; try apply H2.
    exists (l1 ++ l2). rewrite G2, G1, app_assoc. split; [reflexivity|].
    intros k. apply logWithinBounds_app; [apply L1 | exact L2].
Qed.

Lemma setup_coherent tri b :
  (2 <= VB.capacity b)%nat -> coherent (VB.setup tri b).
Proof.
  intros H. unfold coherent, coherentUpTo, VB.setup.
  cbn [VB.currentPosition VB.capacity VB.stripLengths VB.currentStripLength slotsOf].
  repeat split; try lia. constructor.
Qed.

(** X10: from a buffer of capacity 2 or more that was set up, every
    sequence of [begin], [vertex], [end], [flush] and [setColor] calls
    leaves the cursor below the capacity, so the slots that [vertex] and
    [end] write next lie inside the array of [(capacity + 1) * 2]
    vertices; the open strip is part of the buffer, so the subtraction in
    [end] never wraps; the buffer consists of the recorded strips, each of
    two points or more and followed by its extra point, and the open
    strip. *)
Theorem buffer_cursor_stays_below_capacity
  (tri : bool) (b : VB.t) (calls : list BufferCall) :
  (2 <= VB.capacity b)%nat ->
  let b' := performAll calls (VB.setup tri b) in
  VB.capacity b' = VB.capacity b /\
  (VB.currentPosition b' < VB.capacity b')%nat /\
  (VB.currentStripLength b' <= VB.currentPosition b')%nat /\
  VB.currentPosition b' =
    (slotsOf (VB.stripLengths b') + VB.currentStripLength b')%nat /\
  Forall (fun len => 2 <= len)%nat (VB.stripLengths b').
Proof.
  intros Hcap b'.
  destruct (performAll_coherent calls _ (setup_coherent tri b Hcap))
    as ((Hc & Hcp & Hsum & Hall) & Hcap' & _).
  fold b' in Hc, Hcp, Hsum, Hall, Hcap'.
  change (VB.capacity (VB.setup tri b)) with (VB.capacity b) in Hcap'.
  repeat split; try assumption; lia.
Qed.

(** [begin(); vertex(pointA); vertex(pointB); end(); flush()] *)
Definition drawTwoPoints : list BufferCall :=
  [callBegin; callVertex pointA; callVertex pointB; callEnd; callFlush].

Lemma buffer_cursor_stays_below_capacity_witness :
  VB.capacity (performAll drawTwoPoints (VB.setup false newBuffer))
    = VB.capacity newBuffer /\
  (VB.currentPosition (performAll drawTwoPoints (VB.setup false newBuffer))
   < VB.capacity (performAll drawTwoPoints (VB.setup false newBuffer)))%nat /\
  (VB.currentStripLength (performAll drawTwoPoints (VB.setup false newBuffer))
   <= VB.currentPosition (performAll drawTwoPoints (VB.setup false newBuffer)))%nat /\
  VB.currentPosition (performAll drawTwoPoints (VB.setup false newBuffer)) =
    (slotsOf (VB.stripLengths (performAll drawTwoPoints (VB.setup false newBuffer)))
     + VB.currentStripLength (performAll drawTwoPoints (VB.setup false newBuffer)))%nat /\
  Forall (fun len => 2 <= len)%nat
    (VB.stripLengths (performAll drawTwoPoints (VB.setup false newBuffer))).
Proof.
  apply (buffer_cursor_stays_below_capacity false newBuffer drawTwoPoints).
  unfold newBuffer, VB.make; cbn [VB.capacity]. lia.
Defined.

(** X11: from a buffer of capacity 2 or more that was set up, every
    sequence of [begin], [vertex], [end], [flush] and [setColor] calls logs
    OpenGL calls that stay within bounds: every [glBufferSubData] uploads at
    most the [(capacity + 1) * 2] vertices of the array, and every
    [glDrawArrays] draws a polyline of two points or more and reads, with
    the attribute layout of [setup], only slots of the upload before it. *)
Theorem buffer_draws_stay_inside_upload
  (tri : bool) (b : VB.t) (calls : list BufferCall) :
  (2 <= VB.capacity b)%nat ->
  exists logged,
    VB.gl (performAll calls (VB.setup tri b)) = VB.gl b ++ logged /\
    logWithinBounds (VB.capacity b) 0 logged.
Proof.
  intros Hcap.
  destruct (performAll_coherent calls _ (setup_coherent tri b Hcap))
    as (_ & _ & _ & logged & G & L).
  exists logged. split; [exact G | apply L].
Qed.

Lemma buffer_draws_stay_inside_upload_witness :
  exists logged,
    VB.gl (performAll drawTwoPoints (VB.setup true newBuffer))
      = VB.gl newBuffer ++ logged /\
    logWithinBounds (VB.capacity newBuffer) 0 logged.
Proof.
  apply (buffer_draws_stay_inside_upload true newBuffer drawTwoPoints).
  unfold newBuffer, VB.make; cbn [VB.capacity]. lia.
Defined.

(** *** The restart flag and the open strip *)

Lemma forEach_invariant {S} (P : S -> Prop) (body : nat -> S -> outcome S) range :
  (forall i s s', P s -> body i s = Done s' -> P s') ->
  forall s s', P s -> forEach body range s = Done s' -> P s'.
Proof.
  intros Hbody. induction range as [|i range IH]; intros s s' Hs E.
  - cbn [forEach] in E. injection E as <-. exact Hs.
  - cbn [forEach] in E. destruct (body i s) as [s1| |] eqn:B; cbn [bind] in E;
      try discriminate.
    eapply IH; [|exact E]. eapply Hbody; eassumption.
Qed.

Lemma end_strip_length_reset b : VB.currentStripLength (VB.end_strip b) = 0%nat.
Proof.
  unfold VB.end_strip. destruct (Nat.ltb 1 (VB.currentStripLength b)); reflexivity.
Qed.

Lemma end_length_reset e b : VB.currentStripLength (VB.end_ e b) = 0%nat.
Proof.
  unfold VB.end_.
  destruct (e && Nat.eqb (VB.currentPosition (VB.end_strip b))
                         (VB.capacity (VB.end_strip b))).
  - reflexivity.
  - apply end_strip_length_reset.
Qed.

Lemma vertexColor_opens_strip v c b :
  (1 <= VB.currentStripLength (VB.vertexColor v c b))%nat.
Proof.
  unfold VB.vertexColor.
  match goal with |- context [if ?c then _ else _] => destruct c end;
    cbn [VB.currentStripLength]; lia.
Qed.

(** The flag is set exactly when no strip is open. *)
Definition flagTracksStrip (restartCurve : bool) (vbuf : VB.t) : Prop :=
  restartCurve = true <-> VB.currentStripLength vbuf = 0%nat.

Lemma flag_after_end e b : flagTracksStrip true (VB.end_ e b).
Proof. split; intros _; [apply end_length_reset | reflexivity]. Qed.

Lemma flag_after_vertex v c b : flagTracksStrip false (VB.vertexColor v c b).
Proof.
  pose proof (vertexColor_opens_strip v c b).
  split; [discriminate | lia].
Qed.

Lemma cubicBody_flag rc recurse coeff t0 dt radius depth :
  (forall r a b rad d v r' v',
     flagTracksStrip r v -> recurse r a b rad d v = Done (r', v') ->
     flagTracksStrip r' v') ->
  forall i s s',
    flagTracksStrip (fst (fst s)) (snd s) ->
    RC.cubicBody rc recurse coeff t0 dt radius depth i s = Done s' ->
    flagTracksStrip (fst (fst s')) (snd s').
Proof.
  intros Hrec i [[r lastP] vbuf] s' Hs E. cbn [fst snd] in Hs.
  unfold RC.cubicBody in E.
  destruct (dge _ _).
  - destruct (Fr.cullSphere _ _ _).
    + destruct r; cbn [negb] in E; injection E as <-; cbn [fst snd].
      * exact Hs.
      * apply flag_after_end.
    + match type of E with
      | bind ?call _ = _ => destruct call as [[r' v']| |] eqn:C
      end; cbn [bind] in E; try discriminate.
      injection E as <-. cbn [fst snd]. eapply Hrec; eassumption.
  - destruct r; injection E as <-; cbn [fst snd]; unfold VB.vertex;
      apply flag_after_vertex.
Qed.

Lemma cubicFadedBody_flag rc recurse coeff t0 dt color fadeStart fadeRate radius depth :
  (forall r a b rad d v r' v',
     flagTracksStrip r v -> recurse r a b rad d v = Done (r', v') ->
     flagTracksStrip r' v') ->
  forall i s s',
    flagTracksStrip (fst (fst (fst s))) (snd s) ->
    RC.cubicFadedBody rc recurse coeff t0 dt color fadeStart fadeRate radius depth i s
      = Done s' ->
    flagTracksStrip (fst (fst (fst s'))) (snd s').
Proof.
  intros Hrec i [[[r lastP] lastOpacity] vbuf] s' Hs E. cbn [fst snd] in Hs.
  unfold RC.cubicFadedBody in E.
  destruct (dge _ _).
  - destruct (Fr.cullSphere _ _ _).
    + destruct r; cbn [negb] in E; injection E as <-; cbn [fst snd].
      * exact Hs.
      * apply flag_after_end.
    + match type of E with
      | bind ?call _ = _ => destruct call as [[r' v']| |] eqn:C
      end; cbn [bind] in E; try discriminate.
      injection E as <-. cbn [fst snd]. eapply Hrec; eassumption.
  - destruct r; injection E as <-; cbn [fst snd]; apply flag_after_vertex.
Qed.

Lemma renderCubic_flag fuel : forall rc restartCurve coeff t0 t1 radius depth vbuf r' vbuf',
  flagTracksStrip restartCurve vbuf ->
  RC.renderCubic fuel rc restartCurve coeff t0 t1 radius depth vbuf = Done (r', vbuf') ->
  flagTracksStrip r' vbuf'.
Proof.
  induction fuel as [|fuel IH]; intros rc restartCurve coeff t0 t1 radius depth vbuf
    r' vbuf' H0 E; [discriminate|].
  rewrite renderCubic_unfold in E.
  match type of E with
  | bind (forEach ?body ?range ?s0) _ = _ =>
      destruct (forEach body range s0) as [[[r1 p1] v1]| |] eqn:L
  end; cbn [bind] in E; try discriminate.
  injection E as <- <-.
  refine (forEach_invariant
            (fun s : RC.CubicState => flagTracksStrip (fst (fst s)) (snd s))
            _ _ _ _ (r1, p1, v1) _ L); [|exact H0].
  apply cubicBody_flag.
  intros r a b rad d v r2 v2 Hr Er. eapply IH; eassumption.
Qed.

Lemma renderCubicFaded_flag fuel :
  forall rc restartCurve coeff t0 t1 color fadeStart fadeRate radius depth vbuf r' vbuf',
  flagTracksStrip restartCurve vbuf ->
  RC.renderCubicFaded fuel rc restartCurve coeff t0 t1 color fadeStart fadeRate
                      radius depth vbuf = Done (r', vbuf') ->
  flagTracksStrip r' vbuf'.
Proof.
  induction fuel as [|fuel IH]; intros rc restartCurve coeff t0 t1 color fadeStart
    fadeRate radius depth vbuf r' vbuf' H0 E; [discriminate|].
  rewrite renderCubicFaded_unfold in E.
  match type of E with
  | bind (forEach ?body ?range ?s0) _ = _ =>
      destruct (forEach body range s0) as [[[[r1 p1] o1] v1]| |] eqn:L
  end; cbn [bind] in E; try discriminate.
  injection E as <- <-.
  refine (forEach_invariant
            (fun s : RC.FadedState => flagTracksStrip (fst (fst (fst s))) (snd s))
            _ _ _ _ (r1, p1, o1, v1) _ L); [|exact H0].
  apply cubicFadedBody_flag.
  intros r a b rad d v r2 v2 Hr Er. eapply IH; eassumption.
Qed.

(** X12: [renderCubic] and [renderCubicFaded] return the restart status of
    the strip, as the comment in the source says: when the flag passed in
    is set exactly if no strip is open in the vertex buffer, then so is the
    flag returned, whatever was subdivided, culled or drawn. *)
Theorem renderCubic_returns_restart_status
  fuel rc (restartCurve : bool) coeff t0 t1 color fadeStart fadeRate radius depth
  (vbuf : VB.t) :
  flagTracksStrip restartCurve vbuf ->
  (forall r' vbuf',
     RC.renderCubic fuel rc restartCurve coeff t0 t1 radius depth vbuf
       = Done (r', vbuf') ->
     flagTracksStrip r' vbuf') /\
  (forall r' vbuf',
     RC.renderCubicFaded fuel rc restartCurve coeff t0 t1 color fadeStart fadeRate
       radius depth vbuf = Done (r', vbuf') ->
     flagTracksStrip r' vbuf').
Proof.
  intros H. split; intros r' vbuf' E.
  - eapply renderCubic_flag; eassumption.
  - eapply renderCubicFaded_flag; eassumption.
Qed.

Lemma renderCubic_returns_restart_status_witness :
  flagTracksStrip false (nineVertices (VB.setup false newBuffer)).
Proof.
  refine (proj1 (renderCubic_returns_restart_status 1 farContext true farLine 0 1
                   white 0 1 8 1 (VB.setup false newBuffer) _) _ _ farLine_level).
  split; reflexivity.
Defined.

(** *** [end] and [flush] a second time *)

Lemma flush_flushed e b :
  VB.currentPosition b = 0%nat -> VB.currentStripLength b = 0%nat ->
  VB.flush e b = b.
Proof.
  intros Hcp Hcsl. rewrite flush_empty by assumption.
  destruct b. cbn [VB.currentPosition VB.currentStripLength] in Hcp, Hcsl.
  subst. reflexivity.
Qed.

Lemma flush_cursor e b : VB.currentPosition (VB.flush e b) = 0%nat.
Proof.
  destruct (Nat.eq_dec (VB.currentPosition b) 0) as [Z|NZ].
  - rewrite flush_empty by assumption. reflexivity.
  - apply flush_nonempty_fields. lia.
Qed.

Lemma flush_length e b : VB.currentStripLength (VB.flush e b) = 0%nat.
Proof. reflexivity. Qed.

(** X13: [flush] and [end] are idempotent on a buffer of capacity 1 or
    more: a second [flush], a second [end], or an [end] right after a
    [flush] leaves the buffer and the log of OpenGL calls as they are. *)
Theorem flush_and_end_twice (e1 e2 : bool) (b : VB.t) :
  (1 <= VB.capacity b)%nat ->
  VB.flush e2 (VB.flush e1 b) = VB.flush e1 b /\
  VB.end_ true (VB.end_ true b) = VB.end_ true b /\
  VB.end_ true (VB.flush e1 b) = VB.flush e1 b.
Proof.
  intros Hcap.
  assert (F : forall e b', VB.flush e2 (VB.flush e b') = VB.flush e b').
  { intros e b'. apply flush_flushed; [apply flush_cursor | apply flush_length]. }
  assert (E : forall b', (1 <= VB.capacity b')%nat ->
                         VB.currentStripLength b' = 0%nat ->
                         VB.currentPosition b' <> VB.capacity b' ->
                         VB.end_ true b' = b').
  { intros b' Hc Hl Hp. unfold VB.end_.
    rewrite end_strip_short by lia. cbn [VB.currentPosition VB.capacity andb].
    rewrite Hl, Nat.sub_0_r.
    apply Nat.eqb_neq in Hp. rewrite Hp.
    destruct b'. cbn [VB.currentStripLength] in Hl. subst. reflexivity. }
  split; [apply F | split].
  - assert (Hx : (1 <= VB.capacity (VB.end_ true b))%nat /\
                 VB.currentStripLength (VB.end_ true b) = 0%nat /\
                 VB.currentPosition (VB.end_ true b) <> VB.capacity (VB.end_ true b)).
    { unfold VB.end_. cbn [andb].
      destruct (Nat.eqb (VB.currentPosition (VB.end_strip b))
                        (VB.capacity (VB.end_strip b))) eqn:Q.
      - rewrite flush_cursor. unfold VB.flush. cbn [VB.capacity VB.currentStripLength].
        destruct (Nat.ltb 0 (VB.currentPosition (VB.end_strip b)));
          cbn [VB.capacity andb]; rewrite end_strip_capacity; repeat split; lia.
      - apply Nat.eqb_neq in Q. rewrite end_strip_length_reset.
        rewrite end_strip_capacity in *. repeat split; try lia. }
    destruct Hx as (H1 & H2 & H3). apply E; assumption.
  - apply E.
    + unfold VB.flush. cbn [VB.capacity].
      destruct (Nat.ltb 0 (VB.currentPosition b)); cbn [VB.capacity];
        [destruct (e1 && _); rewrite ?end_strip_capacity|]; exact Hcap.
    + apply flush_length.
    + rewrite flush_cursor. unfold VB.flush. cbn [VB.capacity].
      destruct (Nat.ltb 0 (VB.currentPosition b)); cbn [VB.capacity];
        [destruct (e1 && _); rewrite ?end_strip_capacity|]; lia.
Qed.

Lemma flush_and_end_twice_witness :
  VB.flush true (VB.flush true twoVertexStrip) = VB.flush true twoVertexStrip /\
  VB.end_ true (VB.end_ true twoVertexStrip) = VB.end_ true twoVertexStrip /\
  VB.end_ true (VB.flush true twoVertexStrip) = VB.flush true twoVertexStrip.
Proof.
  apply (flush_and_end_twice true true twoVertexStrip).
  destruct twoVertexStrip_cursor as (_ & _ & C). rewrite C. lia.
Defined.

(** *** The render entry points keep the buffer coherent *)

(** From [b] to [b'] the buffer stays coherent and the log grows by calls
    that are within bounds. *)
Definition advances (b b' : VB.t) : Prop :=
  coherent b' /\ VB.capacity b' = VB.capacity b /\
  VB.lineAsTriangles b' = VB.lineAsTriangles b /\
  exists logged,
    VB.gl b' = VB.gl b ++ logged /\
    forall k, logWithinBounds (VB.capacity b) k logged.

Lemma advances_refl b : coherent b -> advances b b.
Proof.
  intros H. repeat split; try apply H.
  exists []. rewrite app_nil_r. split; [reflexivity | intros k; exact I].
Qed.

Lemma advances_perform a b call : advances a b -> advances a (perform call b).
Proof.
  intros (Hb & Hcap & Htri & l1 & G1 & L1).
  destruct (perform_coherent call b Hb) as (H2 & Hcap2 & Htri2 & l2 & G2 & L2).
  split; [exact H2|]. rewrite Hcap2, Htri2. repeat split; try assumption.
  exists (l1 ++ l2). rewrite G2, G1, app_assoc. split; [reflexivity|].
  intros k. apply logWithinBounds_app; [apply L1|]. rewrite <- Hcap. exact L2.
Qed.

Lemma advances_end a b : advances a b -> advances a (VB.end_ true b).
Proof. apply (advances_perform a b callEnd). Qed.

Lemma advances_flush a b : advances a b -> advances a (VB.flush true b).
Proof. apply (advances_perform a b callFlush). Qed.

Lemma advances_vertex a b v : advances a b -> advances a (VB.vertex v b).
Proof. apply (advances_perform a b (callVertex v)). Qed.

Lemma advances_vertexColor a b v c : advances a b -> advances a (VB.vertexColor v c b).
Proof. apply (advances_perform a b (callVertexColor v c)). Qed.

Ltac advance :=
  unfold VB.begin, VB.finish;
  repeat match goal with
         | |- advances _ (VB.end_ true _) => apply advances_end
         | |- advances _ (VB.flush true _) => apply advances_flush
         | |- advances _ (VB.vertex _ _) => apply advances_vertex
         | |- advances _ (VB.vertexColor _ _ _) => apply advances_vertexColor
         end;
  try assumption.

Lemma cubicBody_advances a rc recurse coeff t0 dt radius depth :
  (forall r x y rad d v r' v',
     advances a v -> recurse r x y rad d v = Done (r', v') -> advances a v') ->
  forall i s s',
    advances a (snd s) ->
    RC.cubicBody rc recurse coeff t0 dt radius depth i s = Done s' ->
    advances a (snd s').
Proof.
  intros Hrec i [[r lastP] vbuf] s' Hs E. cbn [snd] in Hs.
  unfold RC.cubicBody in E.
  destruct (dge _ _).
  - destruct (Fr.cullSphere _ _ _).
    + destruct r; cbn [negb] in E; injection E as <-; cbn [snd]; advance.
    + match type of E with
      | bind ?call _ = _ => destruct call as [[r' v']| |] eqn:C
      end; cbn [bind] in E; try discriminate.
      injection E as <-. cbn [snd]. eapply Hrec; eassumption.
  - destruct r; injection E as <-; cbn [snd]; advance.
Qed.

Lemma cubicFadedBody_advances a rc recurse coeff t0 dt color fadeStart fadeRate
  radius depth :
  (forall r x y rad d v r' v',
     advances a v -> recurse r x y rad d v = Done (r', v') -> advances a v') ->
  forall i s s',
    advances a (snd s) ->
    RC.cubicFadedBody rc recurse coeff t0 dt color fadeStart fadeRate radius depth i s
      = Done s' ->
    advances a (snd s').
Proof.
  intros Hrec i [[[r lastP] lastOpacity] vbuf] s' Hs E. cbn [snd] in Hs.
  unfold RC.cubicFadedBody in E.
  destruct (dge _ _).
  - destruct (Fr.cullSphere _ _ _).
    + destruct r; cbn [negb] in E; injection E as <-; cbn [snd]; advance.
    + match type of E with
      | bind ?call _ = _ => destruct call as [[r' v']| |] eqn:C
      end; cbn [bind] in E; try discriminate.
      injection E as <-. cbn [snd]. eapply Hrec; eassumption.
  - destruct r; injection E as <-; cbn [snd]; advance.
Qed.

Lemma renderCubic_advances a fuel :
  forall rc restartCurve coeff t0 t1 radius depth vbuf r' vbuf',
  advances a vbuf ->
  RC.renderCubic fuel rc restartCurve coeff t0 t1 radius depth vbuf = Done (r', vbuf') ->
  advances a vbuf'.
Proof.
  induction fuel as [|fuel IH]; intros rc restartCurve coeff t0 t1 radius depth vbuf
    r' vbuf' H0 E; [discriminate|].
  rewrite renderCubic_unfold in E.
  match type of E with
  | bind (forEach ?body ?range ?s0) _ = _ =>
      destruct (forEach body range s0) as [[[r1 p1] v1]| |] eqn:L
  end; cbn [bind] in E; try discriminate.
  injection E as <- <-.
  refine (forEach_invariant (fun s : RC.CubicState => advances a (snd s))
            _ _ _ _ (r1, p1, v1) _ L); [|exact H0].
  apply cubicBody_advances.
  intros r x y rad d v r2 v2 Hr Er. eapply IH; eassumption.
Qed.

Lemma renderCubicFaded_advances a fuel :
  forall rc restartCurve coeff t0 t1 color fadeStart fadeRate radius depth vbuf r' vbuf',
  advances a vbuf ->
  RC.renderCubicFaded fuel rc restartCurve coeff t0 t1 color fadeStart fadeRate
                      radius depth vbuf = Done (r', vbuf') ->
  advances a vbuf'.
Proof.
  induction fuel as [|fuel IH]; intros rc restartCurve coeff t0 t1 color fadeStart
    fadeRate radius depth vbuf r' vbuf' H0 E; [discriminate|].
  rewrite renderCubicFaded_unfold in E.
  match type of E with
  | bind (forEach ?body ?range ?s0) _ = _ =>
      destruct (forEach body range s0) as [[[[r1 p1] o1] v1]| |] eqn:L
  end; cbn [bind] in E; try discriminate.
  injection E as <- <-.
  refine (forEach_invariant (fun s : RC.FadedState => advances a (snd s))
            _ _ _ _ (r1, p1, o1, v1) _ L); [|exact H0].
  apply cubicFadedBody_advances.
  intros r x y rad d v r2 v2 Hr Er. eapply IH; eassumption.
Qed.

Lemma forWhile_invariant {S} (P : S -> Prop) (cond : S -> bool)
  (body : nat -> S -> outcome S) range :
  (forall i s s', P s -> body i s = Done s' -> P s') ->
  forall s s', P s -> CP.forWhile cond body range s = Done s' -> P s'.
Proof.
  intros Hbody. induction range as [|i range IH]; intros s s' Hs E.
  - cbn [CP.forWhile] in E. injection E as <-. exact Hs.
  - cbn [CP.forWhile] in E. destruct (cond s).
    + destruct (body i s) as [s1| |] eqn:B; cbn [bind] in E; try discriminate.
      eapply IH; [|exact E]. eapply Hbody; eassumption.
    + injection E as <-. exact Hs.
Qed.

Lemma renderBody_advances a fuel m modelview viewFrustum rc farZ thr i s s' :
  advances a (snd s) ->
  CP.renderBody fuel m modelview viewFrustum rc farZ thr i s = Done s' ->
  advances a (snd s').
Proof.
  destruct s as [[[r p0] v0] vbuf]. cbn [snd]. intros Hs E.
  unfold CP.renderBody in E.
  destruct (CP.sampleAt m i) as [si| |]; cbn [bind] in E; try discriminate.
  destruct (dge _ _).
  - destruct (Fr.cullSphere _ _ _).
    + destruct r; cbn [negb bind] in E; injection E as <-; cbn [snd]; advance.
    + destruct (CP.sampleAt m (i - 1)) as [sprev| |]; cbn [bind] in E; try discriminate.
      match type of E with
      | bind ?call _ = _ => destruct call as [[r' v']| |] eqn:C
      end; cbn [bind] in E; try discriminate.
      injection E as <-. cbn [snd]. eapply renderCubic_advances; eassumption.
  - destruct (dlt _ _).
    + destruct r; cbn [negb bind] in E; injection E as <-; cbn [snd]; advance.
    + destruct r; cbn [bind] in E; injection E as <-; cbn [snd]; advance.
Qed.

Lemma renderRangeBody_advances a fuel m modelview viewFrustum rc farZ thr
  startTime endTime i s s' :
  advances a (CP.rs_vbuf s) ->
  CP.renderRangeBody fuel m modelview viewFrustum rc farZ thr startTime endTime i s
    = Done s' ->
  advances a (CP.rs_vbuf s').
Proof.
  intros Hs E. unfold CP.renderRangeBody in E.
  destruct (CP.sampleAt m i) as [si| |]; cbn [bind] in E; try discriminate.
  destruct (_ || _ || _).
  - destruct (Fr.cullSphere _ _ _).
    + destruct (CP.rs_restartCurve s); cbn [negb] in E; injection E as <-;
        cbn [CP.rs_vbuf]; advance.
    + destruct (CP.sampleAt m (i - 1)) as [sprev| |]; cbn [bind] in E; try discriminate.
      match type of E with
      | bind ?call _ = _ => destruct call as [[r' v']| |] eqn:C
      end; cbn [bind] in E; try discriminate.
      injection E as <-. cbn [CP.rs_vbuf]. eapply renderCubic_advances; eassumption.
  - destruct (dlt _ _).
    + destruct (CP.rs_restartCurve s); cbn [negb] in E; injection E as <-;
        cbn [CP.rs_vbuf]; advance.
    + destruct (CP.rs_restartCurve s); injection E as <-; cbn [CP.rs_vbuf]; advance.
Qed.

Lemma renderFadedBody_advances a fuel m modelview viewFrustum rc farZ thr
  startTime endTime color fadeStartTime fadeRate i s s' :
  advances a (CP.fs_vbuf s) ->
  CP.renderFadedBody fuel m modelview viewFrustum rc farZ thr startTime endTime
    color fadeStartTime fadeRate i s = Done s' ->
  advances a (CP.fs_vbuf s').
Proof.
  intros Hs E. unfold CP.renderFadedBody in E.
  destruct (CP.sampleAt m i) as [si| |]; cbn [bind] in E; try discriminate.
  destruct (_ || _ || _).
  - destruct (Fr.cullSphere _ _ _).
    + destruct (CP.fs_restartCurve s); cbn [negb] in E; injection E as <-;
        cbn [CP.fs_vbuf]; advance.
    + destruct (CP.sampleAt m (i - 1)) as [sprev| |]; cbn [bind] in E; try discriminate.
      match type of E with
      | bind ?call _ = _ => destruct call as [[r' v']| |] eqn:C
      end; cbn [bind] in E; try discriminate.
      injection E as <-. cbn [CP.fs_vbuf]. eapply renderCubicFaded_advances; eassumption.
  - destruct (dlt _ _).
    + destruct (CP.fs_restartCurve s); cbn [negb] in E; injection E as <-;
        cbn [CP.fs_vbuf]; advance.
    + destruct (CP.fs_restartCurve s); injection E as <-; cbn [CP.fs_vbuf]; advance.
Qed.

Lemma slotsOf_zero lengths : slotsOf lengths = 0%nat -> lengths = [].
Proof. destruct lengths as [|len rest]; [reflexivity | simpl; lia]. Qed.

(** The last two statements of every entry point: [flush] and [finish]. *)
Lemma flush_finish_empties a b :
  advances a b ->
  let b' := VB.finish (VB.flush true b) in
  advances a b' /\
  VB.currentPosition b' = 0%nat /\ VB.currentStripLength b' = 0%nat /\
  VB.stripLengths b' = [].
Proof.
  intros H b'. subst b'. unfold VB.finish.
  split; [apply advances_flush; exact H|].
  destruct H as ((Hcap & Hcp & Hsum & Hall) & _).
  assert (H' : coherentUpTo (VB.capacity b) b)
    by (repeat split; try assumption; lia).
  destruct (flush_coherent true b H') as (_ & _ & (Fcp & Fsum & _) & Fcsl & _).
  assert (Z : VB.currentPosition (VB.flush true b) = 0%nat) by lia.
  repeat split; try assumption.
  apply slotsOf_zero. lia.
Qed.

(** The buffer as the entry points prepare it. *)
Lemma prepared_coherent tri (vbuf : VB.t) :
  (2 <= VB.capacity vbuf)%nat ->
  let vbuf1 := VB.setup tri (VB.createVertexBuffer vbuf) in
  coherent vbuf1 /\ VB.capacity vbuf1 = VB.capacity vbuf /\ VB.gl vbuf1 = VB.gl vbuf.
Proof.
  intros H vbuf1. subst vbuf1.
  unfold coherent, coherentUpTo, VB.setup, VB.createVertexBuffer.
  destruct (Nat.eqb (VB.vbobj vbuf) 0);
    cbn [VB.currentPosition VB.capacity VB.stripLengths VB.currentStripLength
         VB.gl slotsOf];
    repeat split; try lia; constructor.
Qed.

Lemma prepared_color_coherent tri color (vbuf : VB.t) :
  (2 <= VB.capacity vbuf)%nat ->
  let vbuf1 := VB.setColor color (VB.setup tri (VB.createVertexBuffer vbuf)) in
  coherent vbuf1 /\ VB.capacity vbuf1 = VB.capacity vbuf /\ VB.gl vbuf1 = VB.gl vbuf.
Proof.
  intros H vbuf1. subst vbuf1.
  destruct (prepared_coherent tri vbuf H) as (A & B & C).
  unfold VB.setColor, coherent, coherentUpTo.
  cbn [VB.currentPosition VB.capacity VB.stripLengths VB.currentStripLength VB.gl].
  repeat split; try assumption; apply A.
Qed.

(** What an entry point leaves: the log has grown by calls within bounds,
    and the buffer holds nothing that was not handed to OpenGL. *)
Definition flushedFrom (vbuf vbuf' : VB.t) : Prop :=
  VB.capacity vbuf' = VB.capacity vbuf /\
  VB.currentPosition vbuf' = 0%nat /\
  VB.currentStripLength vbuf' = 0%nat /\
  VB.stripLengths vbuf' = [] /\
  exists logged,
    VB.gl vbuf' = VB.gl vbuf ++ logged /\
    logWithinBounds (VB.capacity vbuf) 0 logged.

Lemma flushedFrom_prepared vbuf vbuf1 b :
  VB.capacity vbuf1 = VB.capacity vbuf -> VB.gl vbuf1 = VB.gl vbuf ->
  advances vbuf1 b -> flushedFrom vbuf (VB.finish (VB.flush true b)).
Proof.
  intros Hcap Hgl H.
  destruct (flush_finish_empties vbuf1 b H)
    as ((_ & Fcap & _ & logged & G & L) & Z1 & Z2 & Z3).
  unfold flushedFrom. rewrite <- Hcap, <- Hgl.
  repeat split; try assumption.
  exists logged. split; [exact G | apply L].
Qed.

Lemma render_flushed fuel m modelview nearZ farZ n0 n1 n2 n3 thr color tri vbuf vbuf' :
  (2 <= VB.capacity vbuf)%nat ->
  CP.render fuel m modelview nearZ farZ n0 n1 n2 n3 thr color tri vbuf = Done vbuf' ->
  flushedFrom vbuf vbuf'.
Proof.
  intros Hcap E. unfold CP.render in E.
  destruct (CP.sampleAt m 0) as [s0| |]; cbn [bind] in E; try discriminate.
  destruct (prepared_color_coherent tri color vbuf Hcap) as (H1 & C1 & G1).
  set (vbuf1 := VB.setColor color (VB.setup tri (VB.createVertexBuffer vbuf))) in *.
  match type of E with
  | bind (forEach ?body ?range ?s0) _ = _ =>
      destruct (forEach body range s0) as [[[[r p] v] vbuf2]| |] eqn:L
  end; cbn [bind] in E; try discriminate.
  injection E as <-.
  assert (H2 : advances vbuf1 vbuf2).
  { refine (forEach_invariant (fun s : CP.FullState => advances vbuf1 (snd s))
              _ _ _ _ (r, p, v, vbuf2) _ L); [|apply advances_refl; exact H1].
    intros i s s'. apply renderBody_advances. }
  apply (flushedFrom_prepared vbuf vbuf1); try assumption.
  destruct r; cbn [negb]; advance.
Qed.

Lemma renderRange_flushed fuel m modelview nearZ farZ n0 n1 n2 n3 thr
  startTime endTime color tri vbuf vbuf' :
  (2 <= VB.capacity vbuf)%nat ->
  CP.renderRange fuel m modelview nearZ farZ n0 n1 n2 n3 thr startTime endTime
    color tri vbuf = Done vbuf' ->
  vbuf' = vbuf \/ flushedFrom vbuf vbuf'.
Proof.
  intros Hcap E. unfold CP.renderRange, CP.renderRangeTraced in E.
  destruct (_ || _ || _).
  - cbn [bind] in E. injection E as <-. left. reflexivity.
  - right.
    destruct (CP.searchStartSample _ _ _ _) as [found| |]; cbn [bind] in E;
      try discriminate.
    destruct (CP.sampleAt m _) as [s0| |]; cbn [bind] in E; try discriminate.
    destruct (prepared_color_coherent tri color vbuf Hcap) as (H1 & C1 & G1).
    set (vbuf1 := VB.setColor color (VB.setup tri (VB.createVertexBuffer vbuf))) in *.
    match type of E with
    | bind (bind (CP.forWhile ?cond ?body ?range ?s0) _) _ = _ =>
        destruct (CP.forWhile cond body range s0) as [s| |] eqn:L
    end; cbn [bind] in E; try discriminate.
    injection E as <-.
    assert (H2 : advances vbuf1 (CP.rs_vbuf s)).
    { refine (forWhile_invariant (fun s => advances vbuf1 (CP.rs_vbuf s))
                _ _ _ _ _ s _ L); [|apply advances_refl; exact H1].
      intros i s1 s2. apply renderRangeBody_advances. }
    apply (flushedFrom_prepared vbuf vbuf1); try assumption.
    destruct (CP.rs_restartCurve s); cbn [negb]; advance.
Qed.

Lemma renderFaded_flushed fuel m modelview nearZ farZ n0 n1 n2 n3 thr
  startTime endTime color fadeStartTime fadeEndTime tri vbuf vbuf' :
  (2 <= VB.capacity vbuf)%nat ->
  CP.renderFaded fuel m modelview nearZ farZ n0 n1 n2 n3 thr startTime endTime
    color fadeStartTime fadeEndTime tri vbuf = Done vbuf' ->
  vbuf' = vbuf \/ flushedFrom vbuf vbuf'.
Proof.
  intros Hcap E. unfold CP.renderFaded, CP.renderFadedTraced in E.
  destruct (_ || _ || _).
  - cbn [bind] in E. injection E as <-. left. reflexivity.
  - right.
    destruct (CP.searchStartSample _ _ _ _) as [found| |]; cbn [bind] in E;
      try discriminate.
    destruct (CP.sampleAt m _) as [s0| |]; cbn [bind] in E; try discriminate.
    destruct (prepared_coherent tri vbuf Hcap) as (H1 & C1 & G1).
    set (vbuf1 := VB.setup tri (VB.createVertexBuffer vbuf)) in *.
    match type of E with
    | bind (bind (CP.forWhile ?cond ?body ?range ?s0) _) _ = _ =>
        destruct (CP.forWhile cond body range s0) as [s| |] eqn:L
    end; cbn [bind] in E; try discriminate.
    injection E as <-.
    assert (H2 : advances vbuf1 (CP.fs_vbuf s)).
    { refine (forWhile_invariant (fun s => advances vbuf1 (CP.fs_vbuf s))
                _ _ _ _ _ s _ L); [|apply advances_refl; exact H1].
      intros i s1 s2. apply renderFadedBody_advances. }
    apply (flushedFrom_prepared vbuf vbuf1); try assumption.
    destruct (CP.fs_restartCurve s); cbn [negb]; advance.
Qed.

(** X14: on a vertex buffer of capacity 2 or more, whenever one of the
    three render entry points returns, the OpenGL calls it has logged stay
    within bounds (every upload fits the vertex array, every draw reads
    only uploaded slots and draws two points or more), and the buffer is
    left empty: cursor and strip length are 0 and no strip is recorded, so
    every vertex that was written has been handed to OpenGL.  The two
    time-range entry points may instead return the buffer untouched. *)
Theorem render_flushes_within_bounds (vbuf : VB.t) :
  (2 <= VB.capacity vbuf)%nat ->
  (forall fuel m modelview nearZ farZ n0 n1 n2 n3 thr color tri vbuf',
     CP.render fuel m modelview nearZ farZ n0 n1 n2 n3 thr color tri vbuf = Done vbuf' ->
     flushedFrom vbuf vbuf') /\
  (forall fuel m modelview nearZ farZ n0 n1 n2 n3 thr startTime endTime color tri vbuf',
     CP.renderRange fuel m modelview nearZ farZ n0 n1 n2 n3 thr startTime endTime
       color tri vbuf = Done vbuf' ->
     vbuf' = vbuf \/ flushedFrom vbuf vbuf') /\
  (forall fuel m modelview nearZ farZ n0 n1 n2 n3 thr startTime endTime color
          fadeStartTime fadeEndTime tri vbuf',
     CP.renderFaded fuel m modelview nearZ farZ n0 n1 n2 n3 thr startTime endTime
       color fadeStartTime fadeEndTime tri vbuf = Done vbuf' ->
     vbuf' = vbuf \/ flushedFrom vbuf vbuf').
Proof.
  intros Hcap. split; [|split]; intros.
  - eapply render_flushed; eassumption.
  - eapply renderRange_flushed; eassumption.
  - eapply renderFaded_flushed; eassumption.
Qed.

Lemma render_flushes_within_bounds_witness :
  exists vbuf',
    CP.renderRange 1 flatStore identity (-1) (-1000)
      unitNormal0 unitNormal1 unitNormal2 unitNormal3 1 15 20 white false newBuffer
    = Done vbuf' /\
    (vbuf' = newBuffer \/ flushedFrom newBuffer vbuf').
Proof.
  destruct (flatStore_range_run 15 20 ltac:(lra) ltac:(lra)) as (vb & E & _).
  assert (E' : CP.renderRange 1 flatStore identity (-1) (-1000)
                 unitNormal0 unitNormal1 unitNormal2 unitNormal3 1 15 20 white false
                 newBuffer = Done vb)
    by (unfold CP.renderRange; rewrite E; reflexivity).
  exists vb. split; [exact E'|].
  refine (proj1 (proj2 (render_flushes_within_bounds newBuffer _))
            _ _ _ _ _ _ _ _ _ _ _ _ _ _ _ E').
  unfold newBuffer, VB.make; cbn [VB.capacity]. lia.
Defined.

(** *** The linear search and the indexed accesses *)

Lemma sampleAt_inside m i :
  (i < length m)%nat -> exists s, CP.sampleAt m i = Done s /\ nth_error m i = Some s.
Proof.
  intros H. unfold CP.sampleAt.
  destruct (nth_error m i) as [s|] eqn:E; [eauto|].
  apply nth_error_None in E. lia.
Qed.

(** With one unit of fuel for each sample the search returns, and it stops
    at the first index whose sample is not earlier than [startTime], or at
    the last index. *)
Lemma searchStartSample_total m startTime : forall fuel k,
  (k < length m)%nat -> (length m - 1 - k < fuel)%nat ->
  exists found,
    CP.searchStartSample fuel m startTime k = Done found /\
    (k <= found < length m)%nat /\
    ((found < length m - 1)%nat ->
     exists s, nth_error m found = Some s /\ startTime <= Sm.t s).
Proof.
  induction fuel as [|fuel IH]; intros k Hk Hfuel; [lia|].
  cbn [CP.searchStartSample].
  destruct (Nat.ltb k (length m - 1)) eqn:E.
  - apply Nat.ltb_lt in E.
    destruct (sampleAt_inside m k Hk) as (s & Es & Ns). rewrite Es. cbn [bind].
    destruct (dgt startTime (Sm.t s)) eqn:D.
    + destruct (IH (k + 1)%nat ltac:(lia) ltac:(lia)) as (found & Ef & Hr & Hs).
      exists found. repeat split; try assumption; lia.
    + exists k. repeat split; try lia.
      intros _. exists s. split; [exact Ns|].
      destruct (Rgt_dec startTime (Sm.t s)) as [G|G]; [|lra].
      rewrite dgt_true in D by assumption. discriminate.
  - apply Nat.ltb_ge in E. exists k. repeat split; try lia.
Qed.

Lemma forEach_defined {S} (body : nat -> S -> outcome S) range :
  (forall i s, In i range -> body i s <> Undefined) ->
  forall s, forEach body range s <> Undefined.
Proof.
  induction range as [|i range IH]; intros Hbody s; [discriminate|].
  cbn [forEach].
  destruct (body i s) as [s1| |] eqn:B; cbn [bind].
  - apply IH. intros j s2 Hj. apply Hbody. right. exact Hj.
  - discriminate.
  - exfalso. apply (Hbody i s); [left; reflexivity | exact B].
Qed.

Lemma forWhile_defined {S} (cond : S -> bool) (body : nat -> S -> outcome S) range :
  (forall i s, In i range -> body i s <> Undefined) ->
  forall s, CP.forWhile cond body range s <> Undefined.
Proof.
  induction range as [|i range IH]; intros Hbody s; [discriminate|].
  cbn [CP.forWhile]. destruct (cond s); [|discriminate].
  destruct (body i s) as [s1| |] eqn:B; cbn [bind].
  - apply IH. intros j s2 Hj. apply Hbody. right. exact Hj.
  - discriminate.
  - exfalso. apply (Hbody i s); [left; reflexivity | exact B].
Qed.

Lemma renderCubic_defined fuel :
  forall rc restartCurve coeff t0 t1 radius depth vbuf,
  RC.renderCubic fuel rc restartCurve coeff t0 t1 radius depth vbuf <> Undefined.
Proof.
  induction fuel as [|fuel IH]; intros rc restartCurve coeff t0 t1 radius depth vbuf;
    [discriminate|].
  rewrite renderCubic_unfold.
  match goal with
  | |- bind (forEach ?body ?range ?s0) _ <> _ =>
      pose proof (forEach_defined body range) as F;
      destruct (forEach body range s0) as [[[r1 p1] v1]| |] eqn:L
  end; cbn [bind]; try discriminate.
  exfalso. revert L. apply F.
  intros i [[r lastP] v] _. unfold RC.cubicBody.
  destruct (dge _ _).
  - destruct (Fr.cullSphere _ _ _).
    + destruct (negb r); discriminate.
    + match goal with
      | |- bind ?call _ <> _ =>
          pose proof (IH rc r coeff (t0 + (t1 - t0) * InvSubdivisionFactor * INR i
                                      - (t1 - t0) * InvSubdivisionFactor)
                         (t0 + (t1 - t0) * InvSubdivisionFactor * INR i)
                         (radius * InvSubdivisionFactor) (depth + 1)%nat v) as D;
          destruct call as [[r' v']| |]
      end; cbn [bind]; congruence.
  - destruct r; discriminate.
Qed.

Lemma renderCubicFaded_defined fuel :
  forall rc restartCurve coeff t0 t1 color fadeStart fadeRate radius depth vbuf,
  RC.renderCubicFaded fuel rc restartCurve coeff t0 t1 color fadeStart fadeRate
    radius depth vbuf <> Undefined.
Proof.
  induction fuel as [|fuel IH]; intros rc restartCurve coeff t0 t1 color fadeStart
    fadeRate radius depth vbuf; [discriminate|].
  rewrite renderCubicFaded_unfold.
  match goal with
  | |- bind (forEach ?body ?range ?s0) _ <> _ =>
      pose proof (forEach_defined body range) as F;
      destruct (forEach body range s0) as [[[[r1 p1] o1] v1]| |] eqn:L
  end; cbn [bind]; try discriminate.
  exfalso. revert L. apply F.
  intros i [[[r lastP] lastOpacity] v] _. unfold RC.cubicFadedBody.
  destruct (dge _ _).
  - destruct (Fr.cullSphere _ _ _).
    + destruct (negb r); discriminate.
    + match goal with
      | |- bind ?call _ <> _ =>
          pose proof (IH rc r coeff (t0 + (t1 - t0) * InvSubdivisionFactor * INR i
                                      - (t1 - t0) * InvSubdivisionFactor)
                         (t0 + (t1 - t0) * InvSubdivisionFactor * INR i)
                         color fadeStart fadeRate
                         (radius * InvSubdivisionFactor) (depth + 1)%nat v) as D;
          destruct call as [[r' v']| |]
      end; cbn [bind]; congruence.
  - destruct r; discriminate.
Qed.

(** X15: on a non-empty store the linear search of the time-range renders
    returns, and it returns the first index whose sample is not earlier than
    [startTime], or the last index when every sample before the last is
    earlier. *)
Theorem searchStartSample_finds_first_not_earlier (m : CP.Samples) (startTime : R) :
  m <> [] ->
  exists found,
    CP.searchStartSample (length m) m startTime 0 = Done found /\
    (found < length m)%nat /\
    (forall j, (j < found)%nat ->
       exists sj, nth_error m j = Some sj /\ Sm.t sj < startTime) /\
    ((found < length m - 1)%nat ->
     exists s, nth_error m found = Some s /\ startTime <= Sm.t s).
Proof.
  intros Hne.
  assert (Hlen : (0 < length m)%nat) by (destruct m; [congruence | simpl; lia]).
  destruct (searchStartSample_total m startTime (length m) 0 Hlen ltac:(lia))
    as (found & E & Hf & Hstop).
  exists found. split; [exact E|]. split; [lia|]. split; [|exact Hstop].
  destruct (searchStartSample_spec _ _ _ _ _ E) as [_ Hall].
  intros j Hj. destruct (Hall j ltac:(lia)) as (sj & Hsj & Hgt).
  exists sj. split; [exact Hsj | lra].
Qed.

Lemma searchStartSample_finds_first_not_earlier_witness :
  exists found,
    CP.searchStartSample (length flatStore) flatStore 15 0 = Done found /\
    (found < length flatStore)%nat /\
    (forall j, (j < found)%nat ->
       exists sj, nth_error flatStore j = Some sj /\ Sm.t sj < 15) /\
    ((found < length flatStore - 1)%nat ->
     exists s, nth_error flatStore found = Some s /\ 15 <= Sm.t s).
Proof.
  apply (searchStartSample_finds_first_not_earlier flatStore 15).
  discriminate.
Defined.

Lemma renderBody_defined fuel m modelview viewFrustum rc farZ thr i s :
  (i < length m)%nat ->
  CP.renderBody fuel m modelview viewFrustum rc farZ thr i s <> Undefined.
Proof.
  intros Hi. destruct s as [[[r p0] v0] vbuf]. unfold CP.renderBody.
  destruct (sampleAt_inside m i Hi) as (si & -> & _). cbn [bind].
  destruct (dge _ _).
  - destruct (Fr.cullSphere _ _ _).
    + destruct (negb r); discriminate.
    + destruct (sampleAt_inside m (i - 1) ltac:(lia)) as (sp & -> & _). cbn [bind].
      match goal with
      | |- bind ?call _ <> _ =>
          pose proof (renderCubic_defined fuel rc r
                        (cubicHermiteCoefficients p0
                           (CP.toCamera modelview (Sm.position si) 1)
                           (scale4 (Sm.t si - Sm.t sp) v0)
                           (scale4 (Sm.t si - Sm.t sp)
                              (CP.toCamera modelview (Sm.velocity si) 0)))
                        0 1 (Sm.boundingRadius si) 1 vbuf) as D;
          destruct call as [[r' v']| |]
      end; cbn [bind]; congruence.
  - destruct (dlt _ _).
    + destruct (negb r); discriminate.
    + destruct r; discriminate.
Qed.

Lemma renderRangeBody_defined fuel m modelview viewFrustum rc farZ thr
  startTime endTime i s :
  (i < length m)%nat ->
  CP.renderRangeBody fuel m modelview viewFrustum rc farZ thr startTime endTime i s
    <> Undefined.
Proof.
  intros Hi. unfold CP.renderRangeBody.
  destruct (sampleAt_inside m i Hi) as (si & -> & _). cbn [bind].
  destruct (_ || _ || _).
  - destruct (Fr.cullSphere _ _ _).
    + destruct (negb _); discriminate.
    + destruct (sampleAt_inside m (i - 1) ltac:(lia)) as (sp & -> & _). cbn [bind].
      match goal with
      | |- bind (RC.renderCubic ?f ?c ?r ?co ?a ?b ?rad ?d ?v) _ <> _ =>
          pose proof (renderCubic_defined f c r co a b rad d v) as D;
          destruct (RC.renderCubic f c r co a b rad d v) as [[r' v']| |]
      end; cbn [bind]; congruence.
  - destruct (dlt _ _).
    + destruct (negb _); discriminate.
    + destruct (CP.rs_restartCurve s); discriminate.
Qed.

Lemma renderFadedBody_defined fuel m modelview viewFrustum rc farZ thr
  startTime endTime color fadeStartTime fadeRate i s :
  (i < length m)%nat ->
  CP.renderFadedBody fuel m modelview viewFrustum rc farZ thr startTime endTime
    color fadeStartTime fadeRate i s <> Undefined.
Proof.
  intros Hi. unfold CP.renderFadedBody.
  destruct (sampleAt_inside m i Hi) as (si & -> & _). cbn [bind].
  destruct (_ || _ || _).
  - destruct (Fr.cullSphere _ _ _).
    + destruct (negb _); discriminate.
    + destruct (sampleAt_inside m (i - 1) ltac:(lia)) as (sp & -> & _). cbn [bind].
      match goal with
      | |- bind (RC.renderCubicFaded ?f ?c ?r ?co ?a ?b ?col ?fs ?fr ?rad ?d ?v) _ <> _ =>
          pose proof (renderCubicFaded_defined f c r co a b col fs fr rad d v) as D;
          destruct (RC.renderCubicFaded f c r co a b col fs fr rad d v) as [[r' v']| |]
      end; cbn [bind]; congruence.
  - destruct (dlt _ _).
    + destruct (negb _); discriminate.
    + destruct (CP.fs_restartCurve s); discriminate.
Qed.

Lemma in_seq_below start len n i :
  In i (seq start len) -> (start + len <= n)%nat -> (i < n)%nat.
Proof. intros H L. apply in_seq in H. lia. Qed.

Lemma render_defined fuel m modelview nearZ farZ n0 n1 n2 n3 thr color tri vbuf :
  m <> [] ->
  CP.render fuel m modelview nearZ farZ n0 n1 n2 n3 thr color tri vbuf <> Undefined.
Proof.
  intros Hne. unfold CP.render.
  assert (Hlen : (0 < length m)%nat) by (destruct m; [congruence | simpl; lia]).
  destruct (sampleAt_inside m 0 Hlen) as (s0 & -> & _). cbn [bind].
  match goal with
  | |- bind (forEach ?body ?range ?s0) _ <> _ =>
      pose proof (forEach_defined body range) as F;
      destruct (forEach body range s0) as [[[[r p] v] vbuf2]| |] eqn:L
  end; cbn [bind]; try discriminate.
  exfalso. revert L. apply F.
  intros i s Hi. apply renderBody_defined.
  apply (in_seq_below _ _ _ _ Hi). lia.
Qed.

Lemma renderRangeTraced_defined fuel m modelview nearZ farZ n0 n1 n2 n3 thr
  startTime endTime color tri vbuf :
  CP.renderRangeTraced fuel m modelview nearZ farZ n0 n1 n2 n3 thr startTime endTime
    color tri vbuf <> Undefined.
Proof.
  unfold CP.renderRangeTraced.
  destruct m as [|f rest]; [discriminate|].
  set (m := f :: rest). cbn [orb].
  destruct (_ || _); [discriminate|].
  assert (Hlen : (0 < length m)%nat) by (simpl; lia).
  destruct (searchStartSample_total m startTime (length m) 0 Hlen ltac:(lia))
    as (found & -> & Hf & _). cbn [bind].
  set (startSample := if Nat.ltb 0 found then (found - 1)%nat else found).
  assert (Hs : (startSample < length m)%nat)
    by (subst startSample; destruct (Nat.ltb 0 found); lia).
  destruct (sampleAt_inside m startSample Hs) as (s0 & -> & _). cbn [bind].
  match goal with
  | |- bind (CP.forWhile ?cond ?body ?range ?s0) _ <> _ =>
      pose proof (forWhile_defined cond body range) as F;
      destruct (CP.forWhile cond body range s0) as [s| |] eqn:L
  end; cbn [bind]; try discriminate.
  exfalso. revert L. apply F.
  intros i s Hi. apply renderRangeBody_defined.
  apply (in_seq_below _ _ _ _ Hi). lia.
Qed.

Lemma renderFadedTraced_defined fuel m modelview nearZ farZ n0 n1 n2 n3 thr
  startTime endTime color fadeStartTime fadeEndTime tri vbuf :
  CP.renderFadedTraced fuel m modelview nearZ farZ n0 n1 n2 n3 thr startTime endTime
    color fadeStartTime fadeEndTime tri vbuf <> Undefined.
Proof.
  unfold CP.renderFadedTraced.
  destruct m as [|f rest]; [discriminate|].
  set (m := f :: rest). cbn [orb].
  destruct (_ || _); [discriminate|].
  assert (Hlen : (0 < length m)%nat) by (simpl; lia).
  destruct (searchStartSample_total m startTime (length m) 0 Hlen ltac:(lia))
    as (found & -> & Hf & _). cbn [bind].
  set (startSample := if Nat.ltb 0 found then (found - 1)%nat else found).
  assert (Hs : (startSample < length m)%nat)
    by (subst startSample; destruct (Nat.ltb 0 found); lia).
  destruct (sampleAt_inside m startSample Hs) as (s0 & -> & _). cbn [bind].
  match goal with
  | |- bind (CP.forWhile ?cond ?body ?range ?s0) _ <> _ =>
      pose proof (forWhile_defined cond body range) as F;
      destruct (CP.forWhile cond body range s0) as [s| |] eqn:L
  end; cbn [bind]; try discriminate.
  exfalso. revert L. apply F.
  intros i s Hi. apply renderFadedBody_defined.
  apply (in_seq_below _ _ _ _ Hi). lia.
Qed.

(** X16: the indexed accesses to the sample store.  The render over the
    full range reads outside the store exactly when the store is empty (it
    reads [m_samples[0]] without a test); the two time-range entry points
    never read outside the store, whatever the store, the times and the
    view are. *)
Theorem render_reads_inside_store
  fuel (m : CP.Samples) modelview nearZ farZ n0 n1 n2 n3 thr startTime endTime
  color fadeStartTime fadeEndTime tri vbuf :
  (CP.render fuel m modelview nearZ farZ n0 n1 n2 n3 thr color tri vbuf = Undefined
   <-> m = []) /\
  CP.renderRange fuel m modelview nearZ farZ n0 n1 n2 n3 thr startTime endTime
    color tri vbuf <> Undefined /\
  CP.renderFaded fuel m modelview nearZ farZ n0 n1 n2 n3 thr startTime endTime
    color fadeStartTime fadeEndTime tri vbuf <> Undefined.
Proof.
  split; [split|split].
  - intros E. destruct m as [|f rest]; [reflexivity|].
    exfalso. revert E. apply render_defined. discriminate.
  - intros ->. reflexivity.
  - unfold CP.renderRange.
    pose proof (renderRangeTraced_defined fuel m modelview nearZ farZ n0 n1 n2 n3 thr
                  startTime endTime color tri vbuf) as D.
    destruct (CP.renderRangeTraced _ _ _ _ _ _ _ _ _ _ _ _ _ _ _) as [[v c]| |];
      cbn [bind]; congruence.
  - unfold CP.renderFaded.
    pose proof (renderFadedTraced_defined fuel m modelview nearZ farZ n0 n1 n2 n3 thr
                  startTime endTime color fadeStartTime fadeEndTime tri vbuf) as D.
    destruct (CP.renderFadedTraced _ _ _ _ _ _ _ _ _ _ _ _ _ _ _ _ _) as [[v c]| |];
      cbn [bind]; congruence.
Qed.

(** *** A store of a single sample *)

Lemma flush_prepared_logs_nothing e b :
  VB.currentPosition b = 0%nat -> VB.gl (VB.flush e b) = VB.gl b.
Proof. intros H. rewrite flush_empty by assumption. reflexivity. Qed.

Lemma prepared_gl tri vbuf :
  VB.gl (VB.setup tri (VB.createVertexBuffer vbuf)) = VB.gl vbuf.
Proof.
  unfold VB.setup, VB.createVertexBuffer.
  destruct (Nat.eqb (VB.vbobj vbuf) 0); reflexivity.
Qed.

(** X17: on a store of a single sample all three render entry points
    return, for every recursion budget, and log no OpenGL call: one sample
    is no segment, so nothing is uploaded or drawn. *)
Theorem single_sample_draws_nothing
  fuel (s : Sm.sample) modelview nearZ farZ n0 n1 n2 n3 thr startTime endTime
  color fadeStartTime fadeEndTime tri vbuf :
  (exists vbuf',
     CP.render fuel [s] modelview nearZ farZ n0 n1 n2 n3 thr color tri vbuf
       = Done vbuf' /\ VB.gl vbuf' = VB.gl vbuf) /\
  (exists vbuf',
     CP.renderRange fuel [s] modelview nearZ farZ n0 n1 n2 n3 thr startTime endTime
       color tri vbuf = Done vbuf' /\ VB.gl vbuf' = VB.gl vbuf) /\
  (exists vbuf',
     CP.renderFaded fuel [s] modelview nearZ farZ n0 n1 n2 n3 thr startTime endTime
       color fadeStartTime fadeEndTime tri vbuf = Done vbuf' /\
     VB.gl vbuf' = VB.gl vbuf).
Proof.
  split; [|split].
  - unfold CP.render.
    cbn [CP.sampleAt nth_error bind length Nat.sub seq forEach negb].
    eexists. split; [reflexivity|].
    unfold VB.finish. rewrite flush_prepared_logs_nothing by reflexivity.
    unfold VB.setColor. cbn [VB.gl]. apply prepared_gl.
  - unfold CP.renderRange, CP.renderRangeTraced.
    cbn [orb hd last].
    destruct (_ || _).
    + cbn [bind]. eexists. split; reflexivity.
    + cbn [length CP.searchStartSample Nat.sub Nat.ltb Nat.leb bind
           CP.sampleAt nth_error Nat.add seq CP.forWhile CP.rs_restartCurve
           CP.rs_vbuf negb].
      eexists. split; [reflexivity|].
      unfold VB.finish. rewrite flush_prepared_logs_nothing by reflexivity.
      unfold VB.setColor. cbn [VB.gl]. apply prepared_gl.
  - unfold CP.renderFaded, CP.renderFadedTraced.
    cbn [orb hd last].
    destruct (_ || _).
    + cbn [bind]. eexists. split; reflexivity.
    + cbn [length CP.searchStartSample Nat.sub Nat.ltb Nat.leb bind
           CP.sampleAt nth_error Nat.add seq CP.forWhile CP.fs_restartCurve
           CP.fs_vbuf negb].
      eexists. split; [reflexivity|].
      unfold VB.finish. rewrite flush_prepared_logs_nothing by reflexivity.
      apply prepared_gl.
Qed.

(** *** The render over the full range on segments that need no subdivision *)

(** The sample positions in camera space:
    [modelview * Vector4d(position, 1.0)]. *)
Definition cameraPoints (modelview : Matrix4d) (m : CP.Samples) : list Vector4d :=
  map (fun s => CP.toCamera modelview (Sm.position s) 1) m.

(** Every segment fails the subdivision test of [render] and lies on the
    near side of the far plane: with [p0] the start of the segment in camera
    space and [r] the radius stored with its end,
    [r < subdivisionThreshold * (|p0.z| - r)] and [farZ <= p0.z + r]. *)
Fixpoint straightSegments (modelview : Matrix4d) (thr farZ : R) (m : CP.Samples)
  : Prop :=
  match m with
  | a :: (b :: _) as rest =>
      let p0 := CP.toCamera modelview (Sm.position a) 1 in
      let r := Sm.boundingRadius b in
      r < thr * (Rabs (z4 p0) - r) /\ farZ <= z4 p0 + r /\
      straightSegments modelview thr farZ rest
  | _ => True
  end.

Lemma nth_error_middle {A} (pre : list A) (a : A) (rest : list A) :
  nth_error (pre ++ a :: rest) (length pre) = Some a.
Proof. induction pre as [|x pre IH]; [reflexivity | exact IH]. Qed.

Lemma renderBody_straight fuel m modelview viewFrustum rc farZ thr i r sp si v0 vbuf :
  nth_error m i = Some si ->
  Sm.boundingRadius si
    < thr * (Rabs (z4 (CP.toCamera modelview (Sm.position sp) 1)) - Sm.boundingRadius si) ->
  farZ <= z4 (CP.toCamera modelview (Sm.position sp) 1) + Sm.boundingRadius si ->
  CP.renderBody fuel m modelview viewFrustum rc farZ thr i
    (r, CP.toCamera modelview (Sm.position sp) 1, v0, vbuf)
  = Done (false, CP.toCamera modelview (Sm.position si) 1,
          CP.toCamera modelview (Sm.velocity si) 0,
          if r
          then VB.vertex (CP.toCamera modelview (Sm.position si) 1)
                 (VB.vertex (CP.toCamera modelview (Sm.position sp) 1) vbuf)
          else VB.vertex (CP.toCamera modelview (Sm.position si) 1) vbuf).
Proof.
  intros Hi Hflat Hfar. unfold CP.renderBody.
  apply sampleAt_Done in Hi. rewrite Hi. cbn [bind].
  rewrite (dge_false _ _ Hflat), (dlt_false _ _ Hfar).
  destruct r; reflexivity.
Qed.

Lemma renderLoop_straight fuel m modelview viewFrustum rc farZ thr rest :
  forall pre a v0 vbuf,
  m = pre ++ a :: rest ->
  straightSegments modelview thr farZ (a :: rest) ->
  exists p v,
    forEach (CP.renderBody fuel m modelview viewFrustum rc farZ thr)
            (seq (length pre + 1) (length rest))
            (false, CP.toCamera modelview (Sm.position a) 1, v0, vbuf)
    = Done (false, p, v,
            fold_left (fun vb q => VB.vertex q vb) (cameraPoints modelview rest) vbuf).
Proof.
  induction rest as [|b rest IH]; intros pre a v0 vbuf Hm Hs.
  - cbn [length seq forEach cameraPoints map fold_left]. eauto.
  - cbn [length seq forEach]. destruct Hs as (Hflat & Hfar & Hrest).
    rewrite (renderBody_straight fuel m modelview viewFrustum rc farZ thr
               (length pre + 1) false a b v0 vbuf); try assumption.
    2:{ rewrite Hm. replace (length pre + 1)%nat with (length (pre ++ [a]))
          by (rewrite length_app; reflexivity).
        rewrite <- (nth_error_middle (pre ++ [a]) b rest), <- app_assoc. reflexivity. }
    cbn [bind].
    destruct (IH (pre ++ [a]) b (CP.toCamera modelview (Sm.velocity b) 0)
                 (VB.vertex (CP.toCamera modelview (Sm.position b) 1) vbuf))
      as (p & v & E).
    { rewrite Hm, <- app_assoc. reflexivity. }
    { exact Hrest. }
    rewrite length_app in E. cbn [length] in E.
    replace (S (length pre + 1)) with (length pre + 1 + 1)%nat by lia.
    rewrite E. exists p, v. reflexivity.
Qed.

Lemma forEach_cons {S} (body : nat -> S -> outcome S) i rest s :
  forEach body (i :: rest) s = (s' <- body i s ;; forEach body rest s').
Proof. reflexivity. Qed.

Lemma bind_Done {A B} (a : A) (k : A -> outcome B) : bind (Done a) k = k a.
Proof. reflexivity. Qed.

Lemma cameraPoints_cons modelview a m :
  cameraPoints modelview (a :: m)
  = CP.toCamera modelview (Sm.position a) 1 :: cameraPoints modelview m.
Proof. reflexivity. Qed.

Lemma render_straight_buffer fuel a b rest modelview nearZ farZ n0 n1 n2 n3 thr
  color tri vbuf :
  straightSegments modelview thr farZ (a :: b :: rest) ->
  CP.render fuel (a :: b :: rest) modelview nearZ farZ n0 n1 n2 n3 thr color tri vbuf
  = Done (VB.finish (VB.flush true (VB.end_ true
            (fold_left (fun vb q => VB.vertex q vb)
               (cameraPoints modelview (a :: b :: rest))
               (VB.setColor color (VB.setup tri (VB.createVertexBuffer vbuf))))))).
Proof.
  intros (Hflat & Hfar & Hrest).
  unfold CP.render.
  assert (S0 : CP.sampleAt (a :: b :: rest) 0 = Done a) by reflexivity.
  assert (Q : seq 1 (length (a :: b :: rest) - 1) = 1%nat :: seq 2 (length rest))
    by (cbn [length Nat.sub seq]; reflexivity).
  rewrite S0, Q, bind_Done, forEach_cons.
  rewrite (renderBody_straight fuel (a :: b :: rest) modelview _ _ farZ thr 1 true a b
             _ _ eq_refl Hflat Hfar).
  rewrite bind_Done.
  destruct (renderLoop_straight fuel (a :: b :: rest) modelview
              (Fr.make nearZ farZ n0 n1 n2 n3)
              (RC.Make (Fr.make nearZ farZ n0 n1 n2 n3) thr) farZ thr rest [a] b
              (CP.toCamera modelview (Sm.velocity b) 0)
              (VB.vertex (CP.toCamera modelview (Sm.position b) 1)
                 (VB.vertex (CP.toCamera modelview (Sm.position a) 1)
                    (VB.setColor color (VB.setup tri (VB.createVertexBuffer vbuf)))))
              eq_refl Hrest) as (p & v & E).
  change (length [a] + 1)%nat with 2%nat in E.
  rewrite E, bind_Done, !cameraPoints_cons, !fold_left_cons.
  reflexivity.
Qed.

(** X18: the render over the full range on a curve none of whose segments
    needs subdivision or lies beyond the far plane.  For a store of 2 or
    more samples that is shorter than the buffer's capacity the render
    returns, for every recursion budget, and what it logs draws exactly one
    polyline: the sample positions in camera space, in the order of the
    store. *)
Theorem render_far_curve_is_one_polyline
  fuel (m : CP.Samples) modelview nearZ farZ n0 n1 n2 n3 thr color tri vbuf :
  (2 <= length m < VB.capacity vbuf)%nat ->
  straightSegments modelview thr farZ m ->
  exists vbuf' logged,
    CP.render fuel m modelview nearZ farZ n0 n1 n2 n3 thr color tri vbuf = Done vbuf' /\
    VB.gl vbuf' = VB.gl vbuf ++ logged /\
    forall buffer, drawnPolylines buffer logged = [cameraPoints modelview m].
Proof.
  intros Hlen Hs.
  destruct m as [|a [|b rest]]; try (cbn [length] in Hlen; lia).
  rewrite (render_straight_buffer fuel a b rest modelview nearZ farZ n0 n1 n2 n3 thr
             color tri vbuf Hs).
  set (pts := cameraPoints modelview (a :: b :: rest)).
  assert (Lp : length pts = length (a :: b :: rest))
    by (subst pts; unfold cameraPoints; apply length_map).
  set (vbuf1 := VB.setColor color (VB.setup tri (VB.createVertexBuffer vbuf))).
  pose proof (holdsStrip_render_start tri color vbuf ltac:(lia)) as H0.
  fold vbuf1 in H0.
  rewrite fold_vertex_emit.
  destruct (holdsStrip_emit (VB.capacity vbuf) tri
              (map (fun p => (p, VB.m_color vbuf1)) pts) vbuf1 [] (VB.gl vbuf)
              ltac:(lia) H0) as (calls1 & H1 & D1).
  rewrite map_map in H1, D1. cbn [fst] in H1, D1. rewrite map_id in H1, D1.
  assert (F : feed (VB.capacity vbuf) [] pts = ([], pts))
    by (rewrite feed_room; [reflexivity | cbn [length]; lia]).
  rewrite F in H1, D1. cbn [fst snd] in H1, D1.
  destruct (holdsStrip_end_flush _ _ _ _ _ H1) as (calls2 & G2 & _ & D2).
  eexists. exists (calls1 ++ calls2).
  split; [reflexivity|]. unfold VB.finish.
  split; [rewrite G2, app_assoc; reflexivity|].
  intros buffer.
  rewrite (drawnPolylines_compose calls1 calls2 [] (closing pts) D1 D2).
  unfold closing.
  assert (E : Nat.leb 2 (length pts) = true) by (apply Nat.leb_le; lia).
  rewrite E. reflexivity.
Qed.

(** Two samples a hundred units in front of the camera, 10 units apart,
    with a bounding radius of 10 for the segment. *)
Definition distantStore : CP.Samples :=
  [Sm.Make 0 (V3 0 0 (-100)) (V3 1 0 0) 0; Sm.Make 10 (V3 10 0 (-100)) (V3 1 0 0) 10].

Lemma render_far_curve_is_one_polyline_witness :
  exists vbuf' logged,
    CP.render 0 distantStore identity (-1) (-1000)
      unitNormal0 unitNormal1 unitNormal2 unitNormal3 1 white false newBuffer
    = Done vbuf' /\
    VB.gl vbuf' = VB.gl newBuffer ++ logged /\
    forall buffer, drawnPolylines buffer logged = [cameraPoints identity distantStore].
Proof.
  apply (render_far_curve_is_one_polyline 0 distantStore identity (-1) (-1000)
           unitNormal0 unitNormal1 unitNormal2 unitNormal3 1 white false newBuffer).
  - unfold newBuffer, VB.make, distantStore; cbn [VB.capacity length]. lia.
  - unfold distantStore.
    cbn [straightSegments Sm.position Sm.boundingRadius].
    rewrite toCamera_identity. cbn [z4 z3].
    replace (Rabs (-100)) with 100
      by (unfold Rabs; destruct (Rcase_abs (-100)); lra).
    repeat split; lra.
Defined.

(** *** Fading changes colours only *)

(** Two vertices with the same position and scale factor; their colours
    may differ. *)
Definition sameVertex (v v' : VB.Vertex) : Prop :=
  VB.position v = VB.position v' /\ VB.scale v = VB.scale v'.

Inductive sameCall : VB.GLCall -> VB.GLCall -> Prop :=
| same_upload u u' :
    Forall2 sameVertex u u' ->
    sameCall (VB.glBufferSubData u) (VB.glBufferSubData u')
| same_draw mode first count :
    sameCall (VB.glDrawArrays mode first count) (VB.glDrawArrays mode first count).

(** Two buffers that agree on everything but the colours: cursor, strips,
    positions and scale factors of the array, and the logged calls. *)
Definition sameGeometry (b b' : VB.t) : Prop :=
  VB.currentPosition b = VB.currentPosition b' /\
  VB.capacity b = VB.capacity b' /\
  VB.currentStripLength b = VB.currentStripLength b' /\
  VB.stripLengths b = VB.stripLengths b' /\
  VB.lineAsTriangles b = VB.lineAsTriangles b' /\
  (forall j, sameVertex (VB.data b j) (VB.data b' j)) /\
  Forall2 sameCall (VB.gl b) (VB.gl b').

(** Two runs that end the same way, with results related by [R]. *)
Definition sameOutcome {A B : Type} (R : A -> B -> Prop)
  (o : outcome A) (o' : outcome B) : Prop :=
  match o, o' with
  | Done a, Done b => R a b
  | OutOfFuel, OutOfFuel => True
  | Undefined, Undefined => True
  | _, _ => False
  end.

Lemma sameVertex_refl v : sameVertex v v.
Proof. split; reflexivity. Qed.

Lemma sameCall_refl c : sameCall c c.
Proof.
  destruct c as [u|mode first count]; constructor.
  induction u as [|v u IH]; constructor; [apply sameVertex_refl | exact IH].
Qed.

Lemma sameCalls_refl l : Forall2 sameCall l l.
Proof. induction l as [|c l IH]; constructor; [apply sameCall_refl | exact IH]. Qed.

Lemma sameGeometry_refl b : sameGeometry b b.
Proof.
  repeat split; try reflexivity; apply sameCalls_refl.
Qed.

Lemma same_store d d' i v v' :
  (forall j, sameVertex (d j) (d' j)) -> sameVertex v v' ->
  forall j, sameVertex (VB.store d i v j) (VB.store d' i v' j).
Proof.
  intros Hd Hv j. unfold VB.store. destruct (Nat.eqb j i); [exact Hv | apply Hd].
Qed.

Lemma same_uploaded (d d' : nat -> VB.Vertex) (l : list nat) :
  (forall j, sameVertex (d j) (d' j)) -> Forall2 sameVertex (map d l) (map d' l).
Proof.
  intros Hd. induction l as [|k l IH]; constructor; [apply Hd | exact IH].
Qed.

Lemma same_position v v' : sameVertex v v' -> VB.position v = VB.position v'.
Proof. intros [H _]. exact H. Qed.

Lemma same_scale v v' : sameVertex v v' -> VB.scale v = VB.scale v'.
Proof. intros [_ H]. exact H. Qed.

Lemma same_setPosition v v' p p' :
  sameVertex v v' -> p = p' -> sameVertex (VB.setPosition v p) (VB.setPosition v' p').
Proof. intros [_ H] ->. split; [reflexivity | exact H]. Qed.

Lemma same_setScale v v' s s' :
  sameVertex v v' -> s = s' -> sameVertex (VB.setScale v s) (VB.setScale v' s').
Proof. intros [H _] ->. split; [exact H | reflexivity]. Qed.

Lemma same_new_vertex p c c' s : sameVertex (VB.MkVertex p c s) (VB.MkVertex p c' s).
Proof. split; reflexivity. Qed.

Ltac same_data Hd :=
  repeat match goal with
         | |- sameVertex (VB.MkVertex _ _ _) (VB.MkVertex _ _ _) => apply same_new_vertex
         | |- sameVertex (VB.store _ _ _ _) (VB.store _ _ _ _) => apply same_store
         | |- forall j, sameVertex (VB.store _ _ _ j) _ => apply same_store
         | |- sameVertex (VB.setPosition _ _) _ => apply same_setPosition
         | |- sameVertex (VB.setScale _ _) _ => apply same_setScale
         | |- - _ = - _ => apply (f_equal Ropp)
         | |- VB.position _ = VB.position _ => apply same_position
         | |- VB.scale _ = VB.scale _ => apply same_scale
         | |- sameVertex _ _ => apply Hd
         | |- forall j, sameVertex _ _ => exact Hd
         end.

Lemma same_drawStrips tri start lengths :
  Forall2 sameCall (VB.drawStrips tri start lengths) (VB.drawStrips tri start lengths).
Proof. apply sameCalls_refl. Qed.

Lemma same_end_strip b b' :
  sameGeometry b b' -> sameGeometry (VB.end_strip b) (VB.end_strip b').
Proof.
  intros (Hcp & Hcap & Hcsl & Hsl & Htri & Hd & Hgl).
  unfold VB.end_strip. rewrite <- Hcsl, <- Hcp.
  destruct (Nat.ltb 1 (VB.currentStripLength b)); unfold sameGeometry;
    cbn [VB.currentPosition VB.capacity VB.currentStripLength VB.stripLengths
         VB.lineAsTriangles VB.data VB.gl];
    rewrite <- ?Hsl;
    (split; [reflexivity|]); (split; [assumption|]); (split; [reflexivity|]);
    (split; [reflexivity|]); (split; [assumption|]); (split; [|assumption]).
  - cbv zeta.
    set (index := (VB.currentPosition b * 2)%nat).
    set (d1 := VB.store (VB.data b) index _).
    set (d1' := VB.store (VB.data b') index _).
    assert (H1 : forall j, sameVertex (d1 j) (d1' j))
      by (intros; subst d1 d1'; same_data Hd).
    clearbody d1 d1'.
    set (d2 := VB.store d1 (index + 1)%nat _).
    set (d2' := VB.store d1' (index + 1)%nat _).
    assert (H2 : forall j, sameVertex (d2 j) (d2' j))
      by (intros; subst d2 d2'; same_data H1).
    clearbody d2 d2'.
    set (d3 := VB.store d2 (index - 2)%nat _).
    set (d3' := VB.store d2' (index - 2)%nat _).
    assert (H3 : forall j, sameVertex (d3 j) (d3' j))
      by (intros; subst d3 d3'; same_data H2).
    clearbody d3 d3'.
    intros j. same_data H3.
  - exact Hd.
Qed.

Lemma same_flush e b b' :
  sameGeometry b b' -> sameGeometry (VB.flush e b) (VB.flush e b').
Proof.
  intros H.
  pose proof (same_end_strip b b' H) as He.
  destruct H as (Hcp & Hcap & Hcsl & Hsl & Htri & Hd & Hgl).
  unfold VB.flush. rewrite <- Hcsl, <- Hcp.
  destruct (Nat.ltb 0 (VB.currentPosition b)).
  - assert (H1 : sameGeometry
                   (if e && Nat.ltb 1 (VB.currentStripLength b)
                    then VB.end_strip b else b)
                   (if e && Nat.ltb 1 (VB.currentStripLength b)
                    then VB.end_strip b' else b')).
    { destruct (e && Nat.ltb 1 (VB.currentStripLength b)); [exact He|].
      repeat split; try assumption; apply Hd. }
    destruct H1 as (Hcp1 & Hcap1 & Hcsl1 & Hsl1 & Htri1 & Hd1 & Hgl1).
    unfold sameGeometry.
    cbn [VB.currentPosition VB.capacity VB.currentStripLength VB.stripLengths
         VB.lineAsTriangles VB.data VB.gl].
    repeat split; try assumption; try reflexivity; try apply Hd1.
    apply Forall2_app; [exact Hgl1|].
    rewrite <- Hcp1, <- Htri1, <- Hsl1.
    constructor; [|apply same_drawStrips].
    constructor. apply same_uploaded. exact Hd1.
  - unfold sameGeometry.
    cbn [VB.currentPosition VB.capacity VB.currentStripLength VB.stripLengths
         VB.lineAsTriangles VB.data VB.gl].
    repeat split; try assumption; try reflexivity; apply Hd.
Qed.

Lemma same_end e b b' :
  sameGeometry b b' -> sameGeometry (VB.end_ e b) (VB.end_ e b').
Proof.
  intros H. pose proof (same_end_strip b b' H) as He.
  unfold VB.end_.
  destruct He as (Hcp & Hcap & Hrest) eqn:Keep. clear Keep.
  rewrite <- Hcp, <- Hcap.
  destruct (e && Nat.eqb (VB.currentPosition (VB.end_strip b))
                         (VB.capacity (VB.end_strip b))).
  - apply same_flush. exact (conj Hcp (conj Hcap Hrest)).
  - exact (conj Hcp (conj Hcap Hrest)).
Qed.

Ltac geometry_fields :=
  unfold sameGeometry;
  cbn [VB.currentPosition VB.capacity VB.currentStripLength VB.stripLengths
       VB.lineAsTriangles VB.data VB.gl];
  refine (conj _ (conj _ (conj _ (conj _ (conj _ (conj _ _))))));
  try assumption; try reflexivity.

Lemma same_vertexColor v c c' b b' :
  sameGeometry b b' -> sameGeometry (VB.vertexColor v c b) (VB.vertexColor v c' b').
Proof.
  intros (Hcp & Hcap & Hcsl & Hsl & Htri & Hd & Hgl).
  unfold VB.vertexColor.
  set (b1 := VB.Make (VB.currentPosition b + 1) (VB.capacity b) _ (VB.vbobj b)
               (VB.currentStripLength b + 1) (VB.stripLengths b) (VB.m_color b)
               (VB.lineAsTriangles b) (VB.gl b)).
  set (b1' := VB.Make (VB.currentPosition b' + 1) (VB.capacity b') _ (VB.vbobj b')
               (VB.currentStripLength b' + 1) (VB.stripLengths b') (VB.m_color b')
               (VB.lineAsTriangles b') (VB.gl b')).
  assert (H1 : sameGeometry b1 b1').
  { subst b1 b1'. rewrite <- Hcp, <- Hcsl. geometry_fields.
    intros j. same_data Hd. }
  pose proof (same_flush true b1 b1' H1) as Hf.
  destruct H1 as (Hcp1 & Hcap1 & Hrest1).
  rewrite <- Hcp1, <- Hcap1.
  destruct (Nat.eqb (VB.currentPosition b1) (VB.capacity b1)).
  - destruct Hf as (Fcp & Fcap & Fcsl & Fsl & Ftri & Fd & Fgl).
    geometry_fields. intros j. same_data Fd.
  - exact (conj Hcp1 (conj Hcap1 Hrest1)).
Qed.

Lemma same_prepared tri color b :
  sameGeometry (VB.setColor color (VB.setup tri (VB.createVertexBuffer b)))
               (VB.setup tri (VB.createVertexBuffer b)).
Proof.
  unfold sameGeometry, VB.setColor.
  cbn [VB.currentPosition VB.capacity VB.currentStripLength VB.stripLengths
       VB.lineAsTriangles VB.data VB.gl].
  repeat split; try reflexivity; apply sameCalls_refl.
Qed.

Lemma sameOutcome_bind {A B A' B' : Type} (R : A -> B -> Prop) (Q : A' -> B' -> Prop)
  (o : outcome A) (o' : outcome B) (k : A -> outcome A') (k' : B -> outcome B') :
  sameOutcome R o o' ->
  (forall a b, R a b -> sameOutcome Q (k a) (k' b)) ->
  sameOutcome Q (bind o k) (bind o' k').
Proof.
  intros Ho Hk. destruct o, o'; cbn [sameOutcome bind] in *; try contradiction; auto.
Qed.

Lemma sameOutcome_forEach {S T : Type} (R : S -> T -> Prop)
  (body : nat -> S -> outcome S) (body' : nat -> T -> outcome T) range :
  (forall i s t, R s t -> sameOutcome R (body i s) (body' i t)) ->
  forall s t, R s t -> sameOutcome R (forEach body range s) (forEach body' range t).
Proof.
  intros Hbody. induction range as [|i range IH]; intros s t Hst; [exact Hst|].
  cbn [forEach]. apply (sameOutcome_bind R R); [apply Hbody; exact Hst | exact IH].
Qed.

Lemma sameOutcome_forWhile {S T : Type} (R : S -> T -> Prop)
  (cond : S -> bool) (cond' : T -> bool)
  (body : nat -> S -> outcome S) (body' : nat -> T -> outcome T) range :
  (forall s t, R s t -> cond s = cond' t) ->
  (forall i s t, R s t -> sameOutcome R (body i s) (body' i t)) ->
  forall s t, R s t ->
    sameOutcome R (CP.forWhile cond body range s) (CP.forWhile cond' body' range t).
Proof.
  intros Hcond Hbody. induction range as [|i range IH]; intros s t Hst; [exact Hst|].
  cbn [CP.forWhile]. rewrite <- (Hcond s t Hst).
  destruct (cond s); [|exact Hst].
  apply (sameOutcome_bind R R); [apply Hbody; exact Hst | exact IH].
Qed.

(** The states of the two subdivision loops agree but for the colours. *)
Definition sameCubicState (s : RC.CubicState) (t : RC.FadedState) : Prop :=
  let '(r, p, vbuf) := s in
  let '(r', p', _, vbuf') := t in
  r = r' /\ p = p' /\ sameGeometry vbuf vbuf'.

Definition sameResult (x y : bool * VB.t) : Prop :=
  fst x = fst y /\ sameGeometry (snd x) (snd y).

Lemma cubicBody_same rc recurse recurse' coeff t0 dt color fadeStart fadeRate
  radius depth :
  (forall r a b rad d v v',
     sameGeometry v v' ->
     sameOutcome sameResult (recurse r a b rad d v) (recurse' r a b rad d v')) ->
  forall i s t,
    sameCubicState s t ->
    sameOutcome sameCubicState
      (RC.cubicBody rc recurse coeff t0 dt radius depth i s)
      (RC.cubicFadedBody rc recurse' coeff t0 dt color fadeStart fadeRate radius
         depth i t).
Proof.
  intros Hrec i [[r p] vbuf] [[[r' p'] o'] vbuf'] (<- & <- & Hg).
  unfold RC.cubicBody, RC.cubicFadedBody.
  destruct (dge _ _).
  - destruct (Fr.cullSphere _ _ _).
    + destruct r; cbn [negb sameOutcome sameCubicState].
      * exact (conj eq_refl (conj eq_refl Hg)).
      * split; [reflexivity|]. split; [reflexivity|]. apply same_end. exact Hg.
    + apply (sameOutcome_bind sameResult sameCubicState); [apply Hrec; exact Hg|].
      intros [r1 v1] [r2 v2] [E1 E2]. cbn [fst snd] in E1, E2. subst r2.
      cbn [sameOutcome sameCubicState]. exact (conj eq_refl (conj eq_refl E2)).
  - destruct r; cbn [sameOutcome sameCubicState]; unfold VB.begin, VB.vertex.
    + split; [reflexivity|]. split; [reflexivity|].
      apply same_vertexColor, same_vertexColor. exact Hg.
    + split; [reflexivity|]. split; [reflexivity|].
      apply same_vertexColor. exact Hg.
Qed.

Lemma renderCubic_same fuel :
  forall rc r coeff t0 t1 color fadeStart fadeRate radius depth vbuf vbuf',
  sameGeometry vbuf vbuf' ->
  sameOutcome sameResult
    (RC.renderCubic fuel rc r coeff t0 t1 radius depth vbuf)
    (RC.renderCubicFaded fuel rc r coeff t0 t1 color fadeStart fadeRate radius depth
       vbuf').
Proof.
  induction fuel as [|fuel IH]; intros rc r coeff t0 t1 color fadeStart fadeRate
    radius depth vbuf vbuf' Hg; [exact I|].
  rewrite renderCubic_unfold, renderCubicFaded_unfold.
  apply (sameOutcome_bind sameCubicState sameResult).
  - apply sameOutcome_forEach.
    + apply cubicBody_same. intros r1 a b rad d v v' Hv. apply IH. exact Hv.
    + exact (conj eq_refl (conj eq_refl Hg)).
  - intros [[r1 p1] v1] [[[r2 p2] o2] v2] (<- & _ & Hv).
    split; [reflexivity | exact Hv].
Qed.

(** The loop states of the render over a time range and of the faded
    render agree but for the colours. *)
Definition sameRenderState (s : CP.RangeState) (t : CP.FadedState) : Prop :=
  CP.rs_restartCurve s = CP.fs_restartCurve t /\
  CP.rs_p0 s = CP.fs_p0 t /\
  CP.rs_v0 s = CP.fs_v0 t /\
  CP.rs_firstSegment s = CP.fs_firstSegment t /\
  CP.rs_lastSegment s = CP.fs_lastSegment t /\
  CP.rs_calls s = CP.fs_calls t /\
  sameGeometry (CP.rs_vbuf s) (CP.fs_vbuf t).

Ltac same_state :=
  cbn [sameOutcome]; unfold sameRenderState;
  cbn [CP.rs_restartCurve CP.rs_p0 CP.rs_v0 CP.rs_firstSegment CP.rs_lastSegment
       CP.rs_calls CP.rs_vbuf CP.fs_restartCurve CP.fs_p0 CP.fs_v0
       CP.fs_firstSegment CP.fs_lastSegment CP.fs_calls CP.fs_vbuf];
  refine (conj _ (conj _ (conj _ (conj _ (conj _ (conj _ _))))));
  try reflexivity.

Lemma renderFadedBody_same fuel m modelview viewFrustum rc farZ thr startTime endTime
  color fadeStartTime fadeRate i s t :
  sameRenderState s t ->
  sameOutcome sameRenderState
    (CP.renderRangeBody fuel m modelview viewFrustum rc farZ thr startTime endTime i s)
    (CP.renderFadedBody fuel m modelview viewFrustum rc farZ thr startTime endTime
       color fadeStartTime fadeRate i t).
Proof.
  destruct s as [r p0 v0 first last vbuf calls],
           t as [r' p0' v0' o' first' last' vbuf' calls'].
  unfold sameRenderState.
  cbn [CP.rs_restartCurve CP.rs_p0 CP.rs_v0 CP.rs_firstSegment CP.rs_lastSegment
       CP.rs_calls CP.rs_vbuf CP.fs_restartCurve CP.fs_p0 CP.fs_v0
       CP.fs_firstSegment CP.fs_lastSegment CP.fs_calls CP.fs_vbuf].
  intros (<- & <- & <- & <- & <- & <- & Hg).
  unfold CP.renderRangeBody, CP.renderFadedBody.
  cbn [CP.rs_restartCurve CP.rs_p0 CP.rs_v0 CP.rs_firstSegment CP.rs_lastSegment
       CP.rs_calls CP.rs_vbuf CP.fs_restartCurve CP.fs_p0 CP.fs_v0 CP.fs_opacity0
       CP.fs_firstSegment CP.fs_lastSegment CP.fs_calls CP.fs_vbuf].
  destruct (CP.sampleAt m i) as [si| |]; cbn [bind]; try exact I.
  destruct (_ || _ || _).
  - destruct (Fr.cullSphere _ _ _).
    + destruct r; cbn [negb]; same_state; [exact Hg | apply same_end; exact Hg].
    + destruct (CP.sampleAt m (i - 1)) as [sp| |]; cbn [bind]; try exact I.
      apply (sameOutcome_bind sameResult sameRenderState);
        [apply renderCubic_same; exact Hg|].
      intros [r1 v1] [r2 v2] [E1 E2]. cbn [fst snd] in E1, E2. subst r2.
      same_state. exact E2.
  - destruct (dlt _ _).
    + destruct r; cbn [negb]; same_state; [exact Hg | apply same_end; exact Hg].
    + destruct r; same_state; unfold VB.begin, VB.vertex.
      * apply same_vertexColor, same_vertexColor. exact Hg.
      * apply same_vertexColor. exact Hg.
Qed.

Definition sameTraced (x y : VB.t * list CP.CubicCall) : Prop :=
  sameGeometry (fst x) (fst y) /\ snd x = snd y.

Lemma renderFadedTraced_same fuel m modelview nearZ farZ n0 n1 n2 n3 thr
  startTime endTime color color' fadeStartTime fadeEndTime tri vbuf :
  sameOutcome sameTraced
    (CP.renderRangeTraced fuel m modelview nearZ farZ n0 n1 n2 n3 thr startTime endTime
       color tri vbuf)
    (CP.renderFadedTraced fuel m modelview nearZ farZ n0 n1 n2 n3 thr startTime endTime
       color' fadeStartTime fadeEndTime tri vbuf).
Proof.
  unfold CP.renderRangeTraced, CP.renderFadedTraced.
  destruct (_ || _ || _).
  - split; [apply sameGeometry_refl | reflexivity].
  - destruct (CP.searchStartSample _ _ _ _) as [found| |]; cbn [bind]; try exact I.
    destruct (CP.sampleAt m _) as [s0| |]; cbn [bind]; try exact I.
    apply (sameOutcome_bind sameRenderState sameTraced).
    + apply sameOutcome_forWhile.
      * intros s t (_ & _ & _ & _ & E & _). rewrite E. reflexivity.
      * intros i s t. apply renderFadedBody_same.
      * same_state. apply same_prepared.
    + intros s t (Er & _ & _ & _ & _ & Ec & Hg).
      cbn [sameOutcome]. unfold sameTraced, VB.finish. cbn [fst snd].
      split; [|exact Ec]. rewrite <- Er.
      apply same_flush.
      destruct (CP.rs_restartCurve s); cbn [negb]; [exact Hg | apply same_end; exact Hg].
Qed.

(** X19: fading changes colours only.  On the same store, view, times
    and vertex buffer, [renderFaded] ends the way the render over the time
    range ends (both return, both run out of recursion budget), whatever
    the colours and the fade times are, and the buffers they return agree
    on everything but the colours: cursor, strips, the positions and scale
    factors of the array, and the logged OpenGL calls, upload by upload and
    draw by draw. *)
Theorem renderFaded_draws_the_geometry_of_render
  fuel (m : CP.Samples) modelview nearZ farZ n0 n1 n2 n3 thr startTime endTime
  color color' fadeStartTime fadeEndTime tri vbuf :
  sameOutcome sameGeometry
    (CP.renderRange fuel m modelview nearZ farZ n0 n1 n2 n3 thr startTime endTime
       color tri vbuf)
    (CP.renderFaded fuel m modelview nearZ farZ n0 n1 n2 n3 thr startTime endTime
       color' fadeStartTime fadeEndTime tri vbuf).
Proof.
  unfold CP.renderRange, CP.renderFaded.
  apply (sameOutcome_bind sameTraced sameGeometry).
  - apply renderFadedTraced_same.
  - intros [v c] [v' c'] [Hg _]. exact Hg.
Qed.

(** *** A curve outside the view *)

(** The segment from [a] to [b] is invisible to the render functions: it
    lies beyond the far plane, or it passes the subdivision test and the
    sphere around its start is culled.  [p0] is the start in camera space,
    [r] the radius stored with the end. *)
Definition invisibleSegment (modelview : Matrix4d) (viewFrustum : Fr.t)
  (thr farZ : R) (a b : Sm.sample) : Prop :=
  let p0 := CP.toCamera modelview (Sm.position a) 1 in
  let r := Sm.boundingRadius b in
  z4 p0 + r < farZ \/
  (r >= thr * (Rabs (z4 p0) - r) /\ Fr.cullSphere viewFrustum p0 r = true).

Fixpoint invisibleSegments (modelview : Matrix4d) (viewFrustum : Fr.t)
  (thr farZ : R) (m : CP.Samples) : Prop :=
  match m with
  | a :: (b :: _) as rest =>
      invisibleSegment modelview viewFrustum thr farZ a b /\
      invisibleSegments modelview viewFrustum thr farZ rest
  | _ => True
  end.

Lemma invisibleSegments_suffix modelview viewFrustum thr farZ pre : forall l,
  invisibleSegments modelview viewFrustum thr farZ (pre ++ l) ->
  invisibleSegments modelview viewFrustum thr farZ l.
Proof.
  induction pre as [|x pre IH]; intros l H; [exact H|].
  apply IH. destruct (pre ++ l) as [|y rest] eqn:E.
  - exact I.
  - cbn [app] in H. rewrite E in H. apply H.
Qed.

(** Beyond the far plane of the frustum means culled. *)
Lemma beyond_far_culled nearZ farZ n0 n1 n2 n3 p r :
  z4 p + r < farZ -> Fr.cullSphere (Fr.make nearZ farZ n0 n1 n2 n3) p r = true.
Proof.
  intros H. unfold Fr.cullSphere, Fr.make. cbn [Fr.m_farZ].
  rewrite (dlt_true _ _ H). rewrite orb_true_r. reflexivity.
Qed.

Lemma renderBody_invisible fuel m modelview nearZ farZ n0 n1 n2 n3 rc thr i sp si v0 vbuf :
  nth_error m i = Some si ->
  invisibleSegment modelview (Fr.make nearZ farZ n0 n1 n2 n3) thr farZ sp si ->
  CP.renderBody fuel m modelview (Fr.make nearZ farZ n0 n1 n2 n3) rc farZ thr i
    (true, CP.toCamera modelview (Sm.position sp) 1, v0, vbuf)
  = Done (true, CP.toCamera modelview (Sm.position si) 1,
          CP.toCamera modelview (Sm.velocity si) 0, vbuf).
Proof.
  intros Hi Hinv. unfold CP.renderBody.
  apply sampleAt_Done in Hi. rewrite Hi. cbn [bind].
  destruct (dge _ _) eqn:D.
  - assert (C : Fr.cullSphere (Fr.make nearZ farZ n0 n1 n2 n3)
                  (CP.toCamera modelview (Sm.position sp) 1) (Sm.boundingRadius si)
                = true).
    { destruct Hinv as [Far|[_ C]]; [apply beyond_far_culled; exact Far | exact C]. }
    rewrite C. reflexivity.
  - destruct Hinv as [Far|[G _]].
    + rewrite (dlt_true _ _ Far). reflexivity.
    + rewrite (dge_true _ _ G) in D. discriminate.
Qed.

Lemma renderLoop_invisible fuel m modelview nearZ farZ n0 n1 n2 n3 rc thr rest :
  forall pre a v0 vbuf,
  m = pre ++ a :: rest ->
  invisibleSegments modelview (Fr.make nearZ farZ n0 n1 n2 n3) thr farZ (a :: rest) ->
  exists p v,
    forEach (CP.renderBody fuel m modelview (Fr.make nearZ farZ n0 n1 n2 n3) rc farZ thr)
            (seq (length pre + 1) (length rest))
            (true, CP.toCamera modelview (Sm.position a) 1, v0, vbuf)
    = Done (true, p, v, vbuf).
Proof.
  induction rest as [|b rest IH]; intros pre a v0 vbuf Hm Hs.
  - cbn [length seq forEach]. eauto.
  - cbn [length seq forEach]. destruct Hs as (Hinv & Hrest).
    rewrite (renderBody_invisible fuel m modelview nearZ farZ n0 n1 n2 n3 rc thr
               (length pre + 1) a b v0 vbuf); try assumption.
    2:{ rewrite Hm. replace (length pre + 1)%nat with (length (pre ++ [a]))
          by (rewrite length_app; reflexivity).
        rewrite <- (nth_error_middle (pre ++ [a]) b rest), <- app_assoc. reflexivity. }
    cbn [bind].
    destruct (IH (pre ++ [a]) b (CP.toCamera modelview (Sm.velocity b) 0) vbuf)
      as (p & v & E).
    { rewrite Hm, <- app_assoc. reflexivity. }
    { exact Hrest. }
    rewrite length_app in E. cbn [length] in E.
    replace (S (length pre + 1)) with (length pre + 1 + 1)%nat by lia.
    rewrite E. exists p, v. reflexivity.
Qed.

Lemma render_invisible fuel a rest modelview nearZ farZ n0 n1 n2 n3 thr color tri vbuf :
  invisibleSegments modelview (Fr.make nearZ farZ n0 n1 n2 n3) thr farZ (a :: rest) ->
  exists vbuf',
    CP.render fuel (a :: rest) modelview nearZ farZ n0 n1 n2 n3 thr color tri vbuf
      = Done vbuf' /\
    VB.gl vbuf' = VB.gl vbuf.
Proof.
  intros H. unfold CP.render.
  cbn [CP.sampleAt nth_error bind length].
  destruct (renderLoop_invisible fuel (a :: rest) modelview nearZ farZ n0 n1 n2 n3
              (RC.Make (Fr.make nearZ farZ n0 n1 n2 n3) thr) thr rest [] a
              (CP.toCamera modelview (Sm.velocity a) 0)
              (VB.setColor color (VB.setup tri (VB.createVertexBuffer vbuf)))
              eq_refl H) as (p & v & E).
  cbn [length Nat.add] in E.
  replace (S (length rest) - 1)%nat with (length rest) by lia.
  rewrite E. cbn [bind negb].
  eexists. split; [reflexivity|].
  unfold VB.finish. rewrite flush_prepared_logs_nothing by reflexivity.
  unfold VB.setColor. cbn [VB.gl]. apply prepared_gl.
Qed.

Lemma renderRangeBody_invisible fuel m modelview nearZ farZ n0 n1 n2 n3 rc thr
  startTime endTime i sp si v0 first last vbuf calls :
  nth_error m i = Some si ->
  invisibleSegment modelview (Fr.make nearZ farZ n0 n1 n2 n3) thr farZ sp si ->
  CP.renderRangeBody fuel m modelview (Fr.make nearZ farZ n0 n1 n2 n3) rc farZ thr
    startTime endTime i
    (CP.MkRange true (CP.toCamera modelview (Sm.position sp) 1) v0 first last vbuf calls)
  = Done (CP.MkRange true (CP.toCamera modelview (Sm.position si) 1)
            (CP.toCamera modelview (Sm.velocity si) 0) first
            (if dle endTime (Sm.t si) then true else last) vbuf calls).
Proof.
  intros Hi Hinv. unfold CP.renderRangeBody.
  apply sampleAt_Done in Hi. rewrite Hi.
  cbn [bind CP.rs_restartCurve CP.rs_p0 CP.rs_v0 CP.rs_firstSegment
       CP.rs_lastSegment CP.rs_vbuf CP.rs_calls].
  assert (C : z4 (CP.toCamera modelview (Sm.position sp) 1) + Sm.boundingRadius si
              < farZ \/
              Fr.cullSphere (Fr.make nearZ farZ n0 n1 n2 n3)
                (CP.toCamera modelview (Sm.position sp) 1) (Sm.boundingRadius si)
              = true)
    by (destruct Hinv as [Far|[_ C]]; [left; exact Far | right; exact C]).
  destruct (dge _ _) eqn:D; cbn [orb].
  - destruct C as [Far|C]; [apply (beyond_far_culled nearZ farZ n0 n1 n2 n3) in Far|];
      [rewrite Far | rewrite C]; reflexivity.
  - destruct (_ || _) eqn:F.
    + destruct C as [Far|C]; [apply (beyond_far_culled nearZ farZ n0 n1 n2 n3) in Far|];
        [rewrite Far | rewrite C]; reflexivity.
    + destruct Hinv as [Far|[G _]].
      * rewrite (dlt_true _ _ Far). reflexivity.
      * rewrite (dge_true _ _ G) in D. discriminate.
Qed.

Lemma renderFadedBody_invisible fuel m modelview nearZ farZ n0 n1 n2 n3 rc thr
  startTime endTime color fadeStartTime fadeRate i sp si v0 o0 first last vbuf calls :
  nth_error m i = Some si ->
  invisibleSegment modelview (Fr.make nearZ farZ n0 n1 n2 n3) thr farZ sp si ->
  CP.renderFadedBody fuel m modelview (Fr.make nearZ farZ n0 n1 n2 n3) rc farZ thr
    startTime endTime color fadeStartTime fadeRate i
    (CP.MkFaded true (CP.toCamera modelview (Sm.position sp) 1) v0 o0 first last
       vbuf calls)
  = Done (CP.MkFaded true (CP.toCamera modelview (Sm.position si) 1)
            (CP.toCamera modelview (Sm.velocity si) 0)
            (clamp ((Sm.t si - fadeStartTime) * fadeRate) 0 1) first
            (if dle endTime (Sm.t si) then true else last) vbuf calls).
Proof.
  intros Hi Hinv. unfold CP.renderFadedBody.
  apply sampleAt_Done in Hi. rewrite Hi.
  cbn [bind CP.fs_restartCurve CP.fs_p0 CP.fs_v0 CP.fs_opacity0 CP.fs_firstSegment
       CP.fs_lastSegment CP.fs_vbuf CP.fs_calls].
  assert (C : z4 (CP.toCamera modelview (Sm.position sp) 1) + Sm.boundingRadius si
              < farZ \/
              Fr.cullSphere (Fr.make nearZ farZ n0 n1 n2 n3)
                (CP.toCamera modelview (Sm.position sp) 1) (Sm.boundingRadius si)
              = true)
    by (destruct Hinv as [Far|[_ C]]; [left; exact Far | right; exact C]).
  destruct (dge _ _) eqn:D; cbn [orb].
  - destruct C as [Far|C]; [apply (beyond_far_culled nearZ farZ n0 n1 n2 n3) in Far|];
      [rewrite Far | rewrite C]; reflexivity.
  - destruct (_ || _) eqn:F.
    + destruct C as [Far|C]; [apply (beyond_far_culled nearZ farZ n0 n1 n2 n3) in Far|];
        [rewrite Far | rewrite C]; reflexivity.
    + destruct Hinv as [Far|[G _]].
      * rewrite (dlt_true _ _ Far). reflexivity.
      * rewrite (dge_true _ _ G) in D. discriminate.
Qed.

Lemma renderRangeLoop_invisible fuel m modelview nearZ farZ n0 n1 n2 n3 rc thr
  startTime endTime rest :
  forall pre a v0 first last vbuf calls,
  m = pre ++ a :: rest ->
  invisibleSegments modelview (Fr.make nearZ farZ n0 n1 n2 n3) thr farZ (a :: rest) ->
  exists s,
    CP.forWhile (fun s => negb (CP.rs_lastSegment s))
      (CP.renderRangeBody fuel m modelview (Fr.make nearZ farZ n0 n1 n2 n3) rc farZ
         thr startTime endTime)
      (seq (length pre + 1) (length rest))
      (CP.MkRange true (CP.toCamera modelview (Sm.position a) 1) v0 first last vbuf
         calls)
    = Done s /\
    CP.rs_restartCurve s = true /\ CP.rs_vbuf s = vbuf /\ CP.rs_calls s = calls.
Proof.
  induction rest as [|b rest IH]; intros pre a v0 first last vbuf calls Hm Hs.
  - cbn [length seq CP.forWhile]. eexists. split; [reflexivity|]. repeat split.
  - cbn [length seq CP.forWhile CP.rs_lastSegment].
    destruct (negb last); [|eexists; split; [reflexivity|]; repeat split].
    destruct Hs as (Hinv & Hrest).
    rewrite (renderRangeBody_invisible fuel m modelview nearZ farZ n0 n1 n2 n3 rc thr
               startTime endTime (length pre + 1) a b); try assumption.
    2:{ rewrite Hm. replace (length pre + 1)%nat with (length (pre ++ [a]))
          by (rewrite length_app; reflexivity).
        rewrite <- (nth_error_middle (pre ++ [a]) b rest), <- app_assoc. reflexivity. }
    cbn [bind].
    destruct (IH (pre ++ [a]) b (CP.toCamera modelview (Sm.velocity b) 0) first
                 (if dle endTime (Sm.t b) then true else last) vbuf calls)
      as (s & E & R).
    { rewrite Hm, <- app_assoc. reflexivity. }
    { exact Hrest. }
    rewrite length_app in E. cbn [length] in E.
    replace (S (length pre + 1)) with (length pre + 1 + 1)%nat by lia.
    exists s. split; [exact E | exact R].
Qed.

Lemma renderFadedLoop_invisible fuel m modelview nearZ farZ n0 n1 n2 n3 rc thr
  startTime endTime color fadeStartTime fadeRate rest :
  forall pre a v0 o0 first last vbuf calls,
  m = pre ++ a :: rest ->
  invisibleSegments modelview (Fr.make nearZ farZ n0 n1 n2 n3) thr farZ (a :: rest) ->
  exists s,
    CP.forWhile (fun s => negb (CP.fs_lastSegment s))
      (CP.renderFadedBody fuel m modelview (Fr.make nearZ farZ n0 n1 n2 n3) rc farZ
         thr startTime endTime color fadeStartTime fadeRate)
      (seq (length pre + 1) (length rest))
      (CP.MkFaded true (CP.toCamera modelview (Sm.position a) 1) v0 o0 first last vbuf
         calls)
    = Done s /\
    CP.fs_restartCurve s = true /\ CP.fs_vbuf s = vbuf /\ CP.fs_calls s = calls.
Proof.
  induction rest as [|b rest IH]; intros pre a v0 o0 first last vbuf calls Hm Hs.
  - cbn [length seq CP.forWhile]. eexists. split; [reflexivity|]. repeat split.
  - cbn [length seq CP.forWhile CP.fs_lastSegment].
    destruct (negb last); [|eexists; split; [reflexivity|]; repeat split].
    destruct Hs as (Hinv & Hrest).
    rewrite (renderFadedBody_invisible fuel m modelview nearZ farZ n0 n1 n2 n3 rc thr
               startTime endTime color fadeStartTime fadeRate (length pre + 1) a b);
      try assumption.
    2:{ rewrite Hm. replace (length pre + 1)%nat with (length (pre ++ [a]))
          by (rewrite length_app; reflexivity).
        rewrite <- (nth_error_middle (pre ++ [a]) b rest), <- app_assoc. reflexivity. }
    cbn [bind].
    destruct (IH (pre ++ [a]) b (CP.toCamera modelview (Sm.velocity b) 0)
                 (clamp ((Sm.t b - fadeStartTime) * fadeRate) 0 1) first
                 (if dle endTime (Sm.t b) then true else last) vbuf calls)
      as (s & E & R).
    { rewrite Hm, <- app_assoc. reflexivity. }
    { exact Hrest. }
    rewrite length_app in E. cbn [length] in E.
    replace (S (length pre + 1)) with (length pre + 1 + 1)%nat by lia.
    exists s. split; [exact E | exact R].
Qed.

Lemma renderRange_invisible fuel m modelview nearZ farZ n0 n1 n2 n3 thr
  startTime endTime color tri vbuf :
  invisibleSegments modelview (Fr.make nearZ farZ n0 n1 n2 n3) thr farZ m ->
  exists vbuf',
    CP.renderRange fuel m modelview nearZ farZ n0 n1 n2 n3 thr startTime endTime
      color tri vbuf = Done vbuf' /\
    VB.gl vbuf' = VB.gl vbuf.
Proof.
  intros H. unfold CP.renderRange, CP.renderRangeTraced.
  destruct m as [|f rest0]; [eexists; split; reflexivity|].
  set (m := f :: rest0) in *. cbn [orb].
  destruct (_ || _); [cbn [bind]; eexists; split; reflexivity|].
  assert (Hlen : (0 < length m)%nat) by (simpl; lia).
  destruct (searchStartSample_total m startTime (length m) 0 Hlen ltac:(lia))
    as (found & -> & Hf & _). cbn [bind].
  set (startSample := if Nat.ltb 0 found then (found - 1)%nat else found).
  assert (Hs : (startSample < length m)%nat)
    by (subst startSample; destruct (Nat.ltb 0 found); lia).
  destruct (sampleAt_inside m startSample Hs) as (s0 & -> & N0). cbn [bind].
  destruct (nth_error_split m startSample N0) as (pre & rest & Em & Lpre).
  assert (Hsuffix : invisibleSegments modelview (Fr.make nearZ farZ n0 n1 n2 n3) thr
                      farZ (s0 :: rest))
    by (apply (invisibleSegments_suffix _ _ _ _ pre); rewrite <- Em; exact H).
  destruct (renderRangeLoop_invisible fuel m modelview nearZ farZ n0 n1 n2 n3
              (RC.Make (Fr.make nearZ farZ n0 n1 n2 n3) thr) thr startTime endTime
              rest pre s0 (CP.toCamera modelview (Sm.velocity s0) 0) true false
              (VB.setColor color (VB.setup tri (VB.createVertexBuffer vbuf))) []
              Em Hsuffix) as (s & E & Rr & Rv & Rc).
  replace (length m - (startSample + 1))%nat with (length rest)
    by (rewrite Em, length_app; cbn [length]; lia).
  rewrite <- Lpre, E. cbn [bind]. rewrite Rr, Rv. cbn [negb bind].
  eexists. split; [reflexivity|].
  unfold VB.finish. rewrite flush_prepared_logs_nothing by reflexivity.
  unfold VB.setColor. cbn [VB.gl]. apply prepared_gl.
Qed.

Lemma renderFaded_invisible fuel m modelview nearZ farZ n0 n1 n2 n3 thr
  startTime endTime color fadeStartTime fadeEndTime tri vbuf :
  invisibleSegments modelview (Fr.make nearZ farZ n0 n1 n2 n3) thr farZ m ->
  exists vbuf',
    CP.renderFaded fuel m modelview nearZ farZ n0 n1 n2 n3 thr startTime endTime
      color fadeStartTime fadeEndTime tri vbuf = Done vbuf' /\
    VB.gl vbuf' = VB.gl vbuf.
Proof.
  intros H. unfold CP.renderFaded, CP.renderFadedTraced.
  destruct m as [|f rest0]; [eexists; split; reflexivity|].
  set (m := f :: rest0) in *. cbn [orb].
  destruct (_ || _); [cbn [bind]; eexists; split; reflexivity|].
  assert (Hlen : (0 < length m)%nat) by (simpl; lia).
  destruct (searchStartSample_total m startTime (length m) 0 Hlen ltac:(lia))
    as (found & -> & Hf & _). cbn [bind].
  set (startSample := if Nat.ltb 0 found then (found - 1)%nat else found).
  assert (Hs : (startSample < length m)%nat)
    by (subst startSample; destruct (Nat.ltb 0 found); lia).
  destruct (sampleAt_inside m startSample Hs) as (s0 & -> & N0). cbn [bind].
  destruct (nth_error_split m startSample N0) as (pre & rest & Em & Lpre).
  assert (Hsuffix : invisibleSegments modelview (Fr.make nearZ farZ n0 n1 n2 n3) thr
                      farZ (s0 :: rest))
    by (apply (invisibleSegments_suffix _ _ _ _ pre); rewrite <- Em; exact H).
  destruct (renderFadedLoop_invisible fuel m modelview nearZ farZ n0 n1 n2 n3
              (RC.Make (Fr.make nearZ farZ n0 n1 n2 n3) thr) thr startTime endTime
              color fadeStartTime (1 / (fadeEndTime - fadeStartTime))
              rest pre s0 (CP.toCamera modelview (Sm.velocity s0) 0)
              (clamp ((Sm.t s0 - fadeStartTime) * (1 / (fadeEndTime - fadeStartTime)))
                     0 1)
              true false
              (VB.setup tri (VB.createVertexBuffer vbuf)) []
              Em Hsuffix) as (s & E & Rr & Rv & Rc).
  replace (length m - (startSample + 1))%nat with (length rest)
    by (rewrite Em, length_app; cbn [length]; lia).
  rewrite <- Lpre, E. cbn [bind]. rewrite Rr, Rv. cbn [negb bind].
  eexists. split; [reflexivity|].
  unfold VB.finish. rewrite flush_prepared_logs_nothing by reflexivity.
  apply prepared_gl.
Qed.

(** X20: a curve outside the view draws nothing.  When every segment of a
    non-empty store lies beyond the far plane, or passes the subdivision
    test with the sphere around its start culled by the frustum, each of
    the three render entry points returns, for every recursion budget, and
    logs no OpenGL call. *)
Theorem invisible_curve_draws_nothing
  fuel (m : CP.Samples) modelview nearZ farZ n0 n1 n2 n3 thr startTime endTime
  color fadeStartTime fadeEndTime tri (vbuf : VB.t) :
  m <> [] ->
  invisibleSegments modelview (Fr.make nearZ farZ n0 n1 n2 n3) thr farZ m ->
  (exists vbuf',
     CP.render fuel m modelview nearZ farZ n0 n1 n2 n3 thr color tri vbuf
       = Done vbuf' /\ VB.gl vbuf' = VB.gl vbuf) /\
  (exists vbuf',
     CP.renderRange fuel m modelview nearZ farZ n0 n1 n2 n3 thr startTime endTime
       color tri vbuf = Done vbuf' /\ VB.gl vbuf' = VB.gl vbuf) /\
  (exists vbuf',
     CP.renderFaded fuel m modelview nearZ farZ n0 n1 n2 n3 thr startTime endTime
       color fadeStartTime fadeEndTime tri vbuf = Done vbuf' /\
     VB.gl vbuf' = VB.gl vbuf).
Proof.
  intros Hne H. split; [|split].
  - destruct m as [|a rest]; [congruence|]. apply render_invisible. exact H.
  - apply renderRange_invisible. exact H.
  - apply renderFaded_invisible. exact H.
Qed.

(** Two samples 2000 units in front of the camera, beyond a far plane at
    1000 units. *)
Definition beyondFarStore : CP.Samples :=
  [Sm.Make 0 (V3 0 0 (-2000)) (V3 1 0 0) 0; Sm.Make 10 (V3 10 0 (-2000)) (V3 1 0 0) 10].

Lemma invisible_curve_draws_nothing_witness :
  (exists vbuf',
     CP.render 0 beyondFarStore identity (-1) (-1000)
       unitNormal0 unitNormal1 unitNormal2 unitNormal3 1 white false newBuffer
       = Done vbuf' /\ VB.gl vbuf' = VB.gl newBuffer) /\
  (exists vbuf',
     CP.renderRange 0 beyondFarStore identity (-1) (-1000)
       unitNormal0 unitNormal1 unitNormal2 unitNormal3 1 2 8 white false newBuffer
       = Done vbuf' /\ VB.gl vbuf' = VB.gl newBuffer) /\
  (exists vbuf',
     CP.renderFaded 0 beyondFarStore identity (-1) (-1000)
       unitNormal0 unitNormal1 unitNormal2 unitNormal3 1 2 8 white 0 10 false newBuffer
       = Done vbuf' /\ VB.gl vbuf' = VB.gl newBuffer).
Proof.
  apply (invisible_curve_draws_nothing 0 beyondFarStore identity (-1) (-1000)
           unitNormal0 unitNormal1 unitNormal2 unitNormal3 1 2 8 white 0 10 false
           newBuffer).
  - discriminate.
  - unfold beyondFarStore.
    cbn [invisibleSegments]. split; [|exact I].
    unfold invisibleSegment. cbn [Sm.position Sm.boundingRadius].
    rewrite toCamera_identity. cbn [z4 z3]. left. lra.
Defined.

(** *** The render functions use the vertex buffer through its interface *)

Lemma sameOutcome_weaken {A B : Type} (R Q : A -> B -> Prop) o o' :
  (forall a b, R a b -> Q a b) -> sameOutcome R o o' -> sameOutcome Q o o'.
Proof.
  intros H. destruct o, o'; cbn [sameOutcome]; auto.
Qed.

(** A relation between vertex buffers that [vertex], [end] and [flush]
    preserve is preserved by the render functions: run on related buffers
    they take the same decisions and end the same way, with related
    buffers.  [allowed] holds of the colours that [vertex] may be given;
    the faded render passes the colour it was given with its alpha scaled
    by an opacity between 0 and 1. *)
Section BufferRelation.

Variable related : VB.t -> VB.t -> Prop.
Variable allowed : Vector4f -> Prop.

Hypothesis related_vertexColor : forall v c b b',
  allowed c ->
  related b b' -> related (VB.vertexColor v c b) (VB.vertexColor v c b').
Hypothesis related_vertex : forall v b b',
  related b b' -> related (VB.vertex v b) (VB.vertex v b').
Hypothesis related_end : forall b b',
  related b b' -> related (VB.end_ true b) (VB.end_ true b').
Hypothesis related_flush : forall b b',
  related b b' -> related (VB.flush true b) (VB.flush true b').

Definition relatedResult (x y : bool * VB.t) : Prop :=
  fst x = fst y /\ related (snd x) (snd y).

Definition relatedCubicState (s t : RC.CubicState) : Prop :=
  fst (fst s) = fst (fst t) /\ snd (fst s) = snd (fst t) /\ related (snd s) (snd t).

Definition relatedFadedState (s t : RC.FadedState) : Prop :=
  fst (fst (fst s)) = fst (fst (fst t)) /\
  snd (fst (fst s)) = snd (fst (fst t)) /\
  (snd (fst s) = snd (fst t) /\ 0 <= snd (fst s) <= 1) /\
  related (snd s) (snd t).

Lemma cubicBody_related rc recurse recurse' coeff t0 dt radius depth :
  (forall r a b rad d v v',
     related v v' ->
     sameOutcome relatedResult (recurse r a b rad d v) (recurse' r a b rad d v')) ->
  forall i s t,
    relatedCubicState s t ->
    sameOutcome relatedCubicState
      (RC.cubicBody rc recurse coeff t0 dt radius depth i s)
      (RC.cubicBody rc recurse' coeff t0 dt radius depth i t).
Proof.
  intros Hrec i [[r p] vbuf] [[r' p'] vbuf'] (E1 & E2 & Hg).
  cbn [fst snd] in E1, E2, Hg. subst r' p'.
  unfold RC.cubicBody.
  destruct (dge _ _).
  - destruct (Fr.cullSphere _ _ _).
    + destruct r; cbn [negb sameOutcome]; unfold relatedCubicState; cbn [fst snd].
      * exact (conj eq_refl (conj eq_refl Hg)).
      * exact (conj eq_refl (conj eq_refl (related_end _ _ Hg))).
    + apply (sameOutcome_bind relatedResult relatedCubicState); [apply Hrec; exact Hg|].
      intros [r1 v1] [r2 v2] [F1 F2]. cbn [fst snd] in F1, F2. subst r2.
      exact (conj eq_refl (conj eq_refl F2)).
  - destruct r; cbn [sameOutcome]; unfold relatedCubicState, VB.begin; cbn [fst snd].
    + exact (conj eq_refl (conj eq_refl
               (related_vertex _ _ _ (related_vertex _ _ _ Hg)))).
    + exact (conj eq_refl (conj eq_refl (related_vertex _ _ _ Hg))).
Qed.

Lemma cubicFadedBody_related rc recurse recurse' coeff t0 dt color fadeStart fadeRate
  radius depth :
  (forall o, 0 <= o <= 1 -> allowed (RC.fadedColor color o)) ->
  (forall r a b rad d v v',
     related v v' ->
     sameOutcome relatedResult (recurse r a b rad d v) (recurse' r a b rad d v')) ->
  forall i s t,
    relatedFadedState s t ->
    sameOutcome relatedFadedState
      (RC.cubicFadedBody rc recurse coeff t0 dt color fadeStart fadeRate radius depth
         i s)
      (RC.cubicFadedBody rc recurse' coeff t0 dt color fadeStart fadeRate radius depth
         i t).
Proof.
  intros Hcol Hrec i [[[r p] o] vbuf] [[[r' p'] o'] vbuf'] (E1 & E2 & (E3 & Ho) & Hg).
  cbn [fst snd] in E1, E2, E3, Ho, Hg. subst r' p' o'.
  unfold RC.cubicFadedBody.
  set (opacity := clamp _ 0 1).
  assert (Hop : 0 <= opacity <= 1) by apply clamp_unit.
  destruct (dge _ _).
  - destruct (Fr.cullSphere _ _ _).
    + destruct r; cbn [negb sameOutcome]; unfold relatedFadedState; cbn [fst snd].
      * exact (conj eq_refl (conj eq_refl (conj (conj eq_refl Hop) Hg))).
      * exact (conj eq_refl (conj eq_refl (conj (conj eq_refl Hop)
                                              (related_end _ _ Hg)))).
    + apply (sameOutcome_bind relatedResult relatedFadedState); [apply Hrec; exact Hg|].
      intros [r1 v1] [r2 v2] [F1 F2]. cbn [fst snd] in F1, F2. subst r2.
      exact (conj eq_refl (conj eq_refl (conj (conj eq_refl Hop) F2))).
  - destruct r; cbn [sameOutcome]; unfold relatedFadedState, VB.begin; cbn [fst snd].
    + exact (conj eq_refl (conj eq_refl (conj (conj eq_refl Hop)
               (related_vertexColor _ _ _ _ (Hcol _ Hop)
                  (related_vertexColor _ _ _ _ (Hcol _ Ho) Hg))))).
    + exact (conj eq_refl (conj eq_refl (conj (conj eq_refl Hop)
               (related_vertexColor _ _ _ _ (Hcol _ Hop) Hg)))).
Qed.

Lemma renderCubic_related fuel :
  forall rc r coeff t0 t1 radius depth vbuf vbuf',
  related vbuf vbuf' ->
  sameOutcome relatedResult
    (RC.renderCubic fuel rc r coeff t0 t1 radius depth vbuf)
    (RC.renderCubic fuel rc r coeff t0 t1 radius depth vbuf').
Proof.
  induction fuel as [|fuel IH]; intros rc r coeff t0 t1 radius depth vbuf vbuf' Hg;
    [exact I|].
  rewrite !renderCubic_unfold.
  apply (sameOutcome_bind relatedCubicState relatedResult).
  - apply sameOutcome_forEach.
    + apply cubicBody_related. intros r1 a b rad d v v' Hv. apply IH. exact Hv.
    + exact (conj eq_refl (conj eq_refl Hg)).
  - intros [[r1 p1] v1] [[r2 p2] v2] (F1 & _ & Hv). cbn [fst snd] in F1, Hv.
    subst r2. exact (conj eq_refl Hv).
Qed.

Lemma renderCubicFaded_related fuel :
  forall rc r coeff t0 t1 color fadeStart fadeRate radius depth vbuf vbuf',
  (forall o, 0 <= o <= 1 -> allowed (RC.fadedColor color o)) ->
  related vbuf vbuf' ->
  sameOutcome relatedResult
    (RC.renderCubicFaded fuel rc r coeff t0 t1 color fadeStart fadeRate radius depth
       vbuf)
    (RC.renderCubicFaded fuel rc r coeff t0 t1 color fadeStart fadeRate radius depth
       vbuf').
Proof.
  induction fuel as [|fuel IH]; intros rc r coeff t0 t1 color fadeStart fadeRate
    radius depth vbuf vbuf' Hcol Hg; [exact I|].
  rewrite !renderCubicFaded_unfold.
  apply (sameOutcome_bind relatedFadedState relatedResult).
  - apply sameOutcome_forEach.
    + apply cubicFadedBody_related; [exact Hcol|].
      intros r1 a b rad d v v' Hv. apply IH; assumption.
    + exact (conj eq_refl (conj eq_refl (conj (conj eq_refl (clamp_unit _)) Hg))).
  - intros [[[r1 p1] o1] v1] [[[r2 p2] o2] v2] (F1 & _ & _ & Hv).
    cbn [fst snd] in F1, Hv. subst r2. exact (conj eq_refl Hv).
Qed.

Definition relatedFullState (s t : CP.FullState) : Prop :=
  fst (fst (fst s)) = fst (fst (fst t)) /\
  snd (fst (fst s)) = snd (fst (fst t)) /\
  snd (fst s) = snd (fst t) /\
  related (snd s) (snd t).

Definition relatedRangeState (s t : CP.RangeState) : Prop :=
  CP.rs_restartCurve s = CP.rs_restartCurve t /\
  CP.rs_p0 s = CP.rs_p0 t /\
  CP.rs_v0 s = CP.rs_v0 t /\
  CP.rs_firstSegment s = CP.rs_firstSegment t /\
  CP.rs_lastSegment s = CP.rs_lastSegment t /\
  CP.rs_calls s = CP.rs_calls t /\
  related (CP.rs_vbuf s) (CP.rs_vbuf t).

Definition relatedFadedRenderState (s t : CP.FadedState) : Prop :=
  CP.fs_restartCurve s = CP.fs_restartCurve t /\
  CP.fs_p0 s = CP.fs_p0 t /\
  CP.fs_v0 s = CP.fs_v0 t /\
  (CP.fs_opacity0 s = CP.fs_opacity0 t /\ 0 <= CP.fs_opacity0 s <= 1) /\
  CP.fs_firstSegment s = CP.fs_firstSegment t /\
  CP.fs_lastSegment s = CP.fs_lastSegment t /\
  CP.fs_calls s = CP.fs_calls t /\
  related (CP.fs_vbuf s) (CP.fs_vbuf t).

Lemma renderBody_related fuel m modelview viewFrustum rc farZ thr i s t :
  relatedFullState s t ->
  sameOutcome relatedFullState
    (CP.renderBody fuel m modelview viewFrustum rc farZ thr i s)
    (CP.renderBody fuel m modelview viewFrustum rc farZ thr i t).
Proof.
  destruct s as [[[r p0] v0] vbuf], t as [[[r' p0'] v0'] vbuf'].
  intros (E1 & E2 & E3 & Hg). cbn [fst snd] in E1, E2, E3, Hg. subst r' p0' v0'.
  unfold CP.renderBody.
  destruct (CP.sampleAt m i) as [si| |]; cbn [bind]; try exact I.
  apply (sameOutcome_bind relatedResult relatedFullState).
  - destruct (dge _ _).
    + destruct (Fr.cullSphere _ _ _).
      * destruct r; cbn [negb sameOutcome].
        -- exact (conj eq_refl Hg).
        -- exact (conj eq_refl (related_end _ _ Hg)).
      * destruct (CP.sampleAt m (i - 1)) as [sp| |]; cbn [bind]; try exact I.
        apply renderCubic_related. exact Hg.
    + destruct (dlt _ _).
      * destruct r; cbn [negb sameOutcome].
        -- exact (conj eq_refl Hg).
        -- exact (conj eq_refl (related_end _ _ Hg)).
      * destruct r; cbn [sameOutcome]; unfold VB.begin.
        -- exact (conj eq_refl (related_vertex _ _ _ (related_vertex _ _ _ Hg))).
        -- exact (conj eq_refl (related_vertex _ _ _ Hg)).
  - intros [r1 v1] [r2 v2] [F1 F2]. cbn [fst snd] in F1, F2. subst r2.
    exact (conj eq_refl (conj eq_refl (conj eq_refl F2))).
Qed.

Ltac related_range :=
  cbn [sameOutcome]; unfold relatedRangeState;
  cbn [CP.rs_restartCurve CP.rs_p0 CP.rs_v0 CP.rs_firstSegment CP.rs_lastSegment
       CP.rs_calls CP.rs_vbuf];
  refine (conj _ (conj _ (conj _ (conj _ (conj _ (conj _ _))))));
  try reflexivity.

Ltac related_faded :=
  cbn [sameOutcome]; unfold relatedFadedRenderState;
  cbn [CP.fs_restartCurve CP.fs_p0 CP.fs_v0 CP.fs_opacity0 CP.fs_firstSegment
       CP.fs_lastSegment CP.fs_calls CP.fs_vbuf];
  refine (conj _ (conj _ (conj _ (conj (conj _ _) (conj _ (conj _ (conj _ _)))))));
  try reflexivity; try apply clamp_unit.

Lemma renderRangeBody_related fuel m modelview viewFrustum rc farZ thr
  startTime endTime i s t :
  relatedRangeState s t ->
  sameOutcome relatedRangeState
    (CP.renderRangeBody fuel m modelview viewFrustum rc farZ thr startTime endTime i s)
    (CP.renderRangeBody fuel m modelview viewFrustum rc farZ thr startTime endTime i t).
Proof.
  destruct s as [r p0 v0 first last vbuf calls],
           t as [r' p0' v0' first' last' vbuf' calls'].
  unfold relatedRangeState.
  cbn [CP.rs_restartCurve CP.rs_p0 CP.rs_v0 CP.rs_firstSegment CP.rs_lastSegment
       CP.rs_calls CP.rs_vbuf].
  intros (<- & <- & <- & <- & <- & <- & Hg).
  unfold CP.renderRangeBody.
  cbn [CP.rs_restartCurve CP.rs_p0 CP.rs_v0 CP.rs_firstSegment CP.rs_lastSegment
       CP.rs_calls CP.rs_vbuf].
  destruct (CP.sampleAt m i) as [si| |]; cbn [bind]; try exact I.
  destruct (_ || _ || _).
  - destruct (Fr.cullSphere _ _ _).
    + destruct r; cbn [negb]; related_range; [exact Hg | apply related_end; exact Hg].
    + destruct (CP.sampleAt m (i - 1)) as [sp| |]; cbn [bind]; try exact I.
      apply (sameOutcome_bind relatedResult relatedRangeState);
        [apply renderCubic_related; exact Hg|].
      intros [r1 v1] [r2 v2] [E1 E2]. cbn [fst snd] in E1, E2. subst r2.
      related_range. exact E2.
  - destruct (dlt _ _).
    + destruct r; cbn [negb]; related_range; [exact Hg | apply related_end; exact Hg].
    + destruct r; related_range; unfold VB.begin.
      * apply related_vertex, related_vertex. exact Hg.
      * apply related_vertex. exact Hg.
Qed.

Lemma renderFadedBody_related fuel m modelview viewFrustum rc farZ thr
  startTime endTime color fadeStartTime fadeRate i s t :
  (forall o, 0 <= o <= 1 -> allowed (RC.fadedColor color o)) ->
  relatedFadedRenderState s t ->
  sameOutcome relatedFadedRenderState
    (CP.renderFadedBody fuel m modelview viewFrustum rc farZ thr startTime endTime
       color fadeStartTime fadeRate i s)
    (CP.renderFadedBody fuel m modelview viewFrustum rc farZ thr startTime endTime
       color fadeStartTime fadeRate i t).
Proof.
  destruct s as [r p0 v0 o0 first last vbuf calls],
           t as [r' p0' v0' o0' first' last' vbuf' calls'].
  unfold relatedFadedRenderState.
  cbn [CP.fs_restartCurve CP.fs_p0 CP.fs_v0 CP.fs_opacity0 CP.fs_firstSegment
       CP.fs_lastSegment CP.fs_calls CP.fs_vbuf].
  intros Hcol (<- & <- & <- & (<- & Ho) & <- & <- & <- & Hg).
  unfold CP.renderFadedBody.
  cbn [CP.fs_restartCurve CP.fs_p0 CP.fs_v0 CP.fs_opacity0 CP.fs_firstSegment
       CP.fs_lastSegment CP.fs_calls CP.fs_vbuf].
  destruct (CP.sampleAt m i) as [si| |]; cbn [bind]; try exact I.
  destruct (_ || _ || _).
  - destruct (Fr.cullSphere _ _ _).
    + destruct r; cbn [negb]; related_faded; [exact Hg | apply related_end; exact Hg].
    + destruct (CP.sampleAt m (i - 1)) as [sp| |]; cbn [bind]; try exact I.
      apply (sameOutcome_bind relatedResult relatedFadedRenderState);
        [apply renderCubicFaded_related; [exact Hcol | exact Hg]|].
      intros [r1 v1] [r2 v2] [E1 E2]. cbn [fst snd] in E1, E2. subst r2.
      related_faded. exact E2.
  - destruct (dlt _ _).
    + destruct r; cbn [negb]; related_faded; [exact Hg | apply related_end; exact Hg].
    + destruct r; related_faded; unfold VB.begin.
      * apply related_vertexColor; [apply Hcol, clamp_unit|].
        apply related_vertexColor; [apply Hcol, Ho | exact Hg].
      * apply related_vertexColor; [apply Hcol, clamp_unit | exact Hg].
Qed.

(** The three entry points, from the prepared buffers on. *)
Lemma render_related fuel m modelview nearZ farZ n0 n1 n2 n3 thr color tri tri'
  vbuf vbuf' :
  related (VB.setColor color (VB.setup tri (VB.createVertexBuffer vbuf)))
          (VB.setColor color (VB.setup tri' (VB.createVertexBuffer vbuf'))) ->
  sameOutcome related
    (CP.render fuel m modelview nearZ farZ n0 n1 n2 n3 thr color tri vbuf)
    (CP.render fuel m modelview nearZ farZ n0 n1 n2 n3 thr color tri' vbuf').
Proof.
  intros Hp. unfold CP.render.
  destruct (CP.sampleAt m 0) as [s0| |]; cbn [bind]; try exact I.
  apply (sameOutcome_bind relatedFullState related).
  - apply sameOutcome_forEach.
    + intros i s t. apply renderBody_related.
    + exact (conj eq_refl (conj eq_refl (conj eq_refl Hp))).
  - intros [[[r p] v] b] [[[r' p'] v'] b'] (E1 & _ & _ & Hg).
    cbn [fst snd] in E1, Hg. subst r'.
    cbn [sameOutcome]. unfold VB.finish. apply related_flush.
    destruct r; cbn [negb]; [exact Hg | apply related_end; exact Hg].
Qed.

(** The two time-range entry points return the buffer they were given
    when the request is outside the stored range. *)
Definition untouchedOrRelated (vbuf vbuf' v v' : VB.t) : Prop :=
  (v = vbuf /\ v' = vbuf') \/ related v v'.

Lemma renderRange_related fuel m modelview nearZ farZ n0 n1 n2 n3 thr
  startTime endTime color tri tri' vbuf vbuf' :
  related (VB.setColor color (VB.setup tri (VB.createVertexBuffer vbuf)))
          (VB.setColor color (VB.setup tri' (VB.createVertexBuffer vbuf'))) ->
  sameOutcome (untouchedOrRelated vbuf vbuf')
    (CP.renderRange fuel m modelview nearZ farZ n0 n1 n2 n3 thr startTime endTime
       color tri vbuf)
    (CP.renderRange fuel m modelview nearZ farZ n0 n1 n2 n3 thr startTime endTime
       color tri' vbuf').
Proof.
  intros Hp. unfold CP.renderRange, CP.renderRangeTraced.
  destruct (_ || _ || _); [left; split; reflexivity|].
  apply (sameOutcome_weaken related); [intros a b H; right; exact H|].
  destruct (CP.searchStartSample _ _ _ _) as [found| |]; cbn [bind]; try exact I.
  destruct (CP.sampleAt m _) as [s0| |]; cbn [bind]; try exact I.
  match goal with
  | |- sameOutcome _ (bind (bind ?o ?k) ?k2) (bind (bind ?o' ?k') ?k2') =>
      apply (sameOutcome_bind (fun x y => related (fst x) (fst y)) related
               (bind o k) (bind o' k'))
  end.
  - apply (sameOutcome_bind relatedRangeState (fun x y => related (fst x) (fst y))).
    + apply sameOutcome_forWhile.
      * intros s t (_ & _ & _ & _ & E & _). rewrite E. reflexivity.
      * intros i s t. apply renderRangeBody_related.
      * related_range. exact Hp.
    + intros s t (Er & _ & _ & _ & _ & _ & Hg).
      cbn [sameOutcome fst]. unfold VB.finish. rewrite <- Er.
      apply related_flush.
      destruct (CP.rs_restartCurve s); cbn [negb]; [exact Hg | apply related_end; exact Hg].
  - intros [v c] [v' c'] Hv. exact Hv.
Qed.

Lemma renderFaded_related fuel m modelview nearZ farZ n0 n1 n2 n3 thr
  startTime endTime color fadeStartTime fadeEndTime tri tri' vbuf vbuf' :
  (forall o, 0 <= o <= 1 -> allowed (RC.fadedColor color o)) ->
  related (VB.setup tri (VB.createVertexBuffer vbuf))
          (VB.setup tri' (VB.createVertexBuffer vbuf')) ->
  sameOutcome (untouchedOrRelated vbuf vbuf')
    (CP.renderFaded fuel m modelview nearZ farZ n0 n1 n2 n3 thr startTime endTime
       color fadeStartTime fadeEndTime tri vbuf)
    (CP.renderFaded fuel m modelview nearZ farZ n0 n1 n2 n3 thr startTime endTime
       color fadeStartTime fadeEndTime tri' vbuf').
Proof.
  intros Hcol Hp. unfold CP.renderFaded, CP.renderFadedTraced.
  destruct (_ || _ || _); [left; split; reflexivity|].
  apply (sameOutcome_weaken related); [intros a b H; right; exact H|].
  destruct (CP.searchStartSample _ _ _ _) as [found| |]; cbn [bind]; try exact I.
  destruct (CP.sampleAt m _) as [s0| |]; cbn [bind]; try exact I.
  match goal with
  | |- sameOutcome _ (bind (bind ?o ?k) ?k2) (bind (bind ?o' ?k') ?k2') =>
      apply (sameOutcome_bind (fun x y => related (fst x) (fst y)) related
               (bind o k) (bind o' k'))
  end.
  - apply (sameOutcome_bind relatedFadedRenderState
             (fun x y => related (fst x) (fst y))).
    + apply sameOutcome_forWhile.
      * intros s t (_ & _ & _ & _ & _ & E & _). rewrite E. reflexivity.
      * intros i s t. apply renderFadedBody_related. exact Hcol.
      * related_faded. exact Hp.
    + intros s t (Er & _ & _ & _ & _ & _ & _ & Hg).
      cbn [sameOutcome fst]. unfold VB.finish. rewrite <- Er.
      apply related_flush.
      destruct (CP.fs_restartCurve s); cbn [negb]; [exact Hg | apply related_end; exact Hg].
  - intros [v c] [v' c'] Hv. exact Hv.
Qed.

End BufferRelation.

(** *** Lines drawn as triangles *)

(** The contents of the buffer object after a sequence of logged calls. *)
Fixpoint gpuAfter (buffer : list VB.Vertex) (calls : list VB.GLCall)
  : list VB.Vertex :=
  match calls with
  | [] => buffer
  | VB.glBufferSubData uploaded :: rest => gpuAfter (gpuUpload buffer uploaded) rest
  | VB.glDrawArrays _ _ _ :: rest => gpuAfter buffer rest
  end.

(** Two logs that draw the same polylines and leave the same buffer object,
    from every initial contents of the buffer object. *)
Definition sameDrawing (l l' : list VB.GLCall) : Prop :=
  forall buffer,
    drawnPolylines buffer l = drawnPolylines buffer l' /\
    gpuAfter buffer l = gpuAfter buffer l'.

(** Two buffers that agree on everything but the mode, and whose logs draw
    the same polylines. *)
Definition sameStrips (b b' : VB.t) : Prop :=
  VB.currentPosition b = VB.currentPosition b' /\
  VB.capacity b = VB.capacity b' /\
  VB.currentStripLength b = VB.currentStripLength b' /\
  VB.stripLengths b = VB.stripLengths b' /\
  VB.m_color b = VB.m_color b' /\
  (forall j, VB.data b j = VB.data b' j) /\
  sameDrawing (VB.gl b) (VB.gl b').

Lemma drawnPolylines_app_gpu c1 c2 : forall buffer,
  drawnPolylines buffer (c1 ++ c2)
  = drawnPolylines buffer c1 ++ drawnPolylines (gpuAfter buffer c1) c2.
Proof.
  induction c1 as [|c c1 IH]; intros buffer; [reflexivity|].
  destruct c as [u|mode first count]; cbn [app drawnPolylines gpuAfter].
  - apply IH.
  - rewrite IH. reflexivity.
Qed.

Lemma gpuAfter_app c1 c2 : forall buffer,
  gpuAfter buffer (c1 ++ c2) = gpuAfter (gpuAfter buffer c1) c2.
Proof.
  induction c1 as [|c c1 IH]; intros buffer; [reflexivity|].
  destruct c as [u|mode first count]; cbn [app gpuAfter]; apply IH.
Qed.

Lemma sameDrawing_refl l : sameDrawing l l.
Proof. intros buffer. split; reflexivity. Qed.

Lemma sameDrawing_app l1 l1' l2 l2' :
  sameDrawing l1 l1' -> sameDrawing l2 l2' -> sameDrawing (l1 ++ l2) (l1' ++ l2').
Proof.
  intros H1 H2 buffer.
  rewrite !drawnPolylines_app_gpu, !gpuAfter_app.
  destruct (H1 buffer) as [D1 G1]. rewrite D1, G1.
  destruct (H2 (gpuAfter buffer l1')) as [D2 G2]. rewrite D2, G2.
  split; reflexivity.
Qed.

(** The strips of one [flush] draw the same polylines in both modes. *)
Lemma drawStrips_mode tri tri' lengths : forall start buffer,
  drawnPolylines buffer (VB.drawStrips tri start lengths)
    = drawnPolylines buffer (VB.drawStrips tri' start lengths) /\
  gpuAfter buffer (VB.drawStrips tri start lengths) = buffer.
Proof.
  induction lengths as [|len rest IH]; intros start buffer; [split; reflexivity|].
  destruct (IH (start + (len + 1))%nat buffer) as [D G].
  pose proof (polyline_drawStrips tri buffer start len) as P.
  pose proof (polyline_drawStrips tri' buffer start len) as P'.
  cbn [VB.drawStrips drawnPolylines] in P, P'.
  split.
  - cbn [VB.drawStrips].
    destruct tri, tri'; cbn [drawnPolylines] in *;
      first [reflexivity | f_equal; [congruence | exact D]].
  - cbn [VB.drawStrips]. destruct tri; cbn [gpuAfter]; exact G.
Qed.

Lemma flush_batch_mode tri tri' (d d' : nat -> VB.Vertex) n lengths :
  (forall j, d j = d' j) ->
  sameDrawing
    (VB.glBufferSubData (map d (seq 0 n)) :: VB.drawStrips tri 0 lengths)
    (VB.glBufferSubData (map d' (seq 0 n)) :: VB.drawStrips tri' 0 lengths).
Proof.
  intros Hd buffer. cbn [drawnPolylines gpuAfter].
  rewrite (map_ext d d' Hd).
  destruct (drawStrips_mode tri tri' lengths 0
              (gpuUpload buffer (map d' (seq 0 n)))) as [D G].
  destruct (drawStrips_mode tri' tri lengths 0
              (gpuUpload buffer (map d' (seq 0 n)))) as [_ G'].
  rewrite D, G, G'. split; reflexivity.
Qed.

Lemma store_ext (d d' : nat -> VB.Vertex) i v v' :
  (forall j, d j = d' j) -> v = v' ->
  forall j, VB.store d i v j = VB.store d' i v' j.
Proof.
  intros Hd -> j. unfold VB.store. destruct (Nat.eqb j i); [reflexivity | apply Hd].
Qed.

Ltac strips_fields :=
  unfold sameStrips;
  cbn [VB.currentPosition VB.capacity VB.currentStripLength VB.stripLengths
       VB.m_color VB.data VB.gl];
  refine (conj _ (conj _ (conj _ (conj _ (conj _ (conj _ _))))));
  try assumption; try reflexivity.

Lemma strips_end_strip b b' :
  sameStrips b b' -> sameStrips (VB.end_strip b) (VB.end_strip b').
Proof.
  intros (Hcp & Hcap & Hcsl & Hsl & Hcol & Hd & Hgl).
  unfold VB.end_strip. rewrite <- Hcsl, <- Hcp.
  destruct (Nat.ltb 1 (VB.currentStripLength b)); strips_fields.
  - rewrite Hsl. reflexivity.
  - cbv zeta.
    set (index := (VB.currentPosition b * 2)%nat).
    assert (H1 : forall j,
               VB.store (VB.data b) index
                 (VB.setPosition (VB.data b index)
                    (VB.position (VB.data b (index - 4)%nat))) j
               = VB.store (VB.data b') index
                   (VB.setPosition (VB.data b' index)
                      (VB.position (VB.data b' (index - 4)%nat))) j)
      by (apply store_ext; [exact Hd | rewrite !Hd; reflexivity]).
    set (d1 := VB.store (VB.data b) index _) in *.
    set (d1' := VB.store (VB.data b') index _) in *.
    clearbody d1 d1'.
    assert (H2 : forall j,
               VB.store d1 (index + 1)%nat
                 (VB.setPosition (d1 (index + 1)%nat)
                    (VB.position (d1 (index - 3)%nat))) j
               = VB.store d1' (index + 1)%nat
                   (VB.setPosition (d1' (index + 1)%nat)
                      (VB.position (d1' (index - 3)%nat))) j)
      by (apply store_ext; [exact H1 | rewrite !H1; reflexivity]).
    set (d2 := VB.store d1 (index + 1)%nat _) in *.
    set (d2' := VB.store d1' (index + 1)%nat _) in *.
    clearbody d2 d2'.
    assert (H3 : forall j,
               VB.store d2 (index - 2)%nat
                 (VB.setScale (d2 (index - 2)%nat) (- VB.scale (d2 (index - 2)%nat))) j
               = VB.store d2' (index - 2)%nat
                   (VB.setScale (d2' (index - 2)%nat)
                      (- VB.scale (d2' (index - 2)%nat))) j)
      by (apply store_ext; [exact H2 | rewrite !H2; reflexivity]).
    set (d3 := VB.store d2 (index - 2)%nat _) in *.
    set (d3' := VB.store d2' (index - 2)%nat _) in *.
    clearbody d3 d3'.
    apply store_ext; [exact H3 | rewrite !H3; reflexivity].
Qed.

Lemma strips_flush e b b' :
  sameStrips b b' -> sameStrips (VB.flush e b) (VB.flush e b').
Proof.
  intros H.
  pose proof (strips_end_strip b b' H) as He.
  destruct H as (Hcp & Hcap & Hcsl & Hsl & Hcol & Hd & Hgl).
  unfold VB.flush. rewrite <- Hcsl, <- Hcp.
  destruct (Nat.ltb 0 (VB.currentPosition b)).
  - assert (H1 : sameStrips
                   (if e && Nat.ltb 1 (VB.currentStripLength b)
                    then VB.end_strip b else b)
                   (if e && Nat.ltb 1 (VB.currentStripLength b)
                    then VB.end_strip b' else b')).
    { destruct (e && Nat.ltb 1 (VB.currentStripLength b)); [exact He|].
      exact (conj Hcp (conj Hcap (conj Hcsl (conj Hsl (conj Hcol (conj Hd Hgl)))))). }
    destruct H1 as (Hcp1 & Hcap1 & Hcsl1 & Hsl1 & Hcol1 & Hd1 & Hgl1).
    strips_fields.
    apply sameDrawing_app; [exact Hgl1|].
    rewrite <- Hcp1, <- Hsl1.
    apply flush_batch_mode. exact Hd1.
  - strips_fields.
Qed.

Lemma strips_end e b b' :
  sameStrips b b' -> sameStrips (VB.end_ e b) (VB.end_ e b').
Proof.
  intros H. pose proof (strips_end_strip b b' H) as He.
  unfold VB.end_.
  destruct He as (Hcp & Hcap & Hrest) eqn:Keep. clear Keep.
  rewrite <- Hcp, <- Hcap.
  destruct (e && Nat.eqb (VB.currentPosition (VB.end_strip b))
                         (VB.capacity (VB.end_strip b))).
  - apply strips_flush. exact (conj Hcp (conj Hcap Hrest)).
  - exact (conj Hcp (conj Hcap Hrest)).
Qed.

Lemma strips_vertexColor v c b b' :
  sameStrips b b' -> sameStrips (VB.vertexColor v c b) (VB.vertexColor v c b').
Proof.
  intros (Hcp & Hcap & Hcsl & Hsl & Hcol & Hd & Hgl).
  unfold VB.vertexColor.
  set (b1 := VB.Make (VB.currentPosition b + 1) (VB.capacity b) _ (VB.vbobj b)
               (VB.currentStripLength b + 1) (VB.stripLengths b) (VB.m_color b)
               (VB.lineAsTriangles b) (VB.gl b)).
  set (b1' := VB.Make (VB.currentPosition b' + 1) (VB.capacity b') _ (VB.vbobj b')
               (VB.currentStripLength b' + 1) (VB.stripLengths b') (VB.m_color b')
               (VB.lineAsTriangles b') (VB.gl b')).
  assert (H1 : sameStrips b1 b1').
  { subst b1 b1'. rewrite <- Hcp, <- Hcsl. strips_fields.
    apply store_ext; [|reflexivity]. apply store_ext; [exact Hd | reflexivity]. }
  pose proof (strips_flush true b1 b1' H1) as Hf.
  destruct H1 as (Hcp1 & Hcap1 & Hrest1).
  rewrite <- Hcp1, <- Hcap1.
  destruct (Nat.eqb (VB.currentPosition b1) (VB.capacity b1)).
  - destruct Hf as (Fcp & Fcap & Fcsl & Fsl & Fcol & Fd & Fgl).
    strips_fields.
    apply store_ext; [|reflexivity]. apply store_ext; [exact Fd | reflexivity].
  - exact (conj Hcp1 (conj Hcap1 Hrest1)).
Qed.

Lemma strips_vertex v b b' :
  sameStrips b b' -> sameStrips (VB.vertex v b) (VB.vertex v b').
Proof.
  intros H. unfold VB.vertex.
  destruct H as (Hcp & Hcap & Hcsl & Hsl & Hcol & Hrest) eqn:Keep. clear Keep.
  rewrite <- Hcol. apply strips_vertexColor.
  exact (conj Hcp (conj Hcap (conj Hcsl (conj Hsl (conj Hcol Hrest))))).
Qed.

Lemma strips_prepared tri tri' b :
  sameStrips (VB.setup tri (VB.createVertexBuffer b))
             (VB.setup tri' (VB.createVertexBuffer b)).
Proof.
  unfold VB.setup, VB.createVertexBuffer.
  destruct (Nat.eqb (VB.vbobj b) 0); strips_fields; apply sameDrawing_refl.
Qed.

Lemma strips_prepared_color tri tri' color b :
  sameStrips (VB.setColor color (VB.setup tri (VB.createVertexBuffer b)))
             (VB.setColor color (VB.setup tri' (VB.createVertexBuffer b))).
Proof.
  unfold VB.setColor, VB.setup, VB.createVertexBuffer.
  destruct (Nat.eqb (VB.vbobj b) 0); strips_fields; apply sameDrawing_refl.
Qed.

(** The polylines that the calls logged since [vbuf] draw. *)
Definition samePolylines (v v' : VB.t) : Prop :=
  forall buffer,
    drawnPolylines buffer (VB.gl v) = drawnPolylines buffer (VB.gl v').

Lemma sameStrips_polylines v v' : sameStrips v v' -> samePolylines v v'.
Proof.
  intros (_ & _ & _ & _ & _ & _ & H) buffer. apply H.
Qed.

(** X21: drawing the lines as triangles changes how the curve is drawn,
    not what is drawn.  Each of the three render entry points, run with
    [lineAsTriangles] set and run with it cleared on the same store, view
    and buffer, ends the same way, and the OpenGL calls the two runs log
    draw the same polylines, whatever the buffer object held before. *)
Theorem triangle_mode_draws_the_same_polylines
  fuel (m : CP.Samples) modelview nearZ farZ n0 n1 n2 n3 thr startTime endTime
  color fadeStartTime fadeEndTime vbuf :
  sameOutcome samePolylines
    (CP.render fuel m modelview nearZ farZ n0 n1 n2 n3 thr color true vbuf)
    (CP.render fuel m modelview nearZ farZ n0 n1 n2 n3 thr color false vbuf) /\
  sameOutcome samePolylines
    (CP.renderRange fuel m modelview nearZ farZ n0 n1 n2 n3 thr startTime endTime
       color true vbuf)
    (CP.renderRange fuel m modelview nearZ farZ n0 n1 n2 n3 thr startTime endTime
       color false vbuf) /\
  sameOutcome samePolylines
    (CP.renderFaded fuel m modelview nearZ farZ n0 n1 n2 n3 thr startTime endTime
       color fadeStartTime fadeEndTime true vbuf)
    (CP.renderFaded fuel m modelview nearZ farZ n0 n1 n2 n3 thr startTime endTime
       color fadeStartTime fadeEndTime false vbuf).
Proof.
  assert (U : forall a b, untouchedOrRelated sameStrips vbuf vbuf a b ->
                          samePolylines a b).
  { intros a b [[-> ->]|H]; [intros buffer; reflexivity|].
    apply sameStrips_polylines. exact H. }
  split; [|split].
  - apply (sameOutcome_weaken sameStrips samePolylines);
      [exact sameStrips_polylines|].
    apply (render_related sameStrips).
    + intros v b b'. apply strips_vertex.
    + intros b b'. apply strips_end.
    + intros b b'. apply strips_flush.
    + apply strips_prepared_color.
  - apply (sameOutcome_weaken (untouchedOrRelated sameStrips vbuf vbuf) samePolylines);
      [exact U|].
    apply (renderRange_related sameStrips).
    + intros v b b'. apply strips_vertex.
    + intros b b'. apply strips_end.
    + intros b b'. apply strips_flush.
    + apply strips_prepared_color.
  - apply (sameOutcome_weaken (untouchedOrRelated sameStrips vbuf vbuf) samePolylines);
      [exact U|].
    apply (renderFaded_related sameStrips (fun _ => True)).
    + intros v c b b' _. apply strips_vertexColor.
    + intros b b'. apply strips_end.
    + intros b b'. apply strips_flush.
    + intros o _. exact I.
    + apply strips_prepared.
Qed.

(** *** The colours that are uploaded *)

(** Every vertex uploaded by the logged calls has a colour in [P]. *)
Definition uploadedColours (P : Vector4f -> Prop) (logged : list VB.GLCall) : Prop :=
  forall u v, In (VB.glBufferSubData u) logged -> In v u -> P (VB.color v).

(** Since the buffer was [vbuf], every colour in the array and every colour
    uploaded is in [P]. *)
Definition colouredSince (P : Vector4f -> Prop) (vbuf b : VB.t) : Prop :=
  (forall j, P (VB.color (VB.data b j))) /\
  exists logged, VB.gl b = VB.gl vbuf ++ logged /\ uploadedColours P logged.

Lemma store_coloured (P : Vector4f -> Prop) (d : nat -> VB.Vertex) i v :
  (forall j, P (VB.color (d j))) -> P (VB.color v) ->
  forall j, P (VB.color (VB.store d i v j)).
Proof.
  intros Hd Hv j. unfold VB.store. destruct (Nat.eqb j i); [exact Hv | apply Hd].
Qed.

Lemma uploadedColours_nil P : uploadedColours P [].
Proof. intros u v []. Qed.

Lemma uploadedColours_app P l1 l2 :
  uploadedColours P l1 -> uploadedColours P l2 -> uploadedColours P (l1 ++ l2).
Proof.
  intros H1 H2 u v Hu Hv. apply in_app_or in Hu. destruct Hu as [Hu|Hu].
  - exact (H1 u v Hu Hv).
  - exact (H2 u v Hu Hv).
Qed.

Lemma drawStrips_no_upload tri lengths : forall start u,
  ~ In (VB.glBufferSubData u) (VB.drawStrips tri start lengths).
Proof.
  induction lengths as [|len rest IH]; intros start u H; [exact H|].
  cbn [VB.drawStrips] in H. destruct H as [H|H].
  - destruct tri; discriminate.
  - exact (IH _ _ H).
Qed.

Lemma coloured_end_strip P vbuf b :
  colouredSince P vbuf b -> colouredSince P vbuf (VB.end_strip b).
Proof.
  intros (Hd & logged & G & U). split.
  - unfold VB.end_strip.
    destruct (Nat.ltb 1 (VB.currentStripLength b)); cbn [VB.data]; [|exact Hd].
    cbv zeta.
    set (index := (VB.currentPosition b * 2)%nat).
    set (d1 := VB.store (VB.data b) index _).
    assert (H1 : forall j, P (VB.color (d1 j)))
      by (apply store_coloured; [exact Hd | apply Hd]).
    clearbody d1.
    set (d2 := VB.store d1 (index + 1)%nat _).
    assert (H2 : forall j, P (VB.color (d2 j)))
      by (apply store_coloured; [exact H1 | apply H1]).
    clearbody d2.
    set (d3 := VB.store d2 (index - 2)%nat _).
    assert (H3 : forall j, P (VB.color (d3 j)))
      by (apply store_coloured; [exact H2 | apply H2]).
    clearbody d3.
    apply store_coloured; [exact H3 | apply H3].
  - exists logged. rewrite end_strip_gl. split; assumption.
Qed.

Lemma coloured_flush P vbuf e b :
  colouredSince P vbuf b -> colouredSince P vbuf (VB.flush e b).
Proof.
  intros H. pose proof (coloured_end_strip P vbuf b H) as He.
  unfold VB.flush.
  destruct (Nat.ltb 0 (VB.currentPosition b)).
  - assert (H1 : colouredSince P vbuf
                   (if e && Nat.ltb 1 (VB.currentStripLength b)
                    then VB.end_strip b else b))
      by (destruct (e && Nat.ltb 1 (VB.currentStripLength b)); assumption).
    destruct H1 as (Hd1 & logged1 & G1 & U1).
    split; cbn [VB.data VB.gl]; [exact Hd1|].
    eexists. rewrite G1, <- app_assoc. split; [reflexivity|].
    apply uploadedColours_app; [exact U1|].
    intros u v [Hu|Hu] Hv.
    + injection Hu as <-. apply in_map_iff in Hv. destruct Hv as (k & <- & _).
      apply Hd1.
    + exfalso. exact (drawStrips_no_upload _ _ _ _ Hu).
  - destruct H as (Hd & logged & G & U).
    split; cbn [VB.data VB.gl]; [exact Hd|]. exists logged. split; assumption.
Qed.

Lemma coloured_end P vbuf e b :
  colouredSince P vbuf b -> colouredSince P vbuf (VB.end_ e b).
Proof.
  intros H. unfold VB.end_.
  destruct (e && _); [apply coloured_flush|]; apply coloured_end_strip; exact H.
Qed.

Lemma coloured_vertexColor P vbuf v c b :
  P c -> colouredSince P vbuf b -> colouredSince P vbuf (VB.vertexColor v c b).
Proof.
  intros Hc (Hd & logged & G & U).
  unfold VB.vertexColor.
  set (b1 := VB.Make (VB.currentPosition b + 1) (VB.capacity b) _ (VB.vbobj b)
               (VB.currentStripLength b + 1) (VB.stripLengths b) (VB.m_color b)
               (VB.lineAsTriangles b) (VB.gl b)).
  assert (H1 : colouredSince P vbuf b1).
  { subst b1. split; cbn [VB.data VB.gl].
    - apply store_coloured; [|exact Hc]. apply store_coloured; [exact Hd | exact Hc].
    - exists logged. split; assumption. }
  destruct (Nat.eqb (VB.currentPosition b1) (VB.capacity b1)); [|exact H1].
  destruct (coloured_flush P vbuf true b1 H1) as (Fd & flogged & FG & FU).
  split; cbn [VB.data VB.gl].
  - apply store_coloured; [|exact Hc]. apply store_coloured; [exact Fd | exact Hc].
  - exists flogged. split; assumption.
Qed.

Lemma flush_m_color e b : VB.m_color (VB.flush e b) = VB.m_color b.
Proof.
  unfold VB.flush. destruct (Nat.ltb 0 (VB.currentPosition b)); cbn [VB.m_color];
    [|reflexivity].
  destruct (e && _); [apply end_strip_m_color | reflexivity].
Qed.

Lemma end_m_color e b : VB.m_color (VB.end_ e b) = VB.m_color b.
Proof.
  unfold VB.end_. destruct (e && _); rewrite ?flush_m_color; apply end_strip_m_color.
Qed.

(** The colours a render leaves in uploads: those in [fresh], and those
    that were in the array before the call. *)
Definition freshOrOld (fresh : Vector4f -> Prop) (vbuf : VB.t) (c : Vector4f) : Prop :=
  fresh c \/ exists k, c = VB.color (VB.data vbuf k).

(** The buffer draws with [color] and holds colours in [P] only. *)
Definition drawsWith (color : Vector4f) (P : Vector4f -> Prop) (vbuf b : VB.t) : Prop :=
  VB.m_color b = color /\ colouredSince P vbuf b.

Lemma colouredSince_start P tri (vbuf : VB.t) :
  (forall k, P (VB.color (VB.data vbuf k))) ->
  colouredSince P vbuf (VB.setup tri (VB.createVertexBuffer vbuf)).
Proof.
  intros H. unfold VB.setup, VB.createVertexBuffer.
  destruct (Nat.eqb (VB.vbobj vbuf) 0); (split; cbn [VB.data VB.gl]; [exact H|]);
    exists []; rewrite app_nil_r; (split; [reflexivity | apply uploadedColours_nil]).
Qed.

Lemma old_colours fresh (vbuf : VB.t) k :
  freshOrOld fresh vbuf (VB.color (VB.data vbuf k)).
Proof. right. exists k. reflexivity. Qed.

Lemma drawsWith_vertex color fresh vbuf v (b : VB.t) :
  fresh color ->
  drawsWith color (freshOrOld fresh vbuf) vbuf b ->
  drawsWith color (freshOrOld fresh vbuf) vbuf (VB.vertex v b).
Proof.
  intros Hf [Hc H]. unfold VB.vertex.
  split; [rewrite vertexColor_m_color; exact Hc|].
  apply coloured_vertexColor; [left; rewrite Hc; exact Hf | exact H].
Qed.

Lemma drawsWith_end color P vbuf (b : VB.t) :
  drawsWith color P vbuf b -> drawsWith color P vbuf (VB.end_ true b).
Proof.
  intros [Hc H]. split; [rewrite end_m_color; exact Hc|]. apply coloured_end. exact H.
Qed.

Lemma drawsWith_flush color P vbuf (b : VB.t) :
  drawsWith color P vbuf b -> drawsWith color P vbuf (VB.flush true b).
Proof.
  intros [Hc H]. split; [rewrite flush_m_color; exact Hc|].
  apply coloured_flush. exact H.
Qed.

Lemma drawsWith_start color fresh tri (vbuf : VB.t) :
  drawsWith color (freshOrOld fresh vbuf) vbuf
    (VB.setColor color (VB.setup tri (VB.createVertexBuffer vbuf))).
Proof.
  split; [reflexivity|].
  unfold VB.setColor.
  destruct (colouredSince_start (freshOrOld fresh vbuf) tri vbuf
              (old_colours _ vbuf)) as (Hd & logged & G & U).
  split; cbn [VB.data VB.gl]; [exact Hd|]. exists logged. split; assumption.
Qed.

(** The uploads since [vbuf] hold only colours in [fresh] and colours that
    were in the array of [vbuf]. *)
Definition uploadsOnly (fresh : Vector4f -> Prop) (vbuf vbuf' : VB.t) : Prop :=
  exists logged,
    VB.gl vbuf' = VB.gl vbuf ++ logged /\
    forall u v, In (VB.glBufferSubData u) logged -> In v u ->
                fresh (VB.color v) \/ exists k, VB.color v = VB.color (VB.data vbuf k).

Lemma colouredSince_uploadsOnly fresh vbuf v :
  colouredSince (freshOrOld fresh vbuf) vbuf v -> uploadsOnly fresh vbuf v.
Proof.
  intros (_ & logged & G & U). exists logged. split; [exact G|].
  intros u x Hu Hx. exact (U u x Hu Hx).
Qed.

Lemma untouched_uploadsOnly fresh vbuf : uploadsOnly fresh vbuf vbuf.
Proof.
  exists []. rewrite app_nil_r. split; [reflexivity|]. intros u v [].
Qed.

(** The colours [renderFaded] passes to [vertex]: [color] with its alpha
    scaled by an opacity between 0 and 1. *)
Definition fadedFrom (color c : Vector4f) : Prop :=
  exists opacity, 0 <= opacity <= 1 /\ c = RC.fadedColor color opacity.

Lemma sameOutcome_diagonal {A : Type} (P : A -> Prop) (o : outcome A) a :
  sameOutcome (fun x _ => P x) o o -> o = Done a -> P a.
Proof. intros H ->. exact H. Qed.

(** The vertices whose colour one [glDrawArrays] call of [flush] reads,
    with the attribute layout of [setup]: the colour attribute starts at
    slot 0; as a line strip the stride is two vertices, so element [e] is
    slot [2 * e]; as a triangle strip the stride is one vertex. *)
Definition drawnVertices (buffer : list VB.Vertex) (mode : GLenum) (first count : nat)
  : list VB.Vertex :=
  match mode with
  | GL_LINE_STRIP =>
      map (fun k => nth ((first + k) * 2) buffer blankVertex) (seq 0 count)
  | GL_TRIANGLE_STRIP =>
      map (fun k => nth (first + k) buffer blankVertex) (seq 0 count)
  end.

(** Every vertex drawn by the logged calls, starting from the buffer object
    contents [buffer], has a colour in [P]. *)
Fixpoint drawnColours (P : Vector4f -> Prop) (buffer : list VB.Vertex)
  (calls : list VB.GLCall) : Prop :=
  match calls with
  | [] => True
  | VB.glBufferSubData uploaded :: rest =>
      drawnColours P (gpuUpload buffer uploaded) rest
  | VB.glDrawArrays mode first count :: rest =>
      Forall (fun v => P (VB.color v)) (drawnVertices buffer mode first count) /\
      drawnColours P buffer rest
  end.

(** The point [p] of the buffer belongs to one of the recorded strips, the
    first of which starts at [start]; the extra point that follows each
    strip belongs to none. *)
Fixpoint inStrips (start : nat) (lengths : list nat) (p : nat) : Prop :=
  match lengths with
  | [] => False
  | len :: rest =>
      (start <= p < start + len)%nat \/ inStrips (start + (len + 1)) rest p
  end.

(** Both slots of every point of a recorded strip and of the open strip
    hold a colour in [P]. *)
Definition painted (P : Vector4f -> Prop) (b : VB.t) : Prop :=
  forall p,
    inStrips 0 (VB.stripLengths b) p \/
    (slotsOf (VB.stripLengths b) <= p < VB.currentPosition b)%nat ->
    P (VB.color (VB.data b (p * 2))) /\ P (VB.color (VB.data b (p * 2 + 1))).

Lemma inStrips_bound lengths : forall start p,
  inStrips start lengths p -> (start <= p < start + slotsOf lengths)%nat.
Proof.
  induction lengths as [|len rest IH]; intros start p H; [contradiction|].
  cbn [inStrips slotsOf] in *. destruct H as [H|H]; [lia|].
  apply IH in H. lia.
Qed.

Lemma inStrips_app l1 l2 : forall start p,
  inStrips start (l1 ++ l2) p <->
  inStrips start l1 p \/ inStrips (start + slotsOf l1) l2 p.
Proof.
  induction l1 as [|len l1 IH]; intros start p; cbn [app inStrips slotsOf].
  - rewrite Nat.add_0_r. tauto.
  - rewrite IH.
    replace (start + (len + 1) + slotsOf l1)%nat
      with (start + (len + 1 + slotsOf l1))%nat by lia.
    tauto.
Qed.

Lemma drawnColours_app P l1 l2 : forall buffer,
  drawnColours P buffer l1 -> drawnColours P (gpuAfter buffer l1) l2 ->
  drawnColours P buffer (l1 ++ l2).
Proof.
  induction l1 as [|c l1 IH]; intros buffer H1 H2; [exact H2|].
  destruct c as [u|mode first count]; cbn [app drawnColours gpuAfter] in *.
  - apply IH; assumption.
  - destruct H1 as [Hd H1]. split; [exact Hd | apply IH; assumption].
Qed.

(** The calls logged since [vbuf] draw only vertices with a colour in [P],
    whatever the buffer object held before. *)
Definition drawsOnly (P : Vector4f -> Prop) (vbuf b : VB.t) : Prop :=
  exists logged,
    VB.gl b = VB.gl vbuf ++ logged /\
    forall buffer, drawnColours P buffer logged.

Lemma drawsOnly_refl P b : drawsOnly P b b.
Proof. exists []. rewrite app_nil_r. split; [reflexivity | intros buffer; exact I]. Qed.

Lemma drawsOnly_trans P a b c :
  drawsOnly P a b -> drawsOnly P b c -> drawsOnly P a c.
Proof.
  intros (l1 & G1 & D1) (l2 & G2 & D2).
  exists (l1 ++ l2). rewrite G2, G1, app_assoc. split; [reflexivity|].
  intros buffer. apply drawnColours_app; [apply D1 | apply D2].
Qed.

Lemma store_keeps_colour (d : nat -> VB.Vertex) i v j :
  VB.color v = VB.color (d i) -> VB.color (VB.store d i v j) = VB.color (d j).
Proof.
  intros H. unfold VB.store. destruct (Nat.eqb j i) eqn:E; [|reflexivity].
  apply Nat.eqb_eq in E. subst j. exact H.
Qed.

(** [end] writes positions and scale factors only. *)
Lemma end_strip_colour b j :
  VB.color (VB.data (VB.end_strip b) j) = VB.color (VB.data b j).
Proof.
  unfold VB.end_strip.
  destruct (Nat.ltb 1 (VB.currentStripLength b)); cbn [VB.data]; [|reflexivity].
  cbv zeta.
  set (index := (VB.currentPosition b * 2)%nat).
  set (d0 := VB.data b).
  set (d1 := VB.store d0 index _).
  assert (H1 : forall k, VB.color (d1 k) = VB.color (d0 k))
    by (intros k; apply store_keeps_colour; reflexivity).
  clearbody d1.
  set (d2 := VB.store d1 (index + 1)%nat _).
  assert (H2 : forall k, VB.color (d2 k) = VB.color (d0 k))
    by (intros k; rewrite <- H1; apply store_keeps_colour; reflexivity).
  clearbody d2.
  set (d3 := VB.store d2 (index - 2)%nat _).
  assert (H3 : forall k, VB.color (d3 k) = VB.color (d0 k))
    by (intros k; rewrite <- H2; apply store_keeps_colour; reflexivity).
  clearbody d3.
  rewrite <- H3. apply store_keeps_colour. reflexivity.
Qed.

Lemma painted_end_strip P bound b :
  coherentUpTo bound b -> painted P b -> painted P (VB.end_strip b).
Proof.
  intros (Hcp & Hsum & Hall) Hp p Hin.
  rewrite !end_strip_colour. apply Hp.
  destruct (Nat.ltb 1 (VB.currentStripLength b)) eqn:E.
  - apply Nat.ltb_lt in E.
    destruct (end_strip_long b ltac:(lia)) as (Ecp & _ & Elen & _).
    cbv zeta in Ecp, Elen. rewrite Elen, Ecp in Hin.
    rewrite inStrips_app, slotsOf_app in Hin. cbn [inStrips slotsOf] in Hin.
    destruct Hin as [[Hin|[Hin|[]]]|Hin]; [left; exact Hin | right; lia | lia].
  - apply Nat.ltb_ge in E. rewrite end_strip_short in Hin by lia.
    cbn [VB.stripLengths VB.currentPosition] in Hin.
    destruct Hin as [Hin|Hin]; [left; exact Hin | right; lia].
Qed.

(** An empty buffer has nothing to paint. *)
Lemma painted_empty P b : coherentUpTo 0 b -> painted P b.
Proof.
  intros (Hcp & Hsum & _) p [Hin|Hin].
  - apply inStrips_bound in Hin. lia.
  - lia.
Qed.

Lemma nth_gpuUpload buffer (d : nat -> VB.Vertex) n j :
  (j < n)%nat -> nth j (gpuUpload buffer (map d (seq 0 n))) blankVertex = d j.
Proof.
  intros H. unfold gpuUpload.
  rewrite app_nth1 by (rewrite length_map, length_seq; exact H).
  apply nth_map_seq. exact H.
Qed.

(** The draws of [flush] read the slots of the recorded strips. *)
Lemma drawStrips_colours P tri (gpu : list VB.Vertex) lengths : forall start,
  (forall p, inStrips start lengths p ->
     P (VB.color (nth (p * 2) gpu blankVertex)) /\
     P (VB.color (nth (p * 2 + 1) gpu blankVertex))) ->
  drawnColours P gpu (VB.drawStrips tri start lengths).
Proof.
  induction lengths as [|len rest IH]; intros start H; [exact I|].
  cbn [VB.drawStrips].
  assert (Hrest : drawnColours P gpu (VB.drawStrips tri (start + (len + 1)) rest)).
  { apply IH. intros p Hp. apply H. cbn [inStrips]. right. exact Hp. }
  assert (Hhere : forall p, (start <= p < start + len)%nat ->
            P (VB.color (nth (p * 2) gpu blankVertex)) /\
            P (VB.color (nth (p * 2 + 1) gpu blankVertex))).
  { intros p Hp. apply H. cbn [inStrips]. left. exact Hp. }
  destruct tri; cbn [drawnColours drawnVertices]; (split; [|exact Hrest]);
    apply Forall_forall; intros v Hv; apply in_map_iff in Hv;
    destruct Hv as (k & <- & Hk); apply in_seq in Hk.
  - pose proof (Nat.div_mod_eq k 2) as Ek.
    pose proof (Nat.mod_upper_bound k 2 ltac:(discriminate)) as Hm.
    assert (Hd : (k / 2 < len)%nat)
      by (apply Nat.Div0.div_lt_upper_bound; lia).
    destruct (Hhere (start + k / 2)%nat ltac:(lia)) as [He Ho].
    destruct (Nat.eq_dec (k mod 2) 0) as [Z|NZ].
    + replace (start * 2 + k)%nat with ((start + k / 2) * 2)%nat by lia. exact He.
    + replace (start * 2 + k)%nat with ((start + k / 2) * 2 + 1)%nat by lia. exact Ho.
  - apply (Hhere (start + k)%nat). lia.
Qed.

(** What [flush] logs draws painted vertices only. *)
Lemma flush_draws P e b :
  coherentUpTo (VB.capacity b) b -> painted P b ->
  drawsOnly P b (VB.flush e b).
Proof.
  intros H Hp.
  destruct (Nat.eq_dec (VB.currentPosition b) 0) as [Z|NZ].
  - rewrite flush_empty by assumption. exists []. cbn [VB.gl]. rewrite app_nil_r.
    split; [reflexivity | intros buffer; exact I].
  - rewrite flush_nonempty by lia.
    set (b1 := if e && Nat.ltb 1 (VB.currentStripLength b) then VB.end_strip b else b).
    assert (H1 : (exists bound, coherentUpTo bound b1) /\ painted P b1 /\
                 VB.gl b1 = VB.gl b).
    { subst b1. destruct (e && Nat.ltb 1 (VB.currentStripLength b)).
      - split; [eexists; apply end_strip_coherent; exact H|].
        split; [eapply painted_end_strip; eassumption | apply end_strip_gl].
      - split; [eexists; exact H|]. split; [exact Hp | reflexivity]. }
    destruct H1 as ((bound & Hcp1 & Hsum1 & Hall1) & Hp1 & Hgl1).
    unfold drawsOnly. cbn [VB.gl]. rewrite Hgl1.
    eexists. split; [reflexivity|].
    intros buffer. cbn [drawnColours].
    apply drawStrips_colours. intros p Hin.
    pose proof (inStrips_bound _ _ _ Hin) as Hb.
    rewrite !nth_gpuUpload by lia.
    apply Hp1. left. exact Hin.
Qed.

Lemma vertexColor_painted P v c b :
  coherent b -> painted P b -> P c ->
  painted P (VB.vertexColor v c b) /\ drawsOnly P b (VB.vertexColor v c b).
Proof.
  intros (Hcap & Hcp & Hsum & Hall) Hp Hc.
  set (b1 := VB.Make (VB.currentPosition b + 1) (VB.capacity b)
               (VB.store (VB.store (VB.data b) (VB.currentPosition b * 2)
                            (VB.MkVertex v c (- (1 / 2))))
                         (VB.currentPosition b * 2 + 1) (VB.MkVertex v c (1 / 2)))
               (VB.vbobj b) (VB.currentStripLength b + 1) (VB.stripLengths b)
               (VB.m_color b) (VB.lineAsTriangles b) (VB.gl b)).
  assert (Hp1 : painted P b1).
  { intros p Hin. subst b1.
    cbn [VB.stripLengths VB.currentPosition VB.data] in *.
    destruct (Nat.eq_dec p (VB.currentPosition b)) as [->|Np].
    - rewrite store_other by lia. rewrite !store_same. cbn [VB.color].
      split; exact Hc.
    - assert (Hold : inStrips 0 (VB.stripLengths b) p \/
                     (slotsOf (VB.stripLengths b) <= p < VB.currentPosition b)%nat)
        by (destruct Hin as [Hin|Hin]; [left; exact Hin | right; lia]).
      assert (Hlt : (p < VB.currentPosition b)%nat).
      { destruct Hold as [Hin'|Hin']; [apply inStrips_bound in Hin'|]; lia. }
      rewrite !store_other by lia. apply Hp. exact Hold. }
  assert (E : VB.vertexColor v c b =
              if Nat.eqb (VB.currentPosition b + 1) (VB.capacity b) then
                VB.Make 1 (VB.capacity (VB.flush true b1))
                  (VB.store (VB.store (VB.data (VB.flush true b1)) 0
                               (VB.MkVertex v c (- (1 / 2))))
                            1 (VB.MkVertex v c (1 / 2)))
                  (VB.vbobj (VB.flush true b1)) 1 (VB.stripLengths (VB.flush true b1))
                  (VB.m_color (VB.flush true b1))
                  (VB.lineAsTriangles (VB.flush true b1)) (VB.gl (VB.flush true b1))
              else b1) by reflexivity.
  rewrite E. clear E.
  destruct (Nat.eqb (VB.currentPosition b + 1) (VB.capacity b)) eqn:Full.
  - apply Nat.eqb_eq in Full.
    assert (H1 : coherentUpTo (VB.capacity b1) b1).
    { subst b1. unfold coherentUpTo.
      cbn [VB.currentPosition VB.capacity VB.stripLengths VB.currentStripLength].
      repeat split; try lia. assumption. }
    destruct (flush_nonempty_fields true b1) as (_ & _ & Flen & _);
      [subst b1; cbn [VB.currentPosition]; lia|].
    split.
    + intros p Hin. cbn [VB.stripLengths VB.currentPosition VB.data] in *.
      rewrite Flen in Hin. cbn [inStrips slotsOf] in Hin.
      assert (p = 0%nat) by (destruct Hin as [[]|Hin]; lia). subst p.
      cbn [Nat.mul Nat.add].
      rewrite store_other by lia. rewrite !store_same. cbn [VB.color].
      split; exact Hc.
    + destruct (flush_draws P true b1 H1 Hp1) as (calls & G & D).
      exists calls. cbn [VB.gl]. split; [exact G | exact D].
  - split; [exact Hp1|]. exists []. subst b1. cbn [VB.gl]. rewrite app_nil_r.
    split; [reflexivity | intros buffer; exact I].
Qed.

Lemma end_painted P b :
  coherent b -> painted P b ->
  painted P (VB.end_ true b) /\ drawsOnly P b (VB.end_ true b).
Proof.
  intros (Hcap & H) Hp.
  destruct (end_strip_coherent _ _ H) as (H1 & Hcsl1 & Hstep).
  replace (S (VB.capacity b - 1)) with (VB.capacity b) in H1 by lia.
  pose proof (painted_end_strip P _ b H Hp) as Hp1.
  unfold VB.end_. cbn [andb].
  destruct (Nat.eqb (VB.currentPosition (VB.end_strip b))
                    (VB.capacity (VB.end_strip b))) eqn:E.
  - rewrite <- (end_strip_capacity b) in H1.
    destruct (flush_coherent false _ H1) as (_ & _ & F0 & _).
    split; [apply painted_empty; exact F0|].
    destruct (flush_draws P false _ H1 Hp1) as (calls & G & D).
    exists calls. rewrite G, end_strip_gl. split; [reflexivity | exact D].
  - split; [exact Hp1|]. exists []. rewrite end_strip_gl, app_nil_r.
    split; [reflexivity | intros buffer; exact I].
Qed.

Lemma flush_painted P b :
  coherent b -> painted P b ->
  painted P (VB.flush true b) /\ drawsOnly P b (VB.flush true b).
Proof.
  intros (Hcap & H) Hp.
  assert (H' : coherentUpTo (VB.capacity b) b).
  { destruct H as (Hcp & Hsum & Hall). repeat split; try assumption. lia. }
  destruct (flush_coherent true b H') as (_ & _ & F0 & _).
  split; [apply painted_empty; exact F0 | apply flush_draws; assumption].
Qed.

(** Since the buffer was [vbuf]: the buffer is coherent, the points of its
    strips hold colours in [P], and the calls logged draw only vertices
    with a colour in [P]. *)
Definition paintsSince (P : Vector4f -> Prop) (vbuf b : VB.t) : Prop :=
  coherent b /\ painted P b /\ drawsOnly P vbuf b.

Lemma paintsSince_vertexColor P vbuf v c b :
  P c -> paintsSince P vbuf b -> paintsSince P vbuf (VB.vertexColor v c b).
Proof.
  intros Hc (Hco & Hp & Hd).
  destruct (vertexColor_coherent v c b Hco) as (Hco' & _).
  destruct (vertexColor_painted P v c b Hco Hp Hc) as (Hp' & Hd').
  split; [exact Hco'|]. split; [exact Hp'|]. exact (drawsOnly_trans _ _ _ _ Hd Hd').
Qed.

Lemma paintsSince_end P vbuf b :
  paintsSince P vbuf b -> paintsSince P vbuf (VB.end_ true b).
Proof.
  intros (Hco & Hp & Hd).
  destruct (end_coherent b Hco) as (Hco' & _).
  destruct (end_painted P b Hco Hp) as (Hp' & Hd').
  split; [exact Hco'|]. split; [exact Hp'|]. exact (drawsOnly_trans _ _ _ _ Hd Hd').
Qed.

Lemma paintsSince_flush P vbuf b :
  paintsSince P vbuf b -> paintsSince P vbuf (VB.flush true b).
Proof.
  intros (Hco & Hp & Hd).
  destruct (perform_coherent callFlush b Hco) as (Hco' & _).
  destruct (flush_painted P b Hco Hp) as (Hp' & Hd').
  split; [exact Hco'|]. split; [exact Hp'|]. exact (drawsOnly_trans _ _ _ _ Hd Hd').
Qed.

Lemma paintsSince_start P tri (vbuf : VB.t) :
  (2 <= VB.capacity vbuf)%nat ->
  paintsSince P vbuf (VB.setup tri (VB.createVertexBuffer vbuf)).
Proof.
  intros Hcap.
  assert (Hc : VB.capacity (VB.createVertexBuffer vbuf) = VB.capacity vbuf)
    by (unfold VB.createVertexBuffer; destruct (Nat.eqb (VB.vbobj vbuf) 0); reflexivity).
  assert (Hg : VB.gl (VB.createVertexBuffer vbuf) = VB.gl vbuf)
    by (unfold VB.createVertexBuffer; destruct (Nat.eqb (VB.vbobj vbuf) 0); reflexivity).
  pose proof (setup_coherent tri (VB.createVertexBuffer vbuf) ltac:(lia)) as Hco.
  split; [exact Hco|]. split.
  - apply painted_empty. unfold coherentUpTo, VB.setup.
    cbn [VB.currentPosition VB.stripLengths VB.currentStripLength slotsOf].
    repeat split; try lia. constructor.
  - exists []. unfold VB.setup. cbn [VB.gl]. rewrite Hg, app_nil_r.
    split; [reflexivity | intros buffer; exact I].
Qed.

(** The full-range and the time-range render: the buffer draws with
    [color], and paints and uploads as said. *)
Definition rendersWith (color : Vector4f) (vbuf b : VB.t) : Prop :=
  drawsWith color (freshOrOld (eq color) vbuf) vbuf b /\
  paintsSince (eq color) vbuf b.

Lemma rendersWith_vertex color vbuf v (b : VB.t) :
  rendersWith color vbuf b -> rendersWith color vbuf (VB.vertex v b).
Proof.
  intros [Hd Hp]. split; [apply drawsWith_vertex; [reflexivity | exact Hd]|].
  unfold VB.vertex. apply paintsSince_vertexColor; [|exact Hp].
  destruct Hd as [Hc _]. symmetry. exact Hc.
Qed.

Lemma rendersWith_start color tri (vbuf : VB.t) :
  (2 <= VB.capacity vbuf)%nat ->
  rendersWith color vbuf
    (VB.setColor color (VB.setup tri (VB.createVertexBuffer vbuf))).
Proof.
  intros Hcap. split; [apply drawsWith_start|].
  exact (paintsSince_start (eq color) tri vbuf Hcap).
Qed.

Lemma rendersWith_result color vbuf v :
  rendersWith color vbuf v ->
  drawsOnly (eq color) vbuf v /\ uploadsOnly (eq color) vbuf v.
Proof.
  intros [[_ Hu] (_ & _ & Hd)]. split; [exact Hd|].
  apply colouredSince_uploadsOnly. exact Hu.
Qed.

Lemma render_painted fuel m modelview nearZ farZ n0 n1 n2 n3 thr color tri vbuf :
  (2 <= VB.capacity vbuf)%nat ->
  sameOutcome (fun v _ => rendersWith color vbuf v)
    (CP.render fuel m modelview nearZ farZ n0 n1 n2 n3 thr color tri vbuf)
    (CP.render fuel m modelview nearZ farZ n0 n1 n2 n3 thr color tri vbuf).
Proof.
  intros Hcap.
  apply (render_related (fun v (_ : VB.t) => rendersWith color vbuf v)).
  - intros v b _. apply rendersWith_vertex.
  - intros b _ [Hd Hp]. split; [apply drawsWith_end | apply paintsSince_end]; assumption.
  - intros b _ [Hd Hp].
    split; [apply drawsWith_flush | apply paintsSince_flush]; assumption.
  - apply rendersWith_start. exact Hcap.
Qed.

Lemma renderRange_painted fuel m modelview nearZ farZ n0 n1 n2 n3 thr
  startTime endTime color tri vbuf :
  (2 <= VB.capacity vbuf)%nat ->
  sameOutcome (fun v _ => v = vbuf \/ rendersWith color vbuf v)
    (CP.renderRange fuel m modelview nearZ farZ n0 n1 n2 n3 thr startTime endTime
       color tri vbuf)
    (CP.renderRange fuel m modelview nearZ farZ n0 n1 n2 n3 thr startTime endTime
       color tri vbuf).
Proof.
  intros Hcap.
  apply (sameOutcome_weaken
           (untouchedOrRelated (fun v (_ : VB.t) => rendersWith color vbuf v)
              vbuf vbuf));
    [intros a b [[-> _]|H]; [left; reflexivity | right; exact H]|].
  apply (renderRange_related (fun v (_ : VB.t) => rendersWith color vbuf v)).
  - intros v b _. apply rendersWith_vertex.
  - intros b _ [Hd Hp]. split; [apply drawsWith_end | apply paintsSince_end]; assumption.
  - intros b _ [Hd Hp].
    split; [apply drawsWith_flush | apply paintsSince_flush]; assumption.
  - apply rendersWith_start. exact Hcap.
Qed.

(** The faded render: it paints and uploads colours faded from [color]. *)
Definition fadesWith (color : Vector4f) (vbuf b : VB.t) : Prop :=
  colouredSince (freshOrOld (fadedFrom color) vbuf) vbuf b /\
  paintsSince (fadedFrom color) vbuf b.

Lemma renderFaded_painted fuel m modelview nearZ farZ n0 n1 n2 n3 thr
  startTime endTime color fadeStartTime fadeEndTime tri vbuf :
  (2 <= VB.capacity vbuf)%nat ->
  sameOutcome (fun v _ => v = vbuf \/ fadesWith color vbuf v)
    (CP.renderFaded fuel m modelview nearZ farZ n0 n1 n2 n3 thr startTime endTime
       color fadeStartTime fadeEndTime tri vbuf)
    (CP.renderFaded fuel m modelview nearZ farZ n0 n1 n2 n3 thr startTime endTime
       color fadeStartTime fadeEndTime tri vbuf).
Proof.
  intros Hcap.
  apply (sameOutcome_weaken
           (untouchedOrRelated (fun v (_ : VB.t) => fadesWith color vbuf v)
              vbuf vbuf));
    [intros a b [[-> _]|H]; [left; reflexivity | right; exact H]|].
  apply (renderFaded_related (fun v (_ : VB.t) => fadesWith color vbuf v)
           (fadedFrom color)).
  - intros v c b _ Hc [Hu Hp].
    split; [apply coloured_vertexColor; [left; exact Hc | exact Hu]|].
    apply paintsSince_vertexColor; assumption.
  - intros b _ [Hu Hp]. split; [apply coloured_end | apply paintsSince_end]; assumption.
  - intros b _ [Hu Hp].
    split; [apply coloured_flush | apply paintsSince_flush]; assumption.
  - intros o Ho. exists o. split; [exact Ho | reflexivity].
  - split; [apply colouredSince_start; apply old_colours|].
    exact (paintsSince_start (fadedFrom color) tri vbuf Hcap).
Qed.

(** X22: the render over the full range and the render over a time range
    draw with the colour they are given.  On a buffer of capacity 2 or
    more, every vertex that a [glDrawArrays] call logged by the render
    reads, with the attribute layout of [setup] and from the upload before
    it, carries exactly that colour.  The uploads also hold the extra slots
    that [end] appends to each strip: [end] writes their position only, so
    they keep the colour they held, the given one or one that was in the
    vertex array before the call; no draw reads their colour. *)
Theorem render_draws_with_the_given_colour
  fuel (m : CP.Samples) modelview nearZ farZ n0 n1 n2 n3 thr startTime endTime
  color tri (vbuf vbuf' : VB.t) :
  (2 <= VB.capacity vbuf)%nat ->
  CP.render fuel m modelview nearZ farZ n0 n1 n2 n3 thr color tri vbuf = Done vbuf' \/
  CP.renderRange fuel m modelview nearZ farZ n0 n1 n2 n3 thr startTime endTime
    color tri vbuf = Done vbuf' ->
  drawsOnly (eq color) vbuf vbuf' /\ uploadsOnly (eq color) vbuf vbuf'.
Proof.
  intros Hcap [E|E].
  - apply (rendersWith_result color vbuf vbuf').
    exact (sameOutcome_diagonal _ _ _
             (render_painted fuel m modelview nearZ farZ n0 n1 n2 n3 thr color tri
                vbuf Hcap) E).
  - pose proof (sameOutcome_diagonal _ _ _
                  (renderRange_painted fuel m modelview nearZ farZ n0 n1 n2 n3 thr
                     startTime endTime color tri vbuf Hcap) E) as [->|H].
    + split; [apply drawsOnly_refl | apply untouched_uploadsOnly].
    + apply rendersWith_result. exact H.
Qed.

Lemma render_draws_with_the_given_colour_witness :
  exists vbuf',
    CP.renderRange 1 flatStore identity (-1) (-1000)
      unitNormal0 unitNormal1 unitNormal2 unitNormal3 1 15 20 white false newBuffer
    = Done vbuf' /\
    drawSubmissions (VB.gl vbuf') = 1%nat /\
    drawsOnly (eq white) newBuffer vbuf' /\ uploadsOnly (eq white) newBuffer vbuf'.
Proof.
  destruct (flatStore_range_run 15 20 ltac:(lra) ltac:(lra)) as (vb & E & D).
  assert (E' : CP.renderRange 1 flatStore identity (-1) (-1000)
                 unitNormal0 unitNormal1 unitNormal2 unitNormal3 1 15 20 white false
                 newBuffer = Done vb)
    by (unfold CP.renderRange; rewrite E; reflexivity).
  exists vb. split; [exact E'|]. split; [exact D|].
  apply (render_draws_with_the_given_colour 1 flatStore identity (-1) (-1000)
           unitNormal0 unitNormal1 unitNormal2 unitNormal3 1 15 20 white false
           newBuffer vb).
  - unfold newBuffer, VB.make. cbn [VB.capacity]. lia.
  - right. exact E'.
Defined.

(** X23: over the reals and for [fadeStartTime <> fadeEndTime],
    [renderFaded] draws with the colour it is given, its alpha scaled by
    an opacity between 0 and 1.  On a buffer of capacity 2 or more, every
    vertex that a [glDrawArrays] call logged by the render reads carries
    [(color.x, color.y, color.z, color.w * opacity)] for some opacity in
    [0 .. 1]; the extra slots that [end] appends are uploaded with the
    colour they held, such a colour or one that was in the vertex array
    before the call, and no draw reads their colour.  With equal fade
    times the code divides by zero and the opacity of a sample at that
    time is NaN, which is outside this statement. *)
Theorem renderFaded_draws_with_faded_colours
  fuel (m : CP.Samples) modelview nearZ farZ n0 n1 n2 n3 thr startTime endTime
  color fadeStartTime fadeEndTime tri (vbuf vbuf' : VB.t) :
  fadeStartTime <> fadeEndTime ->
  (2 <= VB.capacity vbuf)%nat ->
  CP.renderFaded fuel m modelview nearZ farZ n0 n1 n2 n3 thr startTime endTime
    color fadeStartTime fadeEndTime tri vbuf = Done vbuf' ->
  drawsOnly (fadedFrom color) vbuf vbuf' /\ uploadsOnly (fadedFrom color) vbuf vbuf'.
Proof.
  intros _ Hcap E.
  pose proof (sameOutcome_diagonal _ _ _
                (renderFaded_painted fuel m modelview nearZ farZ n0 n1 n2 n3 thr
                   startTime endTime color fadeStartTime fadeEndTime tri vbuf Hcap) E)
    as [->|[Hu (_ & _ & Hd)]].
  - split; [apply drawsOnly_refl | apply untouched_uploadsOnly].
  - split; [exact Hd | apply colouredSince_uploadsOnly; exact Hu].
Qed.

Lemma renderFaded_draws_with_faded_colours_witness :
  exists vbuf',
    CP.renderFaded 1 flatStore identity (-1) (-1000)
      unitNormal0 unitNormal1 unitNormal2 unitNormal3 1 15 20 white 0 30 false
      newBuffer = Done vbuf' /\
    drawsOnly (fadedFrom white) newBuffer vbuf' /\
    uploadsOnly (fadedFrom white) newBuffer vbuf'.
Proof.
  destruct (flatStore_range_run 15 20 ltac:(lra) ltac:(lra)) as (vb & E & _).
  pose proof (renderFadedTraced_same 1 flatStore identity (-1) (-1000)
                unitNormal0 unitNormal1 unitNormal2 unitNormal3 1 15 20 white white
                0 30 false newBuffer) as S.
  rewrite E in S.
  destruct (CP.renderFadedTraced 1 flatStore identity (-1) (-1000)
              unitNormal0 unitNormal1 unitNormal2 unitNormal3 1 15 20 white 0 30 false
              newBuffer) as [[vb' calls']| |] eqn:F;
    cbn [sameOutcome] in S; try contradiction.
  assert (E' : CP.renderFaded 1 flatStore identity (-1) (-1000)
                 unitNormal0 unitNormal1 unitNormal2 unitNormal3 1 15 20 white 0 30
                 false newBuffer = Done vb')
    by (unfold CP.renderFaded; rewrite F; reflexivity).
  exists vb'. split; [exact E'|].
  apply (renderFaded_draws_with_faded_colours 1 flatStore identity (-1) (-1000)
           unitNormal0 unitNormal1 unitNormal2 unitNormal3 1 15 20 white 0 30 false
           newBuffer vb').
  - lra.
  - unfold newBuffer, VB.make. cbn [VB.capacity]. lia.
  - exact E'.
Defined.

(* ================================================================== *)
(** *** The render entry points return *)

(** Every stored bounding radius is below the level at which a recursion of
    depth [n] stops subdividing. *)
Definition radiiBelow (thr nearZ : R) (n : nat) (m : CP.Samples) : Prop :=
  Forall (fun s => Sm.boundingRadius s * InvSubdivisionFactor
                   < thr * - nearZ * 8 ^ n) m.

Lemma radiiBelow_le thr nearZ n n' m :
  thr > 0 -> nearZ < 0 -> (n <= n')%nat ->
  radiiBelow thr nearZ n m -> radiiBelow thr nearZ n' m.
Proof.
  intros Hthr Hnear Hn H. unfold radiiBelow in *.
  eapply Forall_impl; [|exact H]. cbn beta. intros s Hs.
  assert (P : 8 ^ n <= 8 ^ n') by (apply Rle_pow; [lra | exact Hn]).
  assert (Q : 0 < thr * - nearZ) by nra.
  nra.
Qed.

Lemma radiiBelow_some thr nearZ m :
  thr > 0 -> nearZ < 0 -> exists n, radiiBelow thr nearZ n m.
Proof.
  intros Hthr Hnear. induction m as [|s m [n IH]].
  - exists 0%nat. constructor.
  - destruct (below_some_power (thr * - nearZ)
                (Sm.boundingRadius s * InvSubdivisionFactor)) as [k Hk]; [nra|].
    exists (Nat.max n k). constructor.
    + assert (P : 8 ^ k <= 8 ^ Nat.max n k) by (apply Rle_pow; [lra | lia]).
      assert (Q : 0 < thr * - nearZ) by nra.
      nra.
    + apply (radiiBelow_le thr nearZ n); [assumption | assumption | lia | exact IH].
Qed.

Lemma radiiBelow_nth thr nearZ n m i s :
  radiiBelow thr nearZ n m -> nth_error m i = Some s ->
  Sm.boundingRadius s * InvSubdivisionFactor < thr * - nearZ * 8 ^ n.
Proof.
  intros H E. unfold radiiBelow in H. rewrite Forall_forall in H.
  apply H. eapply nth_error_In. exact E.
Qed.

Lemma renderCubic_returns fuel n rc restartCurve coeff t0 t1 radius depth vbuf :
  RC.m_subdivisionThreshold rc > 0 -> Fr.nearZ (RC.m_viewFrustum rc) < 0 ->
  radius * InvSubdivisionFactor
    < RC.m_subdivisionThreshold rc * - Fr.nearZ (RC.m_viewFrustum rc) * 8 ^ n ->
  (n < fuel)%nat ->
  exists res,
    RC.renderCubic fuel rc restartCurve coeff t0 t1 radius depth vbuf = Done res.
Proof.
  intros Hthr Hnear Hr Hf.
  destruct (renderCubic_depth_bound rc Hthr Hnear n radius Hr
              restartCurve coeff t0 t1 depth vbuf) as [res E].
  exists res. eapply renderCubic_fuel_le; [|exact E]. lia.
Qed.

Lemma renderCubicFaded_returns fuel n rc restartCurve coeff t0 t1 color fadeStart
  fadeRate radius depth vbuf :
  RC.m_subdivisionThreshold rc > 0 -> Fr.nearZ (RC.m_viewFrustum rc) < 0 ->
  radius * InvSubdivisionFactor
    < RC.m_subdivisionThreshold rc * - Fr.nearZ (RC.m_viewFrustum rc) * 8 ^ n ->
  (n < fuel)%nat ->
  exists res,
    RC.renderCubicFaded fuel rc restartCurve coeff t0 t1 color fadeStart fadeRate
      radius depth vbuf = Done res.
Proof.
  intros Hthr Hnear Hr Hf.
  destruct (renderCubicFaded_depth_bound rc Hthr Hnear n radius Hr
              restartCurve coeff t0 t1 color fadeStart fadeRate depth vbuf) as [res E].
  exists res. eapply renderCubicFaded_fuel_le; [|exact E]. lia.
Qed.

Lemma forWhile_total {S} (cond : S -> bool) (body : nat -> S -> outcome S) range :
  (forall i s, In i range -> exists s', body i s = Done s') ->
  forall s, exists s', CP.forWhile cond body range s = Done s'.
Proof.
  induction range as [|i range IH]; intros Hb s.
  - exists s. reflexivity.
  - cbn [CP.forWhile]. destruct (cond s); [|eauto].
    destruct (Hb i s (or_introl eq_refl)) as [s1 E1]. rewrite E1. cbn [bind].
    apply IH. intros j s' Hj. apply Hb. now right.
Qed.

Section Returns.

Variables (m : CP.Samples) (thr nearZ farZ : R) (n0 n1 n2 n3 : Vector3d).
Variables (fuel maxDepth : nat) (modelview : Matrix4d).
Hypothesis thr_positive : thr > 0.
Hypothesis nearZ_negative : nearZ < 0.
Hypothesis radii : radiiBelow thr nearZ maxDepth m.
Hypothesis enough : (maxDepth < fuel)%nat.

Let viewFrustum := Fr.make nearZ farZ n0 n1 n2 n3.
Let rc := RC.Make viewFrustum thr.

Lemma renderBody_returns i s :
  (i < length m)%nat ->
  exists s', CP.renderBody fuel m modelview viewFrustum rc farZ thr i s = Done s'.
Proof.
  intros Hi. destruct s as [[[r p0] v0] vbuf]. unfold CP.renderBody.
  destruct (sampleAt_inside m i Hi) as (si & -> & Ni). cbn [bind].
  destruct (dge _ _).
  - destruct (Fr.cullSphere _ _ _).
    + destruct (negb r); cbn [bind]; eauto.
    + destruct (sampleAt_inside m (i - 1) ltac:(lia)) as (sp & -> & _). cbn [bind].
      match goal with
      | |- exists _, bind (RC.renderCubic ?f ?c ?rs ?co ?a ?b ?rad ?d ?v) _ = _ =>
          destruct (renderCubic_returns f maxDepth c rs co a b rad d v)
            as [[r' v'] ->]
      end; try assumption.
      * exact (radiiBelow_nth _ _ _ _ _ _ radii Ni).
      * cbn [bind]. eauto.
  - destruct (dlt _ _).
    + destruct (negb r); cbn [bind]; eauto.
    + destruct r; cbn [bind]; eauto.
Qed.

Lemma renderRangeBody_returns startTime endTime i s :
  (i < length m)%nat ->
  exists s', CP.renderRangeBody fuel m modelview viewFrustum rc farZ thr
               startTime endTime i s = Done s'.
Proof.
  intros Hi. unfold CP.renderRangeBody.
  destruct (sampleAt_inside m i Hi) as (si & -> & Ni). cbn [bind].
  destruct (_ || _ || _).
  - destruct (Fr.cullSphere _ _ _).
    + destruct (negb _); eauto.
    + destruct (sampleAt_inside m (i - 1) ltac:(lia)) as (sp & -> & _). cbn [bind].
      match goal with
      | |- exists _, bind (RC.renderCubic ?f ?c ?rs ?co ?a ?b ?rad ?d ?v) _ = _ =>
          destruct (renderCubic_returns f maxDepth c rs co a b rad d v)
            as [[r' v'] ->]
      end; try assumption.
      * exact (radiiBelow_nth _ _ _ _ _ _ radii Ni).
      * cbn [bind]. eauto.
  - destruct (dlt _ _).
    + destruct (negb _); eauto.
    + destruct (CP.rs_restartCurve s); eauto.
Qed.

Lemma renderFadedBody_returns startTime endTime color fadeStartTime fadeRate i s :
  (i < length m)%nat ->
  exists s', CP.renderFadedBody fuel m modelview viewFrustum rc farZ thr
               startTime endTime color fadeStartTime fadeRate i s = Done s'.
Proof.
  intros Hi. unfold CP.renderFadedBody.
  destruct (sampleAt_inside m i Hi) as (si & -> & Ni). cbn [bind].
  destruct (_ || _ || _).
  - destruct (Fr.cullSphere _ _ _).
    + destruct (negb _); eauto.
    + destruct (sampleAt_inside m (i - 1) ltac:(lia)) as (sp & -> & _). cbn [bind].
      match goal with
      | |- exists _, bind (RC.renderCubicFaded ?f ?c ?rs ?co ?a ?b ?col ?fs ?fr
                             ?rad ?d ?v) _ = _ =>
          destruct (renderCubicFaded_returns f maxDepth c rs co a b col fs fr rad d v)
            as [[r' v'] ->]
      end; try assumption.
      * exact (radiiBelow_nth _ _ _ _ _ _ radii Ni).
      * cbn [bind]. eauto.
  - destruct (dlt _ _).
    + destruct (negb _); eauto.
    + destruct (CP.fs_restartCurve s); eauto.
Qed.

Lemma render_returns color tri vbuf :
  m <> [] ->
  exists vbuf',
    CP.render fuel m modelview nearZ farZ n0 n1 n2 n3 thr color tri vbuf = Done vbuf'.
Proof.
  intros Hne. unfold CP.render.
  assert (Hlen : (0 < length m)%nat) by (destruct m; [congruence | simpl; lia]).
  destruct (sampleAt_inside m 0 Hlen) as (s0 & -> & _). cbn [bind].
  match goal with
  | |- exists _, bind (forEach ?body ?range ?st) _ = _ =>
      destruct (forEach_total body range) with (s := st) as [[[[r p] v] vbuf2] ->]
  end.
  - intros i s Hi. apply renderBody_returns.
    apply (in_seq_below _ _ _ _ Hi). lia.
  - cbn [bind]. eauto.
Qed.

Lemma renderRangeTraced_returns startTime endTime color tri vbuf :
  exists res,
    CP.renderRangeTraced fuel m modelview nearZ farZ n0 n1 n2 n3 thr startTime endTime
      color tri vbuf = Done res.
Proof.
  unfold CP.renderRangeTraced.
  destruct (_ || _ || _) eqn:G; [eauto|].
  assert (Hlen : (0 < length m)%nat).
  { destruct m; [discriminate G | simpl; lia]. }
  destruct (searchStartSample_total m startTime (length m) 0 Hlen ltac:(lia))
    as (found & -> & Hf & _). cbn [bind].
  set (startSample := if Nat.ltb 0 found then (found - 1)%nat else found).
  assert (Hs : (startSample < length m)%nat)
    by (subst startSample; destruct (Nat.ltb 0 found); lia).
  destruct (sampleAt_inside m startSample Hs) as (s0 & -> & _). cbn [bind].
  match goal with
  | |- exists _, bind (CP.forWhile ?cond ?body ?range ?st) _ = _ =>
      destruct (forWhile_total cond body range) with (s := st) as [s ->]
  end.
  - intros i s Hi. apply renderRangeBody_returns.
    apply (in_seq_below _ _ _ _ Hi). lia.
  - cbn [bind]. eauto.
Qed.

Lemma renderFadedTraced_returns startTime endTime color fadeStartTime fadeEndTime
  tri vbuf :
  exists res,
    CP.renderFadedTraced fuel m modelview nearZ farZ n0 n1 n2 n3 thr startTime endTime
      color fadeStartTime fadeEndTime tri vbuf = Done res.
Proof.
  unfold CP.renderFadedTraced.
  destruct (_ || _ || _) eqn:G; [eauto|].
  assert (Hlen : (0 < length m)%nat).
  { destruct m; [discriminate G | simpl; lia]. }
  destruct (searchStartSample_total m startTime (length m) 0 Hlen ltac:(lia))
    as (found & -> & Hf & _). cbn [bind].
  set (startSample := if Nat.ltb 0 found then (found - 1)%nat else found).
  assert (Hs : (startSample < length m)%nat)
    by (subst startSample; destruct (Nat.ltb 0 found); lia).
  destruct (sampleAt_inside m startSample Hs) as (s0 & -> & _). cbn [bind].
  match goal with
  | |- exists _, bind (CP.forWhile ?cond ?body ?range ?st) _ = _ =>
      destruct (forWhile_total cond body range) with (s := st) as [s ->]
  end.
  - intros i s Hi. apply renderFadedBody_returns.
    apply (in_seq_below _ _ _ _ Hi). lia.
  - cbn [bind]. eauto.
Qed.

End Returns.

(** X28: over the reals, where [subdivisionThreshold * -nearZ > 0] cannot
    underflow, the three render entry points return for
    [subdivisionThreshold > 0] and [nearZ < 0].  There is a recursion depth, fixed by the stored
    bounding radii, the threshold and [nearZ] alone, beyond which every
    amount of fuel makes [render] (on a store that is not empty), the render
    over a time range and [renderFaded] return a vertex buffer, whatever the
    model view matrix, the frustum, the times, the colour and the buffer
    are.  On the compiled code the product can underflow to 0, and then
    [renderCubic] does not return, as the part on binary64 shows. *)
Theorem render_entry_points_return (m : CP.Samples) (thr nearZ : R) :
  thr > 0 -> nearZ < 0 ->
  exists maxDepth : nat,
    radiiBelow thr nearZ maxDepth m /\
    forall fuel modelview farZ n0 n1 n2 n3 startTime endTime color
           fadeStartTime fadeEndTime tri vbuf,
      (maxDepth < fuel)%nat ->
      (m <> [] ->
       exists vbuf',
         CP.render fuel m modelview nearZ farZ n0 n1 n2 n3 thr color tri vbuf
           = Done vbuf') /\
      (exists vbuf',
         CP.renderRange fuel m modelview nearZ farZ n0 n1 n2 n3 thr startTime endTime
           color tri vbuf = Done vbuf') /\
      (exists vbuf',
         CP.renderFaded fuel m modelview nearZ farZ n0 n1 n2 n3 thr startTime endTime
           color fadeStartTime fadeEndTime tri vbuf = Done vbuf').
Proof.
  intros Hthr Hnear.
  destruct (radiiBelow_some thr nearZ m Hthr Hnear) as [maxDepth Hr].
  exists maxDepth. split; [exact Hr|].
  intros fuel modelview farZ n0 n1 n2 n3 startTime endTime color
    fadeStartTime fadeEndTime tri vbuf Hf.
  split; [|split].
  - intros Hne.
    exact (render_returns m thr nearZ farZ n0 n1 n2 n3 fuel maxDepth modelview
             Hthr Hnear Hr Hf color tri vbuf Hne).
  - destruct (renderRangeTraced_returns m thr nearZ farZ n0 n1 n2 n3 fuel maxDepth
                modelview Hthr Hnear Hr Hf startTime endTime color tri vbuf)
      as [[v c] E].
    exists v. unfold CP.renderRange. rewrite E. reflexivity.
  - destruct (renderFadedTraced_returns m thr nearZ farZ n0 n1 n2 n3 fuel maxDepth
                modelview Hthr Hnear Hr Hf startTime endTime color fadeStartTime
                fadeEndTime tri vbuf) as [[v c] E].
    exists v. unfold CP.renderFaded. rewrite E. reflexivity.
Qed.

Lemma render_entry_points_return_witness :
  exists maxDepth : nat,
    radiiBelow 1 (-1) maxDepth flatStore /\
    forall fuel modelview farZ n0 n1 n2 n3 startTime endTime color
           fadeStartTime fadeEndTime tri vbuf,
      (maxDepth < fuel)%nat ->
      (flatStore <> [] ->
       exists vbuf',
         CP.render fuel flatStore modelview (-1) farZ n0 n1 n2 n3 1 color tri vbuf
           = Done vbuf') /\
      (exists vbuf',
         CP.renderRange fuel flatStore modelview (-1) farZ n0 n1 n2 n3 1
           startTime endTime color tri vbuf = Done vbuf') /\
      (exists vbuf',
         CP.renderFaded fuel flatStore modelview (-1) farZ n0 n1 n2 n3 1
           startTime endTime color fadeStartTime fadeEndTime tri vbuf = Done vbuf').
Proof.
  apply (render_entry_points_return flatStore 1 (-1)); lra.
Defined.

(** ** [astro.h]: the inline unit conversions

    The conversions that [src/celengine/astro.h] defines inline, with the
    templates instantiated at [double].  As everywhere in this file a
    [double] is a real number: the properties below are those of the
    formulas, rounding is not modelled. *)

Module astro.

Definition LY_PER_PARSEC : R := 3.26167.
Definition KM_PER_LY : R := 9460730472580.8.
Definition KM_PER_AU : R := 149597870.7.
Definition AU_PER_LY : R := KM_PER_LY / KM_PER_AU.
Definition SECONDS_PER_DAY : R := 86400.0.

(** [log10] of the C library.  It is only meaningful on positive
    arguments; the properties that depend on its value assume them. *)
Definition log10 (x : R) : R := ln x / ln 10.

Definition secsToDays (s : R) : R := s * (1.0 / SECONDS_PER_DAY).
Definition daysToSecs (d : R) : R := d * SECONDS_PER_DAY.

Definition absToAppMag (absMag lyrs : R) : R :=
  absMag - 5 + 5 * log10 (lyrs / LY_PER_PARSEC).
Definition appToAbsMag (appMag lyrs : R) : R :=
  appMag + 5 - 5 * log10 (lyrs / LY_PER_PARSEC).

Definition lightYearsToParsecs (ly : R) : R := ly / LY_PER_PARSEC.
Definition parsecsToLightYears (pc : R) : R := pc * LY_PER_PARSEC.
Definition lightYearsToKilometers (ly : R) : R := ly * KM_PER_LY.
Definition kilometersToLightYears (km : R) : R := km / KM_PER_LY.
Definition lightYearsToAU (ly : R) : R := ly * AU_PER_LY.
Definition AUtoLightYears (au : R) : R := au / AU_PER_LY.
Definition AUtoKilometers (au : R) : R := au * KM_PER_AU.
Definition kilometersToAU (km : R) : R := km / KM_PER_AU.

Definition microLightYearsToKilometers (ly : R) : R := ly * (KM_PER_LY * 1e-6).
Definition kilometersToMicroLightYears (km : R) : R := km / (KM_PER_LY * 1e-6).
Definition microLightYearsToAU (ly : R) : R := ly * (AU_PER_LY * 1e-6).
Definition AUtoMicroLightYears (au : R) : R := au / (AU_PER_LY * 1e-6).

Definition secondsToJulianDate (sec : R) : R := sec / SECONDS_PER_DAY.
Definition julianDateToSeconds (jd : R) : R := jd * SECONDS_PER_DAY.

End astro.


Lemma astro_constants_positive :
  0 < astro.LY_PER_PARSEC /\ 0 < astro.KM_PER_LY /\ 0 < astro.KM_PER_AU /\
  0 < astro.AU_PER_LY /\ 0 < astro.SECONDS_PER_DAY.
Proof.
  unfold astro.AU_PER_LY, astro.LY_PER_PARSEC, astro.KM_PER_LY, astro.KM_PER_AU,
    astro.SECONDS_PER_DAY.
  repeat split; lra.
Qed.

Ltac astro_field :=
  unfold astro.secsToDays, astro.daysToSecs, astro.lightYearsToParsecs,
    astro.parsecsToLightYears, astro.lightYearsToKilometers,
    astro.kilometersToLightYears, astro.lightYearsToAU, astro.AUtoLightYears,
    astro.AUtoKilometers, astro.kilometersToAU, astro.microLightYearsToKilometers,
    astro.kilometersToMicroLightYears, astro.microLightYearsToAU,
    astro.AUtoMicroLightYears, astro.secondsToJulianDate, astro.julianDateToSeconds,
    astro.AU_PER_LY, astro.LY_PER_PARSEC, astro.KM_PER_LY, astro.KM_PER_AU,
    astro.SECONDS_PER_DAY;
  repeat split; lra.

(** X24: over the reals, each unit conversion of [astro.h] is undone by
    its counterpart: seconds and days, seconds and Julian days, light years
    and parsecs, light years and kilometres, light years and astronomical
    units, astronomical units and kilometres, and the two micro-light-year
    pairs. *)
Theorem astro_conversions_round_trip (x : R) :
  astro.daysToSecs (astro.secsToDays x) = x /\
  astro.secsToDays (astro.daysToSecs x) = x /\
  astro.julianDateToSeconds (astro.secondsToJulianDate x) = x /\
  astro.secondsToJulianDate (astro.julianDateToSeconds x) = x /\
  astro.parsecsToLightYears (astro.lightYearsToParsecs x) = x /\
  astro.lightYearsToParsecs (astro.parsecsToLightYears x) = x /\
  astro.kilometersToLightYears (astro.lightYearsToKilometers x) = x /\
  astro.lightYearsToKilometers (astro.kilometersToLightYears x) = x /\
  astro.AUtoLightYears (astro.lightYearsToAU x) = x /\
  astro.lightYearsToAU (astro.AUtoLightYears x) = x /\
  astro.kilometersToAU (astro.AUtoKilometers x) = x /\
  astro.AUtoKilometers (astro.kilometersToAU x) = x /\
  astro.kilometersToMicroLightYears (astro.microLightYearsToKilometers x) = x /\
  astro.microLightYearsToKilometers (astro.kilometersToMicroLightYears x) = x /\
  astro.AUtoMicroLightYears (astro.microLightYearsToAU x) = x /\
  astro.microLightYearsToAU (astro.AUtoMicroLightYears x) = x.
Proof. astro_field. Qed.

(** X25: over the reals, the unit conversions of [astro.h] agree with
    each other: converting light years to kilometres through astronomical
    units gives what the direct conversion gives, a micro light year is a
    millionth of a light year in both conversions, and the Julian date
    conversions are the conversions between seconds and days. *)
Theorem astro_conversions_agree (x : R) :
  astro.AUtoKilometers (astro.lightYearsToAU x) = astro.lightYearsToKilometers x /\
  astro.AUtoLightYears (astro.kilometersToAU x) = astro.kilometersToLightYears x /\
  astro.microLightYearsToKilometers x = astro.lightYearsToKilometers (x * 1e-6) /\
  astro.microLightYearsToAU x = astro.lightYearsToAU (x * 1e-6) /\
  astro.AUtoKilometers (astro.microLightYearsToAU x)
    = astro.microLightYearsToKilometers x /\
  astro.secondsToJulianDate x = astro.secsToDays x /\
  astro.julianDateToSeconds x = astro.daysToSecs x.
Proof. astro_field. Qed.

Lemma ln10_pos : 0 < ln 10.
Proof. rewrite <- ln_1. apply ln_increasing; lra. Qed.

(** X26: over the reals and for a positive distance, [appToAbsMag] and
    [absToAppMag] undo each other, and at 10 parsecs the apparent magnitude
    is the absolute magnitude. *)
Theorem astro_magnitudes_inverse (mag lyrs : R) :
  0 < lyrs ->
  astro.appToAbsMag (astro.absToAppMag mag lyrs) lyrs = mag /\
  astro.absToAppMag (astro.appToAbsMag mag lyrs) lyrs = mag /\
  astro.absToAppMag mag (astro.parsecsToLightYears 10) = mag.
Proof.
  intros _.
  pose proof ln10_pos as L.
  destruct astro_constants_positive as (Hpc & _).
  unfold astro.appToAbsMag, astro.absToAppMag, astro.parsecsToLightYears.
  repeat split; try ring.
  replace (10 * astro.LY_PER_PARSEC / astro.LY_PER_PARSEC) with 10
    by (field; lra).
  unfold astro.log10. field. lra.
Qed.

Lemma astro_magnitudes_inverse_witness :
  astro.appToAbsMag (astro.absToAppMag 5 1) 1 = 5 /\
  astro.absToAppMag (astro.appToAbsMag 5 1) 1 = 5 /\
  astro.absToAppMag 5 (astro.parsecsToLightYears 10) = 5.
Proof.
  apply (astro_magnitudes_inverse 5 1). lra.
Defined.

(** X27: over the reals, the apparent magnitude that [absToAppMag] gives
    does not decrease with the distance: further away is fainter. *)
Theorem astro_apparent_magnitude_grows_with_distance (absMag d1 d2 : R) :
  0 < d1 -> d1 <= d2 ->
  astro.absToAppMag absMag d1 <= astro.absToAppMag absMag d2.
Proof.
  intros H1 H12.
  pose proof ln10_pos as L.
  destruct astro_constants_positive as (Hpc & _).
  unfold astro.absToAppMag, astro.log10.
  assert (Hq : 0 < d1 / astro.LY_PER_PARSEC) by (apply Rdiv_lt_0_compat; lra).
  assert (Hle : d1 / astro.LY_PER_PARSEC <= d2 / astro.LY_PER_PARSEC).
  { unfold Rdiv. apply Rmult_le_compat_r; [|exact H12].
    left. apply Rinv_0_lt_compat. exact Hpc. }
  assert (Hln : ln (d1 / astro.LY_PER_PARSEC) <= ln (d2 / astro.LY_PER_PARSEC)).
  { destruct Hle as [Hlt | ->]; [left; apply ln_increasing; assumption | right; reflexivity]. }
  assert (Hdiv : ln (d1 / astro.LY_PER_PARSEC) / ln 10
                 <= ln (d2 / astro.LY_PER_PARSEC) / ln 10).
  { unfold Rdiv. apply Rmult_le_compat_r; [|exact Hln].
    left. apply Rinv_0_lt_compat. exact L. }
  lra.
Qed.

Lemma astro_apparent_magnitude_grows_with_distance_witness :
  astro.absToAppMag 5 1 <= astro.absToAppMag 5 2.
Proof.
  apply (astro_apparent_magnitude_grows_with_distance 5 1 2); lra.
Defined.

(* ================================================================== *)
(** * The code in binary64

    The statements above take the [double] values of the code as real
    numbers.  This part embeds the same functions with the arithmetic the
    compiled code has: IEEE 754 binary64, round to nearest, with
    underflow, infinities and NaN, as the primitive floats of Rocq
    implement it.  It shows where the two readings part. *)

Module Binary64.

Local Open Scope float_scope.

(** [a > b], [a >= b]: false when an operand is NaN. *)
Definition dgt (a b : float) : bool := PrimFloat.ltb b a.
Definition dlt (a b : float) : bool := PrimFloat.ltb a b.
Definition dge (a b : float) : bool := PrimFloat.leb b a.
Definition dle (a b : float) : bool := PrimFloat.leb a b.

(** [std::clamp(v, lo, hi)]: [(v < lo) ? lo : (hi < v) ? hi : v]. *)
Definition clamp (v lo hi : float) : float :=
  if dlt v lo then lo else if dlt hi v then hi else v.

(** [std::max(a, b)]: [(a < b) ? b : a]. *)
Definition dmax (a b : float) : float := if dlt a b then b else a.

(** [static_cast<double>(i)] for a loop counter. *)
Definition ofNat (i : nat) : float := PrimFloat.of_uint63 (Uint63.of_Z (Z.of_nat i)).

Record Vector3d : Type := V3 { x3 : float; y3 : float; z3 : float }.
Record Vector4d : Type := V4 { x4 : float; y4 : float; z4 : float; w4 : float }.
Record Matrix4d : Type :=
  M4 { col0 : Vector4d; col1 : Vector4d; col2 : Vector4d; col3 : Vector4d }.

(** The sums of Eigen's products are taken from left to right, as in the
    definitions over the reals; the examples of this part have products
    that are exact, or all zero but one, so that the order of the sum does
    not matter. *)
Definition dot3 (a b : Vector3d) : float :=
  x3 a * x3 b + y3 a * y3 b + z3 a * z3 b.
Definition dot4 (a b : Vector4d) : float :=
  x4 a * x4 b + y4 a * y4 b + z4 a * z4 b + w4 a * w4 b.

Definition add4 (a b : Vector4d) : Vector4d :=
  V4 (x4 a + x4 b) (y4 a + y4 b) (z4 a + z4 b) (w4 a + w4 b).
Definition sub4 (a b : Vector4d) : Vector4d :=
  V4 (x4 a - x4 b) (y4 a - y4 b) (z4 a - z4 b) (w4 a - w4 b).
Definition scale4 (k : float) (a : Vector4d) : Vector4d :=
  V4 (k * x4 a) (k * y4 a) (k * z4 a) (k * w4 a).
Definition abs4 (a : Vector4d) : Vector4d :=
  V4 (PrimFloat.abs (x4 a)) (PrimFloat.abs (y4 a)) (PrimFloat.abs (z4 a))
     (PrimFloat.abs (w4 a)).
Definition scale3 (a : Vector3d) (k : float) : Vector3d :=
  V3 (x3 a * k) (y3 a * k) (z3 a * k).

(** [v.norm()]: the square root of the sum of the squares. *)
Definition norm4 (a : Vector4d) : float := PrimFloat.sqrt (dot4 a a).

Definition head3 (a : Vector4d) : Vector3d := V3 (x4 a) (y4 a) (z4 a).

Definition mulMV (m : Matrix4d) (v : Vector4d) : Vector4d :=
  add4 (add4 (add4 (scale4 (x4 v) (col0 m)) (scale4 (y4 v) (col1 m)))
             (scale4 (z4 v) (col2 m)))
       (scale4 (w4 v) (col3 m)).

Definition cwiseAbs (m : Matrix4d) : Matrix4d :=
  M4 (abs4 (col0 m)) (abs4 (col1 m)) (abs4 (col2 m)) (abs4 (col3 m)).

Definition zeroExtend (v : Vector3d) : Vector4d := V4 (x3 v) (y3 v) (z3 v) 0.

(** [HighPrec_Frustum] *)
Record Frustum : Type := MkFrustum {
  m_nearZ : float;
  m_farZ : float;
  m_planeNormals0 : Vector4d;
  m_planeNormals1 : Vector4d;
  m_planeNormals2 : Vector4d;
  m_planeNormals3 : Vector4d
}.

Definition makeFrustum (nearZ farZ : float) (n0 n1 n2 n3 : Vector3d) : Frustum :=
  MkFrustum nearZ farZ
    (zeroExtend n0) (zeroExtend n1) (zeroExtend n2) (zeroExtend n3).

(** [cullSphere(const Vector3d& center, double radius)] *)
Definition cullSphere3 (f : Frustum) (center : Vector3d) (radius : float) : bool :=
  dgt (z3 center - radius) (m_nearZ f) ||
  dlt (z3 center + radius) (m_farZ f) ||
  dlt (dot3 center (head3 (m_planeNormals0 f))) (- radius) ||
  dlt (dot3 center (head3 (m_planeNormals1 f))) (- radius) ||
  dlt (dot3 center (head3 (m_planeNormals2 f))) (- radius) ||
  dlt (dot3 center (head3 (m_planeNormals3 f))) (- radius).

(** [cullSphere(const Vector4d& center, double radius)] *)
Definition cullSphere (f : Frustum) (center : Vector4d) (radius : float) : bool :=
  dgt (z4 center - radius) (m_nearZ f) ||
  dlt (z4 center + radius) (m_farZ f) ||
  dlt (dot4 center (m_planeNormals0 f)) (- radius) ||
  dlt (dot4 center (m_planeNormals1 f)) (- radius) ||
  dlt (dot4 center (m_planeNormals2 f)) (- radius) ||
  dlt (dot4 center (m_planeNormals3 f)) (- radius).

Definition cubicHermiteCoefficients (p0 p1 v0 v1 : Vector4d) : Matrix4d :=
  M4 p0
     v0
     (sub4 (scale4 3 (sub4 p1 p0)) (add4 (scale4 2 v0) v1))
     (add4 (scale4 2 (sub4 p0 p1)) (add4 v1 v0)).

(** [coeff * Vector4d(1.0, t, t * t, t * t * t)] *)
Definition cubicAt (coeff : Matrix4d) (t : float) : Vector4d :=
  mulMV coeff (V4 1 t (t * t) (t * t * t)).

Definition InvSubdivisionFactor : float := 1 / ofNat SubdivisionFactor.

(** [renderCubic], with the vertex buffer behind its interface: the
    function only calls [begin], [vertex] and [end] on it. *)
Section RenderCubic.

Variable Buffer : Type.
Variable begin : Buffer -> Buffer.
Variable vertex : Vector4d -> Buffer -> Buffer.
Variable end_ : Buffer -> Buffer.

Variable m_viewFrustum : Frustum.
Variable m_subdivisionThreshold : float.

Definition cubicBody
  (recurse : bool -> float -> float -> float -> nat -> Buffer
             -> outcome (bool * Buffer))
  (coeff : Matrix4d) (t0 dt segmentBoundingRadius : float) (depth : nat)
  (i : nat) (s : bool * Vector4d * Buffer) : outcome (bool * Vector4d * Buffer) :=
  let '(restartCurve, lastP, vbuf) := s in
  let t := t0 + dt * ofNat i in
  let p := cubicAt coeff t in
  let minDistance :=
    dmax (- m_nearZ m_viewFrustum) (PrimFloat.abs (z4 p) - segmentBoundingRadius) in
  if dge segmentBoundingRadius (m_subdivisionThreshold * minDistance) then
    if cullSphere m_viewFrustum p segmentBoundingRadius then
      if negb restartCurve
      then Done (true, p, end_ vbuf)
      else Done (restartCurve, p, vbuf)
    else
      '(restartCurve', vbuf') <-
        recurse restartCurve (t - dt) t segmentBoundingRadius (depth + 1)%nat vbuf ;;
      Done (restartCurve', p, vbuf')
  else
    if restartCurve
    then Done (false, p, vertex p (vertex lastP (begin vbuf)))
    else Done (restartCurve, p, vertex p vbuf).

Fixpoint renderCubic (fuel : nat) (restartCurve : bool)
  (coeff : Matrix4d) (t0 t1 curveBoundingRadius : float) (depth : nat)
  (vbuf : Buffer) : outcome (bool * Buffer) :=
  match fuel with
  | O => OutOfFuel
  | S fuel' =>
      let dt := (t1 - t0) * InvSubdivisionFactor in
      let segmentBoundingRadius := curveBoundingRadius * InvSubdivisionFactor in
      let lastP := cubicAt coeff t0 in
      '(restartCurve', _, vbuf') <-
        forEach (cubicBody
                   (fun r a b radius d v => renderCubic fuel' r coeff a b radius d v)
                   coeff t0 dt segmentBoundingRadius depth)
                (seq 1 SubdivisionFactor) (restartCurve, lastP, vbuf) ;;
      Done (restartCurve', vbuf')
  end.

(** The interval and the radius of a call: [(t0, t1, curveBoundingRadius)]. *)
Definition Interval : Type := (float * float * float)%type.

(** The arguments of the recursive call for the first sub-interval. *)
Definition firstChild (s : Interval) : Interval :=
  let '(t0, t1, radius) := s in
  let dt := (t1 - t0) * InvSubdivisionFactor in
  let t := t0 + dt * ofNat 1 in
  (t - dt, t, radius * InvSubdivisionFactor).

(** The first sub-interval is subdivided: the test of the radius against
    the threshold holds and the sphere is not culled. *)
Definition firstChildSubdivided (coeff : Matrix4d) (s : Interval) : bool :=
  let '(t0, t1, radius) := s in
  let dt := (t1 - t0) * InvSubdivisionFactor in
  let segmentBoundingRadius := radius * InvSubdivisionFactor in
  let t := t0 + dt * ofNat 1 in
  let p := cubicAt coeff t in
  let minDistance :=
    dmax (- m_nearZ m_viewFrustum) (PrimFloat.abs (z4 p) - segmentBoundingRadius) in
  dge segmentBoundingRadius (m_subdivisionThreshold * minDistance)
  && negb (cullSphere m_viewFrustum p segmentBoundingRadius).

(** The first sub-interval is subdivided at [levels] nested calls in a row. *)
Fixpoint subdividedFor (levels : nat) (coeff : Matrix4d) (s : Interval) : bool :=
  match levels with
  | O => true
  | S n => firstChildSubdivided coeff s && subdividedFor n coeff (firstChild s)
  end.

End RenderCubic.

(** [CurvePlotSample] and the part of [addSample] that computes the
    bounding radius. *)
Record sample : Type := MkSample {
  t : float;
  position : Vector3d;
  velocity : Vector3d;
  boundingRadius : float
}.

Definition setBoundingRadius (s : sample) (r : float) : sample :=
  MkSample (t s) (position s) (velocity s) r.

Definition Samples : Type := list sample.

Fixpoint setRadiusAt (m_samples : Samples) (i : nat) (r : float) : Samples :=
  match m_samples, i with
  | [], _ => []
  | s :: rest, O => setBoundingRadius s r :: rest
  | s :: rest, S j => s :: setRadiusAt rest j r
  end.

Definition segmentBoundingRadius (first second : sample) : float :=
  let dt := t second - t first in
  let coeff := cubicHermiteCoefficients
                 (zeroExtend (position first))
                 (zeroExtend (position second))
                 (zeroExtend (scale3 (velocity first) dt))
                 (zeroExtend (scale3 (velocity second) dt)) in
  let extents := mulMV (cwiseAbs coeff) (V4 0 1 1 1) in
  norm4 extents.

Definition addSample (sample : sample) (m_samples : Samples) : Samples :=
  let decision : option bool :=
    if match m_samples with [] => true | _ => false end
       || dgt (t sample) (t (last m_samples sample))
    then Some true
    else if dlt (t sample) (t (hd sample m_samples))
    then Some false
    else None in
  match decision with
  | None => m_samples
  | Some addToBack =>
      let m1 := if addToBack then m_samples ++ [sample] else sample :: m_samples in
      if Nat.ltb 1 (length m1) then
        if addToBack then
          let lastSample := nth (length m1 - 2) m1 sample in
          setRadiusAt m1 (length m1 - 1) (segmentBoundingRadius lastSample sample)
        else
          let nextSample := nth 1 m1 sample in
          setRadiusAt m1 1 (segmentBoundingRadius sample nextSample)
      else m1
  end.

(** The opacity that [renderFaded] computes for a sample at time [time]:
    [fadeRate = 1.0 / (fadeEndTime - fadeStartTime)], then
    [std::clamp((time - fadeStartTime) * fadeRate, 0.0, 1.0)]. *)
Definition sampleOpacity (time fadeStartTime fadeEndTime : float) : float :=
  let fadeDuration := fadeEndTime - fadeStartTime in
  let fadeRate := 1 / fadeDuration in
  clamp ((time - fadeStartTime) * fadeRate) 0 1.

(** Neither NaN nor infinite. *)
Definition finite4 (v : Vector4d) : bool :=
  PrimFloat.is_finite (x4 v) && PrimFloat.is_finite (y4 v) &&
  PrimFloat.is_finite (z4 v) && PrimFloat.is_finite (w4 v).
Definition finiteMatrix (m : Matrix4d) : bool :=
  finite4 (col0 m) && finite4 (col1 m) && finite4 (col2 m) && finite4 (col3 m).

End Binary64.

Module B64 := Binary64.

Lemma renderCubic64_descends Buffer begin vertex end_ frustum thr coeff :
  forall fuel restartCurve t0 t1 radius depth (vbuf : Buffer),
  B64.firstChildSubdivided frustum thr coeff (t0, t1, radius) = true ->
  (let '(a, b, r) := B64.firstChild (t0, t1, radius) in
   B64.renderCubic Buffer begin vertex end_ frustum thr fuel restartCurve coeff
     a b r (depth + 1) vbuf = OutOfFuel) ->
  B64.renderCubic Buffer begin vertex end_ frustum thr (S fuel) restartCurve coeff
    t0 t1 radius depth vbuf = OutOfFuel.
Proof.
  intros fuel restartCurve t0 t1 radius depth vbuf H E.
  unfold B64.firstChildSubdivided in H. apply andb_prop in H. destruct H as [H1 H2].
  apply negb_true_iff in H2.
  cbn [B64.renderCubic].
  change (seq 1 SubdivisionFactor) with (1%nat :: seq 2 7).
  cbn [forEach]. unfold B64.cubicBody at 1.
  rewrite H1, H2. unfold B64.firstChild in E. rewrite E. reflexivity.
Qed.

Lemma renderCubic64_endless Buffer begin vertex end_ frustum thr coeff :
  forall fuel restartCurve s depth (vbuf : Buffer),
  (forall levels, B64.subdividedFor frustum thr levels coeff s = true) ->
  B64.renderCubic Buffer begin vertex end_ frustum thr fuel restartCurve coeff
    (fst (fst s)) (snd (fst s)) (snd s) depth vbuf = OutOfFuel.
Proof.
  induction fuel as [|fuel IH]; intros restartCurve [[t0 t1] radius] depth vbuf H;
    [reflexivity|].
  cbn [fst snd].
  apply renderCubic64_descends.
  - specialize (H 1%nat). cbn [B64.subdividedFor] in H.
    apply andb_prop in H. apply H.
  - pose proof (IH restartCurve (B64.firstChild (t0, t1, radius)) (depth + 1)%nat vbuf)
      as E.
    destruct (B64.firstChild (t0, t1, radius)) as [[a b] r] eqn:F.
    cbn [fst snd] in E. apply E.
    intros levels. specialize (H (S levels)). cbn [B64.subdividedFor] in H.
    apply andb_prop in H. rewrite F in H. apply H.
Qed.

(** From a fixed point of [firstChild] on, the recursion goes on for ever. *)
Lemma subdividedFor_fixed frustum thr coeff s :
  B64.firstChild s = s -> B64.firstChildSubdivided frustum thr coeff s = true ->
  forall levels, B64.subdividedFor frustum thr levels coeff s = true.
Proof.
  intros F H. induction levels as [|n IH]; [reflexivity|].
  cbn [B64.subdividedFor]. rewrite H, F. exact IH.
Qed.

Lemma subdividedFor_after frustum thr coeff n : forall s,
  B64.subdividedFor frustum thr n coeff s = true ->
  (forall levels,
     B64.subdividedFor frustum thr levels coeff (Nat.iter n B64.firstChild s) = true) ->
  forall levels, B64.subdividedFor frustum thr levels coeff s = true.
Proof.
  induction n as [|n IH]; intros s Hn Hrest levels; [apply Hrest|].
  cbn [B64.subdividedFor] in Hn. apply andb_prop in Hn. destruct Hn as [H1 H2].
  destruct levels as [|levels]; [reflexivity|].
  cbn [B64.subdividedFor]. rewrite H1. cbn [andb].
  apply IH; [exact H2|].
  intros l. specialize (Hrest l).
  rewrite Nat.iter_succ_r in Hrest. exact Hrest.
Qed.


(** The real number that a finite [double] stands for; 0 for an infinity
    and for NaN, on which it is not used. *)
Definition value (x : float) : R :=
  match FloatOps.Prim2SF x with
  | SpecFloat.S754_finite s m e =>
      let v := if (0 <=? e)%Z then IZR (Z.pos m * 2 ^ e)
               else IZR (Z.pos m) / IZR (2 ^ (- e)) in
      if s then - v else v
  | _ => 0
  end.

Definition value3 (v : B64.Vector3d) : Vector3d :=
  V3 (value (B64.x3 v)) (value (B64.y3 v)) (value (B64.z3 v)).

Definition valueSample (s : B64.sample) : Sm.sample :=
  Sm.Make (value (B64.t s)) (value3 (B64.position s)) (value3 (B64.velocity s))
          (value (B64.boundingRadius s)).

(** [value x] for a literal [x], as a quotient of integers. *)
Ltac value_of x :=
  let s := eval vm_compute in (FloatOps.Prim2SF x) in
  change (FloatOps.Prim2SF x) with s;
  cbv beta iota zeta;
  repeat match goal with
         | |- context [(0 <=? ?e)%Z] =>
             let b := eval vm_compute in (0 <=? e)%Z in
             change (0 <=? e)%Z with b; cbv iota
         | |- context [IZR (?a * ?b)] =>
             let z := eval vm_compute in (a * b)%Z in
             change (a * b)%Z with z
         | |- context [IZR (2 ^ ?e)] =>
             let z := eval vm_compute in (2 ^ e)%Z in
             change (2 ^ e)%Z with z
         end.

Lemma value_0 : value 0 = 0.
Proof. unfold value. value_of 0%float. reflexivity. Qed.

Lemma value_1 : value 1 = 1.
Proof. unfold value. value_of 1%float. lra. Qed.

(** *** C9: a threshold and a near plane whose product underflows *)

(** A frustum whose near plane is at distance [2^-600], with side planes
    at 45 degrees, and a curve that stays at the point [(0, 0, -2^-500)],
    inside this frustum. *)
Definition tinyFrustum : B64.Frustum :=
  B64.makeFrustum (-0x1p-600) (-1000)
    (B64.V3 0.5 0 (-0.5)) (B64.V3 (-0.5) 0 (-0.5))
    (B64.V3 0 0.5 (-0.5)) (B64.V3 0 (-0.5) (-0.5)).
Definition tinyThreshold : float := 0x1p-600.
Definition restingPoint : B64.Matrix4d :=
  B64.M4 (B64.V4 0 0 (-0x1p-500) 1)
         (B64.V4 0 0 0 0) (B64.V4 0 0 0 0) (B64.V4 0 0 0 0).

(** C9 as stated fails on the compiled code.  With
    [subdivisionThreshold = 2^-600 > 0] and [nearZ = -2^-600 < 0], a finite
    coefficient matrix and the finite radius 1, the product
    [m_subdivisionThreshold * minDistance] underflows to 0, so that
    [segmentBoundingRadius >= 0] holds at every depth, also once the
    radius itself has underflowed to 0; the point is inside the frustum
    (it is not culled even with radius 0) and is never culled; the first
    sub-interval is subdivided again at every level and no amount of fuel
    makes [renderCubic] return, whatever the vertex buffer is.  On a
    machine the recursion ends when the stack is exhausted. *)
Theorem renderCubic_binary64_recursion_does_not_end :
  (B64.dgt tinyThreshold 0 = true /\
   B64.dlt (B64.m_nearZ tinyFrustum) 0 = true /\
   B64.finiteMatrix restingPoint = true /\
   PrimFloat.is_finite 1 = true) /\
  B64.cullSphere tinyFrustum (B64.col0 restingPoint) 0 = false /\
  PrimFloat.mul tinyThreshold (PrimFloat.opp (B64.m_nearZ tinyFrustum)) = 0%float /\
  forall (Buffer : Type) begin vertex end_ fuel restartCurve depth (vbuf : Buffer),
    B64.renderCubic Buffer begin vertex end_ tinyFrustum tinyThreshold
      fuel restartCurve restingPoint 0 1 1 depth vbuf = OutOfFuel.
Proof.
  split; [repeat split; vm_compute; reflexivity|].
  split; [vm_compute; reflexivity|].
  split; [vm_compute; reflexivity|].
  intros Buffer begin vertex end_ fuel restartCurve depth vbuf.
  apply (renderCubic64_endless Buffer begin vertex end_ tinyFrustum tinyThreshold
           restingPoint fuel restartCurve (0%float, 1%float, 1%float) depth vbuf).
  apply (subdividedFor_after tinyFrustum tinyThreshold restingPoint 360).
  - vm_compute. reflexivity.
  - replace (Nat.iter 360 B64.firstChild (0%float, 1%float, 1%float))
      with (0%float, 0%float, 0%float) by (vm_compute; reflexivity).
    apply subdividedFor_fixed; vm_compute; reflexivity.
Qed.

(** *** C2: the stored radius is rounded *)

(** A body that moves from the origin to (1, 1, 1) in one unit of time at
    the constant velocity (1, 1, 1). *)
Definition diagonalStart : B64.sample :=
  B64.MkSample 0 (B64.V3 0 0 0) (B64.V3 1 1 1) 0.
Definition diagonalEnd : B64.sample :=
  B64.MkSample 1 (B64.V3 1 1 1) (B64.V3 1 1 1) 0.

Lemma diagonal_radius :
  B64.addSample diagonalEnd (B64.addSample diagonalStart []) =
  [diagonalStart; B64.setBoundingRadius diagonalEnd (PrimFloat.sqrt 3)].
Proof. vm_compute. reflexivity. Qed.

Lemma value_sqrt3 : value (PrimFloat.sqrt 3) < sqrt 3.
Proof.
  unfold value. value_of (PrimFloat.sqrt 3).
  match goal with |- ?q < _ => set (x := q) end.
  assert (Hx : 0 <= x) by (unfold x; lra).
  rewrite <- (sqrt_square x Hx).
  apply sqrt_lt_1; [nra | lra | unfold x; lra].
Qed.

(** C2 as stated fails on the compiled code.  [addSample] stores
    [extents.norm()], the square root of 3 rounded to a [double], for the
    segment from (0, 0, 0) to (1, 1, 1); the end point of the segment,
    [p(1)] on the Hermite cubic of the two samples, is at the distance
    [sqrt 3] from the start point, which is more than the stored radius. *)
Theorem stored_radius_is_below_the_distance_to_the_end_point :
  let a := valueSample diagonalStart in
  let b := valueSample diagonalEnd in
  exists stored,
    B64.addSample diagonalEnd (B64.addSample diagonalStart []) =
      [diagonalStart; stored] /\
    value (B64.boundingRadius stored)
    < norm4 (sub4 (cubicAt (segmentCubic a b) 1) (cubicAt (segmentCubic a b) 0)).
Proof.
  cbv zeta. eexists. split; [exact diagonal_radius|].
  cbn [B64.boundingRadius B64.setBoundingRadius].
  replace (norm4 _) with (sqrt 3); [exact value_sqrt3|].
  unfold norm4. f_equal.
  cbv beta iota zeta delta [valueSample value3 diagonalStart diagonalEnd
    segmentCubic cubicHermiteCoefficients cubicAt mulMV zeroExtend scale3 sub4 add4
    scale4 dot4 B64.t B64.position B64.velocity B64.boundingRadius B64.x3 B64.y3 B64.z3
    Sm.t Sm.position Sm.velocity x3 y3 z3 x4 y4 z4 w4 col0 col1 col2 col3].
  rewrite value_0, value_1. ring.
Qed.

(** A segment of length [2^-600 * sqrt 3]: the squares of the extents
    underflow and the stored radius is 0, although the end point is not the
    start point. *)
Definition shortStart : B64.sample :=
  B64.MkSample 0 (B64.V3 0 0 0) (B64.V3 0x1p-600 0x1p-600 0x1p-600) 0.
Definition shortEnd : B64.sample :=
  B64.MkSample 1 (B64.V3 0x1p-600 0x1p-600 0x1p-600)
               (B64.V3 0x1p-600 0x1p-600 0x1p-600) 0.

Lemma stored_radius_underflows_to_zero :
  let a := valueSample shortStart in
  let b := valueSample shortEnd in
  B64.segmentBoundingRadius shortStart shortEnd = 0%float /\
  0 < norm4 (sub4 (cubicAt (segmentCubic a b) 1) (cubicAt (segmentCubic a b) 0)).
Proof.
  cbv zeta. split; [vm_compute; reflexivity|].
  assert (Hx : 0 < value 0x1p-600).
  { unfold value. value_of 0x1p-600%float.
    apply Rdiv_lt_0_compat; apply IZR_lt; reflexivity. }
  unfold norm4. apply sqrt_lt_R0.
  cbv beta iota zeta delta [valueSample value3 shortStart shortEnd
    segmentCubic cubicHermiteCoefficients cubicAt mulMV zeroExtend scale3 sub4 add4
    scale4 dot4 B64.t B64.position B64.velocity B64.boundingRadius B64.x3 B64.y3 B64.z3
    Sm.t Sm.position Sm.velocity x3 y3 z3 x4 y4 z4 w4 col0 col1 col2 col3].
  rewrite value_0, value_1.
  set (x := value 0x1p-600) in *.
  match goal with |- 0 < ?e => replace e with (3 * (x * x)) by ring end.
  nra.
Qed.

(** *** C3: the dot product of [cullSphere] is rounded *)

(** A frustum with side normals of length just below 1 and a sphere of
    radius 3 whose centre lies a little less than 3 outside the first side
    plane. *)
Definition slantNear : float := (-1)%float.
Definition slantFar : float := (-1048576)%float.
Definition slantNormal0 : B64.Vector3d :=
  B64.V3 0.75 0 (-0x1.52a7fa9d2f8e9p-1).
Definition slantNormal1 : B64.Vector3d :=
  B64.V3 (-0.75) 0 (-0x1.52a7fa9d2f8e9p-1).
Definition slantNormal2 : B64.Vector3d :=
  B64.V3 0 0.75 (-0x1.52a7fa9d2f8e9p-1).
Definition slantNormal3 : B64.Vector3d :=
  B64.V3 0 (-0.75) (-0x1.52a7fa9d2f8e9p-1).
Definition slantFrustum : B64.Frustum :=
  B64.makeFrustum slantNear slantFar
    slantNormal0 slantNormal1 slantNormal2 slantNormal3.
Definition slantCentre : B64.Vector3d :=
  B64.V3 (-0x1.555c204ba36f2p+15) 0 (-49539.875).

Lemma value_slant :
  value 0.75 = 3 / 4 /\ value (-0.75) = - (3 / 4) /\
  value (-0x1.52a7fa9d2f8e9p-1) = - (5957702309312745 / 9007199254740992) /\
  value (-0x1.555c204ba36f2p+15) = - (3002633151126393 / 68719476736) /\
  value (-49539.875) = - (396319 / 8) /\
  value 3 = 3 /\ value (-1) = -1 /\ value (-1048576) = -1048576.
Proof.
  unfold value.
  repeat split;
    match goal with
    | |- context [FloatOps.Prim2SF ?x] => value_of x
    end; lra.
Qed.

(** On the compiled code [cullSphere] is not conservative even with side
    normals no longer than 1: the two products of [center.dot(normal)] are
    rounded, the sum comes out as [-3 - 2^-38], below [-radius], and the
    sphere is culled, although the point [centre + 3 * normal0] of the
    sphere is inside the view volume. *)
Lemma cullSphere_binary64_culls_intersecting_sphere :
  (dot3 (value3 slantNormal0) (value3 slantNormal0) <= 1 /\
   dot3 (value3 slantNormal1) (value3 slantNormal1) <= 1 /\
   dot3 (value3 slantNormal2) (value3 slantNormal2) <= 1 /\
   dot3 (value3 slantNormal3) (value3 slantNormal3) <= 1) /\
  Fr.intersects (value slantNear) (value slantFar)
    (value3 slantNormal0) (value3 slantNormal1)
    (value3 slantNormal2) (value3 slantNormal3)
    (value3 slantCentre) (value 3) /\
  B64.cullSphere3 slantFrustum slantCentre 3 = true /\
  B64.cullSphere slantFrustum
    (B64.V4 (B64.x3 slantCentre) (B64.y3 slantCentre) (B64.z3 slantCentre) 1) 3
    = true.
Proof.
  destruct value_slant as (Va & Vna & Vb & Vx & Vz & V3' & Vn & Vf).
  cbv beta iota zeta delta [slantNormal0 slantNormal1 slantNormal2 slantNormal3
    slantCentre slantNear slantFar value3 B64.x3 B64.y3 B64.z3].
  rewrite Va, Vna, Vb, Vx, Vz, V3', Vn, Vf, value_0.
  split; [|split; [|split; vm_compute; reflexivity]].
  - (cbv beta iota delta [dot3 x3 y3 z3]; repeat split; lra).
  - exists (V3 (- (3002633151126393 / 68719476736) + 3 * (3 / 4)) 0
               (- (396319 / 8) - 3 * (5957702309312745 / 9007199254740992))).
    split.
    + (apply norm3_le; [lra|]; cbv beta iota delta [dot3 sub3 x3 y3 z3]; lra).
    + (cbv beta iota delta [Fr.inside dot3 x3 y3 z3]; lra).
Qed.

(** *** The opacity of [renderFaded] when the fade times are equal *)

(** With [fadeStartTime = fadeEndTime] the code divides by zero:
    [fadeRate] is infinite, and for a sample at that time the opacity is
    [0 * infinity], NaN, which [std::clamp] returns as it is.  Over the
    reals the quotient [1 / 0] is 0 and the opacity is 0. *)
Lemma renderFaded_binary64_equal_fade_times_give_nan :
  PrimFloat.is_nan (B64.sampleOpacity 17.5 17.5 17.5) = true /\
  clamp ((17.5 - 17.5) * (1 / (17.5 - 17.5))) 0 1 = 0.
Proof.
  split; [vm_compute; reflexivity|].
  replace ((17.5 - 17.5) * (1 / (17.5 - 17.5))) with 0 by lra.
  unfold clamp. rewrite !dlt_false by lra. reflexivity.
Qed.
